(* ===== verification/_CoqProject ===== *)
-Q . S2P
Prelude.v
Common.v
BigEndian.v
Codec.v
Crc32.v
Os.v
WalRecord.v
RaftTypes.v
RpcCodec.v
ShardedKV.v
WalWriter.v
DurableStorage.v
GroupCommit.v
RaftLog.v
ClusterConfig.v
RaftNode.v
RaftNodeSpec.v
RaftCluster.v
RaftGhost.v
RaftInvariant.v
RaftCompleteness.v
RaftSteps.v
RaftSafety.v
RaftReplica.v
RaftTraces.v
RaftApplied.v
Socket.v
Handler.v
RaftService.v
RaftReads.v
RaftLoop.v
RaftProgress.v
RaftHints.v
Session.v
Connection.v
EpollServer.v
Transport.v
RaftTyped.v
FaultInjection.v
ThreadPool.v
Servers.v
Linearizability.v
CommandLine.v
Client.v
ClientCluster.v
ServerMain.v
ServerRun.v
Bench.v
Microbenchmarks.v
