(* ===== verification/Prelude.v ===== *)
(** * NeuralKV: a verification development

    NeuralKV is a replicated key-value store in C++. A node keeps its data in a sharded
    in-memory store behind a write-ahead log, takes part in a Raft cluster, and serves
    clients over a framed binary protocol. This library models the program's parts as
    Rocq definitions translated from the sources and proves what they promise.

    ** The parts and where they are modelled

    - [Prelude.v] (this file): bytes, machine-width integers, sizes; [Common.v]: [Status],
      [Result], error codes ([src/common]), C++ exceptions as values.
    - [BigEndian.v], [Codec.v]: the wire protocol ([src/protocol/codec.cpp], [types.h],
      [constants.h]). [TryParseFrame] and the eight encoders and decoders.
    - [Crc32.v], [Os.v], [WalRecord.v]: log records ([src/persistence/crc32.cpp],
      [wal_record.cpp]) over a model of files and of what the kernel may answer.
    - [WalWriter.v]: the log writer ([wal_writer.cpp]): opening, [Append], [Sync] in the
      atomic parts between which it releases its mutex, [RewriteAll].
    - [ShardedKV.v]: the in-memory store ([src/storage/sharded_kv.cpp]) and the interface
      [KvOps]/[KvLaws] through which the other parts use it.
    - [DurableStorage.v]: recovery and the durable store ([recovery.cpp],
      [durable_storage.cpp]); [GroupCommit.v]: the same operations run by any number of
      threads, as a step relation over the atomic parts.
    - [RaftTypes.v], [RpcCodec.v]: Raft's messages and their encoding
      ([src/raft/types.h], [rpc_codec.cpp]).
    - [RaftLog.v]: the log of a node ([src/raft/log.cpp]). [ClusterConfig.v]: the
      configuration file ([src/cluster/cluster_config.cpp]).
    - [RaftNode.v]: a node ([src/raft/node.cpp]). Each stretch that runs under the node's
      mutex is one definition; storage is behind the interface
      [ReplicaOps]/[ReplicaLaws]. [RaftNodeSpec.v]: what every operation does on every
      branch. [RaftReplica.v]: the storage of a real node (log file, store, state file),
      which satisfies the interface.
    - [RaftCluster.v]: several nodes and the network between them; an event is one such
      stretch, a crash with a restart, or the delivery of a message, which may be lost,
      late, repeated or out of order. [RaftGhost.v], [RaftInvariant.v],
      [RaftCompleteness.v], [RaftSteps.v]: the history of a run, the invariant and its
      preservation by every event. [RaftSafety.v]: the theorems. [RaftTraces.v]:
      concrete clusters on real storage. [RaftApplied.v]: what a running node has applied.
    - [Socket.v]: descriptors and the socket wrappers ([src/net/socket_utils.cpp]) with
      scripted answers of the kernel.
    - [Handler.v]: the request handler ([src/server/handler.cpp]) over the interfaces
      [StorageOps] and [RaftOps] of the store and the node, which act on one world.
      [RaftService.v] implements them by one node of a cluster: [Propose],
      [ReplicateToPeer] and [ConfirmLeadershipQuorum] from beginning to end, with turns of
      the other threads and processes between their critical sections. [RaftLoop.v]: the
      same for [StartElection] and [RunLoop], and the life of the node's thread.
      [RaftReads.v]: the rounds of the quorum check and the GETs that follow them.
      [RaftProgress.v]: what a majority of such nodes can always do. [RaftHints.v]: where
      the leader hints of refused requests come from.
    - [Session.v]: the loop that serves a blocking client
      ([src/server/connection_session.cpp]); [Connection.v]: the buffers of a non-blocking
      one ([src/net/connection.cpp]); [EpollServer.v]: the event loop
      ([src/net/epoll_server.cpp]); [ThreadPool.v] ([src/concurrency/thread_pool.cpp]) as
      a machine of workers, submitters and the destructor; [Servers.v]: the blocking and
      the thread-pool server ([src/server/blocking_server.cpp], [thread_pool_server.cpp]).
    - [Transport.v]: the RPCs between nodes ([src/cluster/transport.cpp]) down to bytes;
      [FaultInjection.v] and [Linearizability.v]: the test support ([src/testing]).
    - [CommandLine.v], [Client.v], [ServerMain.v], [ServerRun.v], [Bench.v]: the three
      programs ([tools/nkv-client/main.cpp], [tools/nkv-server/main.cpp],
      [tools/nkv-bench/main.cpp]): arguments, what they run, output and exit code; for the
      server also the start of a Raft node, each kind of server with its destructor, and
      the shutdown signal. [ClientCluster.v]: the client program against servers whose
      handlers run on nodes of a cluster.
    - [Microbenchmarks.v]: the benchmarks ([benchmarks/]) as the calls they make.

    ** What the theorems show

    - Protocol: the parser accepts exactly the encodings and returns what was encoded;
      every strict prefix asks for more bytes; the buffer contract of [codec.h]. The Raft
      codecs likewise invert each other and accept nothing else.
    - Log records: round trip through any sequence of short reads and [EINTR]s, with a
      torn last record; whatever the bytes and the kernel, what is read is a prefix of
      valid records; bursts of up to four bytes are detected. The CRC is the standard one.
    - Durable store: it refines a map; every acknowledged write survives a crash at any
      byte. Concurrent writers are serialised in log order and all of them finish.
    - Raft: election safety, leader append-only, log matching, leader completeness, state
      machine safety and durability on a majority, for every run with crashes and an
      unreliable network; the log refines a list, and term, vote and log survive crashes.
      The stores of nodes that have not restarted are states of one history of the map.
      A write that the handler on a node acknowledged is committed if the node has led
      one term all the time, and stays on a majority ([acknowledged_write_committed]);
      so does a write for which the client program printed OK, redirected or not
      ([client_write_durable]). A leader hint in a refusal names the one leader of the
      term of the node that refuses ([wrong_leader_hint_right]). A GET that follows a full round of
      the quorum check, on a leader that has committed an entry of its term, reflects
      everything that any leader had committed when it arrived
      ([confirmed_read_current]). No state is a dead end: from every reachable one, any
      majority of two or more members can elect one of them, repair the logs and serve a
      write, up to the OK of the client program ([any_majority_serves_writes],
      [any_majority_serves_client]). The safety theorems are about sequences of
      events; whole calls of the program, the background loop included, are such
      sequences ([calls_refine_events]), and a server process started on the files that a
      crashed member left is its restart event ([restarted_server_rejoins]).
    - Network: whatever the pieces in which bytes arrive and leave, a session and a
      connection answer the frames of the stream in order ([session_serves_stream],
      [connection_serves_stream]); a session over the durable store answers like a map;
      the input buffer is bounded; the tables of the servers agree with the open
      descriptors and none is leaked or closed twice. The RPCs of the node over a working
      connection are calls of the peer's handlers, which is the network of the cluster
      model for a message that arrives.
    - Thread pool: every accepted task is run once and the destructor returns.
    - Programs: one command of the client is one operation on the map that the server
      holds, in memory and on disk; a run of the server process is a map that begins and
      ends as the replay of its log. The descriptors are as before when a server ends, but
      for clients of the event-driven one ([serve_pool_closes],
      [epoll_leaves_client_open]). A worker of the load generator gets every request
      answered, and the percentiles of its report, computed with doubles, are samples and
      in order.
    - The linearizability checker reports only histories that are not linearizable.
    - Benchmarks: the keys are distinct and as wide as they should be, the items reported
      are the calls measured, no measured [Get] misses, for several threads in every
      interleaving ([storage_benchmarks_measure], [concurrent_benchmark_hits]), and every
      measured call of the codec succeeds.
    - Configuration: what loads is well-formed, and well-formed configurations load.
    - What the code does not guarantee is proved as well, on the model: see the theorems
      of [RaftTraces.v] on [ConfirmLeadershipQuorum], restarts, [Propose] and one-node
      clusters, [lone_member_acknowledges_nothing], [new_leader_reads_stale] and
      [delayed_ack_reads_stale] on GETs, [failed_fsync_blocks_writers],
      [torn_tail_loses_later_writes],
      [half_closed_client_unanswered], [response_queue_unbounded], [interrupted_rpc_fails],
      [client_takes_any_frame_for_success], [unacknowledged_set_reported],
      [shutdown_signal], [timed_key_fixed_op], [bench_gives_up_on_interrupt],
      [reserve_before_validation] and [node_id_truncated].

    ** Modelling choices

    - A [uint8_t] .. [uint64_t] is a [Z] with its wrap-around written out ([u8] .. [u64]);
      byte strings are [list Byte.byte]; an exception is an [Outcome].
    - The kernel's answers are scripts: finite lists of what the next calls return, after
      which calls succeed. Every behaviour on a finite run is some script, and the retry
      loops are structurally recursive in it. A crash leaves the synced bytes of a file
      and any part of what was written after them ([crash_file]).
    - Loops that are not structural have fuel: the number of bytes for parsers and for
      [mkdir -p], the length of the log for the apply loop, the bytes and answers left for
      the network loops. Running out of fuel is
      [None]; the specifications show that it does not happen.
    - A descriptor is a number in the table of open ones; what a peer sends is a list of
      pieces and errors, and a write takes the part of its bytes that the script says.
    - Threads interleave at their critical sections. In [RaftService.v] a turn of the
      others is a list of cluster events, and the answer to an RPC is one that the peer
      sent after the request; when the script of turns is used up a call has not
      returned. A request that the encoder would refuse because
      of its size counts there as sent, so a peer may serve more than in the program.
    - [std::hash], name resolution, [strerror] and whether [vector::reserve] throws are parameters. Clocks
      and random timeouts are arguments of the operations that read them.
    - The safety theorems of Raft assume that every node was started with the same list of
      members, that system calls do not fail, that proposals are entries the log file can
      hold, that terms and log lengths stay below 2^62, and that the requests of
      [ConfirmLeadershipQuorum] announce no commit index beyond their own
      [prev_log_index]; without the last condition the theorem is false
      ([quorum_check_applies_stale_entry]).
    - The progress theorem says that a schedule exists, with a clock that does not go back
      and timeouts in the range of [RandomElectionTimeout]; that real timeouts bring such
      a schedule about is a matter of probability and is not stated.

    ** What is not modelled

    - The framework of the benchmarks: how it chooses the iterations, times them and
      prints the results. Iterations, threads and interleavings are arguments.
    - Requests of several clients at once in the world of a handler: the thread-pool
      server is modelled down to which client a worker serves when, the effect of
      concurrent requests on the store by [GroupCommit.v], and on a node by the turns of
      the others.
    - How the load generator prints a double, and its threads beyond what each of them
      sees. The time that a call waits: a wait ends at some turn.
    - The copies of the big-endian helpers in [rpc_codec.cpp], [wal_record.cpp] and
      [node.cpp] and of [NextArg] in the programs are not definitions of their own: they
      are the functions of [BigEndian.v] and [CommandLine.v].
    - The mutex of the transport (each call only uses its own descriptor), memory
      exhaustion other than in [vector::reserve], and data races: the mutexes are taken to
      do their work. *)

From Stdlib Require Export ZArith Lia.
From Stdlib Require Import Strings.Byte Strings.String.
From stdpp Require Export base tactics option list gmap.

#[global] Open Scope Z_scope.
Declare Scope neuralkv_scope.
Delimit Scope neuralkv_scope with nkv.
#[global] Open Scope neuralkv_scope.

(** ** Bytes

    [std::string], [std::vector<uint8_t>] and [std::span<const uint8_t>] are all
    byte sequences in the code. *)

Abbreviation byte := Byte.byte.
Abbreviation bytes := (list Byte.byte).

(** The value of a [uint8_t]. *)
Definition byte_to_Z (b : byte) : Z := Z.of_N (Byte.to_N b).

(** [static_cast<uint8_t>(z)]: the low eight bits. *)
Definition byte_of_Z (z : Z) : byte :=
  match Byte.of_N (Z.to_N (z mod 256)) with
  | Some b => b
  | None => Byte.x00
  end.

(** A string literal of the source. *)
Definition str (s : String.string) : bytes := String.list_byte_of_string s.
Arguments str s%_string_scope.

#[global] Instance byte_eq_decision : EqDecision byte := Byte.byte_eq_dec.

#[global] Program Instance byte_countable : Countable byte :=
  inj_countable Byte.to_N Byte.of_N _.
Next Obligation. intros b. apply Byte.of_to_N. Qed.

(** ** Machine integers: [uintN_t] values are integers in [[0, 2^N)], and the
    conversion to the type wraps around. *)

Definition u8 (z : Z) : Z := z mod 2 ^ 8.
Definition u16 (z : Z) : Z := z mod 2 ^ 16.
Definition u32 (z : Z) : Z := z mod 2 ^ 32.
Definition u64 (z : Z) : Z := z mod 2 ^ 64.

#[global] Arguments u8 : simpl never.
#[global] Arguments u16 : simpl never.
#[global] Arguments u32 : simpl never.
#[global] Arguments u64 : simpl never.

Abbreviation is_u16 z := (0 <= z < 2 ^ 16).
Abbreviation is_u32 z := (0 <= z < 2 ^ 32).
Abbreviation is_u64 z := (0 <= z < 2 ^ 64).

(** ** Sizes and slices

    Sizes are integers ([size_t]); a slice [[off, off + n)] of a buffer. *)

Definition zlen {A} (l : list A) : Z := Z.of_nat (length l).
Definition ztake {A} (n : Z) (l : list A) : list A := take (Z.to_nat n) l.
Definition zdrop {A} (n : Z) (l : list A) : list A := drop (Z.to_nat n) l.
Definition slice {A} (off n : Z) (l : list A) : list A := ztake n (zdrop off l).
Definition is_empty {A} (l : list A) : bool := match l with [] => true | _ => false end.

(** [p[i]] of a byte pointer; the code only indexes inside the buffer. *)
Definition at_ (p : bytes) (i : nat) : Z := byte_to_Z (nth i p Byte.x00).

(** ** Lemmas on bytes *)

Create HintDb nkv.
Create Rewrite HintDb zlen.

Lemma byte_to_Z_range b : 0 <= byte_to_Z b < 256.
Proof.
  unfold byte_to_Z. pose proof (Byte.to_N_bounded b). lia.
Qed.

Lemma byte_to_of_Z z : byte_to_Z (byte_of_Z z) = z mod 256.
Proof.
  unfold byte_of_Z, byte_to_Z.
  assert (Hz : 0 <= z mod 256 < 256) by (apply Z.mod_pos_bound; lia).
  destruct (Byte.of_N (Z.to_N (z mod 256))) as [b|] eqn:E.
  - apply Byte.to_of_N in E. rewrite E. lia.
  - apply Byte.of_N_None_iff in E. lia.
Qed.

Lemma byte_of_to_Z b : byte_of_Z (byte_to_Z b) = b.
Proof.
  unfold byte_of_Z. rewrite Z.mod_small by apply byte_to_Z_range.
  unfold byte_to_Z. rewrite N2Z.id, Byte.of_to_N. reflexivity.
Qed.

Lemma byte_to_Z_inj b c : byte_to_Z b = byte_to_Z c -> b = c.
Proof. intros H. rewrite <- (byte_of_to_Z b), H. apply byte_of_to_Z. Qed.

#[export] Hint Resolve byte_to_Z_range : nkv.

(** ** Lemmas on sizes and slices *)

Section Slices.
Context {A : Type}.
Implicit Types l k : list A.

Lemma zlen_nonneg l : 0 <= zlen l.
Proof. unfold zlen. lia. Qed.

Lemma zlen_nil : zlen (@nil A) = 0.
Proof. reflexivity. Qed.

Lemma zlen_cons x l : zlen (x :: l) = 1 + zlen l.
Proof. unfold zlen. cbn [length]. lia. Qed.

Lemma zlen_app l k : zlen (l ++ k) = zlen l + zlen k.
Proof. unfold zlen. rewrite length_app. lia. Qed.

Lemma zlen_zero l : zlen l = 0 <-> l = [].
Proof. unfold zlen. destruct l; cbn [length]; split; intros; (done || lia). Qed.

Lemma zlen_ztake n l : 0 <= n <= zlen l -> zlen (ztake n l) = n.
Proof. unfold zlen, ztake. intros H. rewrite length_take. lia. Qed.

Lemma zlen_zdrop n l : 0 <= n <= zlen l -> zlen (zdrop n l) = zlen l - n.
Proof. unfold zlen, zdrop. intros H. rewrite length_drop. lia. Qed.

Lemma zlen_slice off n l :
  0 <= off -> 0 <= n -> off + n <= zlen l -> zlen (slice off n l) = n.
Proof.
  intros. unfold slice. apply zlen_ztake. rewrite zlen_zdrop; lia.
Qed.

Lemma ztake_app_exact l k n : n = zlen l -> ztake n (l ++ k) = l.
Proof.
  intros ->. unfold ztake, zlen. rewrite Nat2Z.id. apply take_app_length.
Qed.

Lemma zdrop_app_exact l k n : n = zlen l -> zdrop n (l ++ k) = k.
Proof.
  intros ->. unfold zdrop, zlen. rewrite Nat2Z.id. apply drop_app_length.
Qed.

Lemma zdrop_0 l : zdrop 0 l = l.
Proof. reflexivity. Qed.

Lemma zdrop_zdrop n m l : 0 <= n -> 0 <= m -> zdrop n (zdrop m l) = zdrop (m + n) l.
Proof.
  intros. unfold zdrop. rewrite drop_drop. f_equal. lia.
Qed.

Lemma ztake_zdrop n l : ztake n l ++ zdrop n l = l.
Proof. apply take_drop. Qed.

Lemma slice_app off n l k m :
  off = zlen l -> n = zlen k -> slice off n (l ++ k ++ m) = k.
Proof.
  intros Hl Hk. unfold slice. rewrite (zdrop_app_exact l) by done.
  by apply ztake_app_exact.
Qed.

Lemma slice_zdrop off n l :
  0 <= off -> 0 <= n -> slice off n l ++ zdrop (off + n) l = zdrop off l.
Proof.
  intros. unfold slice. rewrite <- (ztake_zdrop n (zdrop off l)) at 2.
  f_equal. symmetry. by apply zdrop_zdrop.
Qed.

Lemma is_empty_true l : is_empty l = true <-> l = [].
Proof. destruct l; split; (done || discriminate). Qed.

Lemma is_empty_false l : is_empty l = false <-> 0 < zlen l.
Proof.
  destruct l; cbn; [split; (discriminate || done)|].
  rewrite zlen_cons. pose proof (zlen_nonneg l). split; [lia | done].
Qed.

End Slices.

#[export] Hint Rewrite @zlen_nil @zlen_cons @zlen_app : zlen.
#[export] Hint Resolve zlen_nonneg : nkv.

(** Rewrites sizes of appended lists and closes the arithmetic that is left. *)
Ltac zlen_lia :=
  autorewrite with zlen in *;
  repeat match goal with
  | |- context [zlen ?l] =>
      lazymatch goal with
      | _ : 0 <= zlen l |- _ => fail
      | _ => pose proof (zlen_nonneg l)
      end
  | _ : context [zlen ?l] |- _ =>
      lazymatch goal with
      | _ : 0 <= zlen l |- _ => fail
      | _ => pose proof (zlen_nonneg l)
      end
  end; lia.

Section MoreSlices.
Context {A : Type}.
Implicit Types l k : list A.

Lemma zdrop_app_ge n l k : zlen l <= n -> zdrop n (l ++ k) = zdrop (n - zlen l) k.
Proof.
  intros Hn. unfold zdrop, zlen in *. rewrite drop_app_ge by lia. f_equal. lia.
Qed.

Lemma zdrop_all n l : zlen l <= n -> zdrop n l = [].
Proof. intros Hn. unfold zdrop, zlen in *. apply drop_ge. lia. Qed.

Lemma zdrop_split off n l :
  0 <= off -> 0 <= n -> zdrop off l = slice off n l ++ zdrop (off + n) l.
Proof. intros. symmetry. by apply slice_zdrop. Qed.

Lemma slice_all n l : n = zlen l -> slice 0 n l = l.
Proof. intros ->. unfold slice, ztake, zlen. rewrite Nat2Z.id. apply firstn_all. Qed.

Lemma zdrop_app_le n l k : 0 <= n <= zlen l -> zdrop n (l ++ k) = zdrop n l ++ k.
Proof. intros Hn. unfold zdrop, zlen in *. apply drop_app_le. lia. Qed.

Lemma ztake_app_le n l k : 0 <= n <= zlen l -> ztake n (l ++ k) = ztake n l.
Proof. intros Hn. unfold ztake, zlen in *. apply take_app_le. lia. Qed.

Lemma slice_app_le off n l k :
  0 <= off -> 0 <= n -> off + n <= zlen l -> slice off n (l ++ k) = slice off n l.
Proof.
  intros. unfold slice. rewrite zdrop_app_le by lia. apply ztake_app_le.
  rewrite zlen_zdrop; lia.
Qed.

End MoreSlices.

(** Normalises [zdrop n (l1 ++ ... ++ lk)] when [n] is a sum of leading sizes. *)
Ltac zdrop_simpl :=
  repeat (rewrite zdrop_app_ge by zlen_lia);
  repeat match goal with
  | |- context [zdrop ?n ?l] =>
      lazymatch n with
      | 0 => rewrite (zdrop_0 l)
      | _ => replace n with 0 by zlen_lia
      end
  end.

(** Moving a read cursor past a field. *)
Lemma zdrop_step {A} off off' (p a b : list A) :
  zdrop off p = a ++ b -> 0 <= off -> off' = off + zlen a -> zdrop off' p = b.
Proof.
  intros E Hoff ->. rewrite <- zdrop_zdrop by (auto using zlen_nonneg). rewrite E.
  by apply zdrop_app_exact.
Qed.

Lemma slice_at {A} off n (p a b : list A) :
  zdrop off p = a ++ b -> n = zlen a -> slice off n p = a.
Proof. intros E ->. unfold slice. rewrite E. by apply ztake_app_exact. Qed.

(** Filters that keep everything, or nothing. *)
Lemma list_filter_all {A} (P : A -> Prop) `{forall x, Decision (P x)} l : Forall P l -> filter P l = l.
Proof. induction 1 as [|x l Hx _ IH]; [done|]. rewrite filter_cons_True by done. by rewrite IH. Qed.

Lemma list_filter_none {A} (P : A -> Prop) `{forall x, Decision (P x)} l : Forall (fun x => ~ P x) l -> filter P l = [].
Proof. induction 1 as [|x l Hx _ IH]; [done|]. by rewrite filter_cons_False. Qed.

(** Pushing the elements of a list back one by one. *)
Lemma foldl_push_back {A} (l acc : list A) : foldl (fun acc x => acc ++ [x]) acc l = acc ++ l.
Proof.
  revert acc. induction l as [|x l IH]; intros acc; cbn [foldl]; [by rewrite app_nil_r|].
  rewrite IH. by rewrite <- app_assoc.
Qed.

(** The sum of [f] over a list. *)
Fixpoint total {A} (f : A -> nat) (l : list A) : nat :=
  match l with [] => 0 | x :: l => f x + total f l end%nat.

Lemma total_insert {A} (f : A -> nat) (l : list A) i x y :
  l !! i = Some x -> (total f (<[i := y]> l) + f x = total f l + f y)%nat.
Proof.
  revert i. induction l as [|a l IH]; intros [|i] E; try done.
  - injection E as ->. change (<[0%nat := y]> (x :: l)) with (y :: l). cbn [total]. lia.
  - change (<[S i := y]> (a :: l)) with (a :: <[i := y]> l). cbn [total].
    specialize (IH i E). lia.
Qed.

Lemma total_ge {A} (f : A -> nat) (l : list A) i x : l !! i = Some x -> (f x <= total f l)%nat.
Proof.
  revert i. induction l as [|a l IH]; intros [|i] E; try done; cbn [total].
  - injection E as ->. lia.
  - specialize (IH i E). lia.
Qed.
