(* ===== verification/Common.v ===== *)
(** * Status and Result ([src/common])

    The error values every layer returns: [ErrorCode], [Status] and [Result<T>],
    with the notation the other files use for [if (!status.ok()) return status;]. *)

From Stdlib Require Import Strings.String.
From S2P Require Import Prelude.

(** [enum class ErrorCode]. Each enumeration of the source is an inductive type in a
    module of its own, so that [ErrorCode::kOk] reads [ErrorCode.kOk]. *)
Module ErrorCode.
Inductive ErrorCode :=
| kOk
| kNotFound
| kInvalidArgument
| kIOError
| kInternal.
#[global] Instance error_code_eq_dec : EqDecision ErrorCode.
Proof. solve_decision. Defined.
End ErrorCode.
Abbreviation ErrorCode := ErrorCode.ErrorCode.

(** [class Status]: a code and a message. *)
Record Status := mkStatus { code : ErrorCode; message : bytes }.

Definition Status_Ok : Status := mkStatus ErrorCode.kOk [].
Definition Status_Error (c : ErrorCode) (msg : bytes) : Status := mkStatus c msg.
Definition Status_ok (s : Status) : bool := bool_decide (code s = ErrorCode.kOk).

(** [class Result<T>]: a [T], or the status that says why there is none. The
    constructor from a [Status] asserts that the status is an error. *)
Inductive Result (A : Type) :=
| Value (a : A)
| Failed (s : Status).
Arguments Value {A} a.
Arguments Failed {A} s.

Definition Result_ok {A} (r : Result A) : bool :=
  match r with Value _ => true | Failed _ => false end.

Definition Result_status {A} (r : Result A) : Status :=
  match r with Value _ => Status_Ok | Failed s => s end.

(** [x <-? e ;; k]: evaluate [e], return its status when it failed. *)
Notation "x '<-?' e ';;' k" :=
  (match e with Value x => k | Failed s => Failed s end)
  (at level 100, e at next level, right associativity) : neuralkv_scope.

(** [return_if c err ;; k]: [if (c) return err;]. *)
Notation "'return_if' c s ';;' k" :=
  (if c then Failed s else k)
  (at level 100, c at level 9, s at level 9, right associativity) : neuralkv_scope.

(** A call that may throw: what it returns, or the exception it ends with. *)
Inductive Exception := std_bad_alloc | std_out_of_range | std_invalid_argument | std_length_error.

Inductive Outcome (A : Type) :=
| Returns (a : A)
| Throws (e : Exception).
Arguments Returns {A} a.
Arguments Throws {A} e.

(** The C library's [strerror]: text for an [errno], only ever put in messages. *)
Class Libc := { strerror : Z -> bytes }.

(** [std::string(what) + strerror(errno)] with code [kIOError]. *)
Definition IoError `{Libc} (what : bytes) (errno : Z) : Status :=
  Status_Error ErrorCode.kIOError (what ++ strerror errno).

(** [struct NodeConfig] *)
Record NodeConfig := mkNodeConfig {
  nc_node_id : Z;
  nc_host : bytes;
  nc_port : Z;
  nc_data_dir : bytes
}.

Definition NodeConfig_default : NodeConfig :=
  mkNodeConfig 0 (str "127.0.0.1") 7400 (str "./data").

Lemma Status_Error_not_ok c msg : c <> ErrorCode.kOk -> Status_ok (Status_Error c msg) = false.
Proof. intros Hc. unfold Status_ok. by rewrite bool_decide_eq_false. Qed.

Lemma Status_ok_Ok : Status_ok Status_Ok = true.
Proof. reflexivity. Qed.
