(* ===== verification/BigEndian.v ===== *)
(** * Big-endian integers on the wire and on disk

    The readers and writers of [src/protocol/codec.cpp] (the same functions are
    repeated, up to a redundant cast in [ReadU64BE], in [src/raft/rpc_codec.cpp] and
    [src/persistence/wal_record.cpp], and the readers in [src/raft/node.cpp]),
    against one reference encoding [be_bytes]/[be_val]. *)

From S2P Require Import Prelude.

(** [static_cast<uint16_t>(static_cast<uint16_t>(p[0]) << 8 | p[1])] *)
Definition ReadU16BE (p : bytes) : Z :=
  u16 (Z.lor (Z.shiftl (at_ p 0) 8) (at_ p 1)).

Definition ReadU32BE (p : bytes) : Z :=
  Z.lor (Z.lor (Z.lor (u32 (Z.shiftl (at_ p 0) 24)) (u32 (Z.shiftl (at_ p 1) 16)))
    (u32 (Z.shiftl (at_ p 2) 8))) (at_ p 3).

(** [for (i = 0; i < 8; ++i) value = (value << 8) | p[i];] *)
Definition ReadU64BE (p : bytes) : Z :=
  foldl (fun value i => Z.lor (u64 (Z.shiftl value 8)) (at_ p i)) 0 (seq 0 8).

Definition WriteU16BE (out : bytes) (value : Z) : bytes :=
  out ++ [byte_of_Z (Z.shiftr value 8)] ++ [byte_of_Z value].

Definition WriteU32BE (out : bytes) (value : Z) : bytes :=
  out ++ [byte_of_Z (Z.shiftr value 24)] ++ [byte_of_Z (Z.shiftr value 16)]
      ++ [byte_of_Z (Z.shiftr value 8)] ++ [byte_of_Z value].

(** [for (shift = 56; shift >= 0; shift -= 8) out.push_back(value >> shift);] *)
Definition WriteU64BE (out : bytes) (value : Z) : bytes :=
  foldl (fun out shift => out ++ [byte_of_Z (Z.shiftr value shift)]) out
    [56; 48; 40; 32; 24; 16; 8; 0].

(** ** The reference encoding *)

(** The value of a big-endian byte sequence. *)
Fixpoint be_val_acc (acc : Z) (l : bytes) : Z :=
  match l with
  | [] => acc
  | b :: l => be_val_acc (acc * 256 + byte_to_Z b) l
  end.
Definition be_val (l : bytes) : Z := be_val_acc 0 l.

(** The [n] low bytes of [v], most significant first. *)
Fixpoint be_bytes (n : nat) (v : Z) : bytes :=
  match n with
  | O => []
  | S n => be_bytes n (v / 256) ++ [byte_of_Z v]
  end.

Create Rewrite HintDb nkv_write.

Lemma be_val_acc_app acc l k : be_val_acc acc (l ++ k) = be_val_acc (be_val_acc acc l) k.
Proof. revert acc. induction l as [|b l IH]; intros acc; [done|]. apply IH. Qed.

Lemma be_val_snoc l b : be_val (l ++ [b]) = be_val l * 256 + byte_to_Z b.
Proof. unfold be_val. by rewrite be_val_acc_app. Qed.

Lemma be_val_range l : 0 <= be_val l < 256 ^ zlen l.
Proof.
  induction l as [|b l IH] using rev_ind; [done|].
  rewrite be_val_snoc. pose proof (byte_to_Z_range b).
  autorewrite with zlen. rewrite Z.pow_add_r by (pose proof (zlen_nonneg l); lia).
  replace (256 ^ (1 + 0)) with 256 by done. lia.
Qed.

Lemma be_val_bytes n v : be_val (be_bytes n v) = v mod 256 ^ Z.of_nat n.
Proof.
  revert v. induction n as [|n IH]; intros v.
  - cbn. by rewrite Z.mod_1_r.
  - cbn [be_bytes]. rewrite be_val_snoc, IH, byte_to_of_Z.
    rewrite Nat2Z.inj_succ, Z.pow_succ_r by lia.
    rewrite Z.rem_mul_r by lia. lia.
Qed.

Lemma be_val_bytes_small n v : 0 <= v < 256 ^ Z.of_nat n -> be_val (be_bytes n v) = v.
Proof. intros. rewrite be_val_bytes. by apply Z.mod_small. Qed.

Lemma be_bytes_val l : be_bytes (length l) (be_val l) = l.
Proof.
  induction l as [|b l IH] using rev_ind; [done|].
  rewrite length_app, Nat.add_comm. cbn [length Nat.add be_bytes].
  rewrite be_val_snoc. pose proof (byte_to_Z_range b) as Hb.
  f_equal.
  - rewrite Z.div_add_l by lia. rewrite (Z.div_small (byte_to_Z b)) by lia.
    by rewrite Z.add_0_r.
  - f_equal. apply byte_to_Z_inj. rewrite byte_to_of_Z.
    rewrite Z.add_comm, Z.mod_add by lia. apply Z.mod_small. lia.
Qed.

Lemma length_be_bytes n v : length (be_bytes n v) = n.
Proof.
  revert v. induction n as [|n IH]; intros v; [done|].
  cbn [be_bytes]. rewrite length_app, IH. cbn. lia.
Qed.

Lemma zlen_be_bytes n v : zlen (be_bytes n v) = Z.of_nat n.
Proof. unfold zlen. by rewrite length_be_bytes. Qed.

#[export] Hint Rewrite zlen_be_bytes : zlen.

Lemma be_bytes_inj n v w :
  0 <= v < 256 ^ Z.of_nat n -> 0 <= w < 256 ^ Z.of_nat n ->
  be_bytes n v = be_bytes n w -> v = w.
Proof.
  intros Hv Hw E. rewrite <- (be_val_bytes_small n v), E by done.
  by apply be_val_bytes_small.
Qed.

(** ** The code's functions compute the reference encoding *)

Lemma land_shiftl_small a b k : 0 <= k -> 0 <= b < 2 ^ k -> Z.land (Z.shiftl a k) b = 0.
Proof.
  intros Hk Hb. apply Z.bits_inj'. intros i Hi. rewrite Z.land_spec, Z.bits_0.
  destruct (Z.lt_ge_cases i k).
  - by rewrite Z.shiftl_spec_low.
  - rewrite <- (Z.mod_small b (2 ^ k)) by done.
    rewrite Z.mod_pow2_bits_high by lia. apply andb_false_r.
Qed.

Lemma lor_shiftl_add a b k :
  0 <= k -> 0 <= b < 2 ^ k -> Z.lor (Z.shiftl a k) b = a * 2 ^ k + b.
Proof.
  intros Hk Hb. pose proof (land_shiftl_small a b k Hk Hb) as Hland.
  rewrite <- Z.lxor_lor, <- Z.add_nocarry_lxor by done.
  by rewrite Z.shiftl_mul_pow2.
Qed.

Lemma u32_shiftl_byte b k :
  0 <= k <= 24 -> u32 (Z.shiftl (byte_to_Z b) k) = byte_to_Z b * 2 ^ k.
Proof.
  intros Hk. pose proof (byte_to_Z_range b). rewrite Z.shiftl_mul_pow2 by lia.
  apply Z.mod_small. split; [apply Z.mul_nonneg_nonneg; lia|].
  apply Z.lt_le_trans with (2 ^ 8 * 2 ^ k).
  - apply Z.mul_lt_mono_pos_r; [apply Z.pow_pos_nonneg; lia|]. lia.
  - rewrite <- Z.pow_add_r by lia. apply Z.pow_le_mono_r; lia.
Qed.

Lemma ReadU16BE_val a b : ReadU16BE [a; b] = be_val [a; b].
Proof.
  unfold ReadU16BE, at_. cbn [nth].
  pose proof (byte_to_Z_range a). pose proof (byte_to_Z_range b).
  rewrite lor_shiftl_add by lia. unfold u16.
  rewrite Z.mod_small by lia. unfold be_val. cbn [be_val_acc]. lia.
Qed.

Lemma ReadU32BE_val a b c d : ReadU32BE [a; b; c; d] = be_val [a; b; c; d].
Proof.
  unfold ReadU32BE, at_. cbn [nth].
  pose proof (byte_to_Z_range a). pose proof (byte_to_Z_range b).
  pose proof (byte_to_Z_range c). pose proof (byte_to_Z_range d).
  rewrite !u32_shiftl_byte by lia.
  rewrite <- !Z.lor_assoc, <- !Z.shiftl_mul_pow2 by lia.
  rewrite (lor_shiftl_add _ (byte_to_Z d)) by lia.
  rewrite (lor_shiftl_add (byte_to_Z b)) by lia.
  rewrite lor_shiftl_add by lia.
  unfold be_val. cbn [be_val_acc]. lia.
Qed.

Lemma u64_shift_in v b :
  0 <= v < 2 ^ 56 -> Z.lor (u64 (Z.shiftl v 8)) (byte_to_Z b) = v * 256 + byte_to_Z b.
Proof.
  intros Hv. pose proof (byte_to_Z_range b). unfold u64.
  rewrite Z.mod_small by (rewrite Z.shiftl_mul_pow2 by lia; lia).
  rewrite lor_shiftl_add by lia. reflexivity.
Qed.

Lemma shift_in_val l :
  zlen l <= 8 -> foldl (fun v b => Z.lor (u64 (Z.shiftl v 8)) (byte_to_Z b)) 0 l = be_val l.
Proof.
  induction l as [|b l IH] using rev_ind; [done|]. intros Hl. autorewrite with zlen in Hl.
  rewrite foldl_snoc, be_val_snoc, IH by lia. apply u64_shift_in.
  pose proof (be_val_range l). split; [lia|].
  apply Z.lt_le_trans with (256 ^ zlen l); [lia|].
  change (2 ^ 56) with (256 ^ 7). apply Z.pow_le_mono_r; lia.
Qed.

Lemma ReadU64BE_val p : length p = 8%nat -> ReadU64BE p = be_val p.
Proof.
  intros Hp. rewrite <- shift_in_val by (unfold zlen; lia).
  do 8 (destruct p as [|? p]; [discriminate Hp|]).
  destruct p; [|discriminate Hp].
  unfold ReadU64BE, at_. cbn [seq foldl nth]. reflexivity.
Qed.

Lemma WriteU16BE_bytes out v : WriteU16BE out v = out ++ be_bytes 2 v.
Proof.
  unfold WriteU16BE. f_equal. cbn [be_bytes app]. by rewrite Z.shiftr_div_pow2.
Qed.

Lemma WriteU32BE_bytes out v : WriteU32BE out v = out ++ be_bytes 4 v.
Proof.
  unfold WriteU32BE. f_equal. cbn [be_bytes app].
  rewrite !Z.shiftr_div_pow2 by lia. rewrite !Z.div_div by lia. reflexivity.
Qed.

Lemma WriteU64BE_bytes out v : WriteU64BE out v = out ++ be_bytes 8 v.
Proof.
  unfold WriteU64BE. cbn [foldl be_bytes app]. rewrite <- !app_assoc. cbn [app].
  rewrite !Z.shiftr_div_pow2 by lia. rewrite !Z.div_div by lia.
  by rewrite Z.div_1_r.
Qed.

(** ** Round trips of the readers and writers, in both directions *)

Lemma at_slice_eq p n i : (i < n)%nat -> at_ p i = at_ (take n p) i.
Proof.
  intros Hi. unfold at_. f_equal. revert n p Hi.
  induction i as [|i IH]; intros [|n] [|b p] Hi; try lia; try done.
  cbn. apply IH. lia.
Qed.

Lemma ReadU16BE_take p : ReadU16BE p = ReadU16BE (take 2 p).
Proof. unfold ReadU16BE. by rewrite !(at_slice_eq p 2) by lia. Qed.

Lemma ReadU32BE_take p : ReadU32BE p = ReadU32BE (take 4 p).
Proof. unfold ReadU32BE. by rewrite !(at_slice_eq p 4) by lia. Qed.

Lemma ReadU64BE_take p : ReadU64BE p = ReadU64BE (take 8 p).
Proof. unfold ReadU64BE. cbn [seq foldl]. by rewrite !(at_slice_eq p 8) by lia. Qed.

Lemma ReadU16BE_spec p : 2 <= zlen p -> ReadU16BE p = be_val (ztake 2 p).
Proof.
  intros Hp. rewrite ReadU16BE_take. unfold ztake. cbn.
  destruct p as [|a [|b p]]; [done..|]. apply ReadU16BE_val.
Qed.

Lemma ReadU32BE_spec p : 4 <= zlen p -> ReadU32BE p = be_val (ztake 4 p).
Proof.
  intros Hp. rewrite ReadU32BE_take. unfold ztake.
  destruct p as [|a [|b [|c [|d p]]]]; [done..|]. apply ReadU32BE_val.
Qed.

Lemma ReadU64BE_spec p : 8 <= zlen p -> ReadU64BE p = be_val (ztake 8 p).
Proof.
  intros Hp. rewrite ReadU64BE_take. unfold ztake. apply ReadU64BE_val.
  rewrite length_take. unfold zlen in Hp. lia.
Qed.

Lemma ReadU16BE_be v rest : is_u16 v -> ReadU16BE (be_bytes 2 v ++ rest) = v.
Proof.
  intros Hv. rewrite ReadU16BE_spec by zlen_lia.
  rewrite ztake_app_exact by zlen_lia. by apply be_val_bytes_small.
Qed.

Lemma ReadU32BE_be v rest : is_u32 v -> ReadU32BE (be_bytes 4 v ++ rest) = v.
Proof.
  intros Hv. rewrite ReadU32BE_spec by zlen_lia.
  rewrite ztake_app_exact by zlen_lia. by apply be_val_bytes_small.
Qed.

Lemma ReadU64BE_be v rest : is_u64 v -> ReadU64BE (be_bytes 8 v ++ rest) = v.
Proof.
  intros Hv. rewrite ReadU64BE_spec by zlen_lia.
  rewrite ztake_app_exact by zlen_lia. by apply be_val_bytes_small.
Qed.

Lemma be_bytes_read n p :
  Z.of_nat n <= zlen p -> be_bytes n (be_val (ztake (Z.of_nat n) p)) = ztake (Z.of_nat n) p.
Proof.
  intros Hp. rewrite <- (be_bytes_val (ztake (Z.of_nat n) p)) at 2.
  f_equal. unfold ztake. rewrite length_take. unfold zlen in Hp. lia.
Qed.

Lemma be_val_ztake_range n p :
  0 <= n <= zlen p -> 0 <= be_val (ztake n p) < 256 ^ n.
Proof. intros Hn. rewrite <- (zlen_ztake n p) at 3 by done. apply be_val_range. Qed.

Lemma ReadU16BE_range p : 2 <= zlen p -> is_u16 (ReadU16BE p).
Proof. intros Hp. rewrite ReadU16BE_spec by done. apply (be_val_ztake_range 2). lia. Qed.

Lemma ReadU32BE_range p : 4 <= zlen p -> is_u32 (ReadU32BE p).
Proof. intros Hp. rewrite ReadU32BE_spec by done. apply (be_val_ztake_range 4). lia. Qed.

Lemma ReadU64BE_range p : 8 <= zlen p -> is_u64 (ReadU64BE p).
Proof. intros Hp. rewrite ReadU64BE_spec by done. apply (be_val_ztake_range 8). lia. Qed.

#[export] Hint Rewrite WriteU16BE_bytes WriteU32BE_bytes WriteU64BE_bytes : nkv_write.

(** A field read at an offset is the field that re-encodes to those bytes. *)
Lemma be_bytes_ReadU16BE off p :
  0 <= off -> off + 2 <= zlen p -> be_bytes 2 (ReadU16BE (zdrop off p)) = slice off 2 p.
Proof.
  intros. assert (zlen (zdrop off p) = zlen p - off) as Hd by (apply zlen_zdrop; lia).
  rewrite ReadU16BE_spec by lia. apply (be_bytes_read 2). lia.
Qed.

Lemma be_bytes_ReadU32BE off p :
  0 <= off -> off + 4 <= zlen p -> be_bytes 4 (ReadU32BE (zdrop off p)) = slice off 4 p.
Proof.
  intros. assert (zlen (zdrop off p) = zlen p - off) as Hd by (apply zlen_zdrop; lia).
  rewrite ReadU32BE_spec by lia. apply (be_bytes_read 4). lia.
Qed.

Lemma be_bytes_ReadU64BE off p :
  0 <= off -> off + 8 <= zlen p -> be_bytes 8 (ReadU64BE (zdrop off p)) = slice off 8 p.
Proof.
  intros. assert (zlen (zdrop off p) = zlen p - off) as Hd by (apply zlen_zdrop; lia).
  rewrite ReadU64BE_spec by lia. apply (be_bytes_read 8). lia.
Qed.

Lemma byte_at_slice off p :
  0 <= off -> off + 1 <= zlen p -> [byte_of_Z (at_ (zdrop off p) 0)] = slice off 1 p.
Proof.
  intros. unfold slice, at_, ztake.
  destruct (zdrop off p) as [|b l] eqn:E.
  - apply (f_equal zlen) in E. rewrite zlen_zdrop in E by lia. rewrite zlen_nil in E. lia.
  - cbn. by rewrite byte_of_to_Z.
Qed.

Lemma at_range p i : 0 <= at_ p i < 256.
Proof. apply byte_to_Z_range. Qed.

Lemma at_byte_of_Z z rest : 0 <= z < 256 -> at_ (byte_of_Z z :: rest) 0 = z.
Proof. intros Hz. unfold at_. cbn [nth]. rewrite byte_to_of_Z. by apply Z.mod_small. Qed.

Lemma ReadU16BE_at_range off p : 0 <= off -> off + 2 <= zlen p -> is_u16 (ReadU16BE (zdrop off p)).
Proof. intros. apply ReadU16BE_range. rewrite zlen_zdrop; lia. Qed.

Lemma ReadU32BE_at_range off p : 0 <= off -> off + 4 <= zlen p -> is_u32 (ReadU32BE (zdrop off p)).
Proof. intros. apply ReadU32BE_range. rewrite zlen_zdrop; lia. Qed.

Lemma ReadU64BE_at_range off p : 0 <= off -> off + 8 <= zlen p -> is_u64 (ReadU64BE (zdrop off p)).
Proof. intros. apply ReadU64BE_range. rewrite zlen_zdrop; lia. Qed.

Lemma u32_zlen {A} (l : list A) n : zlen l <= n -> n < 2 ^ 32 -> u32 (zlen l) = zlen l.
Proof. intros. unfold u32. apply Z.mod_small. pose proof (zlen_nonneg l). lia. Qed.

Lemma at_zdrop p i off : off = Z.of_nat i -> at_ p i = at_ (zdrop off p) 0.
Proof.
  intros ->. unfold at_, zdrop. rewrite Nat2Z.id, !nth_lookup, lookup_drop.
  by rewrite Nat.add_0_r.
Qed.
