(* ===== verification/Codec.v ===== *)
(** * The framed binary protocol ([src/protocol])

    Message types, the four encoders and decoders, and the incremental frame
    parser. Sizes and offsets are integers: an offset never exceeds the size of the
    buffer it indexes and a length field is below [2^32], so the [size_t] sums of
    the source do not wrap. *)

From Stdlib Require Import Strings.String.
From S2P Require Import Prelude Common BigEndian.

(** ** Constants ([constants.h]) *)

Definition kMagic : Z := 0x4E4B.
Definition kProtocolVersion : Z := 0x01.
Definition kFrameHeaderSize : Z := 8.
Definition kMaxPayloadSize : Z := 16 * 1024 * 1024.

(** ** Types ([types.h]) *)

Module MessageType.
Inductive MessageType :=
| kClientRequest
| kClientResponse
| kClusterRequest
| kClusterResponse.
#[global] Instance message_type_eq_dec : EqDecision MessageType.
Proof. solve_decision. Defined.
End MessageType.
Abbreviation MessageType := MessageType.MessageType.

Definition MessageType_value (t : MessageType) : Z :=
  match t with
  | MessageType.kClientRequest => 0x01
  | MessageType.kClientResponse => 0x02
  | MessageType.kClusterRequest => 0x10
  | MessageType.kClusterResponse => 0x11
  end.

(** The [switch] on [static_cast<MessageType>(type_byte)]; [None] is its default. *)
Definition MessageType_of_byte (b : Z) : option MessageType :=
  if b =? 0x01 then Some MessageType.kClientRequest
  else if b =? 0x02 then Some MessageType.kClientResponse
  else if b =? 0x10 then Some MessageType.kClusterRequest
  else if b =? 0x11 then Some MessageType.kClusterResponse
  else None.

(** An [enum class Opcode : uint8_t] object can hold any byte; [kRaw] is a value
    that is none of the enumerators, which the [default] branches deal with. *)
Module Opcode.
Inductive Opcode :=
| kSet
| kGet
| kDelete
| kRaw (v : Z).
#[global] Instance opcode_eq_dec : EqDecision Opcode.
Proof. solve_decision. Defined.
End Opcode.
Abbreviation Opcode := Opcode.Opcode.

Definition Opcode_value (o : Opcode) : Z :=
  match o with
  | Opcode.kSet => 1
  | Opcode.kGet => 2
  | Opcode.kDelete => 3
  | Opcode.kRaw v => v
  end.

(** [static_cast<Opcode>(opcode_byte)] *)
Definition Opcode_of_byte (b : Z) : Opcode :=
  if b =? 1 then Opcode.kSet
  else if b =? 2 then Opcode.kGet
  else if b =? 3 then Opcode.kDelete
  else Opcode.kRaw b.

Module ResponseStatus.
Inductive ResponseStatus :=
| kOk
| kNotFound
| kBadRequest
| kInternalError
| kWrongLeader.
#[global] Instance response_status_eq_dec : EqDecision ResponseStatus.
Proof. solve_decision. Defined.
End ResponseStatus.
Abbreviation ResponseStatus := ResponseStatus.ResponseStatus.

Definition ResponseStatus_value (s : ResponseStatus) : Z :=
  match s with
  | ResponseStatus.kOk => 0
  | ResponseStatus.kNotFound => 1
  | ResponseStatus.kBadRequest => 2
  | ResponseStatus.kInternalError => 3
  | ResponseStatus.kWrongLeader => 4
  end.

(** [static_cast<ResponseStatus>(v)] for the values the decoders let through. *)
Definition ResponseStatus_of_value (v : Z) : ResponseStatus :=
  if v =? 0 then ResponseStatus.kOk
  else if v =? 1 then ResponseStatus.kNotFound
  else if v =? 2 then ResponseStatus.kBadRequest
  else if v =? 3 then ResponseStatus.kInternalError
  else ResponseStatus.kWrongLeader.

Module ClusterOpcode.
Inductive ClusterOpcode :=
| kPing
| kPong
| kRequestVote
| kAppendEntries.
#[global] Instance cluster_opcode_eq_dec : EqDecision ClusterOpcode.
Proof. solve_decision. Defined.
End ClusterOpcode.
Abbreviation ClusterOpcode := ClusterOpcode.ClusterOpcode.

Definition ClusterOpcode_value (o : ClusterOpcode) : Z :=
  match o with
  | ClusterOpcode.kPing => 1
  | ClusterOpcode.kPong => 2
  | ClusterOpcode.kRequestVote => 3
  | ClusterOpcode.kAppendEntries => 4
  end.

(** [static_cast<ClusterOpcode>(b)] for the values the decoder lets through. *)
Definition ClusterOpcode_of_byte (b : Z) : ClusterOpcode :=
  if b =? 1 then ClusterOpcode.kPing
  else if b =? 2 then ClusterOpcode.kPong
  else if b =? 3 then ClusterOpcode.kRequestVote
  else ClusterOpcode.kAppendEntries.

Record ClientRequest := mkClientRequest {
  creq_request_id : Z;
  creq_opcode : Opcode;
  creq_key : bytes;
  creq_value : bytes
}.

Record ClientResponse := mkClientResponse {
  cresp_request_id : Z;
  cresp_status : ResponseStatus;
  cresp_value : bytes;
  cresp_leader_hint : Z
}.

Record ClusterRequest := mkClusterRequest {
  clreq_request_id : Z;
  clreq_opcode : ClusterOpcode;
  clreq_body : bytes
}.

Record ClusterResponse := mkClusterResponse {
  clresp_request_id : Z;
  clresp_status : ResponseStatus;
  clresp_body : bytes
}.

Module ParseResult.
Inductive ParseResult := kNeedMore | kComplete | kError.
End ParseResult.
Abbreviation ParseResult := ParseResult.ParseResult.

(** ** Encoders: the new contents of [out], or the error *)

Definition invalid (msg : String.string) : Status :=
  Status_Error ErrorCode.kInvalidArgument (str msg).
Arguments invalid msg%_string_scope.

Definition TruncatedPayload : Status := invalid "truncated payload".

(** The eight bytes every encoder writes first. *)
Definition frame_header (t : MessageType) (payload_size : Z) : bytes :=
  let out := [] in
  let out := WriteU16BE out kMagic in
  let out := out ++ [byte_of_Z kProtocolVersion] in
  let out := out ++ [byte_of_Z (MessageType_value t)] in
  WriteU32BE out (u32 payload_size).

Definition EncodeClientRequest (req : ClientRequest) : Result bytes :=
  return_if (is_empty (creq_key req)) (invalid "key must not be empty") ;;
  _ <-? match creq_opcode req with
        | Opcode.kSet =>
            return_if (is_empty (creq_value req)) (invalid "SET requires a non-empty value") ;;
            Value tt
        | Opcode.kGet | Opcode.kDelete =>
            return_if (negb (is_empty (creq_value req)))
              (invalid "GET/DELETE must not carry a value") ;;
            Value tt
        | Opcode.kRaw _ => Failed (invalid "unknown opcode")
        end ;;
  let payload_size := 8 + 1 + 4 + zlen (creq_key req) + 4 + zlen (creq_value req) in
  return_if (kMaxPayloadSize <? payload_size) (invalid "payload exceeds max size") ;;
  let out := frame_header MessageType.kClientRequest payload_size in
  let out := WriteU64BE out (creq_request_id req) in
  let out := out ++ [byte_of_Z (Opcode_value (creq_opcode req))] in
  let out := WriteU32BE out (u32 (zlen (creq_key req))) in
  let out := out ++ creq_key req in
  let out := WriteU32BE out (u32 (zlen (creq_value req))) in
  let out := out ++ creq_value req in
  Value out.

Definition EncodeClientResponse (resp : ClientResponse) : Result bytes :=
  let payload_size := 8 + 2 + 4 + zlen (cresp_value resp) + 4 in
  return_if (kMaxPayloadSize <? payload_size) (invalid "payload exceeds max size") ;;
  let out := frame_header MessageType.kClientResponse payload_size in
  let out := WriteU64BE out (cresp_request_id resp) in
  let out := WriteU16BE out (ResponseStatus_value (cresp_status resp)) in
  let out := WriteU32BE out (u32 (zlen (cresp_value resp))) in
  let out := out ++ cresp_value resp in
  let out := WriteU32BE out (cresp_leader_hint resp) in
  Value out.

Definition EncodeClusterRequest (req : ClusterRequest) : Result bytes :=
  let payload_size := 8 + 1 + 4 + zlen (clreq_body req) in
  return_if (kMaxPayloadSize <? payload_size) (invalid "payload exceeds max size") ;;
  let out := frame_header MessageType.kClusterRequest payload_size in
  let out := WriteU64BE out (clreq_request_id req) in
  let out := out ++ [byte_of_Z (ClusterOpcode_value (clreq_opcode req))] in
  let out := WriteU32BE out (u32 (zlen (clreq_body req))) in
  let out := out ++ clreq_body req in
  Value out.

Definition EncodeClusterResponse (resp : ClusterResponse) : Result bytes :=
  let payload_size := 8 + 2 + 4 + zlen (clresp_body resp) in
  return_if (kMaxPayloadSize <? payload_size) (invalid "payload exceeds max size") ;;
  let out := frame_header MessageType.kClusterResponse payload_size in
  let out := WriteU64BE out (clresp_request_id resp) in
  let out := WriteU16BE out (ResponseStatus_value (clresp_status resp)) in
  let out := WriteU32BE out (u32 (zlen (clresp_body resp))) in
  let out := out ++ clresp_body resp in
  Value out.

(** ** Decoders: the message, or the error ([out] is written only on success) *)

Definition DecodeClientRequest (payload : bytes) : Result ClientRequest :=
  let size := zlen payload in
  let offset := 0 in
  return_if (size <? offset + 8) TruncatedPayload ;;
  let request_id := ReadU64BE (zdrop offset payload) in
  let offset := offset + 8 in
  return_if (size <? offset + 1) TruncatedPayload ;;
  let opcode_byte := at_ (zdrop offset payload) 0 in
  let offset := offset + 1 in
  return_if ((opcode_byte <? Opcode_value Opcode.kSet)
             || (Opcode_value Opcode.kDelete <? opcode_byte)) (invalid "unknown opcode") ;;
  let opcode := Opcode_of_byte opcode_byte in
  return_if (size <? offset + 4) TruncatedPayload ;;
  let key_len := ReadU32BE (zdrop offset payload) in
  let offset := offset + 4 in
  return_if (key_len =? 0) (invalid "key must not be empty") ;;
  return_if (size <? offset + key_len) TruncatedPayload ;;
  let key := slice offset key_len payload in
  let offset := offset + key_len in
  return_if (size <? offset + 4) TruncatedPayload ;;
  let value_len := ReadU32BE (zdrop offset payload) in
  let offset := offset + 4 in
  return_if (size <? offset + value_len) TruncatedPayload ;;
  let value := slice offset value_len payload in
  let offset := offset + value_len in
  return_if (negb (offset =? size)) (invalid "trailing bytes after payload") ;;
  _ <-? match opcode with
        | Opcode.kSet =>
            return_if (is_empty value) (invalid "SET requires a non-empty value") ;; Value tt
        | Opcode.kGet | Opcode.kDelete =>
            return_if (negb (is_empty value)) (invalid "GET/DELETE must not carry a value") ;;
            Value tt
        | Opcode.kRaw _ => Value tt
        end ;;
  Value (mkClientRequest request_id opcode key value).

Definition DecodeClientResponse (payload : bytes) : Result ClientResponse :=
  let size := zlen payload in
  let offset := 0 in
  return_if (size <? offset + 8) TruncatedPayload ;;
  let request_id := ReadU64BE (zdrop offset payload) in
  let offset := offset + 8 in
  return_if (size <? offset + 2) TruncatedPayload ;;
  let status_code := ReadU16BE (zdrop offset payload) in
  let offset := offset + 2 in
  return_if (ResponseStatus_value ResponseStatus.kWrongLeader <? status_code)
    (invalid "unknown response status") ;;
  return_if (size <? offset + 4) TruncatedPayload ;;
  let value_len := ReadU32BE (zdrop offset payload) in
  let offset := offset + 4 in
  return_if (size <? offset + value_len) TruncatedPayload ;;
  let value := slice offset value_len payload in
  let offset := offset + value_len in
  return_if (size <? offset + 4) TruncatedPayload ;;
  let leader_hint := ReadU32BE (zdrop offset payload) in
  let offset := offset + 4 in
  return_if (negb (offset =? size)) (invalid "trailing bytes after payload") ;;
  Value (mkClientResponse request_id (ResponseStatus_of_value status_code) value leader_hint).

Definition DecodeClusterRequest (payload : bytes) : Result ClusterRequest :=
  let size := zlen payload in
  let offset := 0 in
  return_if (size <? offset + 8) TruncatedPayload ;;
  let request_id := ReadU64BE (zdrop offset payload) in
  let offset := offset + 8 in
  return_if (size <? offset + 1) TruncatedPayload ;;
  let opcode_byte := at_ (zdrop offset payload) 0 in
  let offset := offset + 1 in
  return_if ((opcode_byte <? ClusterOpcode_value ClusterOpcode.kPing)
             || (ClusterOpcode_value ClusterOpcode.kAppendEntries <? opcode_byte))
    (invalid "unknown cluster opcode") ;;
  return_if (size <? offset + 4) TruncatedPayload ;;
  let body_len := ReadU32BE (zdrop offset payload) in
  let offset := offset + 4 in
  return_if (size <? offset + body_len) TruncatedPayload ;;
  let body := slice offset body_len payload in
  let offset := offset + body_len in
  return_if (negb (offset =? size)) (invalid "trailing bytes after payload") ;;
  Value (mkClusterRequest request_id (ClusterOpcode_of_byte opcode_byte) body).

Definition DecodeClusterResponse (payload : bytes) : Result ClusterResponse :=
  let size := zlen payload in
  let offset := 0 in
  return_if (size <? offset + 8) TruncatedPayload ;;
  let request_id := ReadU64BE (zdrop offset payload) in
  let offset := offset + 8 in
  return_if (size <? offset + 2) TruncatedPayload ;;
  let status_code := ReadU16BE (zdrop offset payload) in
  let offset := offset + 2 in
  return_if (ResponseStatus_value ResponseStatus.kWrongLeader <? status_code)
    (invalid "unknown response status") ;;
  return_if (size <? offset + 4) TruncatedPayload ;;
  let body_len := ReadU32BE (zdrop offset payload) in
  let offset := offset + 4 in
  return_if (size <? offset + body_len) TruncatedPayload ;;
  let body := slice offset body_len payload in
  let offset := offset + body_len in
  return_if (negb (offset =? size)) (invalid "trailing bytes after payload") ;;
  Value (mkClusterResponse request_id (ResponseStatus_of_value status_code) body).

(** ** The incremental parser

    The out-parameters are nullable pointers: [None] is [nullptr], [Some v] a
    pointer whose pointee currently holds [v]. *)

Record FrameOut := mkFrameOut {
  out_request : option ClientRequest;
  out_response : option ClientResponse;
  out_cluster_request : option ClusterRequest;
  out_cluster_response : option ClusterResponse;
  out_type : option MessageType
}.

(** [if (p != nullptr) *p = v;] *)
Definition store {A} (p : option A) (v : A) : option A :=
  match p with Some _ => Some v | None => None end.

Definition set_out_type (t : MessageType) (o : FrameOut) : FrameOut :=
  mkFrameOut (out_request o) (out_response o) (out_cluster_request o)
    (out_cluster_response o) (store (out_type o) t).

(** The decoding [switch]: the out-parameters after it, or [None] on [kError]. *)
Definition decode_payload (t : MessageType) (payload : bytes) (o : FrameOut) : option FrameOut :=
  match t with
  | MessageType.kClientRequest =>
      match DecodeClientRequest payload with
      | Value req => Some (mkFrameOut (store (out_request o) req) (out_response o)
                             (out_cluster_request o) (out_cluster_response o) (out_type o))
      | Failed _ => None
      end
  | MessageType.kClientResponse =>
      match DecodeClientResponse payload with
      | Value resp => Some (mkFrameOut (out_request o) (store (out_response o) resp)
                              (out_cluster_request o) (out_cluster_response o) (out_type o))
      | Failed _ => None
      end
  | MessageType.kClusterRequest =>
      match DecodeClusterRequest payload with
      | Value req => Some (mkFrameOut (out_request o) (out_response o)
                             (store (out_cluster_request o) req) (out_cluster_response o)
                             (out_type o))
      | Failed _ => None
      end
  | MessageType.kClusterResponse =>
      match DecodeClusterResponse payload with
      | Value resp => Some (mkFrameOut (out_request o) (out_response o)
                              (out_cluster_request o) (store (out_cluster_response o) resp)
                              (out_type o))
      | Failed _ => None
      end
  end.

(** Result, new contents of [buffer], out-parameters. *)
Definition TryParseFrame (buffer : bytes) (o : FrameOut) : ParseResult * bytes * FrameOut :=
  if zlen buffer <? kFrameHeaderSize then (ParseResult.kNeedMore, buffer, o)
  else
    let magic := ReadU16BE buffer in
    if negb (magic =? kMagic) then (ParseResult.kError, [], o)
    else
      let version := at_ buffer 2 in
      if negb (version =? kProtocolVersion) then (ParseResult.kError, [], o)
      else
        let type_byte := at_ buffer 3 in
        let length := ReadU32BE (zdrop 4 buffer) in
        if kMaxPayloadSize <? length then (ParseResult.kError, [], o)
        else
          let frame_size := kFrameHeaderSize + length in
          if zlen buffer <? frame_size then (ParseResult.kNeedMore, buffer, o)
          else
            let payload := slice kFrameHeaderSize length buffer in
            match MessageType_of_byte type_byte with
            | None => (ParseResult.kError, [], o)
            | Some t =>
                match decode_payload t payload o with
                | None => (ParseResult.kError, [], o)
                | Some o => (ParseResult.kComplete, zdrop frame_size buffer, set_out_type t o)
                end
            end.

(** The overload for callers that only see client frames. *)
Definition TryParseFrame_client (buffer : bytes) (req : option ClientRequest)
    (resp : option ClientResponse) : ParseResult * bytes * FrameOut :=
  TryParseFrame buffer (mkFrameOut req resp None None None).

(** ** What a message of each kind looks like on the wire *)

Definition payload_ClientRequest (r : ClientRequest) : bytes :=
  be_bytes 8 (creq_request_id r) ++ [byte_of_Z (Opcode_value (creq_opcode r))]
  ++ be_bytes 4 (zlen (creq_key r)) ++ creq_key r
  ++ be_bytes 4 (zlen (creq_value r)) ++ creq_value r.

Definition payload_ClientResponse (r : ClientResponse) : bytes :=
  be_bytes 8 (cresp_request_id r) ++ be_bytes 2 (ResponseStatus_value (cresp_status r))
  ++ be_bytes 4 (zlen (cresp_value r)) ++ cresp_value r ++ be_bytes 4 (cresp_leader_hint r).

Definition payload_ClusterRequest (r : ClusterRequest) : bytes :=
  be_bytes 8 (clreq_request_id r) ++ [byte_of_Z (ClusterOpcode_value (clreq_opcode r))]
  ++ be_bytes 4 (zlen (clreq_body r)) ++ clreq_body r.

Definition payload_ClusterResponse (r : ClusterResponse) : bytes :=
  be_bytes 8 (clresp_request_id r) ++ be_bytes 2 (ResponseStatus_value (clresp_status r))
  ++ be_bytes 4 (zlen (clresp_body r)) ++ clresp_body r.

(** The value rule of [EncodeClientRequest] and [DecodeClientRequest]. *)
Definition value_allowed (o : Opcode) (v : bytes) : Prop :=
  match o with
  | Opcode.kSet => v <> []
  | Opcode.kGet | Opcode.kDelete => v = []
  | Opcode.kRaw _ => False
  end.

(** ** A protocol message, whichever of the four structs it is *)

Inductive Message :=
| MClientRequest (r : ClientRequest)
| MClientResponse (r : ClientResponse)
| MClusterRequest (r : ClusterRequest)
| MClusterResponse (r : ClusterResponse).

Definition message_type (m : Message) : MessageType :=
  match m with
  | MClientRequest _ => MessageType.kClientRequest
  | MClientResponse _ => MessageType.kClientResponse
  | MClusterRequest _ => MessageType.kClusterRequest
  | MClusterResponse _ => MessageType.kClusterResponse
  end.

Definition payload_of (m : Message) : bytes :=
  match m with
  | MClientRequest r => payload_ClientRequest r
  | MClientResponse r => payload_ClientResponse r
  | MClusterRequest r => payload_ClusterRequest r
  | MClusterResponse r => payload_ClusterResponse r
  end.

(** The encoder for the message's struct. *)
Definition encode_message (m : Message) : Result bytes :=
  match m with
  | MClientRequest r => EncodeClientRequest r
  | MClientResponse r => EncodeClientResponse r
  | MClusterRequest r => EncodeClusterRequest r
  | MClusterResponse r => EncodeClusterResponse r
  end.

(** The fields fit the C++ types they have ([uint64_t] and [uint32_t]). *)
Definition fields_fit (m : Message) : Prop :=
  match m with
  | MClientRequest r => is_u64 (creq_request_id r)
  | MClientResponse r => is_u64 (cresp_request_id r) /\ is_u32 (cresp_leader_hint r)
  | MClusterRequest r => is_u64 (clreq_request_id r)
  | MClusterResponse r => is_u64 (clresp_request_id r)
  end.

(** The messages the encoders accept. *)
Definition encodable (m : Message) : Prop :=
  zlen (payload_of m) <= kMaxPayloadSize /\
  match m with
  | MClientRequest r => creq_key r <> [] /\ value_allowed (creq_opcode r) (creq_value r)
  | _ => True
  end.

(** What [TryParseFrame] leaves in the out-parameters for a message. *)
Definition deliver (m : Message) (o : FrameOut) : FrameOut :=
  let t := out_type o in
  set_out_type (message_type m)
    match m with
    | MClientRequest r => mkFrameOut (store (out_request o) r) (out_response o)
                            (out_cluster_request o) (out_cluster_response o) t
    | MClientResponse r => mkFrameOut (out_request o) (store (out_response o) r)
                             (out_cluster_request o) (out_cluster_response o) t
    | MClusterRequest r => mkFrameOut (out_request o) (out_response o)
                             (store (out_cluster_request o) r) (out_cluster_response o) t
    | MClusterResponse r => mkFrameOut (out_request o) (out_response o)
                              (out_cluster_request o) (store (out_cluster_response o) r) t
    end.

(** A whole frame: the eight header bytes and the payload. *)
Definition frame_of (m : Message) : bytes :=
  frame_header (message_type m) (zlen (payload_of m)) ++ payload_of m.

(** Decoding a payload of a given type. *)
Definition decode_message (t : MessageType) (p : bytes) : option Message :=
  match t with
  | MessageType.kClientRequest =>
      match DecodeClientRequest p with Value r => Some (MClientRequest r) | _ => None end
  | MessageType.kClientResponse =>
      match DecodeClientResponse p with Value r => Some (MClientResponse r) | _ => None end
  | MessageType.kClusterRequest =>
      match DecodeClusterRequest p with Value r => Some (MClusterRequest r) | _ => None end
  | MessageType.kClusterResponse =>
      match DecodeClusterResponse p with Value r => Some (MClusterResponse r) | _ => None end
  end.

(** ** Encoding *)

Lemma frame_header_bytes t n :
  0 <= n <= kMaxPayloadSize ->
  frame_header t n
  = be_bytes 2 kMagic ++ [byte_of_Z kProtocolVersion] ++ [byte_of_Z (MessageType_value t)]
    ++ be_bytes 4 n.
Proof.
  intros Hn. unfold frame_header. autorewrite with nkv_write. cbn [app].
  rewrite <- !app_assoc. unfold u32. rewrite Z.mod_small; [done|].
  unfold kMaxPayloadSize in Hn. lia.
Qed.

Lemma zlen_frame_header t n : zlen (frame_header t n) = kFrameHeaderSize.
Proof. unfold frame_header. autorewrite with nkv_write. autorewrite with zlen. reflexivity. Qed.

#[local] Hint Rewrite zlen_frame_header : zlen.

Ltac open_payload :=
  unfold payload_of, payload_ClientRequest, payload_ClientResponse, payload_ClusterRequest,
    payload_ClusterResponse in *.

Lemma zlen_payload_ClientRequest r :
  zlen (payload_ClientRequest r) = 8 + 1 + 4 + zlen (creq_key r) + 4 + zlen (creq_value r).
Proof. open_payload. zlen_lia. Qed.

Lemma zlen_payload_ClientResponse r :
  zlen (payload_ClientResponse r) = 8 + 2 + 4 + zlen (cresp_value r) + 4.
Proof. open_payload. zlen_lia. Qed.

Lemma zlen_payload_ClusterRequest r :
  zlen (payload_ClusterRequest r) = 8 + 1 + 4 + zlen (clreq_body r).
Proof. open_payload. zlen_lia. Qed.

Lemma zlen_payload_ClusterResponse r :
  zlen (payload_ClusterResponse r) = 8 + 2 + 4 + zlen (clresp_body r).
Proof. open_payload. zlen_lia. Qed.

Lemma EncodeClientRequest_eq r :
  encodable (MClientRequest r) -> EncodeClientRequest r = Value (frame_of (MClientRequest r)).
Proof.
  intros [Hsize [Hkey Hval]]. cbn [payload_of] in Hsize.
  rewrite zlen_payload_ClientRequest in Hsize.
  unfold EncodeClientRequest, frame_of. cbn [payload_of message_type].
  rewrite zlen_payload_ClientRequest.
  destruct (is_empty (creq_key r)) eqn:Ek; [by apply is_empty_true in Ek|].
  assert (Hno : (kMaxPayloadSize <? 8 + 1 + 4 + zlen (creq_key r) + 4 + zlen (creq_value r)) = false)
    by lia.
  unfold kMaxPayloadSize in Hsize.
  assert (Hout : forall h : bytes,
    WriteU32BE (WriteU32BE (WriteU64BE h (creq_request_id r)
      ++ [byte_of_Z (Opcode_value (creq_opcode r))]) (u32 (zlen (creq_key r))) ++ creq_key r)
      (u32 (zlen (creq_value r))) ++ creq_value r = h ++ payload_ClientRequest r).
  { intros h. autorewrite with nkv_write. rewrite <- !app_assoc.
    rewrite (u32_zlen (creq_key r) (2 ^ 24)), (u32_zlen (creq_value r) (2 ^ 24)) by zlen_lia.
    reflexivity. }
  destruct (creq_opcode r) eqn:Eo; cbn in Hval; [| | |done].
  - destruct (is_empty (creq_value r)) eqn:Ev; [by apply is_empty_true in Ev|].
    rewrite Hno. f_equal. rewrite <- Hout. done.
  - assert (is_empty (creq_value r) = true) as -> by by rewrite Hval.
    cbn [negb]. rewrite Hno. f_equal. by rewrite <- Hout.
  - assert (is_empty (creq_value r) = true) as -> by by rewrite Hval.
    cbn [negb]. rewrite Hno. f_equal. by rewrite <- Hout.
Qed.

Lemma EncodeClientRequest_inv r f :
  EncodeClientRequest r = Value f -> encodable (MClientRequest r).
Proof.
  unfold EncodeClientRequest, encodable. cbn [payload_of]. rewrite zlen_payload_ClientRequest.
  destruct (is_empty (creq_key r)) eqn:Ek; [done|].
  intros H. assert (creq_key r <> []) by (intros E; rewrite E in Ek; done).
  destruct (creq_opcode r), (is_empty (creq_value r)) eqn:Ev; cbn [negb] in H; try discriminate H;
    (case_match; [discriminate H|]); (split; [lia|split; [done|]]); cbn;
    try (by apply is_empty_true); intros E; rewrite E in Ev; done.
Qed.

Lemma EncodeClientResponse_eq r :
  EncodeClientResponse r =
  if kMaxPayloadSize <? zlen (payload_of (MClientResponse r))
  then Failed (invalid "payload exceeds max size")
  else Value (frame_of (MClientResponse r)).
Proof.
  unfold EncodeClientResponse, frame_of. cbn [payload_of message_type].
  rewrite zlen_payload_ClientResponse. case_match; [done|]. f_equal.
  unfold payload_ClientResponse, kMaxPayloadSize in *. autorewrite with nkv_write.
  rewrite <- !app_assoc. rewrite (u32_zlen (cresp_value r) (2 ^ 24)) by zlen_lia. reflexivity.
Qed.

Lemma EncodeClusterRequest_eq r :
  EncodeClusterRequest r =
  if kMaxPayloadSize <? zlen (payload_of (MClusterRequest r))
  then Failed (invalid "payload exceeds max size")
  else Value (frame_of (MClusterRequest r)).
Proof.
  unfold EncodeClusterRequest, frame_of. cbn [payload_of message_type].
  rewrite zlen_payload_ClusterRequest. case_match; [done|]. f_equal.
  unfold payload_ClusterRequest, kMaxPayloadSize in *. autorewrite with nkv_write.
  rewrite <- !app_assoc. rewrite (u32_zlen (clreq_body r) (2 ^ 24)) by zlen_lia. reflexivity.
Qed.

Lemma EncodeClusterResponse_eq r :
  EncodeClusterResponse r =
  if kMaxPayloadSize <? zlen (payload_of (MClusterResponse r))
  then Failed (invalid "payload exceeds max size")
  else Value (frame_of (MClusterResponse r)).
Proof.
  unfold EncodeClusterResponse, frame_of. cbn [payload_of message_type].
  rewrite zlen_payload_ClusterResponse. case_match; [done|]. f_equal.
  unfold payload_ClusterResponse, kMaxPayloadSize in *. autorewrite with nkv_write.
  rewrite <- !app_assoc. rewrite (u32_zlen (clresp_body r) (2 ^ 24)) by zlen_lia. reflexivity.
Qed.

(** Each encoder accepts exactly the encodable messages and writes their frame. *)
Lemma encode_message_spec m f :
  encode_message m = Value f <-> encodable m /\ f = frame_of m.
Proof.
  split.
  - destruct m as [r|r|r|r]; cbn [encode_message]; intros H.
    + pose proof (EncodeClientRequest_inv _ _ H) as He.
      rewrite EncodeClientRequest_eq in H by done. by simplify_eq.
    + rewrite EncodeClientResponse_eq in H. case_match; simplify_eq.
      unfold encodable. split; [split; [lia|done]|done].
    + rewrite EncodeClusterRequest_eq in H. case_match; simplify_eq.
      unfold encodable. split; [split; [lia|done]|done].
    + rewrite EncodeClusterResponse_eq in H. case_match; simplify_eq.
      unfold encodable. split; [split; [lia|done]|done].
  - intros [He ->]. pose proof (proj1 He) as Hsize.
    destruct m as [r|r|r|r]; cbn [encode_message].
    + by apply EncodeClientRequest_eq.
    + rewrite EncodeClientResponse_eq. case_match; [lia|done].
    + rewrite EncodeClusterRequest_eq. case_match; [lia|done].
    + rewrite EncodeClusterResponse_eq. case_match; [lia|done].
Qed.

(** ** Decoding inverts encoding, and only it *)

(** Replaces the guard of the next [return_if] by [false]. *)
Ltac pass_guard :=
  match goal with
  | |- context [if ?c then Failed _ else _] => replace c with false by (symmetry; zlen_lia)
  end; cbv iota.

(** From [H : zdrop off p = field ++ rest], the tail of [p] after the field. *)
Ltac advance H off' H' :=
  let E := fresh in
  pose proof (fun pf => zdrop_step _ off' _ _ _ H pf) as E;
  assert (H' := E ltac:(zlen_lia) ltac:(zlen_lia)); clear E.

Lemma DecodeClientRequest_payload r :
  is_u64 (creq_request_id r) -> encodable (MClientRequest r) ->
  DecodeClientRequest (payload_ClientRequest r) = Value r.
Proof.
  intros Hid [Hsize [Hkey Hval]]. cbn [payload_of] in Hsize. unfold kMaxPayloadSize in Hsize.
  rewrite zlen_payload_ClientRequest in Hsize.
  assert (Hk : 0 < zlen (creq_key r)) by (apply is_empty_false; by destruct (creq_key r)).
  assert (Hop : 1 <= Opcode_value (creq_opcode r) <= 3)
    by (destruct (creq_opcode r); cbn in *; lia || done).
  unfold DecodeClientRequest. rewrite zlen_payload_ClientRequest.
  set (p := payload_ClientRequest r).
  assert (H0 : zdrop 0 p = payload_ClientRequest r) by reflexivity.
  unfold payload_ClientRequest in H0.
  advance H0 (0 + 8) H1. advance H1 (0 + 8 + 1) H2. advance H2 (0 + 8 + 1 + 4) H3.
  advance H3 (0 + 8 + 1 + 4 + zlen (creq_key r)) H4.
  advance H4 (0 + 8 + 1 + 4 + zlen (creq_key r) + 4) H5.
  cbv zeta. rewrite H0, ReadU64BE_be by done. rewrite H1. cbn [app]. rewrite at_byte_of_Z by lia.
  rewrite H2, ReadU32BE_be by zlen_lia. rewrite (slice_at _ _ _ _ _ H3) by done.
  rewrite H4, ReadU32BE_be by zlen_lia. rewrite <- (app_nil_r (creq_value r)) in H5.
  rewrite (slice_at _ _ _ _ _ H5) by done.
  cbn [Opcode_value]. do 9 pass_guard.
  destruct r as [id o k v]. cbn [creq_request_id creq_opcode creq_key creq_value] in *.
  destruct o; cbn in Hval |- *; try done.
  - by destruct v.
  - by subst v.
  - by subst v.
Qed.

Lemma ResponseStatus_value_range s : 0 <= ResponseStatus_value s <= 4.
Proof. destruct s; cbn; lia. Qed.

Lemma ResponseStatus_of_value_of s : ResponseStatus_of_value (ResponseStatus_value s) = s.
Proof. by destruct s. Qed.

Lemma ResponseStatus_value_of v :
  0 <= v <= 4 -> ResponseStatus_value (ResponseStatus_of_value v) = v.
Proof. intros Hv. unfold ResponseStatus_of_value. repeat case_match; cbn; lia. Qed.

Lemma ClusterOpcode_value_range o : 1 <= ClusterOpcode_value o <= 4.
Proof. destruct o; cbn; lia. Qed.

Lemma ClusterOpcode_of_byte_of o : ClusterOpcode_of_byte (ClusterOpcode_value o) = o.
Proof. by destruct o. Qed.

Lemma ClusterOpcode_value_of v :
  1 <= v <= 4 -> ClusterOpcode_value (ClusterOpcode_of_byte v) = v.
Proof. intros Hv. unfold ClusterOpcode_of_byte. repeat case_match; cbn; lia. Qed.

Lemma DecodeClientResponse_payload r :
  is_u64 (cresp_request_id r) -> is_u32 (cresp_leader_hint r) ->
  zlen (payload_ClientResponse r) <= kMaxPayloadSize ->
  DecodeClientResponse (payload_ClientResponse r) = Value r.
Proof.
  intros Hid Hhint Hsize. unfold kMaxPayloadSize in Hsize.
  rewrite zlen_payload_ClientResponse in Hsize.
  pose proof (ResponseStatus_value_range (cresp_status r)) as Hst.
  unfold DecodeClientResponse. rewrite zlen_payload_ClientResponse.
  set (p := payload_ClientResponse r).
  assert (H0 : zdrop 0 p = payload_ClientResponse r) by reflexivity.
  unfold payload_ClientResponse in H0.
  advance H0 (0 + 8) H1. advance H1 (0 + 8 + 2) H2. advance H2 (0 + 8 + 2 + 4) H3.
  advance H3 (0 + 8 + 2 + 4 + zlen (cresp_value r)) H4.
  rewrite <- (app_nil_r (be_bytes 4 (cresp_leader_hint r))) in H4.
  cbv zeta. rewrite H0, ReadU64BE_be by done. rewrite H1, ReadU16BE_be by lia.
  rewrite H2, ReadU32BE_be by zlen_lia. rewrite (slice_at _ _ _ _ _ H3) by done.
  rewrite H4, ReadU32BE_be by done.
  cbn [ResponseStatus_value]. do 7 pass_guard.
  rewrite ResponseStatus_of_value_of. by destruct r.
Qed.

Lemma DecodeClusterRequest_payload r :
  is_u64 (clreq_request_id r) -> zlen (payload_ClusterRequest r) <= kMaxPayloadSize ->
  DecodeClusterRequest (payload_ClusterRequest r) = Value r.
Proof.
  intros Hid Hsize. unfold kMaxPayloadSize in Hsize.
  rewrite zlen_payload_ClusterRequest in Hsize.
  pose proof (ClusterOpcode_value_range (clreq_opcode r)) as Hop.
  unfold DecodeClusterRequest. rewrite zlen_payload_ClusterRequest.
  set (p := payload_ClusterRequest r).
  assert (H0 : zdrop 0 p = payload_ClusterRequest r) by reflexivity.
  unfold payload_ClusterRequest in H0.
  advance H0 (0 + 8) H1. advance H1 (0 + 8 + 1) H2. advance H2 (0 + 8 + 1 + 4) H3.
  rewrite <- (app_nil_r (clreq_body r)) in H3.
  cbv zeta. rewrite H0, ReadU64BE_be by done. rewrite H1. cbn [app]. rewrite at_byte_of_Z by lia.
  rewrite H2, ReadU32BE_be by zlen_lia. rewrite (slice_at _ _ _ _ _ H3) by done.
  cbn [ClusterOpcode_value]. do 6 pass_guard.
  rewrite ClusterOpcode_of_byte_of. by destruct r.
Qed.

Lemma DecodeClusterResponse_payload r :
  is_u64 (clresp_request_id r) -> zlen (payload_ClusterResponse r) <= kMaxPayloadSize ->
  DecodeClusterResponse (payload_ClusterResponse r) = Value r.
Proof.
  intros Hid Hsize. unfold kMaxPayloadSize in Hsize.
  rewrite zlen_payload_ClusterResponse in Hsize.
  pose proof (ResponseStatus_value_range (clresp_status r)) as Hst.
  unfold DecodeClusterResponse. rewrite zlen_payload_ClusterResponse.
  set (p := payload_ClusterResponse r).
  assert (H0 : zdrop 0 p = payload_ClusterResponse r) by reflexivity.
  unfold payload_ClusterResponse in H0.
  advance H0 (0 + 8) H1. advance H1 (0 + 8 + 2) H2. advance H2 (0 + 8 + 2 + 4) H3.
  rewrite <- (app_nil_r (clresp_body r)) in H3.
  cbv zeta. rewrite H0, ReadU64BE_be by done. rewrite H1, ReadU16BE_be by lia.
  rewrite H2, ReadU32BE_be by zlen_lia. rewrite (slice_at _ _ _ _ _ H3) by done.
  cbn [ResponseStatus_value]. do 6 pass_guard.
  rewrite ResponseStatus_of_value_of. by destruct r.
Qed.

(** Takes the [false] branch of every guard of a decoder that succeeded. *)
Ltac open_guards H :=
  repeat match type of H with
  | (if ?c then Failed _ else _) = Value _ =>
      let E := fresh "G" in destruct c eqn:E; [discriminate H|]
  end.

(** Splits the next [n] bytes off [zdrop off p] in the equation [E : p = ...]. *)
Ltac split_at E off n :=
  rewrite (zdrop_split off n) in E by zlen_lia.

Lemma DecodeClientRequest_canonical p r :
  DecodeClientRequest p = Value r -> zlen p <= kMaxPayloadSize ->
  is_u64 (creq_request_id r) /\ encodable (MClientRequest r) /\ p = payload_ClientRequest r.
Proof.
  unfold DecodeClientRequest. cbv zeta. intros H Hmax. cbn [Opcode_value] in H. open_guards H.
  set (klen := ReadU32BE (zdrop (0 + 8 + 1) p)) in *.
  set (vlen := ReadU32BE (zdrop (0 + 8 + 1 + 4 + klen) p)) in *.
  assert (Hk : is_u32 klen) by (apply ReadU32BE_at_range; lia).
  assert (Hv : is_u32 vlen) by (apply ReadU32BE_at_range; lia).
  assert (Hid : is_u64 (ReadU64BE (zdrop 0 p))) by (apply ReadU64BE_at_range; lia).
  set (key := slice (0 + 8 + 1 + 4) klen p) in *.
  set (value := slice (0 + 8 + 1 + 4 + klen + 4) vlen p) in *.
  assert (Hkl : zlen key = klen) by (apply zlen_slice; lia).
  assert (Hvl : zlen value = vlen) by (apply zlen_slice; lia).
  set (o := at_ (zdrop (0 + 8) p) 0) in *.
  assert (Ho : Opcode_value (Opcode_of_byte o) = o)
    by (unfold Opcode_of_byte; repeat case_match; cbn; lia).
  assert (Hr : r = mkClientRequest (ReadU64BE (zdrop 0 p)) (Opcode_of_byte o) key value /\
               value_allowed (Opcode_of_byte o) value).
  { assert (o = 1 \/ o = 2 \/ o = 3) as Hc by lia. revert H. unfold Opcode_of_byte.
    destruct Hc as [-> | [-> | ->]]; cbn [Z.eqb Pos.eqb]; destruct value; cbn; intros H; by simplify_eq. }
  destruct Hr as [-> Hval]. clear H.
  assert (Hp : p = payload_ClientRequest
                     (mkClientRequest (ReadU64BE (zdrop 0 p)) (Opcode_of_byte o) key value)).
  { unfold payload_ClientRequest. cbn [creq_request_id creq_opcode creq_key creq_value].
    rewrite Hkl, Hvl, Ho. unfold klen, vlen, o, key, value.
    rewrite be_bytes_ReadU64BE, byte_at_slice, !be_bytes_ReadU32BE by lia.
    fold klen. fold vlen.
    rewrite <- (zdrop_0 p) at 1.
    rewrite (zdrop_split 0 8), (zdrop_split (0 + 8) 1), (zdrop_split (0 + 8 + 1) 4),
      (zdrop_split (0 + 8 + 1 + 4) klen), (zdrop_split (0 + 8 + 1 + 4 + klen) 4),
      (zdrop_split (0 + 8 + 1 + 4 + klen + 4) vlen) by lia.
    rewrite (zdrop_all (0 + 8 + 1 + 4 + klen + 4 + vlen)) by lia.
    rewrite app_nil_r. reflexivity. }
  split; [done|]. split; [|done].
  split; [cbn [payload_of]; by rewrite <- Hp|].
  split; [|done]. cbn [creq_key]. intros E. rewrite E, zlen_nil in Hkl. lia.
Qed.

Lemma DecodeClientResponse_canonical p r :
  DecodeClientResponse p = Value r ->
  is_u64 (cresp_request_id r) /\ is_u32 (cresp_leader_hint r) /\ p = payload_ClientResponse r.
Proof.
  unfold DecodeClientResponse. cbv zeta. intros H. cbn [ResponseStatus_value] in H. open_guards H.
  set (vlen := ReadU32BE (zdrop (0 + 8 + 2) p)) in *.
  assert (Hv : is_u32 vlen) by (apply ReadU32BE_at_range; lia).
  assert (Hid : is_u64 (ReadU64BE (zdrop 0 p))) by (apply ReadU64BE_at_range; lia).
  assert (Hst : is_u16 (ReadU16BE (zdrop (0 + 8) p))) by (apply ReadU16BE_at_range; lia).
  assert (Hh : is_u32 (ReadU32BE (zdrop (0 + 8 + 2 + 4 + vlen) p)))
    by (apply ReadU32BE_at_range; lia).
  simplify_eq. split; [done|]. split; [done|].
  unfold payload_ClientResponse.
  cbn [cresp_request_id cresp_status cresp_value cresp_leader_hint].
  rewrite ResponseStatus_value_of, zlen_slice by lia. unfold vlen at 1.
  rewrite be_bytes_ReadU64BE, be_bytes_ReadU16BE, !be_bytes_ReadU32BE by lia.
  rewrite <- (zdrop_0 p) at 1.
  rewrite (zdrop_split 0 8), (zdrop_split (0 + 8) 2), (zdrop_split (0 + 8 + 2) 4),
    (zdrop_split (0 + 8 + 2 + 4) vlen), (zdrop_split (0 + 8 + 2 + 4 + vlen) 4) by lia.
  rewrite (zdrop_all (0 + 8 + 2 + 4 + vlen + 4)) by lia. by rewrite app_nil_r.
Qed.

Lemma DecodeClusterRequest_canonical p r :
  DecodeClusterRequest p = Value r ->
  is_u64 (clreq_request_id r) /\ p = payload_ClusterRequest r.
Proof.
  unfold DecodeClusterRequest. cbv zeta. intros H. cbn [ClusterOpcode_value] in H. open_guards H.
  set (blen := ReadU32BE (zdrop (0 + 8 + 1) p)) in *.
  assert (Hb : is_u32 blen) by (apply ReadU32BE_at_range; lia).
  assert (Hid : is_u64 (ReadU64BE (zdrop 0 p))) by (apply ReadU64BE_at_range; lia).
  simplify_eq. split; [done|].
  unfold payload_ClusterRequest. cbn [clreq_request_id clreq_opcode clreq_body].
  rewrite ClusterOpcode_value_of, zlen_slice by lia. unfold blen at 1.
  rewrite be_bytes_ReadU64BE, byte_at_slice, be_bytes_ReadU32BE by lia.
  rewrite <- (zdrop_0 p) at 1.
  rewrite (zdrop_split 0 8), (zdrop_split (0 + 8) 1), (zdrop_split (0 + 8 + 1) 4),
    (zdrop_split (0 + 8 + 1 + 4) blen) by lia.
  rewrite (zdrop_all (0 + 8 + 1 + 4 + blen)) by lia. by rewrite app_nil_r.
Qed.

Lemma DecodeClusterResponse_canonical p r :
  DecodeClusterResponse p = Value r ->
  is_u64 (clresp_request_id r) /\ p = payload_ClusterResponse r.
Proof.
  unfold DecodeClusterResponse. cbv zeta. intros H. cbn [ResponseStatus_value] in H. open_guards H.
  set (blen := ReadU32BE (zdrop (0 + 8 + 2) p)) in *.
  assert (Hb : is_u32 blen) by (apply ReadU32BE_at_range; lia).
  assert (Hid : is_u64 (ReadU64BE (zdrop 0 p))) by (apply ReadU64BE_at_range; lia).
  assert (Hst : is_u16 (ReadU16BE (zdrop (0 + 8) p))) by (apply ReadU16BE_at_range; lia).
  simplify_eq. split; [done|].
  unfold payload_ClusterResponse. cbn [clresp_request_id clresp_status clresp_body].
  rewrite ResponseStatus_value_of, zlen_slice by lia. unfold blen at 1.
  rewrite be_bytes_ReadU64BE, be_bytes_ReadU16BE, be_bytes_ReadU32BE by lia.
  rewrite <- (zdrop_0 p) at 1.
  rewrite (zdrop_split 0 8), (zdrop_split (0 + 8) 2), (zdrop_split (0 + 8 + 2) 4),
    (zdrop_split (0 + 8 + 2 + 4) blen) by lia.
  rewrite (zdrop_all (0 + 8 + 2 + 4 + blen)) by lia. by rewrite app_nil_r.
Qed.

(** Decoding a payload of type [t] and encoding a message are inverse. *)
Lemma decode_message_spec t p m :
  zlen p <= kMaxPayloadSize ->
  decode_message t p = Some m <->
  message_type m = t /\ fields_fit m /\ encodable m /\ p = payload_of m.
Proof.
  intros Hmax. split.
  - destruct t; cbn [decode_message]; intros H; case_match; simplify_eq; cbn [message_type payload_of].
    + edestruct DecodeClientRequest_canonical as (? & ? & ?); eauto.
    + edestruct DecodeClientResponse_canonical as (? & ? & Hp); [eauto|]. rewrite Hp in Hmax.
      unfold encodable. cbn [payload_of fields_fit]. tauto.
    + edestruct DecodeClusterRequest_canonical as (? & Hp); [eauto|]. rewrite Hp in Hmax.
      unfold encodable. cbn [payload_of fields_fit]. tauto.
    + edestruct DecodeClusterResponse_canonical as (? & Hp); [eauto|]. rewrite Hp in Hmax.
      unfold encodable. cbn [payload_of fields_fit]. tauto.
  - intros (<- & Hfit & He & ->).
    destruct m as [r|r|r|r]; cbn [fields_fit] in Hfit;
      cbn [message_type payload_of decode_message].
    + by rewrite DecodeClientRequest_payload.
    + destruct He. by rewrite DecodeClientResponse_payload by tauto.
    + destruct He. by rewrite DecodeClusterRequest_payload.
    + destruct He. by rewrite DecodeClusterResponse_payload.
Qed.

Lemma decode_payload_deliver t p o :
  match decode_payload t p o with
  | Some o' => exists m, decode_message t p = Some m /\ set_out_type t o' = deliver m o
  | None => decode_message t p = None
  end.
Proof.
  destruct t; cbn [decode_payload decode_message];
    match goal with |- context [match ?d with Value _ => _ | Failed _ => _ end] => destruct d end;
    cbv iota; first [reflexivity | eexists; split; reflexivity].
Qed.

Lemma MessageType_of_byte_value t : MessageType_of_byte (MessageType_value t) = Some t.
Proof. by destruct t. Qed.

Lemma MessageType_value_of_byte b t : MessageType_of_byte b = Some t -> MessageType_value t = b.
Proof. unfold MessageType_of_byte. intros. repeat case_match; simplify_eq; cbn; lia. Qed.

Lemma MessageType_value_range t : 0 <= MessageType_value t < 256.
Proof. destruct t; cbn; lia. Qed.

(** ** The frame parser *)

(** The four header fields of a buffer that starts with a header. *)
Lemma header_fields t n rest :
  0 <= n <= kMaxPayloadSize ->
  let b := frame_header t n ++ rest in
  ReadU16BE b = kMagic /\ at_ b 2 = kProtocolVersion /\
  at_ b 3 = MessageType_value t /\ ReadU32BE (zdrop 4 b) = n /\ zdrop 8 b = rest.
Proof.
  intros Hn b. unfold b. rewrite frame_header_bytes by done. rewrite <- !app_assoc.
  set (tail := be_bytes 4 n ++ rest).
  assert (Hm : be_bytes 2 kMagic = [byte_of_Z 0x4E; byte_of_Z 0x4B]) by reflexivity.
  split; [apply ReadU16BE_be; unfold kMagic; lia|].
  rewrite Hm. cbn [app]. unfold at_. cbn [nth]. rewrite !byte_to_of_Z.
  split; [reflexivity|]. split; [apply Z.mod_small, MessageType_value_range|].
  unfold zdrop. cbn [Z.to_nat Pos.to_nat Pos.iter_op Nat.add drop].
  split; [apply ReadU32BE_be; unfold kMaxPayloadSize in Hn; lia|].
  unfold tail. apply (zdrop_app_exact (be_bytes 4 n) rest 4). zlen_lia.
Qed.

Lemma TryParseFrame_frame m rest o :
  fields_fit m -> encodable m ->
  TryParseFrame (frame_of m ++ rest) o = (ParseResult.kComplete, rest, deliver m o).
Proof.
  intros Hfit He. pose proof (proj1 He) as Hsize.
  pose proof (zlen_nonneg (payload_of m)).
  unfold frame_of. rewrite <- app_assoc.
  destruct (header_fields (message_type m) (zlen (payload_of m)) (payload_of m ++ rest))
    as (H1 & H2 & H3 & H4 & H5); [lia|].
  set (b := frame_header _ _ ++ _) in *.
  assert (Hb : zlen b = 8 + zlen (payload_of m) + zlen rest)
    by (unfold b; autorewrite with zlen; unfold kFrameHeaderSize; lia).
  pose proof (zlen_nonneg rest).
  unfold TryParseFrame, kFrameHeaderSize. rewrite H1, H2, H3, H4, Hb, MessageType_of_byte_value.
  do 2 rewrite Z.eqb_refl. cbn [negb].
  repeat match goal with
  | |- context [if ?a <? ?c then _ else _] => replace (a <? c) with false by (symmetry; lia)
  end.
  rewrite (slice_at 8 _ b _ _ H5) by done.
  assert (Hd : decode_message (message_type m) (payload_of m) = Some m)
    by (apply decode_message_spec; auto).
  pose proof (decode_payload_deliver (message_type m) (payload_of m) o) as Hdel.
  destruct (decode_payload _ _ o); [|congruence].
  destruct Hdel as (m' & Hm' & ->). rewrite Hd in Hm'. injection Hm' as <-.
  by rewrite (zdrop_step 8 (8 + zlen (payload_of m)) b _ _ H5) by lia.
Qed.

Lemma header_of_fields b t :
  8 <= zlen b -> ReadU16BE b = kMagic -> at_ b 2 = kProtocolVersion ->
  at_ b 3 = MessageType_value t -> ReadU32BE (zdrop 4 b) <= kMaxPayloadSize ->
  b = frame_header t (ReadU32BE (zdrop 4 b)) ++ zdrop 8 b.
Proof.
  intros Hb H1 H2 H3 H4.
  assert (is_u32 (ReadU32BE (zdrop 4 b))) by (apply ReadU32BE_at_range; lia).
  rewrite frame_header_bytes by lia. rewrite <- H1, <- H2, <- H3, <- !app_assoc.
  rewrite <- (zdrop_0 b) at 2. rewrite be_bytes_ReadU16BE, be_bytes_ReadU32BE by lia.
  rewrite (at_zdrop b 2 2), (at_zdrop b 3 3), !byte_at_slice by lia.
  rewrite <- (zdrop_0 b) at 1.
  rewrite (zdrop_split 0 2), (zdrop_split (0 + 2) 1), (zdrop_split (0 + 2 + 1) 1),
    (zdrop_split (0 + 2 + 1 + 1) 4) by lia. reflexivity.
Qed.

Lemma TryParseFrame_complete b rest o o' :
  TryParseFrame b o = (ParseResult.kComplete, rest, o') ->
  exists m, fields_fit m /\ encodable m /\ b = frame_of m ++ rest /\ o' = deliver m o.
Proof.
  unfold TryParseFrame, kFrameHeaderSize. intros H.
  destruct (zlen b <? 8) eqn:G1; [done|].
  destruct (ReadU16BE b =? kMagic) eqn:G2; [cbn [negb] in H|done].
  destruct (at_ b 2 =? kProtocolVersion) eqn:G3; [cbn [negb] in H|done].
  destruct (kMaxPayloadSize <? ReadU32BE (zdrop 4 b)) eqn:G4; [done|].
  set (n := ReadU32BE (zdrop 4 b)) in *.
  destruct (zlen b <? 8 + n) eqn:G5; [done|].
  destruct (MessageType_of_byte (at_ b 3)) as [t|] eqn:Et; [|done].
  apply MessageType_value_of_byte in Et.
  assert (is_u32 n) by (apply ReadU32BE_at_range; lia).
  pose proof (decode_payload_deliver t (slice 8 n b) o) as Hdel.
  destruct (decode_payload t (slice 8 n b) o) as [o1|]; [|done].
  destruct Hdel as (m & Em & Ho1).
  assert (Hn : zlen (slice 8 n b) = n) by (apply zlen_slice; lia).
  apply decode_message_spec in Em; [|lia]. destruct Em as (Ht & Hfit & He & Hp).
  exists m. injection H as <- <-. split; [done|]. split; [done|]. split; [|done].
  unfold frame_of. rewrite <- app_assoc, <- Hp, Hn, slice_zdrop by lia.
  apply header_of_fields; try lia. congruence.
Qed.

(** A completed parse is unaffected by the bytes that arrive later. *)
Lemma TryParseFrame_complete_app b rest o o' more :
  TryParseFrame b o = (ParseResult.kComplete, rest, o') ->
  TryParseFrame (b ++ more) o = (ParseResult.kComplete, rest ++ more, o').
Proof.
  intros H. apply TryParseFrame_complete in H as (m & Hfit & He & -> & ->).
  rewrite <- app_assoc. by apply TryParseFrame_frame.
Qed.

Lemma nth_app_lt (b more : bytes) i : (i < length b)%nat -> at_ (b ++ more) i = at_ b i.
Proof. intros Hi. unfold at_. by rewrite app_nth1. Qed.

(** Header fields of [b ++ more] when [b] holds the header. *)
Lemma header_app b more :
  8 <= zlen b ->
  ReadU16BE (b ++ more) = ReadU16BE b /\ at_ (b ++ more) 2 = at_ b 2 /\
  at_ (b ++ more) 3 = at_ b 3 /\ ReadU32BE (zdrop 4 (b ++ more)) = ReadU32BE (zdrop 4 b).
Proof.
  intros Hb. assert (8 <= length b)%nat by (unfold zlen in Hb; lia).
  rewrite !nth_app_lt by lia. split; [|split; [done|split; [done|]]].
  - unfold ReadU16BE. by rewrite !nth_app_lt by lia.
  - rewrite zdrop_app_le by lia.
    assert (4 <= length (zdrop 4 b))%nat
      by (assert (zlen (zdrop 4 b) = zlen b - 4) by (apply zlen_zdrop; lia); unfold zlen in *; lia).
    unfold ReadU32BE. by rewrite !nth_app_lt by lia.
Qed.

(** A malformed frame stays malformed whatever arrives later. *)
Lemma TryParseFrame_error_app b o b' o' more :
  TryParseFrame b o = (ParseResult.kError, b', o') ->
  TryParseFrame (b ++ more) o = (ParseResult.kError, [], o).
Proof.
  unfold TryParseFrame, kFrameHeaderSize. intros H.
  destruct (zlen b <? 8) eqn:G1; [done|].
  destruct (header_app b more) as (-> & -> & -> & ->); [lia|].
  pose proof (zlen_nonneg more).
  rewrite zlen_app. replace (zlen b + zlen more <? 8) with false by lia.
  destruct (negb (ReadU16BE b =? kMagic)); [done|].
  destruct (negb (at_ b 2 =? kProtocolVersion)); [done|].
  destruct (kMaxPayloadSize <? ReadU32BE (zdrop 4 b)) eqn:G4; [done|].
  assert (is_u32 (ReadU32BE (zdrop 4 b))) by (apply ReadU32BE_at_range; lia).
  destruct (zlen b <? 8 + ReadU32BE (zdrop 4 b)) eqn:G5; [done|].
  replace (zlen b + zlen more <? 8 + ReadU32BE (zdrop 4 b)) with false by lia.
  rewrite slice_app_le by lia.
  destruct (MessageType_of_byte _); [|done]. by destruct (decode_payload _ _ _).
Qed.

Lemma TryParseFrame_need_more b b' o o' :
  TryParseFrame b o = (ParseResult.kNeedMore, b', o') -> b' = b /\ o' = o.
Proof.
  unfold TryParseFrame. intros H. repeat (case_match; simplify_eq); done.
Qed.

Lemma TryParseFrame_error b b' o o' :
  TryParseFrame b o = (ParseResult.kError, b', o') -> b' = [] /\ o' = o.
Proof.
  unfold TryParseFrame. intros H. repeat (case_match; simplify_eq); done.
Qed.

Lemma zlen_frame_of m : zlen (frame_of m) = kFrameHeaderSize + zlen (payload_of m).
Proof. unfold frame_of. autorewrite with zlen. reflexivity. Qed.

(** ** Properties of the codec *)

(** C15: the parser accepts exactly the encoders' output. [TryParseFrame] returns
    [kComplete] and leaves [rest] in the buffer if and only if the buffer is the
    encoding, by the encoder of one of the four message structs, of a message whose
    fields fit their C++ types, followed by [rest]; and that message is what it
    stores through the out-parameters. This is the round trip in both directions,
    with any bytes of later frames following. *)
Theorem parse_accepts_exactly_encoded (b rest : bytes) (o o' : FrameOut) :
  TryParseFrame b o = (ParseResult.kComplete, rest, o') <->
  exists m f, fields_fit m /\ encode_message m = Value f /\ b = f ++ rest /\ o' = deliver m o.
Proof.
  split.
  - intros H. apply TryParseFrame_complete in H as (m & Hfit & He & -> & ->).
    exists m, (frame_of m). rewrite encode_message_spec. auto.
  - intros (m & f & Hfit & Hf & -> & ->). apply encode_message_spec in Hf as [He ->].
    by apply TryParseFrame_frame.
Qed.

(** Incremental parsing. On every strict prefix of an encoded frame the parser
    answers [kNeedMore] and leaves the buffer and the out-parameters untouched, so
    a frame that arrives in pieces is never rejected or consumed early. *)
Theorem parse_prefix_needs_more (m : Message) (f pre suf : bytes) (o : FrameOut) :
  fields_fit m -> encode_message m = Value f -> f = pre ++ suf -> suf <> [] ->
  TryParseFrame pre o = (ParseResult.kNeedMore, pre, o).
Proof.
  intros Hfit Hf -> Hsuf. apply encode_message_spec in Hf as [He Hf].
  pose proof (TryParseFrame_frame m [] o Hfit He) as Hall. rewrite app_nil_r, <- Hf in Hall.
  destruct (TryParseFrame pre o) as [[[] b'] o'] eqn:E.
  - apply TryParseFrame_need_more in E as [-> ->]. done.
  - apply (TryParseFrame_complete_app _ _ _ _ suf) in E. rewrite E in Hall.
    injection Hall as Hnil _. apply app_eq_nil in Hnil as [_ ?]. done.
  - apply (TryParseFrame_error_app _ _ _ _ suf) in E. congruence.
Qed.

Lemma parse_prefix_needs_more_witness :
  TryParseFrame (take 20 (frame_of (MClusterRequest (mkClusterRequest 7 ClusterOpcode.kPing (str "x")))))
    (mkFrameOut None None None None None)
  = (ParseResult.kNeedMore,
     take 20 (frame_of (MClusterRequest (mkClusterRequest 7 ClusterOpcode.kPing (str "x")))),
     mkFrameOut None None None None None).
Proof.
  apply (parse_prefix_needs_more (MClusterRequest (mkClusterRequest 7 ClusterOpcode.kPing (str "x")))
    (frame_of (MClusterRequest (mkClusterRequest 7 ClusterOpcode.kPing (str "x")))) _
    (drop 20 (frame_of (MClusterRequest (mkClusterRequest 7 ClusterOpcode.kPing (str "x")))))).
  - cbn. lia.
  - vm_compute. reflexivity.
  - symmetry. apply take_drop.
  - vm_compute. discriminate.
Defined.

(** The buffer contract of [codec.h]. [kNeedMore] leaves the buffer as it was;
    [kError] clears it; [kComplete] removes one frame of at least the header size
    and at most header plus [kMaxPayloadSize] bytes from its front. Only [kComplete]
    writes through the out-parameters. *)
Theorem parse_buffer_contract (b : bytes) (o : FrameOut) :
  match TryParseFrame b o with
  | (ParseResult.kNeedMore, b', o') => b' = b /\ o' = o
  | (ParseResult.kError, b', o') => b' = [] /\ o' = o
  | (ParseResult.kComplete, b', _) =>
      exists f, b = f ++ b' /\
        kFrameHeaderSize <= zlen f <= kFrameHeaderSize + kMaxPayloadSize
  end.
Proof.
  destruct (TryParseFrame b o) as [[[] b'] o'] eqn:E.
  - by apply TryParseFrame_need_more in E.
  - apply TryParseFrame_complete in E as (m & _ & [Hsize _] & -> & _).
    exists (frame_of m). split; [done|]. rewrite zlen_frame_of.
    pose proof (zlen_nonneg (payload_of m)). lia.
  - by apply TryParseFrame_error in E.
Qed.
