(* ===== verification/Crc32.v ===== *)
(** * CRC-32 ([src/persistence/crc32.cpp])

    The bit-by-bit loop of the source, its equivalence with the table-driven
    algorithm of zlib/gzip that the header refers to, and the error detection that
    the write-ahead log relies on. *)

From Stdlib Require Import Strings.String Btauto.
From S2P Require Import Prelude BigEndian.

(** [crc = (crc & 1u) != 0u ? (crc >> 1) ^ 0xEDB88320u : (crc >> 1);] *)
Definition crc_bit (crc : Z) : Z :=
  if negb (Z.land crc 1 =? 0) then Z.lxor (Z.shiftr crc 1) 0xEDB88320 else Z.shiftr crc 1.

(** [for (bit = 0; bit < 8; ++bit) ...] *)
Definition crc_bits (n : nat) (crc : Z) : Z := Nat.iter n crc_bit crc.

(** One iteration of the outer loop: [crc ^= data[i]] and the eight shifts. *)
Definition crc_byte (crc : Z) (b : byte) : Z := crc_bits 8 (Z.lxor crc (byte_to_Z b)).

Definition Crc32 (data : bytes) : Z := u32 (Z.lnot (foldl crc_byte 0xFFFFFFFF data)).

(** ** The table-driven reference *)

(** zlib's table of the remainders of the 256 bytes ([crc_table] of its [crc32.c]),
    as numbers: it does not depend on the loop above. *)
Definition crc_table : list Z :=
  [0x00000000; 0x77073096; 0xee0e612c; 0x990951ba; 0x076dc419; 0x706af48f;
   0xe963a535; 0x9e6495a3; 0x0edb8832; 0x79dcb8a4; 0xe0d5e91e; 0x97d2d988;
   0x09b64c2b; 0x7eb17cbd; 0xe7b82d07; 0x90bf1d91; 0x1db71064; 0x6ab020f2;
   0xf3b97148; 0x84be41de; 0x1adad47d; 0x6ddde4eb; 0xf4d4b551; 0x83d385c7;
   0x136c9856; 0x646ba8c0; 0xfd62f97a; 0x8a65c9ec; 0x14015c4f; 0x63066cd9;
   0xfa0f3d63; 0x8d080df5; 0x3b6e20c8; 0x4c69105e; 0xd56041e4; 0xa2677172;
   0x3c03e4d1; 0x4b04d447; 0xd20d85fd; 0xa50ab56b; 0x35b5a8fa; 0x42b2986c;
   0xdbbbc9d6; 0xacbcf940; 0x32d86ce3; 0x45df5c75; 0xdcd60dcf; 0xabd13d59;
   0x26d930ac; 0x51de003a; 0xc8d75180; 0xbfd06116; 0x21b4f4b5; 0x56b3c423;
   0xcfba9599; 0xb8bda50f; 0x2802b89e; 0x5f058808; 0xc60cd9b2; 0xb10be924;
   0x2f6f7c87; 0x58684c11; 0xc1611dab; 0xb6662d3d; 0x76dc4190; 0x01db7106;
   0x98d220bc; 0xefd5102a; 0x71b18589; 0x06b6b51f; 0x9fbfe4a5; 0xe8b8d433;
   0x7807c9a2; 0x0f00f934; 0x9609a88e; 0xe10e9818; 0x7f6a0dbb; 0x086d3d2d;
   0x91646c97; 0xe6635c01; 0x6b6b51f4; 0x1c6c6162; 0x856530d8; 0xf262004e;
   0x6c0695ed; 0x1b01a57b; 0x8208f4c1; 0xf50fc457; 0x65b0d9c6; 0x12b7e950;
   0x8bbeb8ea; 0xfcb9887c; 0x62dd1ddf; 0x15da2d49; 0x8cd37cf3; 0xfbd44c65;
   0x4db26158; 0x3ab551ce; 0xa3bc0074; 0xd4bb30e2; 0x4adfa541; 0x3dd895d7;
   0xa4d1c46d; 0xd3d6f4fb; 0x4369e96a; 0x346ed9fc; 0xad678846; 0xda60b8d0;
   0x44042d73; 0x33031de5; 0xaa0a4c5f; 0xdd0d7cc9; 0x5005713c; 0x270241aa;
   0xbe0b1010; 0xc90c2086; 0x5768b525; 0x206f85b3; 0xb966d409; 0xce61e49f;
   0x5edef90e; 0x29d9c998; 0xb0d09822; 0xc7d7a8b4; 0x59b33d17; 0x2eb40d81;
   0xb7bd5c3b; 0xc0ba6cad; 0xedb88320; 0x9abfb3b6; 0x03b6e20c; 0x74b1d29a;
   0xead54739; 0x9dd277af; 0x04db2615; 0x73dc1683; 0xe3630b12; 0x94643b84;
   0x0d6d6a3e; 0x7a6a5aa8; 0xe40ecf0b; 0x9309ff9d; 0x0a00ae27; 0x7d079eb1;
   0xf00f9344; 0x8708a3d2; 0x1e01f268; 0x6906c2fe; 0xf762575d; 0x806567cb;
   0x196c3671; 0x6e6b06e7; 0xfed41b76; 0x89d32be0; 0x10da7a5a; 0x67dd4acc;
   0xf9b9df6f; 0x8ebeeff9; 0x17b7be43; 0x60b08ed5; 0xd6d6a3e8; 0xa1d1937e;
   0x38d8c2c4; 0x4fdff252; 0xd1bb67f1; 0xa6bc5767; 0x3fb506dd; 0x48b2364b;
   0xd80d2bda; 0xaf0a1b4c; 0x36034af6; 0x41047a60; 0xdf60efc3; 0xa867df55;
   0x316e8eef; 0x4669be79; 0xcb61b38c; 0xbc66831a; 0x256fd2a0; 0x5268e236;
   0xcc0c7795; 0xbb0b4703; 0x220216b9; 0x5505262f; 0xc5ba3bbe; 0xb2bd0b28;
   0x2bb45a92; 0x5cb36a04; 0xc2d7ffa7; 0xb5d0cf31; 0x2cd99e8b; 0x5bdeae1d;
   0x9b64c2b0; 0xec63f226; 0x756aa39c; 0x026d930a; 0x9c0906a9; 0xeb0e363f;
   0x72076785; 0x05005713; 0x95bf4a82; 0xe2b87a14; 0x7bb12bae; 0x0cb61b38;
   0x92d28e9b; 0xe5d5be0d; 0x7cdcefb7; 0x0bdbdf21; 0x86d3d2d4; 0xf1d4e242;
   0x68ddb3f8; 0x1fda836e; 0x81be16cd; 0xf6b9265b; 0x6fb077e1; 0x18b74777;
   0x88085ae6; 0xff0f6a70; 0x66063bca; 0x11010b5c; 0x8f659eff; 0xf862ae69;
   0x616bffd3; 0x166ccf45; 0xa00ae278; 0xd70dd2ee; 0x4e048354; 0x3903b3c2;
   0xa7672661; 0xd06016f7; 0x4969474d; 0x3e6e77db; 0xaed16a4a; 0xd9d65adc;
   0x40df0b66; 0x37d83bf0; 0xa9bcae53; 0xdebb9ec5; 0x47b2cf7f; 0x30b5ffe9;
   0xbdbdf21c; 0xcabac28a; 0x53b39330; 0x24b4a3a6; 0xbad03605; 0xcdd70693;
   0x54de5729; 0x23d967bf; 0xb3667a2e; 0xc4614ab8; 0x5d681b02; 0x2a6f2b94;
   0xb40bbe37; 0xc30c8ea1; 0x5a05df1b; 0x2d02ef8d].

Definition crc_table_step (crc : Z) (b : byte) : Z :=
  Z.lxor (nth (Z.to_nat (Z.land (Z.lxor crc (byte_to_Z b)) 0xFF)) crc_table 0) (Z.shiftr crc 8).

Definition crc32_by_table (data : bytes) : Z :=
  Z.lxor (foldl crc_table_step 0xFFFFFFFF data) 0xFFFFFFFF.

(** ** The shift register is linear and injective *)

Lemma is_u32_testbit z : 0 <= z -> (forall i, 32 <= i -> Z.testbit z i = false) -> is_u32 z.
Proof.
  intros Hz H. assert (E : z = z mod 2 ^ 32).
  { apply Z.bits_inj'. intros i Hi. destruct (Z.lt_ge_cases i 32).
    - by rewrite Z.mod_pow2_bits_low.
    - rewrite Z.mod_pow2_bits_high by lia. auto. }
  rewrite E. apply Z.mod_pos_bound. lia.
Qed.

Lemma testbit_u32 z i : is_u32 z -> 32 <= i -> Z.testbit z i = false.
Proof.
  intros Hz Hi. rewrite <- (Z.mod_small z (2 ^ 32)) by done.
  apply Z.mod_pow2_bits_high. lia.
Qed.

Lemma is_u32_lxor a b : is_u32 a -> is_u32 b -> is_u32 (Z.lxor a b).
Proof.
  intros Ha Hb. apply is_u32_testbit.
  - apply Z.lxor_nonneg. lia.
  - intros i Hi. by rewrite Z.lxor_spec, !testbit_u32.
Qed.

Lemma is_u32_byte b : is_u32 (byte_to_Z b).
Proof. pose proof (byte_to_Z_range b). lia. Qed.

#[local] Hint Resolve is_u32_lxor is_u32_byte : nkv.

Lemma crc_bit_odd c :
  crc_bit c = if Z.odd c then Z.lxor (Z.shiftr c 1) 0xEDB88320 else Z.shiftr c 1.
Proof.
  unfold crc_bit. change 1 with (Z.ones 1) at 1. rewrite Z.land_ones by lia. change (2 ^ 1) with 2.
  rewrite <- Z.bit0_mod, <- Z.bit0_odd. by destruct (Z.testbit c 0).
Qed.

Lemma is_u32_crc_bit c : is_u32 c -> is_u32 (crc_bit c).
Proof.
  intros Hc. rewrite crc_bit_odd.
  assert (is_u32 (Z.shiftr c 1)).
  { rewrite Z.shiftr_div_pow2 by lia. split; [apply Z.div_pos; lia|].
    apply Z.div_lt_upper_bound; lia. }
  destruct (Z.odd c); [|done]. apply is_u32_lxor; [done|lia].
Qed.

Lemma crc_bits_S n c : crc_bits (S n) c = crc_bit (crc_bits n c).
Proof. reflexivity. Qed.

Lemma is_u32_crc_bits n c : is_u32 c -> is_u32 (crc_bits n c).
Proof. intros Hc. induction n; [done|]. rewrite crc_bits_S. by apply is_u32_crc_bit. Qed.

Lemma crc_bit_lxor a b : crc_bit (Z.lxor a b) = Z.lxor (crc_bit a) (crc_bit b).
Proof.
  rewrite !crc_bit_odd, Z.shiftr_lxor. rewrite <- !Z.bit0_odd, Z.lxor_spec.
  destruct (Z.testbit a 0), (Z.testbit b 0); cbn [xorb]; apply Z.bits_inj'; intros i Hi;
    rewrite !Z.lxor_spec; btauto.
Qed.

Lemma crc_bits_lxor n a b : crc_bits n (Z.lxor a b) = Z.lxor (crc_bits n a) (crc_bits n b).
Proof. induction n as [|n IH]; [done|]. by rewrite !crc_bits_S, IH, crc_bit_lxor. Qed.

Lemma crc_bit_zero c : is_u32 c -> crc_bit c = 0 -> c = 0.
Proof.
  intros Hc. rewrite crc_bit_odd. destruct (Z.odd c) eqn:Eo; intros H.
  - apply Z.lxor_eq in H. rewrite Z.shiftr_div_pow2 in H by lia.
    assert (c / 2 ^ 1 < 2 ^ 31) by (apply Z.div_lt_upper_bound; lia). lia.
  - rewrite Z.shiftr_div_pow2 in H by lia. rewrite (Z.div_mod c 2) by lia.
    change (2 ^ 1) with 2 in H. rewrite H, Zmod_odd, Eo. reflexivity.
Qed.

Lemma crc_bits_zero n c : is_u32 c -> crc_bits n c = 0 -> c = 0.
Proof.
  intros Hc. induction n as [|n IH]; [done|]. rewrite crc_bits_S. intros H.
  apply IH, crc_bit_zero; [by apply is_u32_crc_bits|done].
Qed.

Lemma crc_bits_inj n a b : is_u32 a -> is_u32 b -> crc_bits n a = crc_bits n b -> a = b.
Proof.
  intros Ha Hb H. apply Z.lxor_eq, (crc_bits_zero n); [auto with nkv|].
  by rewrite crc_bits_lxor, H, Z.lxor_nilpotent.
Qed.

Lemma crc_bits_add n m c : crc_bits (n + m) c = crc_bits n (crc_bits m c).
Proof. unfold crc_bits. by rewrite Nat.iter_add. Qed.

Lemma crc_bit_double c : crc_bit (2 * c) = c.
Proof.
  rewrite crc_bit_odd, Z.odd_mul. cbn [Z.odd andb].
  rewrite Z.shiftr_div_pow2 by lia. change (2 ^ 1) with 2. rewrite Z.mul_comm.
  by apply Z.div_mul.
Qed.

Lemma crc_bits_shiftl n c : crc_bits n (c * 2 ^ Z.of_nat n) = c.
Proof.
  revert c. induction n as [|n IH]; intros c; [cbn; lia|].
  replace (S n) with (n + 1)%nat by lia. rewrite crc_bits_add.
  replace (c * 2 ^ Z.of_nat (n + 1)) with (2 * (c * 2 ^ Z.of_nat n))
    by (rewrite Nat2Z.inj_add, Z.pow_add_r by lia; change (2 ^ Z.of_nat 1) with 2; lia).
  rewrite (crc_bits_S 0). unfold crc_bits at 2. cbn [Nat.iter nat_rect]. rewrite crc_bit_double. apply IH.
Qed.

Lemma lxor_split c k : 0 <= k -> c = Z.lxor (c mod 2 ^ k) (Z.shiftr c k * 2 ^ k).
Proof.
  intros Hk. apply Z.bits_inj'. intros i Hi. rewrite Z.lxor_spec, <- Z.shiftl_mul_pow2 by done.
  destruct (Z.lt_ge_cases i k).
  - rewrite Z.mod_pow2_bits_low, Z.shiftl_spec_low by lia. by rewrite xorb_false_r.
  - rewrite Z.mod_pow2_bits_high, Z.shiftl_spec, Z.shiftr_spec by lia.
    by rewrite xorb_false_l, Z.sub_add.
Qed.

(** Eight steps at once: the low byte selects a table entry, the rest shifts down. *)
Lemma crc_bits_8_split c :
  crc_bits 8 c = Z.lxor (crc_bits 8 (Z.land c 0xFF)) (Z.shiftr c 8).
Proof.
  change 0xFF with (Z.ones 8). rewrite Z.land_ones by lia.
  rewrite (lxor_split c 8) at 1 by lia. rewrite crc_bits_lxor. f_equal.
  apply (crc_bits_shiftl 8).
Qed.

(** The loop computes the entries of the table. *)
Lemma crc_table_bits : crc_table = crc_bits 8 <$> (Z.of_nat <$> seq 0 256).
Proof. vm_compute. reflexivity. Qed.

Lemma crc_table_entry i : 0 <= i < 256 -> nth (Z.to_nat i) crc_table 0 = crc_bits 8 i.
Proof.
  intros Hi. rewrite crc_table_bits, nth_lookup, !list_lookup_fmap.
  rewrite lookup_seq_lt by lia. unfold fmap, option_fmap, option_map, default.
  by rewrite Nat.add_0_l, Z2Nat.id by lia.
Qed.

Lemma crc_table_step_correct c b : crc_table_step c b = crc_byte c b.
Proof.
  unfold crc_table_step, crc_byte. rewrite crc_bits_8_split.
  rewrite crc_table_entry.
  - f_equal. rewrite Z.shiftr_lxor. rewrite (Z.shiftr_div_pow2 (byte_to_Z b)) by lia.
    pose proof (byte_to_Z_range b). change (2 ^ 8) with 256. rewrite Z.div_small by lia.
    by rewrite Z.lxor_0_r.
  - change 0xFF with (Z.ones 8). rewrite Z.land_ones by lia. apply Z.mod_pos_bound. lia.
Qed.

Lemma is_u32_crc_byte c b : is_u32 c -> is_u32 (crc_byte c b).
Proof. intros. apply is_u32_crc_bits. auto with nkv. Qed.

Lemma is_u32_fold data c : is_u32 c -> is_u32 (foldl crc_byte c data).
Proof.
  revert c. induction data as [|b data IH]; intros c Hc; [done|].
  cbn. apply IH. by apply is_u32_crc_byte.
Qed.

Lemma lnot_u32 c : is_u32 c -> u32 (Z.lnot c) = Z.lxor c 0xFFFFFFFF.
Proof.
  intros Hc. unfold u32. apply Z.bits_inj'. intros i Hi.
  change 0xFFFFFFFF with (Z.ones 32). rewrite Z.lxor_spec.
  destruct (Z.lt_ge_cases i 32).
  - rewrite Z.mod_pow2_bits_low, Z.lnot_spec, Z.ones_spec_low by lia. by destruct (Z.testbit c i).
  - rewrite Z.mod_pow2_bits_high, Z.ones_spec_high, testbit_u32 by (lia || done). done.
Qed.

Lemma Crc32_range data : is_u32 (Crc32 data).
Proof. unfold Crc32, u32. apply Z.mod_pos_bound. lia. Qed.

Lemma Crc32_inj_state c d : is_u32 c -> is_u32 d -> u32 (Z.lnot c) = u32 (Z.lnot d) -> c = d.
Proof.
  intros Hc Hd. rewrite !lnot_u32 by done. intros H.
  apply (f_equal (fun z => Z.lxor z 0xFFFFFFFF)) in H.
  rewrite !Z.lxor_assoc, Z.lxor_nilpotent, !Z.lxor_0_r in H. done.
Qed.

Lemma fold_crc_inj data c d :
  is_u32 c -> is_u32 d -> foldl crc_byte c data = foldl crc_byte d data -> c = d.
Proof.
  revert c d. induction data as [|b data IH]; intros c d Hc Hd; [done|].
  cbn [foldl]. intros H. apply IH in H; [|by apply is_u32_crc_byte..].
  unfold crc_byte in H. apply crc_bits_inj in H; [|auto with nkv..].
  apply (f_equal (fun z => Z.lxor z (byte_to_Z b))) in H.
  by rewrite !Z.lxor_assoc, Z.lxor_nilpotent, !Z.lxor_0_r in H.
Qed.

(** The first [n <= 4] bytes as one little-endian word. *)
Fixpoint le_word (l : bytes) : Z :=
  match l with [] => 0 | b :: l => Z.lxor (byte_to_Z b) (le_word l * 2 ^ 8) end.

Lemma le_word_arith b l : Z.lxor (byte_to_Z b) (le_word l * 2 ^ 8) = le_word l * 2 ^ 8 + byte_to_Z b.
Proof.
  pose proof (byte_to_Z_range b).
  rewrite Z.lxor_comm, <- Z.shiftl_mul_pow2 by lia.
  rewrite Z.lxor_lor by (apply land_shiftl_small; lia).
  rewrite lor_shiftl_add by lia. by rewrite Z.shiftl_mul_pow2 by lia.
Qed.

Lemma le_word_range l : 0 <= le_word l < 2 ^ (8 * zlen l).
Proof.
  induction l as [|b l IH]; [done|]. cbn [le_word]. rewrite le_word_arith.
  pose proof (byte_to_Z_range b). autorewrite with zlen.
  replace (8 * (1 + zlen l)) with (8 * zlen l + 8) by lia.
  rewrite Z.pow_add_r by (pose proof (zlen_nonneg l); lia). lia.
Qed.

Lemma le_word_inj x y : length x = length y -> le_word x = le_word y -> x = y.
Proof.
  revert y. induction x as [|a x IH]; intros [|b y] Hl; try done. cbn [le_word].
  rewrite !le_word_arith. intros H.
  pose proof (byte_to_Z_range a). pose proof (byte_to_Z_range b).
  assert (byte_to_Z a = byte_to_Z b) as Hab%byte_to_Z_inj by lia.
  f_equal; [done|]. apply IH; [cbn in Hl; lia|lia].
Qed.

(** Feeding up to four bytes is xoring their word in and shifting. *)
Lemma fold_crc_word x c :
  foldl crc_byte c x = crc_bits (8 * length x) (Z.lxor c (le_word x)).
Proof.
  revert c. induction x as [|b x IH]; intros c; [cbn; by rewrite Z.lxor_0_r|].
  cbn [foldl]. rewrite IH. unfold crc_byte. cbn [le_word length].
  replace (8 * S (length x))%nat with (8 * length x + 8)%nat by lia.
  rewrite crc_bits_add, !crc_bits_lxor. rewrite (crc_bits_shiftl 8). by rewrite !Z.lxor_assoc.
Qed.

Lemma fold_crc_burst x y c :
  is_u32 c -> length x = length y -> zlen x <= 4 ->
  foldl crc_byte c x = foldl crc_byte c y -> x = y.
Proof.
  intros Hc Hl H4 H. rewrite !fold_crc_word, <- Hl in H.
  assert (Hw : forall l, length l = length x -> is_u32 (le_word l)).
  { intros l El. pose proof (le_word_range l). assert (2 ^ (8 * zlen l) <= 2 ^ 32); [|lia].
    apply Z.pow_le_mono_r; unfold zlen in *; lia. }
  apply crc_bits_inj in H; [|by apply is_u32_lxor; auto..].
  apply le_word_inj; [done|].
  apply (f_equal (Z.lxor c)) in H.
  by rewrite <- !Z.lxor_assoc, Z.lxor_nilpotent, !Z.lxor_0_l in H.
Qed.

Lemma Crc32_burst_inj before x y after :
  length x = length y -> zlen x <= 4 ->
  Crc32 (before ++ x ++ after) = Crc32 (before ++ y ++ after) -> x = y.
Proof.
  intros Hl H4 H. unfold Crc32 in H. rewrite !foldl_app in H.
  assert (Hb : is_u32 (foldl crc_byte 0xFFFFFFFF before)) by (apply is_u32_fold; lia).
  apply Crc32_inj_state in H; [|by repeat apply is_u32_fold..].
  apply fold_crc_inj in H; [|by apply is_u32_fold..].
  by apply fold_crc_burst in H.
Qed.

(** ** Properties *)

(** C33: the bit-by-bit loop is the standard CRC-32. [Crc32] agrees on every input
    with the table-driven algorithm of zlib, whose table [crc_table] is given here as its
    256 numbers (initial value and final xor [0xFFFFFFFF]), and its value is a
    [uint32_t]. *)
Theorem Crc32_is_table_driven (data : bytes) :
  Crc32 data = crc32_by_table data /\ is_u32 (Crc32 data).
Proof.
  split; [|apply Crc32_range]. unfold Crc32, crc32_by_table.
  rewrite lnot_u32 by (apply is_u32_fold; lia). f_equal.
  generalize 0xFFFFFFFF. induction data as [|b data IH]; intros c; [done|].
  cbn [foldl]. by rewrite crc_table_step_correct.
Qed.

Example Crc32_check_value : Crc32 (str "123456789") = 0xCBF43926.
Proof. vm_compute. reflexivity. Qed.

(** Burst errors are detected. Replacing up to four consecutive bytes of a
    message by different ones (so any change of a single byte, of a [uint32_t]
    field, or of up to 25 consecutive bits) always changes its [Crc32]. *)
Theorem Crc32_detects_bursts (before x y after : bytes) :
  length x = length y -> zlen x <= 4 -> x <> y ->
  Crc32 (before ++ x ++ after) <> Crc32 (before ++ y ++ after).
Proof. intros Hl H4 Hne H. by apply Hne, (Crc32_burst_inj before _ _ after). Qed.

Lemma Crc32_detects_bursts_witness :
  Crc32 (str "ab" ++ str "cd" ++ str "e") <> Crc32 (str "ab" ++ str "xy" ++ str "e").
Proof.
  apply (Crc32_detects_bursts (str "ab") (str "cd") (str "xy") (str "e")).
  - reflexivity.
  - vm_compute. discriminate.
  - vm_compute. discriminate.
Defined.
