(* ===== verification/Os.v ===== *)
(** * The operating system as the code sees it

    Regular files with an in-memory (page cache) and a durable content, and the
    answers the kernel may give to [read(2)] and [write(2)]. A script lists the
    answers to the next calls; once it is used up, every call does all it was asked
    to do. Every finite behaviour of the kernel on a call sequence is some script,
    and a retry loop is structurally recursive in it. *)

From S2P Require Import Prelude.

(** Answers to [read(2)]: up to [n] bytes (at least one unless the file ended),
    [EINTR], or another error. *)
Inductive ReadAns :=
| RdShort (n : Z)
| RdEintr
| RdFail (errno : Z).

(** Answers to [write(2)]: [n] bytes accepted, [EINTR], or another error. *)
Inductive WriteAns :=
| WrShort (n : Z)
| WrEintr
| WrFail (errno : Z).

(** An open descriptor for reading: the file's bytes and the file offset. *)
Record ReadFd := mkReadFd { rd_data : bytes; rd_pos : Z; rd_script : list ReadAns }.

(** A retry loop over [read(2)] that stops at [len] bytes, at end of file or at an
    error other than [EINTR]. *)
Fixpoint read_upto (script : list ReadAns) (data : bytes) (pos len : Z)
    : bytes * Z * list ReadAns :=
  if len <=? 0 then ([], pos, script)
  else
    match script with
    | [] => let chunk := slice pos len data in (chunk, pos + zlen chunk, [])
    | RdShort n :: script =>
        let chunk := slice pos (Z.min len (Z.max 1 n)) data in
        if is_empty chunk then ([], pos, script)
        else
          let '(rest, pos, script) :=
            read_upto script data (pos + zlen chunk) (len - zlen chunk) in
          (chunk ++ rest, pos, script)
    | RdEintr :: script => read_upto script data pos len
    | RdFail _ :: script => ([], pos, script)
    end.

(** No call fails with anything but [EINTR]. *)
Definition reads_ok (script : list ReadAns) : Prop :=
  Forall (fun a => match a with RdFail _ => False | _ => True end) script.

#[global] Instance reads_ok_dec script : Decision (reads_ok script).
Proof. apply Forall_dec. intros [| |]; cbn; apply _. Defined.

(** A file: what a reader sees now, what the last [fsync] made durable, and the
    contents before truncations that are not durable yet, each as the durable bytes
    and the bytes a reader saw then. *)
Record File := mkFile {
  f_data : bytes;
  f_durable : bytes;
  f_past : list (bytes * bytes)
}.

(** A file as it is found on disk. *)
Definition file_on_disk (b : bytes) : File := mkFile b b [].

Definition extend_file (f : File) (b : bytes) : File :=
  mkFile (f_data f ++ b) (f_durable f) (f_past f).

(** A retry loop over [write(2)] on an [O_APPEND] descriptor: the error if one ended
    the loop, the file, and the rest of the script. *)
Fixpoint write_append (script : list WriteAns) (f : File) (b : bytes)
    : option Z * File * list WriteAns :=
  if is_empty b then (None, f, script)
  else
    match script with
    | [] => (None, extend_file f b, [])
    | WrShort n :: script => write_append script (extend_file f (ztake n b)) (zdrop n b)
    | WrEintr :: script => write_append script f b
    | WrFail e :: script => (Some e, f, script)
    end.

(** [fsync]: everything written so far survives a crash. *)
Definition fsync_file (f : File) : File := mkFile (f_data f) (f_data f) [].

(** [ftruncate(fd, 0)]: until the next [fsync] a crash may still show the old bytes. *)
Definition truncate_file (f : File) : File :=
  mkFile [] [] ((f_durable f, f_data f) :: f_past f).

(** What a crash can leave: the durable bytes and any part of what was written after
    them, before or after a truncation that is not durable yet. *)
Definition crash_file (f : File) (survives : bytes) : Prop :=
  exists d e, (d, e) ∈ (f_durable f, f_data f) :: f_past f /\
    d `prefix_of` survives /\ survives `prefix_of` e.

(** The next answer of a call that succeeds ([None]) or fails with an [errno]. *)
Definition next_answer (script : list (option Z)) : option Z * list (option Z) :=
  match script with [] => (None, []) | a :: script => (a, script) end.

(** ** Lemmas *)

Lemma slice_nil_iff {A} pos n (l : list A) :
  0 <= pos -> 0 < n -> slice pos n l = [] <-> zlen l <= pos.
Proof.
  intros Hp Hn. unfold slice, ztake, zdrop, zlen. split; intros H.
  - apply (f_equal length) in H. rewrite length_take, length_drop in H. cbn in H. lia.
  - rewrite drop_ge by lia. by rewrite take_nil.
Qed.

Lemma slice_split {A} pos n m (l : list A) :
  0 <= pos -> 0 <= n <= m ->
  slice pos n l ++ slice (pos + zlen (slice pos n l)) (m - zlen (slice pos n l)) l = slice pos m l.
Proof.
  intros Hp Hn. unfold slice, ztake, zdrop, zlen. rewrite length_take, length_drop.
  set (k := (Z.to_nat n `min` (length l - Z.to_nat pos))%nat).
  replace (Z.to_nat (pos + Z.of_nat k)) with (Z.to_nat pos + k)%nat by lia.
  rewrite <- drop_drop.
  replace (take (Z.to_nat n) (drop (Z.to_nat pos) l)) with (take k (drop (Z.to_nat pos) l)).
  2: { unfold k. rewrite <- length_drop. destruct (Nat.min_spec (Z.to_nat n)
         (length (drop (Z.to_nat pos) l))) as [[? ->]|[? ->]]; [done|].
       by rewrite firstn_all, firstn_all2. }
  rewrite take_take_drop. f_equal. lia.
Qed.

Lemma read_upto_ok script data pos len :
  reads_ok script -> 0 <= pos -> 0 <= len ->
  exists script',
    read_upto script data pos len = (slice pos len data, pos + zlen (slice pos len data), script') /\
    reads_ok script'.
Proof.
  revert pos len. induction script as [|a script IH]; intros pos len Hok Hp Hl; cbn [read_upto].
  - destruct (Z.leb_spec len 0); [|by exists []].
    replace len with 0 by lia. exists []. split; [|done].
    unfold slice, ztake. cbn. by rewrite take_0, Z.add_0_r.
  - apply Forall_cons in Hok as [Ha Hok].
    destruct (Z.leb_spec len 0).
    { replace len with 0 by lia. exists (a :: script). split; [|by constructor].
      unfold slice, ztake. cbn. by rewrite take_0, Z.add_0_r. }
    destruct a as [n| |e]; [|by apply IH|done].
    set (n' := Z.min len (Z.max 1 n)). set (c := slice pos n' data).
    pose proof (slice_split pos n' len data Hp ltac:(lia)) as Hs. fold c in Hs.
    destruct (is_empty c) eqn:Ec.
    + apply is_empty_true in Ec. unfold c in Ec.
      apply slice_nil_iff in Ec; [|lia..].
      exists script. split; [|done].
      assert (slice pos len data = []) as -> by (by apply slice_nil_iff).
      by rewrite zlen_nil, Z.add_0_r.
    + apply is_empty_false in Ec.
      assert (zlen c <= n').
      { unfold c, slice, ztake, zlen. rewrite length_take. lia. }
      edestruct (IH (pos + zlen c) (len - zlen c)) as (script' & E & Hok'); [done|lia..|].
      rewrite E. exists script'. split; [|done].
      by rewrite <- Hs, zlen_app, Z.add_assoc.
Qed.

(** Whatever the kernel answers, the loop returns bytes of the file and moves the
    offset by their number. *)
Lemma read_upto_sound script data pos len b pos' script' :
  read_upto script data pos len = (b, pos', script') -> 0 <= pos <= zlen data ->
  pos' = pos + zlen b /\ pos' <= zlen data /\ zdrop pos data = b ++ zdrop pos' data.
Proof.
  revert pos len b. induction script as [|a script IH]; intros pos len b; cbn [read_upto];
    destruct (Z.leb_spec len 0) as [|Hlen]; intros E Hp;
    try (injection E as <- <- <-; rewrite zlen_nil; split; [lia|split; [lia|done]]).
  - injection E as <- <- <-.
    assert (zlen (slice pos len data) <= zlen data - pos).
    { unfold slice, ztake, zdrop, zlen. rewrite length_take, length_drop. unfold zlen in *. lia. }
    split; [done|]. split; [lia|].
    rewrite <- (ztake_zdrop len (zdrop pos data)) at 1. fold (slice pos len data). f_equal.
    rewrite <- zdrop_zdrop by (pose proof (zlen_nonneg (slice pos len data)); lia).
    unfold slice, ztake, zdrop, zlen. rewrite length_take, Nat2Z.id.
    destruct (Nat.min_spec (Z.to_nat len) (length (drop (Z.to_nat pos) data))) as [[? ->]|[? ->]];
      [done|]. rewrite !drop_ge by lia. done.
  - destruct a as [n| |e].
    + set (c := slice pos (Z.min len (Z.max 1 n)) data) in *.
      destruct (is_empty c) eqn:Ec; [injection E as <- <- <-; rewrite zlen_nil; auto with lia|].
      destruct (read_upto script data (pos + zlen c) (len - zlen c)) as [[rest p] s] eqn:Er.
      injection E as <- <- <-.
      assert (zlen c <= zlen data - pos).
      { unfold c, slice, ztake, zdrop, zlen. rewrite length_take, length_drop. unfold zlen in *. lia. }
      pose proof (zlen_nonneg c).
      apply IH in Er as (-> & Hle & Hd); [|lia]. rewrite zlen_app.
      split; [lia|]. split; [lia|]. rewrite <- app_assoc, <- Hd.
      assert (Hc : c = ztake (zlen c) (zdrop pos data)).
      { unfold c, slice, ztake, zlen. rewrite length_take, Nat2Z.id.
        destruct (Nat.min_spec (Z.to_nat (Z.min len (Z.max 1 n))) (length (zdrop pos data)))
          as [[? ->]|[? ->]]; [done|]. by rewrite firstn_all, firstn_all2 by lia. }
      rewrite Hc at 1. rewrite <- zdrop_zdrop by lia. symmetry. apply ztake_zdrop.
    + by eapply IH.
    + injection E as <- <- <-. rewrite zlen_nil. auto with lia.
Qed.

Lemma read_upto_le script data pos len b pos' script' :
  read_upto script data pos len = (b, pos', script') -> zlen b <= Z.max 0 len.
Proof.
  revert pos len b. induction script as [|a script IH]; intros pos len b; cbn [read_upto];
    destruct (Z.leb_spec len 0) as [|Hlen]; intros E;
    try (injection E as <- <- <-; rewrite zlen_nil; lia).
  - injection E as <- <- <-. unfold slice, ztake, zlen. rewrite length_take. lia.
  - destruct a as [n| |e].
    + set (c := slice pos (Z.min len (Z.max 1 n)) data) in *.
      assert (zlen c <= len) by (unfold c, slice, ztake, zlen; rewrite length_take; lia).
      destruct (is_empty c); [injection E as <- <- <-; rewrite zlen_nil; lia|].
      destruct (read_upto script data (pos + zlen c) (len - zlen c)) as [[rest p] s] eqn:Er.
      injection E as <- <- <-. apply IH in Er. rewrite zlen_app. lia.
    + by eapply IH.
    + injection E as <- <- <-. rewrite zlen_nil. lia.
Qed.

(** The write loop appends everything, or fails after a strict part of it. *)
Lemma write_append_spec script f b e f' script' :
  write_append script f b = (e, f', script') ->
  exists done_ left_, b = done_ ++ left_ /\ f' = extend_file f done_ /\
    (e = None <-> left_ = []).
Proof.
  revert f b. induction script as [|a script IH]; intros f b; cbn [write_append];
    destruct (is_empty b) eqn:Eb.
  1,3: apply is_empty_true in Eb as ->; intros [= <- <- <-]; exists [], []; split; [done|]; split; [|done];
    destruct f; unfold extend_file; cbn; by rewrite app_nil_r.
  - intros [= <- <- <-]. exists b, []. by rewrite app_nil_r.
  - destruct a as [n| |err].
    + intros E. apply IH in E as (d & l & Hb & -> & He).
      exists (ztake n b ++ d), l. rewrite <- app_assoc, <- Hb, ztake_zdrop.
      split; [done|]. split; [|done]. unfold extend_file. cbn. by rewrite app_assoc.
    + apply IH.
    + intros [= <- <- <-]. exists [], b. split; [done|]. split.
      * destruct f; unfold extend_file; cbn. by rewrite app_nil_r.
      * split; [done|]. intros ->. done.
Qed.

Definition writes_ok (script : list WriteAns) : Prop :=
  Forall (fun a => match a with WrFail _ => False | _ => True end) script.

Lemma write_append_ok script f b e f' script' :
  writes_ok script -> write_append script f b = (e, f', script') -> e = None /\ writes_ok script'.
Proof.
  intros Hok. revert f b. induction Hok as [|a script Ha Hok IH]; intros f b; cbn [write_append];
    destruct (is_empty b) eqn:Eb.
  1,3: intros [= <- <- <-]; split; [done|]; by constructor.
  - intros [= <- <- <-]. by split; [|constructor].
  - destruct a as [n| |err]; [apply IH|apply IH|done].
Qed.
