(* ===== verification/WalRecord.v ===== *)
(** * Write-ahead log records ([src/persistence/wal_record.cpp])

    The on-disk encoding of one record, the reader that tells a torn tail from
    corruption, and the read loop shared by the three scans of the log
    ([WalWriter::OpenOrCreate], [RecoverFromWal] and [raft::Log::Load]). *)

From Stdlib Require Import Strings.String.
From S2P Require Import Prelude Common BigEndian Crc32 Os.

Module WalOp.
Inductive WalOp := kSet | kDelete.
#[global] Instance wal_op_eq_dec : EqDecision WalOp.
Proof. solve_decision. Defined.
End WalOp.
Abbreviation WalOp := WalOp.WalOp.

Definition WalOp_value (o : WalOp) : Z :=
  match o with WalOp.kSet => 1 | WalOp.kDelete => 2 end.

(** [static_cast<WalOp>(b)]; [None] is a value that is no enumerator. *)
Definition WalOp_of_byte (b : Z) : option WalOp :=
  if b =? 1 then Some WalOp.kSet else if b =? 2 then Some WalOp.kDelete else None.

Record WalRecord := mkWalRecord {
  wr_term : Z;
  wr_index : Z;
  wr_op : WalOp;
  wr_key : bytes;
  wr_value : bytes
}.

#[global] Instance wal_record_eq_dec : EqDecision WalRecord.
Proof. solve_decision. Defined.

Definition kFixedHeaderSize : Z := 25.
Definition kMaxFieldSize : Z := 64 * 1024 * 1024.

(** [ReadSome]: up to [len] bytes at the descriptor's offset. *)
Definition ReadSome (fd : ReadFd) (len : Z) : bytes * ReadFd :=
  let '(b, pos, script) := read_upto (rd_script fd) (rd_data fd) (rd_pos fd) len in
  (b, mkReadFd (rd_data fd) pos script).

Definition CorruptRecord (why : String.string) : Status :=
  Status_Error ErrorCode.kIOError (str "wal record corrupt: " ++ str why).
Arguments CorruptRecord why%_string_scope.

(** The record's bytes after the CRC. *)
Definition wal_body (r : WalRecord) : bytes :=
  let body := [] in
  let body := WriteU64BE body (wr_term r) in
  let body := WriteU64BE body (wr_index r) in
  let body := body ++ [byte_of_Z (WalOp_value (wr_op r))] in
  let body := WriteU32BE body (u32 (zlen (wr_key r))) in
  let body := body ++ wr_key r in
  let body := WriteU32BE body (u32 (zlen (wr_value r))) in
  body ++ wr_value r.

Definition EncodeWalRecord (r : WalRecord) (out : bytes) : bytes :=
  let body := wal_body r in
  let out := WriteU32BE out (Crc32 body) in
  out ++ body.

(** Status, the record when [*has_record], and the descriptor afterwards. *)
Definition ReadNextWalRecord (fd : ReadFd) : Status * option WalRecord * ReadFd :=
  let '(header, fd) := ReadSome fd kFixedHeaderSize in
  if zlen header <? kFixedHeaderSize then (Status_Ok, None, fd)
  else
    let crc := ReadU32BE header in
    let term := ReadU64BE (zdrop 4 header) in
    let index := ReadU64BE (zdrop 12 header) in
    let op := at_ header 20 in
    let key_len := ReadU32BE (zdrop 21 header) in
    if kMaxFieldSize <? key_len then (CorruptRecord "key length out of range", None, fd)
    else
      let '(key, fd) := ReadSome fd key_len in
      if zlen key <? key_len then (Status_Ok, None, fd)
      else
        let '(value_len_buf, fd) := ReadSome fd 4 in
        if zlen value_len_buf <? 4 then (Status_Ok, None, fd)
        else
          let value_len := ReadU32BE value_len_buf in
          if kMaxFieldSize <? value_len then (CorruptRecord "value length out of range", None, fd)
          else
            let '(value, fd) := ReadSome fd value_len in
            if zlen value <? value_len then (Status_Ok, None, fd)
            else
              let body := [] in
              let body := body ++ zdrop 4 header in
              let body := body ++ key in
              let body := body ++ value_len_buf in
              let body := body ++ value in
              if negb (Crc32 body =? crc) then (CorruptRecord "CRC mismatch", None, fd)
              else
                match WalOp_of_byte op with
                | None => (CorruptRecord "unknown op", None, fd)
                | Some op =>
                    if is_empty key then (CorruptRecord "empty key", None, fd)
                    else if bool_decide (op = WalOp.kSet) && is_empty value
                    then (CorruptRecord "SET with empty value", None, fd)
                    else (Status_Ok, Some (mkWalRecord term index op key value), fd)
                end.

(** ** The read loop

    [while (true) { read a record; error: stop with it; none: stop; body(record); }].
    A complete record occupies at least [kFixedHeaderSize] bytes, so the size of the
    file bounds the number of iterations; [None] would mean the bound was too small
    and is shown not to occur. *)
Fixpoint read_loop {St} (fuel : nat) (body : St -> WalRecord -> St) (fd : ReadFd) (s : St)
    : option (Status * St) :=
  match fuel with
  | O => None
  | S fuel =>
      let '(read_status, record, fd) := ReadNextWalRecord fd in
      if negb (Status_ok read_status) then Some (read_status, s)
      else
        match record with
        | None => Some (Status_Ok, s)
        | Some record => read_loop fuel body fd (body s record)
        end
  end.

(** The loop on a file opened at offset 0. *)
Definition read_wal {St} (data : bytes) (script : list ReadAns) (body : St -> WalRecord -> St)
    (s : St) : option (Status * St) :=
  read_loop (S (length data)) body (mkReadFd data 0 script) s.

(** ** The bytes of a record *)

(** The records that the reader accepts. *)
Record wal_valid (r : WalRecord) : Prop := {
  wv_term : is_u64 (wr_term r);
  wv_index : is_u64 (wr_index r);
  wv_key : 0 < zlen (wr_key r) <= kMaxFieldSize;
  wv_value : zlen (wr_value r) <= kMaxFieldSize;
  wv_set : wr_op r = WalOp.kSet -> wr_value r <> []
}.

Definition wal_fields (r : WalRecord) : bytes :=
  be_bytes 8 (wr_term r) ++ be_bytes 8 (wr_index r) ++ [byte_of_Z (WalOp_value (wr_op r))]
  ++ be_bytes 4 (zlen (wr_key r)).

Definition encode_wal (r : WalRecord) : bytes := EncodeWalRecord r [].

Lemma wal_body_fields r :
  zlen (wr_key r) < 2 ^ 32 -> zlen (wr_value r) < 2 ^ 32 ->
  wal_body r = wal_fields r ++ wr_key r ++ be_bytes 4 (zlen (wr_value r)) ++ wr_value r.
Proof.
  intros Hk Hv. unfold wal_body, wal_fields. autorewrite with nkv_write.
  rewrite <- !app_assoc. cbn [app].
  rewrite (u32_zlen (wr_key r) (zlen (wr_key r))), (u32_zlen (wr_value r) (zlen (wr_value r)))
    by (lia || done). reflexivity.
Qed.

Lemma EncodeWalRecord_app r out : EncodeWalRecord r out = out ++ encode_wal r.
Proof.
  unfold encode_wal, EncodeWalRecord. autorewrite with nkv_write. by rewrite <- !app_assoc.
Qed.

Lemma encode_wal_eq r : encode_wal r = be_bytes 4 (Crc32 (wal_body r)) ++ wal_body r.
Proof. unfold encode_wal, EncodeWalRecord. by autorewrite with nkv_write. Qed.

Lemma zlen_wal_body r :
  zlen (wal_body r) = 25 + zlen (wr_key r) + zlen (wr_value r).
Proof. unfold wal_body. autorewrite with nkv_write. zlen_lia. Qed.

Lemma zlen_encode_wal r :
  zlen (encode_wal r) = 29 + zlen (wr_key r) + zlen (wr_value r).
Proof. rewrite encode_wal_eq. autorewrite with zlen. rewrite zlen_wal_body. lia. Qed.

(** The descriptor is healthy and [t] is what is left to read. *)
Definition cursor (fd : ReadFd) (t : bytes) : Prop :=
  reads_ok (rd_script fd) /\ 0 <= rd_pos fd /\ zdrop (rd_pos fd) (rd_data fd) = t.

(** [fd'] is [fd] moved forward by [n] bytes. *)
Definition moved (fd fd' : ReadFd) (n : Z) : Prop :=
  rd_data fd' = rd_data fd /\ rd_pos fd' = rd_pos fd + n.

Lemma moved_trans fd1 fd2 fd3 n m : moved fd1 fd2 n -> moved fd2 fd3 m -> moved fd1 fd3 (n + m).
Proof. unfold moved. intros [-> ->] [-> ->]. split; [done|lia]. Qed.

Lemma ReadSome_full fd a b :
  cursor fd (a ++ b) ->
  exists fd', ReadSome fd (zlen a) = (a, fd') /\ cursor fd' b /\ moved fd fd' (zlen a).
Proof.
  intros (Hok & Hp & Hd). unfold ReadSome.
  edestruct (read_upto_ok (rd_script fd) (rd_data fd) (rd_pos fd) (zlen a)) as (s & E & Hs);
    [done|done|apply zlen_nonneg|].
  rewrite E, (slice_at _ _ _ _ _ Hd) by done. eexists. split; [done|].
  split; [|done]. split; [done|]. cbn. split; [pose proof (zlen_nonneg a); lia|].
  by eapply zdrop_step; [exact Hd| |].
Qed.

Lemma ReadSome_short fd len t :
  cursor fd t -> zlen t < len -> exists fd', ReadSome fd len = (t, fd').
Proof.
  intros (Hok & Hp & Hd) Hl. unfold ReadSome. pose proof (zlen_nonneg t).
  edestruct (read_upto_ok (rd_script fd) (rd_data fd) (rd_pos fd) len) as (s & E & Hs); [done|lia..|].
  rewrite E. eexists. f_equal. f_equal. unfold slice. rewrite Hd. unfold ztake, zlen in *.
  apply firstn_all2. lia.
Qed.

(** A record whose fields are all there, with any stored CRC and any op byte. *)
Record RawRecord := mkRaw {
  raw_crc : Z;
  raw_term : Z;
  raw_index : Z;
  raw_op : Z;
  raw_key : bytes;
  raw_value : bytes
}.

Record raw_valid (w : RawRecord) : Prop := {
  rv_crc : is_u32 (raw_crc w);
  rv_term : is_u64 (raw_term w);
  rv_index : is_u64 (raw_index w);
  rv_op : 0 <= raw_op w < 256;
  rv_key : zlen (raw_key w) <= kMaxFieldSize;
  rv_value : zlen (raw_value w) <= kMaxFieldSize
}.

Definition raw_fields (w : RawRecord) : bytes :=
  be_bytes 8 (raw_term w) ++ be_bytes 8 (raw_index w) ++ [byte_of_Z (raw_op w)]
  ++ be_bytes 4 (zlen (raw_key w)).

Definition raw_header (w : RawRecord) : bytes := be_bytes 4 (raw_crc w) ++ raw_fields w.

Definition raw_body (w : RawRecord) : bytes :=
  raw_fields w ++ raw_key w ++ be_bytes 4 (zlen (raw_value w)) ++ raw_value w.

Definition raw_encoding (w : RawRecord) : bytes :=
  raw_header w ++ raw_key w ++ be_bytes 4 (zlen (raw_value w)) ++ raw_value w.

(** The checks of the reader on a record that is all there. *)
Definition check_record (w : RawRecord) : Status * option WalRecord :=
  if negb (Crc32 (raw_body w) =? raw_crc w) then (CorruptRecord "CRC mismatch", None)
  else
    match WalOp_of_byte (raw_op w) with
    | None => (CorruptRecord "unknown op", None)
    | Some op =>
        if is_empty (raw_key w) then (CorruptRecord "empty key", None)
        else if bool_decide (op = WalOp.kSet) && is_empty (raw_value w)
        then (CorruptRecord "SET with empty value", None)
        else (Status_Ok,
              Some (mkWalRecord (raw_term w) (raw_index w) op (raw_key w) (raw_value w)))
    end.

(** The raw form of a record that the writer encodes. *)
Definition raw_of (r : WalRecord) : RawRecord :=
  mkRaw (Crc32 (wal_body r)) (wr_term r) (wr_index r) (WalOp_value (wr_op r)) (wr_key r) (wr_value r).

Lemma zlen_raw_header w : zlen (raw_header w) = kFixedHeaderSize.
Proof. unfold raw_header, raw_fields, kFixedHeaderSize. zlen_lia. Qed.

Lemma zlen_raw_encoding w :
  zlen (raw_encoding w) = kFixedHeaderSize + zlen (raw_key w) + 4 + zlen (raw_value w).
Proof. unfold raw_encoding. rewrite !zlen_app, zlen_raw_header, zlen_be_bytes. lia. Qed.

Lemma WalOp_value_range o : 0 <= WalOp_value o < 256.
Proof. destruct o; cbn; lia. Qed.

Lemma WalOp_of_byte_value o : WalOp_of_byte (WalOp_value o) = Some o.
Proof. by destruct o. Qed.

Lemma wal_body_raw r : wal_valid r -> raw_body (raw_of r) = wal_body r.
Proof.
  intros [_ _ Hk Hv _]. unfold kMaxFieldSize in *. rewrite wal_body_fields by lia. reflexivity.
Qed.

Lemma encode_wal_raw r : wal_valid r -> encode_wal r = raw_encoding (raw_of r).
Proof.
  intros Hr. rewrite encode_wal_eq. rewrite <- (wal_body_raw r Hr) at 2.
  unfold raw_encoding, raw_header, raw_body. by rewrite <- app_assoc.
Qed.

Lemma raw_of_valid r : wal_valid r -> raw_valid (raw_of r).
Proof.
  intros [Ht Hi Hk Hv _]. constructor; cbn; try lia.
  - apply Crc32_range.
  - apply WalOp_value_range.
Qed.

Lemma check_record_of r : wal_valid r -> check_record (raw_of r) = (Status_Ok, Some r).
Proof.
  intros Hr. unfold check_record. rewrite (wal_body_raw r Hr). destruct Hr as [_ _ Hk _ Hset].
  cbn [raw_of raw_crc raw_op raw_key raw_value raw_term raw_index].
  rewrite Z.eqb_refl, WalOp_of_byte_value. cbn [negb].
  replace (is_empty (wr_key r)) with false by (symmetry; apply is_empty_false; lia).
  replace (bool_decide (wr_op r = WalOp.kSet) && is_empty (wr_value r)) with false.
  - by destruct r.
  - destruct (wr_op r) eqn:Eo; [|done]. destruct (wr_value r); [by destruct Hset|done].
Qed.

Lemma raw_header_fields w :
  raw_valid w ->
  ReadU32BE (raw_header w) = raw_crc w /\
  ReadU64BE (zdrop 4 (raw_header w)) = raw_term w /\
  ReadU64BE (zdrop 12 (raw_header w)) = raw_index w /\
  at_ (raw_header w) 20 = raw_op w /\
  ReadU32BE (zdrop 21 (raw_header w)) = zlen (raw_key w) /\
  zdrop 4 (raw_header w) = raw_fields w.
Proof.
  intros [Hc Ht Hi Ho Hk Hv]. unfold kMaxFieldSize in *. set (h := raw_header w).
  pose proof (zlen_nonneg (raw_key w)).
  assert (H0 : zdrop 0 h = raw_header w) by reflexivity. unfold raw_header in H0.
  assert (H4 : zdrop 4 h = raw_fields w) by (eapply zdrop_step; [exact H0|lia|zlen_lia]).
  assert (H4' := H4). unfold raw_fields in H4'.
  assert (H12 := zdrop_step _ 12 _ _ _ H4' ltac:(lia) ltac:(zlen_lia)).
  assert (H20 := zdrop_step _ 20 _ _ _ H12 ltac:(lia) ltac:(zlen_lia)).
  assert (H21 := zdrop_step _ 21 _ _ _ H20 ltac:(lia) ltac:(zlen_lia)).
  split; [rewrite <- (zdrop_0 h), H0; by apply ReadU32BE_be|].
  split; [rewrite H4'; by apply ReadU64BE_be|].
  split; [rewrite H12; by apply ReadU64BE_be|].
  split; [rewrite (at_zdrop h 20 20) by done; rewrite H20; by apply at_byte_of_Z|].
  split; [rewrite H21, <- (app_nil_r (be_bytes 4 _)); apply ReadU32BE_be; lia|done].
Qed.

Lemma ReadU32BE_exact v : is_u32 v -> ReadU32BE (be_bytes 4 v) = v.
Proof. intros Hv. rewrite <- (app_nil_r (be_bytes 4 v)). by apply ReadU32BE_be. Qed.

(** A record that is all there is consumed and judged by the reader's checks. *)
Lemma ReadNextWalRecord_raw fd w rest :
  raw_valid w -> cursor fd (raw_encoding w ++ rest) ->
  exists fd', ReadNextWalRecord fd = (check_record w, fd') /\ cursor fd' rest /\
    moved fd fd' (zlen (raw_encoding w)).
Proof.
  intros Hw Hc. pose proof (raw_header_fields w Hw) as (F1 & F2 & F3 & F4 & F5 & F6).
  destruct Hw as [_ _ _ _ Hk Hv]. unfold raw_encoding in Hc. rewrite <- !app_assoc in Hc.
  pose proof (zlen_raw_header w) as Hh. pose proof (zlen_nonneg (raw_value w)).
  apply ReadSome_full in Hc as (fd1 & E1 & Hc & M1). rewrite Hh in E1, M1.
  apply ReadSome_full in Hc as (fd2 & E2 & Hc & M2).
  apply ReadSome_full in Hc as (fd3 & E3 & Hc & M3).
  rewrite zlen_be_bytes in E3, M3. change (Z.of_nat 4) with 4 in *.
  apply ReadSome_full in Hc as (fd4 & E4 & Hc & M4).
  exists fd4. split; [|split; [done|]].
  2: { rewrite zlen_raw_encoding.
       exact (moved_trans _ _ _ _ _ (moved_trans _ _ _ _ _ (moved_trans _ _ _ _ _ M1 M2) M3) M4). }
  unfold ReadNextWalRecord, check_record.
  rewrite E1, Hh, Z.ltb_irrefl, F1, F2, F3, F4, F5.
  replace (kMaxFieldSize <? zlen (raw_key w)) with false by lia.
  rewrite E2, Z.ltb_irrefl, E3, zlen_be_bytes. change (Z.of_nat 4 <? 4) with false.
  cbv iota. rewrite ReadU32BE_exact by (unfold kMaxFieldSize in *; lia).
  replace (kMaxFieldSize <? zlen (raw_value w)) with false by lia.
  rewrite E4, Z.ltb_irrefl, F6.
  replace ((((([] : bytes) ++ raw_fields w) ++ raw_key w) ++ be_bytes 4 (zlen (raw_value w)))
           ++ raw_value w) with (raw_body w) by (unfold raw_body; by rewrite <- !app_assoc).
  destruct (negb _); [done|]. destruct (WalOp_of_byte _); [|done].
  destruct (is_empty _); [done|]. by destruct (_ && _).
Qed.

(** A complete valid record at the cursor is read back. *)
Lemma ReadNextWalRecord_record fd r rest :
  wal_valid r -> cursor fd (encode_wal r ++ rest) ->
  exists fd', ReadNextWalRecord fd = (Status_Ok, Some r, fd') /\ cursor fd' rest /\
    moved fd fd' (zlen (encode_wal r)).
Proof.
  intros Hr Hc. rewrite encode_wal_raw in Hc |- * by done.
  destruct (ReadNextWalRecord_raw fd (raw_of r) rest) as (fd' & E & H);
    [by apply raw_of_valid|done|].
  exists fd'. by rewrite E, check_record_of.
Qed.

(** [a ++ b] cut strictly inside: the cut falls in [a], or in [b]. *)
Lemma strict_prefix_app (pre suf a b : bytes) :
  pre ++ suf = a ++ b -> suf <> [] ->
  zlen pre < zlen a \/ exists pre', pre = a ++ pre' /\ pre' ++ suf = b.
Proof.
  intros E Hsuf. destruct (Z.lt_ge_cases (zlen pre) (zlen a)) as [|Hge]; [by left|right].
  apply app_eq_inv in E as [(k & Ea & Eb)|(k & Ea & Eb)]; [by exists k|].
  - subst a. autorewrite with zlen in Hge. assert (zlen k = 0) as Hk by (pose proof (zlen_nonneg k); lia).
    apply zlen_zero in Hk as ->. exists []. by rewrite !app_nil_r in *.
Qed.

(** Any strict prefix of a record, torn by a crash, reads as the end of the log. *)
Lemma ReadNextWalRecord_torn fd w pre suf :
  raw_valid w -> raw_encoding w = pre ++ suf -> suf <> [] -> cursor fd pre ->
  exists fd', ReadNextWalRecord fd = (Status_Ok, None, fd').
Proof.
  intros Hw Hcut Hsuf Hc. pose proof (raw_header_fields w Hw) as (F1 & F2 & F3 & F4 & F5 & F6).
  unfold raw_encoding in Hcut. symmetry in Hcut. destruct Hw as [_ _ _ _ Hk Hv].
  pose proof (zlen_raw_header w) as Hh. pose proof (zlen_nonneg (raw_value w)).
  unfold ReadNextWalRecord.
  destruct (strict_prefix_app _ _ _ _ Hcut Hsuf) as [Hlt|(p1 & -> & Hcut1)].
  { edestruct (ReadSome_short fd kFixedHeaderSize) as (fd' & ->); [done|lia|].
    rewrite (proj2 (Z.ltb_lt _ _)) by lia. by eexists. }
  apply ReadSome_full in Hc as (fd1 & E1 & Hc & _). rewrite Hh in E1.
  rewrite E1, Hh, Z.ltb_irrefl, F1, F2, F3, F4, F5.
  replace (kMaxFieldSize <? zlen (raw_key w)) with false by lia.
  destruct (strict_prefix_app _ _ _ _ Hcut1 Hsuf) as [Hlt|(p2 & -> & Hcut2)].
  { edestruct (ReadSome_short fd1 (zlen (raw_key w))) as (fd' & ->); [done|lia|].
    rewrite (proj2 (Z.ltb_lt _ _)) by lia. by eexists. }
  apply ReadSome_full in Hc as (fd2 & E2 & Hc & _). rewrite E2, Z.ltb_irrefl.
  destruct (strict_prefix_app _ _ _ _ Hcut2 Hsuf) as [Hlt|(p3 & -> & Hcut3)].
  { rewrite zlen_be_bytes in Hlt. edestruct (ReadSome_short fd2 4) as (fd' & ->); [done|lia|].
    rewrite (proj2 (Z.ltb_lt _ _)) by lia. by eexists. }
  apply ReadSome_full in Hc as (fd3 & E3 & Hc & _). rewrite zlen_be_bytes in E3.
  change (Z.of_nat 4) with 4 in E3. rewrite E3, zlen_be_bytes. change (Z.of_nat 4 <? 4) with false.
  cbv iota. rewrite ReadU32BE_exact by (unfold kMaxFieldSize in *; lia).
  replace (kMaxFieldSize <? zlen (raw_value w)) with false by lia.
  assert (zlen p3 < zlen (raw_value w)).
  { rewrite <- Hcut3, zlen_app. destruct suf; [done|]. rewrite zlen_cons. pose proof (zlen_nonneg suf). lia. }
  edestruct (ReadSome_short fd3 (zlen (raw_value w))) as (fd' & ->); [done|lia|].
  rewrite (proj2 (Z.ltb_lt _ _)) by lia. by eexists.
Qed.

(** ** Reading a whole log *)

(** The bytes of a sequence of records. *)
Definition encode_log (rs : list WalRecord) : bytes := concat (encode_wal <$> rs).

(** What a crash can leave after the last complete record: a strict prefix of one. *)
Definition torn_tail (t : bytes) : Prop :=
  t = [] \/ exists w suf, raw_valid w /\ raw_encoding w = t ++ suf /\ suf <> [].

Lemma encode_log_app rs rs' : encode_log (rs ++ rs') = encode_log rs ++ encode_log rs'.
Proof. unfold encode_log. by rewrite fmap_app, concat_app. Qed.

Lemma encode_log_length rs : (length rs <= length (encode_log rs))%nat.
Proof.
  induction rs as [|r rs IH]; [done|]. unfold encode_log in *. cbn. rewrite length_app.
  pose proof (zlen_encode_wal r). pose proof (zlen_nonneg (wr_key r)).
  pose proof (zlen_nonneg (wr_value r)). unfold zlen in *. lia.
Qed.

Lemma read_loop_log {St} (body : St -> WalRecord -> St) rs t fuel fd s :
  Forall wal_valid rs -> torn_tail t -> cursor fd (encode_log rs ++ t) -> (length rs < fuel)%nat ->
  read_loop fuel body fd s = Some (Status_Ok, foldl body s rs).
Proof.
  intros Hrs Ht. revert fuel fd s.
  induction Hrs as [|r rs Hr Hrs IH]; intros fuel fd s Hc Hf; destruct fuel as [|fuel]; try (cbn in Hf; lia);
    cbn [read_loop].
  - destruct Ht as [->|(w & suf & Hw & Hcut & Hsuf)].
    + change (encode_log [] ++ []) with (@nil byte) in Hc. unfold ReadNextWalRecord.
      edestruct (ReadSome_short fd kFixedHeaderSize) as (fd' & ->); [exact Hc|done|]. reflexivity.
    + edestruct ReadNextWalRecord_torn as (fd' & ->); eauto.
  - unfold encode_log in Hc. cbn [fmap list_fmap concat] in Hc. rewrite <- app_assoc in Hc.
    destruct (ReadNextWalRecord_record fd r _ Hr Hc) as (fd' & -> & Hc' & _).
    cbn [Status_ok negb bool_decide]. rewrite Status_ok_Ok. cbn [negb foldl].
    apply IH; [done|]. cbn in Hf. lia.
Qed.

Lemma read_wal_log {St} (body : St -> WalRecord -> St) rs t script s :
  Forall wal_valid rs -> torn_tail t -> reads_ok script ->
  read_wal (encode_log rs ++ t) script body s = Some (Status_Ok, foldl body s rs).
Proof.
  intros Hrs Ht Hs. apply (read_loop_log body rs t); [done|done|split; [done|by split]|].
  rewrite length_app. pose proof (encode_log_length rs). lia.
Qed.

(** ** What the reader accepts, on any bytes and for any kernel behaviour *)

Definition in_file (fd : ReadFd) : Prop := 0 <= rd_pos fd <= zlen (rd_data fd).

(** The bytes left to read at [fd]. *)
Definition remaining (fd : ReadFd) : bytes := zdrop (rd_pos fd) (rd_data fd).

Lemma ReadSome_sound fd len b fd' :
  ReadSome fd len = (b, fd') -> in_file fd ->
  in_file fd' /\ moved fd fd' (zlen b) /\ remaining fd = b ++ remaining fd' /\
  zlen b <= Z.max 0 len.
Proof.
  unfold ReadSome, in_file, moved, remaining. intros E Hp.
  destruct (read_upto (rd_script fd) (rd_data fd) (rd_pos fd) len) as [[b' p] s] eqn:Er.
  injection E as <- <-. pose proof (read_upto_le _ _ _ _ _ _ _ Er).
  apply read_upto_sound in Er as (-> & Hle & Hd); [|done].
  cbn. pose proof (zlen_nonneg b'). split; [lia|]. auto.
Qed.

(** Five fields, read one after the other, are a raw record. *)
Lemma raw_from_parts header key vbuf value :
  zlen header = kFixedHeaderSize -> zlen key = ReadU32BE (zdrop 21 header) ->
  zlen vbuf = 4 -> zlen value = ReadU32BE vbuf ->
  zlen key <= kMaxFieldSize -> zlen value <= kMaxFieldSize ->
  exists w, raw_valid w /\ raw_encoding w = header ++ key ++ vbuf ++ value /\
    w = mkRaw (ReadU32BE header) (ReadU64BE (zdrop 4 header)) (ReadU64BE (zdrop 12 header))
          (at_ header 20) key value.
Proof.
  unfold kFixedHeaderSize. intros Hh Hk Hb Hv Hkm Hvm. eexists. split; [|split; [|reflexivity]].
  - constructor; cbn [raw_crc raw_term raw_index raw_op raw_key raw_value]; try done.
    + apply ReadU32BE_range. lia.
    + apply ReadU64BE_at_range; lia.
    + apply ReadU64BE_at_range; lia.
    + apply at_range.
  - unfold raw_encoding, raw_header, raw_fields.
    cbn [raw_crc raw_term raw_index raw_op raw_key raw_value]. rewrite Hk, Hv.
    rewrite (at_zdrop header 20 20), byte_at_slice by lia.
    rewrite !be_bytes_ReadU64BE, be_bytes_ReadU32BE by lia.
    rewrite <- (zdrop_0 header) at 1. rewrite <- (zdrop_0 vbuf) at 1.
    rewrite !be_bytes_ReadU32BE by lia. rewrite (slice_all 4 vbuf) by lia.
    rewrite <- (zdrop_0 header) at 6.
    rewrite (zdrop_split 0 4), (zdrop_split (0 + 4) 8), (zdrop_split (0 + 4 + 8) 8),
      (zdrop_split (0 + 4 + 8 + 8) 1), (zdrop_split (0 + 4 + 8 + 8 + 1) 4) by lia.
    rewrite (zdrop_all (0 + 4 + 8 + 8 + 1 + 4)) by lia. by rewrite app_nil_r, <- !app_assoc.
Qed.

Lemma check_record_accepts w st r :
  check_record w = (st, Some r) -> raw_valid w ->
  st = Status_Ok /\ wal_valid r /\ encode_wal r = raw_encoding w.
Proof.
  unfold check_record. intros H Hw.
  destruct (Crc32 (raw_body w) =? raw_crc w) eqn:Ec; cbn [negb] in H; [|done].
  destruct (WalOp_of_byte (raw_op w)) as [op|] eqn:Eo; [|done].
  destruct (is_empty (raw_key w)) eqn:Ek; [done|].
  destruct (bool_decide (op = WalOp.kSet) && is_empty (raw_value w)) eqn:Ev; [done|].
  injection H as <- <-. apply is_empty_false in Ek.
  destruct Hw as [Hc Ht Hi Ho Hk Hv].
  assert (Hr : wal_valid (mkWalRecord (raw_term w) (raw_index w) op (raw_key w) (raw_value w))).
  { constructor; cbn; try done. intros -> Hnil. rewrite Hnil in Ev. done. }
  split; [done|]. split; [done|].
  rewrite encode_wal_raw by done. unfold raw_of. cbn [wr_term wr_index wr_op wr_key wr_value].
  assert (WalOp_value op = raw_op w) as Hop
    by (unfold WalOp_of_byte in Eo; repeat case_match; simplify_eq; cbn; lia).
  rewrite Hop. rewrite <- (wal_body_raw _ Hr). unfold raw_of at 1.
  cbn [wr_term wr_index wr_op wr_key wr_value]. rewrite Hop.
  assert (raw_body (mkRaw (Crc32 (wal_body (mkWalRecord (raw_term w) (raw_index w) op (raw_key w) (raw_value w))))
    (raw_term w) (raw_index w) (raw_op w) (raw_key w) (raw_value w)) = raw_body w) as -> by done.
  replace (Crc32 (raw_body w)) with (raw_crc w) by lia. by destruct w.
Qed.

Lemma ReadNextWalRecord_sound fd st r fd' :
  ReadNextWalRecord fd = (st, Some r, fd') -> in_file fd ->
  st = Status_Ok /\ wal_valid r /\ remaining fd = encode_wal r ++ remaining fd' /\
  in_file fd' /\ rd_data fd' = rd_data fd.
Proof.
  unfold ReadNextWalRecord. intros H Hin.
  destruct (ReadSome fd kFixedHeaderSize) as [header fd1] eqn:E1.
  apply ReadSome_sound in E1 as (Hin1 & [D1 _] & R1 & L1); [|done].
  destruct (zlen header <? kFixedHeaderSize) eqn:G1; [done|].
  destruct (kMaxFieldSize <? ReadU32BE (zdrop 21 header)) eqn:G2; [done|].
  destruct (ReadSome fd1 (ReadU32BE (zdrop 21 header))) as [key fd2] eqn:E2.
  apply ReadSome_sound in E2 as (Hin2 & [D2 _] & R2 & L2); [|done].
  destruct (zlen key <? ReadU32BE (zdrop 21 header)) eqn:G3; [done|].
  destruct (ReadSome fd2 4) as [vbuf fd3] eqn:E3.
  apply ReadSome_sound in E3 as (Hin3 & [D3 _] & R3 & L3); [|done].
  destruct (zlen vbuf <? 4) eqn:G4; [done|].
  destruct (kMaxFieldSize <? ReadU32BE vbuf) eqn:G5; [done|].
  destruct (ReadSome fd3 (ReadU32BE vbuf)) as [value fd4] eqn:E4.
  apply ReadSome_sound in E4 as (Hin4 & [D4 _] & R4 & L4); [|done].
  destruct (zlen value <? ReadU32BE vbuf) eqn:G6; [done|].
  assert (Hh : zlen header = kFixedHeaderSize) by (unfold kFixedHeaderSize in *; lia).
  assert (is_u32 (ReadU32BE (zdrop 21 header)))
    by (apply ReadU32BE_at_range; unfold kFixedHeaderSize in *; lia).
  assert (is_u32 (ReadU32BE vbuf)) by (apply ReadU32BE_range; lia).
  destruct (raw_from_parts header key vbuf value) as (w & Hw & Henc & Ew); [lia..|].
  assert (Hbody : ((([] ++ zdrop 4 header) ++ key) ++ vbuf) ++ value = raw_body w).
  { assert (raw_encoding w = be_bytes 4 (raw_crc w) ++ raw_body w) as Hb
      by (unfold raw_encoding, raw_header, raw_body; by rewrite <- app_assoc).
    rewrite Henc in Hb. rewrite <- (ztake_zdrop 4 header), <- app_assoc in Hb.
    apply app_inj_1 in Hb as [_ <-]; [by rewrite <- !app_assoc|].
    rewrite length_be_bytes. unfold ztake. rewrite length_take. unfold kFixedHeaderSize, zlen in *. lia. }
  assert (Hcheck : (check_record w, fd4) = (st, Some r, fd')).
  { rewrite <- H, Hbody. unfold check_record. subst w.
    cbn [raw_crc raw_term raw_index raw_op raw_key raw_value].
    match goal with |- context [negb ?c] => destruct c end; [cbn [negb]|done].
    destruct (WalOp_of_byte _) as [op|]; [|done]. destruct (is_empty key); [done|].
    by destruct (bool_decide (op = WalOp.kSet) && is_empty value). }
  injection Hcheck as Hcheck <-. apply check_record_accepts in Hcheck as (-> & Hr & Hre); [|done].
  split; [done|]. split; [done|]. split; [|split; [done|congruence]].
  rewrite Hre, Henc, R1, R2, R3, R4. by rewrite <- !app_assoc.
Qed.

Lemma read_loop_sound {St} (body : St -> WalRecord -> St) fuel fd s :
  in_file fd -> (length (remaining fd) < fuel)%nat ->
  exists st rs tail, read_loop fuel body fd s = Some (st, foldl body s rs) /\
    Forall wal_valid rs /\ remaining fd = encode_log rs ++ tail.
Proof.
  revert fd s. induction fuel as [|fuel IH]; intros fd s Hin Hf; [lia|]. cbn [read_loop].
  destruct (ReadNextWalRecord fd) as [[st [r|]] fd'] eqn:E.
  - apply ReadNextWalRecord_sound in E as (-> & Hr & Hrem & Hin' & _); [|done].
    rewrite Status_ok_Ok. cbn [negb].
    destruct (IH fd' (body s r)) as (st & rs & tail & E & Hrs & Hrem'); [done| |].
    { rewrite Hrem, length_app in Hf. pose proof (zlen_encode_wal r).
      pose proof (zlen_nonneg (wr_key r)). pose proof (zlen_nonneg (wr_value r)).
      unfold zlen in *. lia. }
    exists st, (r :: rs), tail. split; [done|]. split; [by constructor|].
    rewrite Hrem, Hrem'. unfold encode_log. cbn [fmap list_fmap concat]. by rewrite <- app_assoc.
  - exists (if negb (Status_ok st) then st else Status_Ok), [], (remaining fd).
    split; [destruct (negb (Status_ok st)); reflexivity|]. by split.
Qed.

(** ** Properties of the log format *)

(** C34: reading back a log. On a file that holds the encodings of valid records
    followed by nothing, or by a strict prefix of a record (a write torn by a
    crash), the read loop visits exactly those records in order and reports
    success, whatever short reads and [EINTR]s the kernel answers with. *)
Theorem read_wal_roundtrip (rs : list WalRecord) (t : bytes) (script : list ReadAns) :
  Forall wal_valid rs -> torn_tail t -> reads_ok script ->
  read_wal (encode_log rs ++ t) script (fun acc r => acc ++ [r]) [] = Some (Status_Ok, rs).
Proof.
  intros Hrs Ht Hs. rewrite (read_wal_log _ rs t) by done. by rewrite foldl_push_back.
Qed.

Definition wal_example : WalRecord := mkWalRecord 3 7 WalOp.kSet (str "k") (str "v").

Lemma read_wal_roundtrip_witness :
  read_wal (encode_log [wal_example] ++ take 10 (encode_wal wal_example)) [RdEintr; RdShort 3]
    (fun acc r => acc ++ [r]) [] = Some (Status_Ok, [wal_example]).
Proof.
  assert (Hv : wal_valid wal_example) by (constructor; cbn; try (vm_compute; done); discriminate).
  apply (read_wal_roundtrip [wal_example]).
  - by constructor.
  - right. exists (raw_of wal_example), (drop 10 (encode_wal wal_example)).
    split; [by apply raw_of_valid|]. split; [|vm_compute; discriminate].
    rewrite <- encode_wal_raw by done. symmetry. apply take_drop.
  - repeat constructor.
Defined.

(** C35: the read loop terminates on every file and under every kernel behaviour,
    within a number of iterations bounded by the file's size; and what it visited
    is a sequence of valid records whose encodings are a prefix of the file. No
    byte sequence makes it invent, skip or reorder a record. *)
Theorem read_wal_sound (data : bytes) (script : list ReadAns) :
  exists st rs tail,
    read_wal data script (fun acc r => acc ++ [r]) [] = Some (st, rs) /\
    Forall wal_valid rs /\ data = encode_log rs ++ tail.
Proof.
  unfold read_wal.
  destruct (read_loop_sound (fun acc r => acc ++ [r]) (S (length data))
    (mkReadFd data 0 script) []) as (st & rs & tail & E & Hrs & Hrem).
  - unfold in_file. cbn. pose proof (zlen_nonneg data). lia.
  - unfold remaining. cbn. rewrite zdrop_0. lia.
  - rewrite foldl_push_back in E. by exists st, rs, tail.
Qed.

(** A raw record [w] that differs from the valid record [r] in up to four consecutive bytes,
    all of them in the CRC field or all of them in the body, whose two length fields keep
    their values. *)
Definition corrupted (r : WalRecord) (w : RawRecord) : Prop :=
  (raw_body w = wal_body r /\ raw_crc w <> Crc32 (wal_body r)) \/
  (raw_crc w = Crc32 (wal_body r) /\ exists before x y after,
     wal_body r = before ++ x ++ after /\ raw_body w = before ++ y ++ after /\
     length x = length y /\ zlen x <= 4 /\ x <> y).

(** C36: corruption is an error, not an end of log. Take a valid record and change up to
    four consecutive bytes of it, either within the stored CRC or within the body (term,
    index, op, key or value, the two length fields keeping their values): the reader then
    answers with the CRC error, never with a record and never with a clean end. *)
Theorem wal_corruption_detected (r : WalRecord) (w : RawRecord) (rest : bytes) (fd : ReadFd) :
  wal_valid r -> raw_valid w -> corrupted r w -> cursor fd (raw_encoding w ++ rest) ->
  exists fd', ReadNextWalRecord fd = (CorruptRecord "CRC mismatch", None, fd').
Proof.
  intros Hr Hw Hcor Hc. destruct (ReadNextWalRecord_raw fd w rest Hw Hc) as (fd' & E & _). exists fd'.
  rewrite E. unfold check_record. assert (Hn : Crc32 (raw_body w) <> raw_crc w).
  { destruct Hcor as [[-> Hne]|(-> & before & x & y & after & -> & -> & Hl & H4 & Hne)]; [congruence|].
    intros Heq. by apply Hne, (Crc32_burst_inj before _ _ after). }
  replace (Crc32 (raw_body w) =? raw_crc w) with false by lia. done.
Qed.

Lemma wal_corruption_detected_witness :
  exists fd', ReadNextWalRecord (mkReadFd (raw_encoding (mkRaw (Crc32 (wal_body wal_example)) 3 7 1
    (str "k") (str "w")) ++ []) 0 []) = (CorruptRecord "CRC mismatch", None, fd').
Proof.
  assert (Hv : wal_valid wal_example) by (constructor; cbn; try (vm_compute; done); discriminate).
  apply (wal_corruption_detected wal_example (mkRaw (Crc32 (wal_body wal_example)) 3 7 1 (str "k") (str "w")) []).
  - exact Hv.
  - constructor; vm_compute; (done || (split; [discriminate|reflexivity]) || discriminate).
  - right. split; [reflexivity|]. exists (take 26 (wal_body wal_example)), (str "v"), (str "w"), [].
    split; [vm_compute; reflexivity|]. split; [vm_compute; reflexivity|]. split; [reflexivity|].
    split; vm_compute; discriminate.
  - split; [constructor|]. split; [vm_compute; discriminate|reflexivity].
Defined.

(** A burst of four bytes that reaches from the CRC field into the term can go unnoticed:
    the two records below differ in bytes 2 to 5 only and both are read. *)
Definition burst_record : WalRecord := mkWalRecord 0 1 WalOp.kSet (str "k") (str "v").
Definition burst_encoding : bytes :=
  take 2 (encode_wal burst_record) ++ (byte_of_Z <$> [0xf4; 0xbd; 0x87; 0xe8]) ++ drop 6 (encode_wal burst_record).

Example burst_across_crc_unnoticed :
  burst_encoding <> encode_wal burst_record /\
  exists r fd, ReadNextWalRecord (mkReadFd burst_encoding 0 []) = (Status_Ok, Some r, fd) /\ r <> burst_record.
Proof.
  split; [vm_compute; discriminate|]. eexists _, _. split; [vm_compute; reflexivity|]. vm_compute. discriminate.
Qed.
