(* ===== verification/RaftTypes.v ===== *)
(** * Raft data types ([src/raft/types.h], the message structs of [src/raft/rpc_codec.h]) *)

From S2P Require Import Prelude Common BigEndian Crc32 Os WalRecord.

Module RaftState.
Inductive RaftState := kFollower | kCandidate | kLeader.
#[global] Instance raft_state_eq_dec : EqDecision RaftState.
Proof. solve_decision. Defined.
End RaftState.
Abbreviation RaftState := RaftState.RaftState.

(** [struct LogEntry]: one entry of the replicated log. *)
Record LogEntry := mkLogEntry {
  le_term : Z;
  le_index : Z;
  le_op : WalOp;
  le_key : bytes;
  le_value : bytes
}.

#[global] Instance log_entry_eq_dec : EqDecision LogEntry.
Proof. solve_decision. Defined.

(** [struct PersistentState]; [voted_for = 0] means no vote. *)
Record PersistentState := mkPersistentState { current_term : Z; voted_for : Z }.

Definition PersistentState_default : PersistentState := mkPersistentState 0 0.

(** The four RPC messages. *)
Record RequestVoteRequest := mkRequestVoteRequest {
  rvq_term : Z;
  rvq_candidate_id : Z;
  rvq_last_log_index : Z;
  rvq_last_log_term : Z
}.

Record RequestVoteResponse := mkRequestVoteResponse {
  rvr_term : Z;
  rvr_vote_granted : bool
}.

Record AppendEntriesRequest := mkAppendEntriesRequest {
  aeq_term : Z;
  aeq_leader_id : Z;
  aeq_prev_log_index : Z;
  aeq_prev_log_term : Z;
  aeq_leader_commit : Z;
  aeq_entries : list LogEntry
}.

Record AppendEntriesResponse := mkAppendEntriesResponse {
  aer_term : Z;
  aer_success : bool
}.

(** Default member initialisers. *)
Definition RequestVoteRequest_default := mkRequestVoteRequest 0 0 0 0.
Definition RequestVoteResponse_default := mkRequestVoteResponse 0 false.
Definition AppendEntriesRequest_default := mkAppendEntriesRequest 0 0 0 0 0 [].
Definition AppendEntriesResponse_default := mkAppendEntriesResponse 0 false.
