(* ===== verification/RpcCodec.v ===== *)
(** * The Raft RPC bodies ([src/raft/rpc_codec.cpp])

    The bounds-checked [Reader], the four encoders and the four decoders. A decoder
    writes its out-parameter field by field, so the fields read before an error keep
    their new values; [std::vector::reserve] may throw, so it is an argument of the
    decoder that uses it. *)

From Stdlib Require Import Strings.String.
From S2P Require Import Prelude Common BigEndian Crc32 Os WalRecord RaftTypes.

(** ** Writers *)

Definition WriteU8 (out : bytes) (value : Z) : bytes := out ++ [byte_of_Z value].
Definition WriteBytes (out b : bytes) : bytes := out ++ b.

Definition Truncated : Status :=
  Status_Error ErrorCode.kInvalidArgument (str "truncated raft RPC body").

(** ** The reader *)

Record Reader := mkReader { data_ : bytes; offset_ : Z }.
Definition Reader_init (input : bytes) : Reader := mkReader input 0.
Definition size_ (r : Reader) : Z := zlen (data_ r).

Definition ReadU8 (r : Reader) : Result (Z * Reader) :=
  return_if (size_ r <? offset_ r + 1) Truncated ;;
  Value (at_ (zdrop (offset_ r) (data_ r)) 0, mkReader (data_ r) (offset_ r + 1)).

Definition ReadU32 (r : Reader) : Result (Z * Reader) :=
  return_if (size_ r <? offset_ r + 4) Truncated ;;
  Value (ReadU32BE (zdrop (offset_ r) (data_ r)), mkReader (data_ r) (offset_ r + 4)).

Definition ReadU64 (r : Reader) : Result (Z * Reader) :=
  return_if (size_ r <? offset_ r + 8) Truncated ;;
  Value (ReadU64BE (zdrop (offset_ r) (data_ r)), mkReader (data_ r) (offset_ r + 8)).

Definition ReadBytes (len : Z) (r : Reader) : Result (bytes * Reader) :=
  return_if (size_ r <? offset_ r + len) Truncated ;;
  Value (slice (offset_ r) len (data_ r), mkReader (data_ r) (offset_ r + len)).

Definition AtEnd (r : Reader) : bool := offset_ r =? size_ r.

(** ** The decoders' effects: a reader, an out-parameter, early return of a status,
    and [std::bad_alloc]. *)

Inductive DecRes (O A : Type) :=
| DOk (a : A) (r : Reader) (o : O)
| DErr (s : Status) (o : O)
| DThrow.
Arguments DOk {O A}.
Arguments DErr {O A}.
Arguments DThrow {O A}.

Definition Dec (O A : Type) := Reader -> O -> DecRes O A.

Definition dbind {O A B} (m : Dec O A) (k : A -> Dec O B) : Dec O B := fun r o =>
  match m r o with
  | DOk a r o => k a r o
  | DErr s o => DErr s o
  | DThrow => DThrow
  end.

(** [if (!(status = r.Read(&x)).ok()) return status;] *)
Definition dread {O A} (rd : Reader -> Result (A * Reader)) : Dec O A := fun r o =>
  match rd r with Value (a, r) => DOk a r o | Failed s => DErr s o end.

(** An assignment to the out-parameter. *)
Definition dset {O} (f : O -> O) : Dec O unit := fun r o => DOk tt r (f o).

(** [if (c) return s;] *)
Definition dcheck {O} (c : Reader -> bool) (s : Status) : Dec O unit := fun r o =>
  if c r then DErr s o else DOk tt r o.

Definition dreturn {O A} (a : A) : Dec O A := fun r o => DOk a r o.
Definition dthrow_unless {O} (c : bool) : Dec O unit := fun r o =>
  if c then DOk tt r o else DThrow.

Notation "x '<-!' m ';;' k" := (dbind m (fun x => k))
  (at level 100, m at next level, right associativity) : neuralkv_scope.

Definition run_decoder {O} (m : Dec O unit) (input : bytes) (out : O) : Outcome (Status * O) :=
  match m (Reader_init input) out with
  | DOk _ _ o => Returns (Status_Ok, o)
  | DErr s o => Returns (s, o)
  | DThrow => Throws std_bad_alloc
  end.

(** ** RequestVote *)

Definition EncodeRequestVoteRequest (req : RequestVoteRequest) : bytes :=
  let buf := [] in
  let buf := WriteU64BE buf (rvq_term req) in
  let buf := WriteU32BE buf (rvq_candidate_id req) in
  let buf := WriteU64BE buf (rvq_last_log_index req) in
  WriteU64BE buf (rvq_last_log_term req).

Definition trailing (what : String.string) : Status :=
  Status_Error ErrorCode.kInvalidArgument (str "trailing bytes in " ++ str what).
Arguments trailing what%_string_scope.

Definition DecodeRequestVoteRequest : bytes -> RequestVoteRequest -> Outcome (Status * RequestVoteRequest) :=
  run_decoder
  (v <-! dread ReadU64 ;;
   _ <-! dset (fun '(mkRequestVoteRequest _ c i t) => mkRequestVoteRequest v c i t) ;;
   v <-! dread ReadU32 ;;
   _ <-! dset (fun '(mkRequestVoteRequest m _ i t) => mkRequestVoteRequest m v i t) ;;
   v <-! dread ReadU64 ;;
   _ <-! dset (fun '(mkRequestVoteRequest m c _ t) => mkRequestVoteRequest m c v t) ;;
   v <-! dread ReadU64 ;;
   _ <-! dset (fun '(mkRequestVoteRequest m c i _) => mkRequestVoteRequest m c i v) ;;
   dcheck (fun r => negb (AtEnd r)) (trailing "RequestVote request")).

Definition EncodeRequestVoteResponse (resp : RequestVoteResponse) : bytes :=
  let buf := [] in
  let buf := WriteU64BE buf (rvr_term resp) in
  WriteU8 buf (if rvr_vote_granted resp then 1 else 0).

Definition DecodeRequestVoteResponse : bytes -> RequestVoteResponse -> Outcome (Status * RequestVoteResponse) :=
  run_decoder
  (v <-! dread ReadU64 ;;
   _ <-! dset (fun '(mkRequestVoteResponse _ g) => mkRequestVoteResponse v g) ;;
   granted <-! dread ReadU8 ;;
   _ <-! dset (fun '(mkRequestVoteResponse t _) => mkRequestVoteResponse t (negb (granted =? 0))) ;;
   dcheck (fun r => negb (AtEnd r)) (trailing "RequestVote response")).

(** ** AppendEntries *)

(** The loop body of the encoder. *)
Definition WriteEntry (buf : bytes) (entry : LogEntry) : bytes :=
  let buf := WriteU64BE buf (le_term entry) in
  let buf := WriteU64BE buf (le_index entry) in
  let buf := WriteU8 buf (WalOp_value (le_op entry)) in
  let buf := WriteU32BE buf (u32 (zlen (le_key entry))) in
  let buf := WriteBytes buf (le_key entry) in
  let buf := WriteU32BE buf (u32 (zlen (le_value entry))) in
  WriteBytes buf (le_value entry).

Definition EncodeAppendEntriesRequest (req : AppendEntriesRequest) : bytes :=
  let buf := [] in
  let buf := WriteU64BE buf (aeq_term req) in
  let buf := WriteU32BE buf (aeq_leader_id req) in
  let buf := WriteU64BE buf (aeq_prev_log_index req) in
  let buf := WriteU64BE buf (aeq_prev_log_term req) in
  let buf := WriteU64BE buf (aeq_leader_commit req) in
  let buf := WriteU32BE buf (u32 (zlen (aeq_entries req))) in
  foldl WriteEntry buf (aeq_entries req).

(** The loop body of the decoder: one entry, pushed to the out-parameter at the end. *)
Definition DecodeEntry : Dec AppendEntriesRequest unit :=
  term <-! dread ReadU64 ;;
  index <-! dread ReadU64 ;;
  op_byte <-! dread ReadU8 ;;
  match WalOp_of_byte op_byte with
  | None => dcheck (fun _ => true)
              (Status_Error ErrorCode.kInvalidArgument (str "unknown log entry op"))
  | Some op =>
      key_len <-! dread ReadU32 ;;
      key <-! dread (ReadBytes key_len) ;;
      value_len <-! dread ReadU32 ;;
      value <-! dread (ReadBytes value_len) ;;
      dset (fun '(mkAppendEntriesRequest t l pi pt lc es) =>
        mkAppendEntriesRequest t l pi pt lc (es ++ [mkLogEntry term index op key value]))
  end.

(** [for (i = 0; i < entry_count; ++i)] *)
Fixpoint DecodeEntries (count : nat) : Dec AppendEntriesRequest unit :=
  match count with
  | O => dreturn tt
  | S count => _ <-! DecodeEntry ;; DecodeEntries count
  end.

(** [reserve n]: whether the allocator can reserve room for [n] entries. *)
Definition DecodeAppendEntriesRequest (reserve : Z -> bool)
    : bytes -> AppendEntriesRequest -> Outcome (Status * AppendEntriesRequest) :=
  run_decoder
  (v <-! dread ReadU64 ;;
   _ <-! dset (fun '(mkAppendEntriesRequest _ l pi pt lc es) => mkAppendEntriesRequest v l pi pt lc es) ;;
   v <-! dread ReadU32 ;;
   _ <-! dset (fun '(mkAppendEntriesRequest t _ pi pt lc es) => mkAppendEntriesRequest t v pi pt lc es) ;;
   v <-! dread ReadU64 ;;
   _ <-! dset (fun '(mkAppendEntriesRequest t l _ pt lc es) => mkAppendEntriesRequest t l v pt lc es) ;;
   v <-! dread ReadU64 ;;
   _ <-! dset (fun '(mkAppendEntriesRequest t l pi _ lc es) => mkAppendEntriesRequest t l pi v lc es) ;;
   v <-! dread ReadU64 ;;
   _ <-! dset (fun '(mkAppendEntriesRequest t l pi pt _ es) => mkAppendEntriesRequest t l pi pt v es) ;;
   entry_count <-! dread ReadU32 ;;
   _ <-! dset (fun '(mkAppendEntriesRequest t l pi pt lc _) => mkAppendEntriesRequest t l pi pt lc []) ;;
   _ <-! dthrow_unless (reserve entry_count) ;;
   _ <-! DecodeEntries (Z.to_nat entry_count) ;;
   dcheck (fun r => negb (AtEnd r)) (trailing "AppendEntries request")).

Definition EncodeAppendEntriesResponse (resp : AppendEntriesResponse) : bytes :=
  let buf := [] in
  let buf := WriteU64BE buf (aer_term resp) in
  WriteU8 buf (if aer_success resp then 1 else 0).

Definition DecodeAppendEntriesResponse : bytes -> AppendEntriesResponse -> Outcome (Status * AppendEntriesResponse) :=
  run_decoder
  (v <-! dread ReadU64 ;;
   _ <-! dset (fun '(mkAppendEntriesResponse _ s) => mkAppendEntriesResponse v s) ;;
   success <-! dread ReadU8 ;;
   _ <-! dset (fun '(mkAppendEntriesResponse t _) => mkAppendEntriesResponse t (negb (success =? 0))) ;;
   dcheck (fun r => negb (AtEnd r)) (trailing "AppendEntries response")).

(** ** Decoders as grammars

    A decoder recognises a relation [G a c o o']: it consumes exactly the bytes [c],
    returns [a] and takes the out-parameter from [o] to [o'], and succeeds on no other
    input. The relations compose the way the decoders do. *)

Definition grammar (O A : Type) := A -> bytes -> O -> O -> Prop.

Definition good (r : Reader) : Prop := 0 <= offset_ r <= size_ r.
Definition rest (r : Reader) : bytes := zdrop (offset_ r) (data_ r).
Definition advance (r : Reader) (n : Z) : Reader := mkReader (data_ r) (offset_ r + n).

Record parses {O A} (m : Dec O A) (G : grammar O A) : Prop := {
  parses_iff : forall r o a r' o', good r ->
    (m r o = DOk a r' o' <-> exists c, G a c o o' /\ c `prefix_of` rest r /\ r' = advance r (zlen c));
  parses_err : forall r o s o', good r -> m r o = DErr s o' -> Status_ok s = false
}.

Definition gbind {O A B} (G : grammar O A) (H : A -> grammar O B) : grammar O B := fun b c o o' =>
  exists a c1 c2 o1, c = c1 ++ c2 /\ G a c1 o o1 /\ H a b c2 o1 o'.
Definition gtoken {O A} (ok : A -> Prop) (enc : A -> bytes) : grammar O A := fun a c o o' =>
  ok a /\ c = enc a /\ o' = o.
Definition gset {O} (f : O -> O) : grammar O unit := fun _ c o o' => c = [] /\ o' = f o.

Lemma rest_advance r c t :
  good r -> rest r = c ++ t -> good (advance r (zlen c)) /\ rest (advance r (zlen c)) = t.
Proof.
  unfold good, rest, advance, size_. cbn. intros Hr E. pose proof (zlen_nonneg c).
  split; [|by eapply zdrop_step; [exact E|lia|]].
  assert (zlen (zdrop (offset_ r) (data_ r)) = zlen (data_ r) - offset_ r) as Hd
    by (apply zlen_zdrop; lia).
  rewrite E, zlen_app in Hd. pose proof (zlen_nonneg t). lia.
Qed.

Lemma advance_app r (c1 c2 : bytes) :
  advance (advance r (zlen c1)) (zlen c2) = advance r (zlen (c1 ++ c2)).
Proof. unfold advance. cbn. rewrite zlen_app. f_equal. lia. Qed.

Lemma advance_0 r : advance r (zlen (@nil byte)) = r.
Proof. destruct r. unfold advance. cbn. by rewrite zlen_nil, Z.add_0_r. Qed.

Lemma parses_bind {O A B} (m : Dec O A) (k : A -> Dec O B) G H :
  parses m G -> (forall a c o o1, G a c o o1 -> parses (k a) (H a)) ->
  parses (dbind m k) (gbind G H).
Proof.
  intros [Hm Em] Hk. split.
  - intros r o b r' o' Hr. unfold dbind, gbind. split.
    + destruct (m r o) as [a r1 o1| |] eqn:E; [|done..]. intros E2.
      apply Hm in E as (c1 & G1 & [t1 Hp1] & ->); [|done].
      destruct (rest_advance r c1 t1) as [Hr1 Hrest]; [done..|].
      apply (parses_iff _ _ (Hk _ _ _ _ G1)) in E2 as (c2 & G2 & [t2 Hp2] & ->); [|done].
      exists (c1 ++ c2). split; [by eauto 10|]. split; [|by rewrite advance_app].
      exists t2. by rewrite Hp1, <- app_assoc, <- Hp2, Hrest.
    + intros (c & (a & c1 & c2 & o1 & -> & G1 & G2) & [t Hp] & ->). rewrite <- app_assoc in Hp.
      destruct (rest_advance r c1 _ Hr Hp) as [Hr1 Hrest].
      assert (m r o = DOk a (advance r (zlen c1)) o1) as ->.
      { apply Hm; [done|]. exists c1. split; [done|]. split; [by eexists|done]. }
      apply (parses_iff _ _ (Hk _ _ _ _ G1)); [done|]. exists c2. split; [done|].
      split; [by exists t|by rewrite advance_app].
  - intros r o s o' Hr. unfold dbind. destruct (m r o) as [a r1 o1|s1 o1|] eqn:E; [|intros E2|done].
    + apply Hm in E as (c1 & G1 & [t1 Hp1] & ->); [|done].
      destruct (rest_advance r c1 t1) as [Hr1 _]; [done..|].
      by apply (parses_err _ _ (Hk _ _ _ _ G1)).
    + injection E2 as <- <-. by eapply Em.
Qed.

Lemma parses_set {O} (f : O -> O) : parses (dset f) (gset f).
Proof.
  split; [|done]. intros r o [] r' o' Hr. unfold dset, gset. split.
  - intros [= <- <-]. exists []. split; [done|]. split; [apply prefix_nil|by rewrite advance_0].
  - intros (c & [-> ->] & _ & ->). by rewrite advance_0.
Qed.

(** A read of a fixed number of bytes. *)
Lemma parses_token {O A} (rd : Reader -> Result (A * Reader)) ok enc n :
  (forall a, ok a -> zlen (enc a) = n) -> 0 <= n ->
  (forall r, rd r = if size_ r <? offset_ r + n then Failed Truncated else
               match rd r with Value (a, _) => Value (a, advance r n) | Failed _ => Failed Truncated end) ->
  (forall r, good r -> offset_ r + n <= size_ r ->
     exists a, rd r = Value (a, advance r n) /\ ok a /\ enc a = slice (offset_ r) n (data_ r)) ->
  (forall a b, ok a -> ok b -> enc a = enc b -> a = b) ->
  parses (O := O) (dread rd) (gtoken ok enc).
Proof.
  intros Hlen Hn Hshape Hval Hinj. split.
  - intros r o a r' o' Hr. unfold dread, gtoken. split.
    + rewrite Hshape. destruct (Z.ltb_spec (size_ r) (offset_ r + n)) as [|Hin]; [done|].
      destruct (Hval r Hr Hin) as (a' & -> & Hok & Henc). intros [= <- <- <-].
      exists (enc a'). split; [done|]. rewrite (Hlen a' Hok). split; [|done].
      exists (zdrop (offset_ r + n) (data_ r)). rewrite Henc. unfold rest. symmetry.
      unfold good in Hr. apply slice_zdrop; lia.
    + intros (c & (Hok & -> & ->) & [t Hp] & ->).
      assert (offset_ r + n <= size_ r) as Hin.
      { destruct (rest_advance r (enc a) t Hr Hp) as [[_ H] _]. rewrite (Hlen a Hok) in H. exact H. }
      destruct (Hval r Hr Hin) as (a' & E & Hok' & Henc). rewrite E, (Hlen a Hok).
      rewrite (slice_at _ n _ (enc a) t) in Henc by (unfold rest in Hp; rewrite ?Hlen; done).
      by rewrite (Hinj a' a Hok' Hok Henc).
  - intros r o s o' _. unfold dread. rewrite Hshape.
    destruct (_ <? _); [by intros [= <- <-]|]. destruct (rd r) as [[a r2]|]; [done|].
    by intros [= <- <-].
Qed.

Lemma parses_U8 {O} :
  parses (O := O) (dread ReadU8) (gtoken (fun v => 0 <= v < 256) (fun v => [byte_of_Z v])).
Proof.
  apply parses_token with (n := 1); [done|lia| | |].
  - intros r. unfold ReadU8. by destruct (_ <? _).
  - intros r Hr Hin. unfold ReadU8. replace (_ <? _) with false by lia.
    eexists. split; [done|]. split; [apply at_range|]. apply byte_at_slice; [apply Hr|done].
  - intros a b Ha Hb [= E]. apply (f_equal byte_to_Z) in E. rewrite !byte_to_of_Z in E.
    by rewrite !Z.mod_small in E.
Qed.

Lemma parses_U32 {O} :
  parses (O := O) (dread ReadU32) (gtoken (fun v => is_u32 v) (be_bytes 4)).
Proof.
  apply parses_token with (n := 4); [by intros; rewrite zlen_be_bytes|lia| | |].
  - intros r. unfold ReadU32. by destruct (_ <? _).
  - intros r Hr Hin. unfold ReadU32. replace (_ <? _) with false by lia.
    eexists. split; [done|]. destruct Hr. split; [by apply ReadU32BE_at_range|].
    by apply be_bytes_ReadU32BE.
  - intros. by apply (be_bytes_inj 4).
Qed.

Lemma parses_U64 {O} :
  parses (O := O) (dread ReadU64) (gtoken (fun v => is_u64 v) (be_bytes 8)).
Proof.
  apply parses_token with (n := 8); [by intros; rewrite zlen_be_bytes|lia| | |].
  - intros r. unfold ReadU64. by destruct (_ <? _).
  - intros r Hr Hin. unfold ReadU64. replace (_ <? _) with false by lia.
    eexists. split; [done|]. destruct Hr. split; [by apply ReadU64BE_at_range|].
    by apply be_bytes_ReadU64BE.
  - intros. by apply (be_bytes_inj 8).
Qed.

Lemma parses_bytes {O} len :
  0 <= len -> parses (O := O) (dread (ReadBytes len)) (gtoken (fun b => zlen b = len) (fun b => b)).
Proof.
  intros Hlen. apply parses_token with (n := len); [done|done| | |done].
  - intros r. unfold ReadBytes. by destruct (_ <? _).
  - intros r [Hr _] Hin. unfold ReadBytes. replace (_ <? _) with false by lia.
    eexists. split; [done|]. split; [by apply zlen_slice|done].
Qed.

Lemma parses_fail {O} s : Status_ok s = false -> parses (O := O) (dcheck (fun _ => true) s) (fun _ _ _ _ => False).
Proof.
  intros Hs. split.
  - intros r o a r' o' _. unfold dcheck. split; [done|]. by intros (c & [] & _).
  - intros r o s' o' _. unfold dcheck. by intros [= <- <-].
Qed.

Lemma parses_return {O A} (a : A) : parses (O := O) (dreturn a) (fun b c o o' => b = a /\ c = [] /\ o' = o).
Proof.
  split; [|done]. intros r o b r' o' _. unfold dreturn. split.
  - intros [= <- <- <-]. exists []. split; [done|]. split; [apply prefix_nil|by rewrite advance_0].
  - intros (c & (-> & -> & ->) & _ & ->). by rewrite advance_0.
Qed.

Lemma parses_throw {O} b :
  parses (O := O) (dthrow_unless b) (fun _ c o o' => b = true /\ c = [] /\ o' = o).
Proof.
  split; [|by destruct b]. intros r o [] r' o' _. unfold dthrow_unless. split.
  - destruct b; [|done]. intros [= <- <-]. exists [].
    split; [done|]. split; [apply prefix_nil|by rewrite advance_0].
  - intros (c & (-> & -> & ->) & _ & ->). by rewrite advance_0.
Qed.

(** A decoder may be given any grammar equivalent to its own. *)
Lemma parses_equiv {O A} (m : Dec O A) G H :
  parses m G -> (forall a c o o', G a c o o' <-> H a c o o') -> parses m H.
Proof.
  intros [Hi He] E. split; [|done]. intros r o a r' o' Hr. rewrite Hi by done.
  split; intros (c & Hc & Hrest); exists c; by rewrite E in * || rewrite <- E in *.
Qed.

(** A decoder that ends with the check for trailing bytes recognises whole inputs. *)
Record finishes {O} (m : Dec O unit) (G : bytes -> O -> O -> Prop) : Prop := {
  finishes_iff : forall r o o', good r ->
    ((exists r', m r o = DOk tt r' o') <-> G (rest r) o o');
  finishes_err : forall r o s o', good r -> m r o = DErr s o' -> Status_ok s = false
}.

Definition gthen {O A} (G : grammar O A) (H : A -> bytes -> O -> O -> Prop) : bytes -> O -> O -> Prop :=
  fun c o o' => exists a c1 c2 o1, c = c1 ++ c2 /\ G a c1 o o1 /\ H a c2 o1 o'.

Lemma finishes_end {O} what :
  finishes (O := O) (dcheck (fun r => negb (AtEnd r)) (trailing what)) (fun c o o' => c = [] /\ o' = o).
Proof.
  unfold dcheck. split.
  - intros r o o' Hr. unfold AtEnd.
    assert (zlen (rest r) = size_ r - offset_ r) as Hlen by (apply zlen_zdrop, Hr).
    destruct (Z.eqb_spec (offset_ r) (size_ r)) as [He|He]; cbn [negb].
    + assert (rest r = []) as -> by (apply zlen_zero; lia).
      split; [by intros (r' & [= _ ->])|]. intros [_ ->]. by exists r.
    + split; [by intros (r' & ?)|]. intros [E _]. rewrite E, zlen_nil in Hlen. lia.
  - intros r o s o' _. destruct (negb _); [|done]. by intros [= <- <-].
Qed.

Lemma finishes_bind {O A} (m : Dec O A) (k : A -> Dec O unit) G H :
  parses m G -> (forall a c o o1, G a c o o1 -> finishes (k a) (H a)) ->
  finishes (dbind m k) (gthen G H).
Proof.
  intros [Hm Em] Hk. split.
  - intros r o o' Hr. unfold dbind, gthen. split.
    + destruct (m r o) as [a r1 o1| |] eqn:E; [|by intros (? & ?)..]. intros E2.
      apply Hm in E as (c1 & G1 & [t1 Hp1] & ->); [|done].
      destruct (rest_advance r c1 t1) as [Hr1 Hrest]; [done..|].
      apply (finishes_iff _ _ (Hk _ _ _ _ G1)) in E2; [|done]. rewrite Hrest in E2. by eauto 10.
    + intros (a & c1 & c2 & o1 & Hp & G1 & G2).
      destruct (rest_advance r c1 _ Hr Hp) as [Hr1 Hrest].
      assert (m r o = DOk a (advance r (zlen c1)) o1) as ->.
      { apply Hm; [done|]. exists c1. split; [done|]. split; [by eexists|done]. }
      apply (finishes_iff _ _ (Hk _ _ _ _ G1)); [done|]. by rewrite Hrest.
  - intros r o s o' Hr. unfold dbind. destruct (m r o) as [a r1 o1|s1 o1|] eqn:E; [|intros E2|done].
    + apply Hm in E as (c1 & G1 & [t1 Hp1] & ->); [|done].
      destruct (rest_advance r c1 t1) as [Hr1 _]; [done..|].
      by apply (finishes_err _ _ (Hk _ _ _ _ G1)).
    + injection E2 as <- <-. by eapply Em.
Qed.

Lemma run_decoder_spec {O} (m : Dec O unit) G input out out' :
  finishes m G -> run_decoder m input out = Returns (Status_Ok, out') <-> G input out out'.
Proof.
  intros [Hi He].
  assert (Hg : good (Reader_init input)).
  { unfold good, size_. cbn. pose proof (zlen_nonneg input). lia. }
  specialize (Hi _ out out' Hg). unfold rest in Hi. cbn in Hi. rewrite zdrop_0 in Hi.
  rewrite <- Hi. unfold run_decoder.
  destruct (m (Reader_init input) out) as [[] r o|s o|] eqn:E; split.
  - intros [= <-]. by eexists.
  - by intros (r' & [= _ ->]).
  - intros [= -> _]. by apply He in E.
  - by intros (r' & ?).
  - done.
  - by intros (r' & ?).
Qed.

#[export] Hint Resolve parses_U8 parses_U32 parses_U64 parses_set parses_return parses_throw : nkv.

(** Follows a decoder's sequence of reads and assignments. *)
Ltac parse_steps :=
  repeat first
  [ apply finishes_end
  | apply finishes_bind; [solve [auto with nkv]|intros ? ? ? ? ?]
  | apply parses_bind; [solve [auto with nkv]|intros ? ? ? ? ?]
  | solve [auto with nkv] ].

Lemma gthen_set {O} (f : O -> O) H c o o' : H tt c (f o) o' -> gthen (gset f) H c o o'.
Proof. intros HH. exists tt, [], c, (f o). done. Qed.

Lemma gthen_token {O A} (ok : A -> Prop) enc (H : A -> bytes -> O -> O -> Prop) a c o o' :
  ok a -> H a c o o' -> gthen (gtoken ok enc) H (enc a ++ c) o o'.
Proof. intros Ha HH. exists a, (enc a), c, o. done. Qed.

(** ** Messages whose fields fit their types *)

Definition vote_request_fits (q : RequestVoteRequest) : Prop :=
  is_u64 (rvq_term q) /\ is_u32 (rvq_candidate_id q) /\
  is_u64 (rvq_last_log_index q) /\ is_u64 (rvq_last_log_term q).

Definition entry_fits (e : LogEntry) : Prop :=
  is_u64 (le_term e) /\ is_u64 (le_index e) /\
  zlen (le_key e) < 2 ^ 32 /\ zlen (le_value e) < 2 ^ 32.

Definition append_request_fits (q : AppendEntriesRequest) : Prop :=
  is_u64 (aeq_term q) /\ is_u32 (aeq_leader_id q) /\ is_u64 (aeq_prev_log_index q) /\
  is_u64 (aeq_prev_log_term q) /\ is_u64 (aeq_leader_commit q) /\
  zlen (aeq_entries q) < 2 ^ 32 /\ Forall entry_fits (aeq_entries q).

Definition encode_entry (e : LogEntry) : bytes := WriteEntry [] e.

Lemma encode_entry_eq e : entry_fits e -> encode_entry e =
  be_bytes 8 (le_term e) ++ be_bytes 8 (le_index e) ++ [byte_of_Z (WalOp_value (le_op e))] ++
  be_bytes 4 (zlen (le_key e)) ++ le_key e ++ be_bytes 4 (zlen (le_value e)) ++ le_value e.
Proof.
  intros (_ & _ & Hk & Hv). unfold encode_entry, WriteEntry, WriteU8, WriteBytes.
  autorewrite with nkv_write. rewrite (u32_zlen (le_key e) (zlen (le_key e))) by lia.
  rewrite (u32_zlen (le_value e) (zlen (le_value e))) by lia.
  by rewrite <- !app_assoc.
Qed.

Lemma WriteEntry_app out e : WriteEntry out e = out ++ encode_entry e.
Proof.
  unfold encode_entry, WriteEntry, WriteU8, WriteBytes. autorewrite with nkv_write.
  by rewrite <- !app_assoc.
Qed.

Lemma WriteEntries_app out es : foldl WriteEntry out es = out ++ concat (encode_entry <$> es).
Proof.
  revert out. induction es as [|e es IH]; intros out; cbn [foldl fmap list_fmap concat];
    [by rewrite app_nil_r|].
  rewrite IH, WriteEntry_app. by rewrite <- app_assoc.
Qed.

Definition push_entries (es : list LogEntry) (q : AppendEntriesRequest) : AppendEntriesRequest :=
  mkAppendEntriesRequest (aeq_term q) (aeq_leader_id q) (aeq_prev_log_index q)
    (aeq_prev_log_term q) (aeq_leader_commit q) (aeq_entries q ++ es).

Lemma WalOp_of_byte_Some v op :
  0 <= v < 256 -> WalOp_of_byte v = Some op <-> v = WalOp_value op.
Proof.
  intros _. unfold WalOp_of_byte. split.
  - repeat case_match; intros; simplify_eq; cbn; lia.
  - intros ->. by destruct op.
Qed.

(** The entry's bytes after its op. *)
Definition gentry_tail (term index : Z) (op : WalOp) : grammar AppendEntriesRequest unit :=
  gbind (gtoken (fun v => is_u32 v) (be_bytes 4)) (fun key_len =>
  gbind (gtoken (fun b => zlen b = key_len) (fun b => b)) (fun key =>
  gbind (gtoken (fun v => is_u32 v) (be_bytes 4)) (fun value_len =>
  gbind (gtoken (fun b => zlen b = value_len) (fun b => b)) (fun value =>
  gset (fun '(mkAppendEntriesRequest t l pi pt lc es) =>
    mkAppendEntriesRequest t l pi pt lc (es ++ [mkLogEntry term index op key value])))))).

Lemma DecodeEntry_parses :
  parses DecodeEntry (fun _ c q q' =>
    exists e, entry_fits e /\ c = encode_entry e /\ q' = push_entries [e] q).
Proof.
  eapply parses_equiv.
  - unfold DecodeEntry.
    apply parses_bind; [apply parses_U64|intros term ? ? ? ?].
    apply parses_bind; [apply parses_U64|intros index ? ? ? ?].
    apply parses_bind with (H := fun op_byte => match WalOp_of_byte op_byte with
      | None => fun _ _ _ _ => False
      | Some op => gentry_tail term index op end); [apply parses_U8|intros op_byte ? ? ? ?].
    destruct (WalOp_of_byte op_byte) as [op|]; [|by apply parses_fail].
    apply parses_bind; [apply parses_U32|intros key_len ? ? ? [Hk _]].
    apply parses_bind; [apply parses_bytes; lia|intros key ? ? ? ?].
    apply parses_bind; [apply parses_U32|intros value_len ? ? ? [Hv _]].
    apply parses_bind; [apply parses_bytes; lia|intros value ? ? ? ?].
    apply parses_set.
  - intros [] c q q'. unfold gentry_tail, gbind, gtoken, gset. split.
    + intros (term & ? & ? & ? & -> & (Ht & -> & ->) & index & ? & ? & ? & -> & (Hi & -> & ->) &
        ob & ? & ? & ? & -> & (Ho & -> & ->) & H).
      destruct (WalOp_of_byte ob) as [op|] eqn:Eop; [|done].
      apply WalOp_of_byte_Some in Eop as ->; [|done].
      destruct H as (kl & ? & ? & ? & -> & (Hkl & -> & ->) & key & ? & ? & ? & -> & (Hk & -> & ->) &
        vl & ? & ? & ? & -> & (Hvl & -> & ->) & value & ? & ? & ? & -> & (Hv & -> & ->) & -> & ->).
      assert (Hfit : entry_fits (mkLogEntry term index op key value))
        by (unfold entry_fits; cbn; lia).
      exists (mkLogEntry term index op key value). split; [done|]. split; [|by destruct q].
      rewrite encode_entry_eq by done. cbn [le_term le_index le_op le_key le_value].
      rewrite app_nil_r. congruence.
    + intros ([term index op key value] & Hfit & -> & ->). pose proof Hfit as (Ht & Hi & Hk & Hv).
      rewrite encode_entry_eq by done. cbn [le_term le_index le_op le_key le_value] in *.
      pose proof (WalOp_value_range op) as Ho.
      eexists term, _, _, _. split; [done|]. split; [done|].
      eexists index, _, _, _. split; [done|]. split; [done|].
      eexists (WalOp_value op), [_], _, _. split; [done|]. split; [done|].
      rewrite WalOp_of_byte_value. pose proof (zlen_nonneg key). pose proof (zlen_nonneg value).
      eexists (zlen key), _, _, _. split; [done|]. split; [done|].
      eexists key, _, _, _. split; [done|]. split; [done|].
      eexists (zlen value), _, _, _. split; [done|]. split; [done|].
      eexists value, _, [], _. split; [by rewrite app_nil_r|]. split; [done|]. by destruct q.
Qed.

Lemma DecodeEntries_parses n :
  parses (DecodeEntries n) (fun _ c q q' => exists es, length es = n /\ Forall entry_fits es /\
    c = concat (encode_entry <$> es) /\ q' = push_entries es q).
Proof.
  induction n as [|n IH].
  - eapply parses_equiv; [apply parses_return|]. intros [] c q q'. cbn. split.
    + intros (_ & -> & ->). exists []. split; [done|]. split; [done|]. split; [done|].
      destruct q. unfold push_entries. cbn. by rewrite app_nil_r.
    + intros (es & Hl & _ & -> & ->). destruct es; [|done]. split; [done|]. split; [done|].
      destruct q. unfold push_entries. cbn. by rewrite app_nil_r.
  - eapply parses_equiv; [apply parses_bind; [apply DecodeEntry_parses|intros; apply IH]|].
    intros [] c q q'. unfold gbind. split.
    + intros ([] & ? & ? & ? & -> & (e & He & -> & ->) & es & <- & Hes & -> & ->).
      exists (e :: es). split; [done|]. split; [by constructor|]. split; [done|].
      unfold push_entries. cbn. by rewrite <- app_assoc.
    + intros ([|e es] & Hl & Hes & -> & ->); [done|]. apply Forall_cons in Hes as [He Hes].
      eexists tt, _, _, _. split; [done|]. split; [by eauto|]. exists es.
      split; [by injection Hl|]. split; [done|]. split; [done|].
      unfold push_entries. cbn. by rewrite <- app_assoc.
Qed.

(** ** Properties of the RPC codec *)

Lemma EncodeAppendEntriesRequest_eq q : zlen (aeq_entries q) < 2 ^ 32 ->
  EncodeAppendEntriesRequest q =
  be_bytes 8 (aeq_term q) ++ be_bytes 4 (aeq_leader_id q) ++ be_bytes 8 (aeq_prev_log_index q) ++
  be_bytes 8 (aeq_prev_log_term q) ++ be_bytes 8 (aeq_leader_commit q) ++
  be_bytes 4 (zlen (aeq_entries q)) ++ concat (encode_entry <$> aeq_entries q).
Proof.
  intros Hn. unfold EncodeAppendEntriesRequest. rewrite WriteEntries_app.
  autorewrite with nkv_write. rewrite (u32_zlen _ (zlen (aeq_entries q))) by lia.
  by rewrite <- !app_assoc.
Qed.

(** The AppendEntries body. Decoding succeeds exactly on the encodings of requests
    whose fields fit their types and whose entries the allocator can hold, whatever
    the out-parameter held before, and gives back the encoded request: encode/decode
    and decode/encode are both the identity, and trailing or missing bytes, unknown
    ops and length fields past the end are all rejected. *)
Theorem append_request_codec (reserve : Z -> bool) (input : bytes) (out0 out : AppendEntriesRequest) :
  DecodeAppendEntriesRequest reserve input out0 = Returns (Status_Ok, out) <->
  append_request_fits out /\ reserve (zlen (aeq_entries out)) = true /\
  input = EncodeAppendEntriesRequest out.
Proof.
  unfold DecodeAppendEntriesRequest. rewrite run_decoder_spec.
  2: { do 12 (apply finishes_bind; [solve [auto with nkv]|intros ? ? ? ? ?]).
       apply finishes_bind; [apply parses_throw|intros ? ? ? ? ?].
       apply finishes_bind; [apply DecodeEntries_parses|intros ? ? ? ? ?]. apply finishes_end. }
  split.
  - unfold gthen, gtoken, gset. intros H. repeat match goal with
    | H : exists _, _ |- _ => destruct H
    | H : _ /\ _ |- _ => destruct H
    end. subst. destruct out0 as [t0 l0 pi0 pt0 lc0 es0]. unfold push_entries, append_request_fits in *. cbn [aeq_term
      aeq_leader_id aeq_prev_log_index aeq_prev_log_term aeq_leader_commit aeq_entries app] in *.
    match goal with H : length ?es = Z.to_nat ?n |- _ => assert (n = zlen es) by (unfold zlen; lia) end.
    subst. rewrite EncodeAppendEntriesRequest_eq by (cbn [aeq_entries]; lia).
    cbn [aeq_term aeq_leader_id aeq_prev_log_index aeq_prev_log_term aeq_leader_commit aeq_entries].
    rewrite !app_nil_r. split; [tauto|]. split; done.
  - destruct out as [t l pi pt lc es]. unfold append_request_fits.
    intros ((Ht & Hl & Hpi & Hpt & Hlc & Hn & Hes) & Hr & ->).
    rewrite EncodeAppendEntriesRequest_eq by done. destruct out0 as [t0 l0 pi0 pt0 lc0 es0].
    cbn [aeq_term aeq_leader_id aeq_prev_log_index aeq_prev_log_term aeq_leader_commit aeq_entries] in *.
    pose proof (zlen_nonneg es).
    do 5 (apply gthen_token; [done|]; apply gthen_set).
    apply gthen_token; [done|]. apply gthen_set. exists tt, [], (concat (encode_entry <$> es)).
    eexists. split; [done|]. split; [done|].
    eexists tt, _, [], _. split; [by rewrite app_nil_r|]. split; [|done].
    exists es. unfold zlen. rewrite Nat2Z.id. done.
Qed.

(** The bytes a reply decoder accepts: the term, then one byte that is the flag. *)
Definition reply_bytes (term : Z) (flag : bool) (input : bytes) : Prop :=
  is_u64 term /\ exists b, input = be_bytes 8 term ++ [b] /\ flag = negb (byte_to_Z b =? 0).

Lemma reply_bytes_encoded term flag :
  is_u64 term -> reply_bytes term flag (WriteU8 (WriteU64BE [] term) (if flag then 1 else 0)).
Proof.
  intros Ht. split; [done|]. unfold WriteU8. autorewrite with nkv_write.
  eexists. split; [done|]. by destruct flag.
Qed.

Lemma reply_parses {O} (sett : Z -> O -> O) (setf : Z -> O -> O) what input out out' :
  run_decoder (dbind (dread ReadU64) (fun v => dbind (dset (sett v)) (fun _ =>
    dbind (dread ReadU8) (fun b => dbind (dset (setf b)) (fun _ =>
    dcheck (fun r => negb (AtEnd r)) (trailing what)))))) input out = Returns (Status_Ok, out') <->
  exists v b, is_u64 v /\ input = be_bytes 8 v ++ [b] /\ out' = setf (byte_to_Z b) (sett v out).
Proof.
  rewrite run_decoder_spec by parse_steps. split.
  - unfold gthen, gtoken, gset. intros H. repeat match goal with
    | H : exists _, _ |- _ => destruct H
    | H : _ /\ _ |- _ => destruct H
    end. subst. cbn [app].
    match goal with Hv : ?v < 2 ^ 64, Hb : ?b < 256 |- _ => exists v, (byte_of_Z b) end.
    split; [done|]. split; [done|].
    rewrite byte_to_of_Z, Z.mod_small by done. done.
  - intros (v & b & Hv & -> & ->). apply gthen_token; [done|]. apply gthen_set.
    rewrite <- (byte_of_to_Z b) at 1. apply (gthen_token _ (fun v => [byte_of_Z v]) _ (byte_to_Z b) []);
      [apply byte_to_Z_range|]. by apply gthen_set.
Qed.

(** The RequestVote bodies and the replies. A RequestVote request decodes exactly
    from its encoding; a reply decodes exactly from a term followed by one flag byte
    (any non-zero byte reads as true), in particular from its own encoding. *)
Theorem vote_and_reply_codec :
  (forall input out0 out,
     DecodeRequestVoteRequest input out0 = Returns (Status_Ok, out) <->
     vote_request_fits out /\ input = EncodeRequestVoteRequest out) /\
  (forall input out0 out,
     DecodeRequestVoteResponse input out0 = Returns (Status_Ok, out) <->
     reply_bytes (rvr_term out) (rvr_vote_granted out) input) /\
  (forall input out0 out,
     DecodeAppendEntriesResponse input out0 = Returns (Status_Ok, out) <->
     reply_bytes (aer_term out) (aer_success out) input) /\
  (forall resp, is_u64 (rvr_term resp) ->
     reply_bytes (rvr_term resp) (rvr_vote_granted resp) (EncodeRequestVoteResponse resp)) /\
  (forall resp, is_u64 (aer_term resp) ->
     reply_bytes (aer_term resp) (aer_success resp) (EncodeAppendEntriesResponse resp)).
Proof.
  split; [|split; [|split; [|split; intros [] ?; by apply reply_bytes_encoded]]].
  - intros input [t0 c0 i0 lt0] [t c i lt]. unfold DecodeRequestVoteRequest, EncodeRequestVoteRequest.
    rewrite run_decoder_spec by parse_steps. autorewrite with nkv_write. rewrite <- !app_assoc.
    unfold vote_request_fits. cbn [app rvq_term rvq_candidate_id rvq_last_log_index rvq_last_log_term].
    split.
    + unfold gthen, gtoken, gset. intros H. repeat match goal with
      | H : exists _, _ |- _ => destruct H
      | H : _ /\ _ |- _ => destruct H
      end. simplify_eq. rewrite !app_nil_r. tauto.
    + intros ((Ht & Hc & Hi & Hlt) & ->). rewrite <- (app_nil_r (be_bytes 8 lt)).
      do 4 (apply gthen_token; [done|]; apply gthen_set). done.
  - intros input [t0 f0] [t f]. unfold DecodeRequestVoteResponse, reply_bytes. rewrite reply_parses.
    cbn. split.
    + intros (v & b & Hv & -> & [= -> ->]). eauto.
    + intros (Hv & b & -> & ->). eauto.
  - intros input [t0 f0] [t f]. unfold DecodeAppendEntriesResponse, reply_bytes. rewrite reply_parses.
    cbn. split.
    + intros (v & b & Hv & -> & [= -> ->]). eauto.
    + intros (Hv & b & -> & ->). eauto.
Qed.

(** C38: the bodies of the Raft messages. The decoders of the two requests succeed exactly on
    encodings of messages whose fields fit their types (that of AppendEntries when [reserve]
    does not throw for the number of entries), whatever the out-parameter held before, and
    give back the encoded message; trailing or missing bytes, unknown ops and length fields
    past the end are rejected. The decoders of the two replies succeed exactly on nine bytes,
    a term and a flag, and read any non-zero flag as true; the encodings are among these. *)
Theorem raft_rpc_codec :
  (forall reserve input out0 out,
     DecodeAppendEntriesRequest reserve input out0 = Returns (Status_Ok, out) <->
     append_request_fits out /\ reserve (zlen (aeq_entries out)) = true /\ input = EncodeAppendEntriesRequest out) /\
  (forall input out0 out,
     DecodeRequestVoteRequest input out0 = Returns (Status_Ok, out) <->
     vote_request_fits out /\ input = EncodeRequestVoteRequest out) /\
  (forall input out0 out,
     DecodeRequestVoteResponse input out0 = Returns (Status_Ok, out) <->
     reply_bytes (rvr_term out) (rvr_vote_granted out) input) /\
  (forall input out0 out,
     DecodeAppendEntriesResponse input out0 = Returns (Status_Ok, out) <->
     reply_bytes (aer_term out) (aer_success out) input) /\
  (forall resp, is_u64 (rvr_term resp) ->
     reply_bytes (rvr_term resp) (rvr_vote_granted resp) (EncodeRequestVoteResponse resp)) /\
  (forall resp, is_u64 (aer_term resp) ->
     reply_bytes (aer_term resp) (aer_success resp) (EncodeAppendEntriesResponse resp)).
Proof. split; [intros; apply append_request_codec|exact vote_and_reply_codec]. Qed.

(** The smallest body that asks for [2^32 - 1] entries. *)
Definition oversized_body : bytes := repeat Byte.x00 36 ++ repeat Byte.xff 4.

(** The entry count is trusted before any entry is read. For every allocator that
    cannot reserve [2^32 - 1] entries, a 40-byte body without a single entry makes the
    decoder throw [std::bad_alloc] instead of reporting a truncated body. *)
Theorem reserve_before_validation (reserve : Z -> bool) (out : AppendEntriesRequest) :
  reserve (2 ^ 32 - 1) = false ->
  zlen oversized_body = 40 /\
  DecodeAppendEntriesRequest reserve oversized_body out = Throws std_bad_alloc.
Proof.
  intros Hr. split; [done|]. unfold DecodeAppendEntriesRequest, run_decoder, dbind, dread, dset, dthrow_unless.
  destruct out.
  repeat match goal with
  | |- context [ReadU64 ?r] => let v := eval vm_compute in (ReadU64 r) in change (ReadU64 r) with v; cbv iota beta
  | |- context [ReadU32 ?r] => let v := eval vm_compute in (ReadU32 r) in change (ReadU32 r) with v; cbv iota beta
  end. change 4294967295 with (2 ^ 32 - 1). by rewrite Hr.
Qed.

Lemma reserve_before_validation_witness :
  DecodeAppendEntriesRequest (fun n => n <=? 1000000) oversized_body AppendEntriesRequest_default
  = Throws std_bad_alloc.
Proof. apply (reserve_before_validation (fun n => n <=? 1000000)). reflexivity. Defined.
