(* ===== verification/ShardedKV.v ===== *)
(** * The in-memory store ([src/storage/sharded_kv.cpp])

    First the interface the persistence and Raft layers use, with its abstract
    specification over one finite map; then the striped implementation, which
    implements it for every hash function. *)

From Stdlib Require Import Strings.String.
From S2P Require Import Prelude Common.

(** ** The interface *)

Definition EmptyKey : Status :=
  Status_Error ErrorCode.kInvalidArgument (str "key must not be empty").
Definition KeyNotFound : Status := Status_Error ErrorCode.kNotFound (str "key not found").

Abbreviation kvmap := (gmap bytes bytes).

(** The operations on a store of type [T]. *)
Class KvOps (T : Type) := {
  kv_new : T;
  kv_Set : bytes -> bytes -> T -> Status * T;
  kv_Get : bytes -> T -> Result bytes;
  kv_Delete : bytes -> T -> Status * T;
  kv_Size : T -> Z
}.

(** What the operations mean for the map the store holds. *)
Definition spec_Set (key value : bytes) (m : kvmap) : Status * kvmap :=
  if is_empty key then (EmptyKey, m) else (Status_Ok, <[key := value]> m).
Definition spec_Get (key : bytes) (m : kvmap) : Result bytes :=
  if is_empty key then Failed EmptyKey
  else match m !! key with Some v => Value v | None => Failed KeyNotFound end.
Definition spec_Delete (key : bytes) (m : kvmap) : Status * kvmap :=
  if is_empty key then (EmptyKey, m)
  else match m !! key with Some _ => (Status_Ok, delete key m) | None => (KeyNotFound, m) end.

(** The laws: an invariant, and an abstraction to a map that every operation respects. *)
Class KvLaws (T : Type) `{KvOps T} := {
  kv_inv : T -> Prop;
  kv_map : T -> kvmap;
  kv_new_inv : kv_inv kv_new;
  kv_new_map : kv_map kv_new = ∅;
  kv_Set_inv key value s : kv_inv s -> kv_inv (kv_Set key value s).2;
  kv_Set_map key value s : kv_inv s ->
    ((kv_Set key value s).1, kv_map (kv_Set key value s).2) = spec_Set key value (kv_map s);
  kv_Get_map key s : kv_inv s -> kv_Get key s = spec_Get key (kv_map s);
  kv_Delete_inv key s : kv_inv s -> kv_inv (kv_Delete key s).2;
  kv_Delete_map key s : kv_inv s ->
    ((kv_Delete key s).1, kv_map (kv_Delete key s).2) = spec_Delete key (kv_map s);
  kv_Size_map s : kv_inv s -> kv_Size s = u64 (Z.of_nat (size (kv_map s)))
}.

(** ** The striped store *)

Definition kShardCount : Z := 256.

(** [std::hash<std::string_view>]: any function to [size_t]. *)
Class StdHash := { std_hash : bytes -> Z }.

Section Sharded.
Context `{StdHash}.

(** [std::array<Shard, kShardCount>]; a shard is its [unordered_map]. *)
Record ShardedKV := mkShardedKV { shards_ : list kvmap }.

Definition ShardedKV_new : ShardedKV := mkShardedKV (replicate (Z.to_nat kShardCount) ∅).

Definition ShardFor (key : bytes) : Z := u64 (std_hash key) mod kShardCount.

(** [shards_[ShardFor(key)]] *)
Definition shard_of (kv : ShardedKV) (key : bytes) : kvmap :=
  nth (Z.to_nat (ShardFor key)) (shards_ kv) ∅.
Definition set_shard (kv : ShardedKV) (key : bytes) (data : kvmap) : ShardedKV :=
  mkShardedKV (<[Z.to_nat (ShardFor key) := data]> (shards_ kv)).

Definition ShardedKV_Set (key value : bytes) (kv : ShardedKV) : Status * ShardedKV :=
  if is_empty key then
    (Status_Error ErrorCode.kInvalidArgument (str "key must not be empty"), kv)
  else
    let data := shard_of kv key in
    (Status_Ok, set_shard kv key (<[key := value]> data)).

Definition ShardedKV_Get (key : bytes) (kv : ShardedKV) : Result bytes :=
  if is_empty key then
    Failed (Status_Error ErrorCode.kInvalidArgument (str "key must not be empty"))
  else
    match shard_of kv key !! key with
    | None => Failed (Status_Error ErrorCode.kNotFound (str "key not found"))
    | Some v => Value v
    end.

Definition ShardedKV_Delete (key : bytes) (kv : ShardedKV) : Status * ShardedKV :=
  if is_empty key then
    (Status_Error ErrorCode.kInvalidArgument (str "key must not be empty"), kv)
  else
    let data := shard_of kv key in
    match data !! key with
    | None => (Status_Error ErrorCode.kNotFound (str "key not found"), kv)
    | Some _ => (Status_Ok, set_shard kv key (delete key data))
    end.

Definition ShardedKV_Size (kv : ShardedKV) : Z :=
  foldl (fun total data => u64 (total + Z.of_nat (size data))) 0 (shards_ kv).

#[global] Instance ShardedKV_ops : KvOps ShardedKV := {
  kv_new := ShardedKV_new;
  kv_Set := ShardedKV_Set;
  kv_Get := ShardedKV_Get;
  kv_Delete := ShardedKV_Delete;
  kv_Size := ShardedKV_Size
}.

(** ** The invariant: 256 shards, and a key is only ever in its own shard. *)
Record sharded_inv (kv : ShardedKV) : Prop := {
  si_count : length (shards_ kv) = Z.to_nat kShardCount;
  si_home : forall i data key, shards_ kv !! i = Some data -> is_Some (data !! key) ->
    i = Z.to_nat (ShardFor key)
}.

(** The one map that the shards make up. *)
Definition merge_shards (l : list kvmap) : kvmap := foldr union ∅ l.
Definition sharded_map (kv : ShardedKV) : kvmap := merge_shards (shards_ kv).

Lemma ShardFor_range key : 0 <= ShardFor key < kShardCount.
Proof. unfold ShardFor. apply Z.mod_pos_bound. done. Qed.

Lemma shard_lookup kv key :
  sharded_inv kv -> shards_ kv !! Z.to_nat (ShardFor key) = Some (shard_of kv key).
Proof.
  intros Hi. unfold shard_of. rewrite nth_lookup.
  destruct (shards_ kv !! Z.to_nat (ShardFor key)) eqn:E; [done|].
  apply lookup_ge_None in E. pose proof (ShardFor_range key). rewrite (si_count _ Hi) in E. lia.
Qed.

Lemma merge_lookup l key v :
  merge_shards l !! key = Some v ->
  exists i data, l !! i = Some data /\ data !! key = Some v.
Proof.
  induction l as [|d l IH]; cbn; [done|]. intros E.
  apply lookup_union_Some_raw in E as [E|[_ E]]; [by exists 0%nat, d|].
  destruct (IH E) as (i & data & ? & ?). by exists (S i), data.
Qed.

Lemma merge_lookup_home l i data key :
  l !! i = Some data -> (forall j d, l !! j = Some d -> is_Some (d !! key) -> j = i) ->
  merge_shards l !! key = data !! key.
Proof.
  revert i. induction l as [|d l IH]; intros i Hl Huniq; [done|]. cbn.
  destruct i as [|i]; cbn in Hl.
  - injection Hl as ->. destruct (data !! key) as [v|] eqn:E.
    + by rewrite (lookup_union_Some_l _ _ _ _ E).
    + rewrite lookup_union_r by done. destruct (merge_shards l !! key) eqn:E2; [|done].
      apply merge_lookup in E2 as (j & d & Hj & Hd).
      specialize (Huniq (S j) d Hj). rewrite Hd in Huniq. ospecialize (Huniq _); [by eexists|]. lia.
  - rewrite lookup_union_r.
    + apply (IH i); [done|]. intros j d' Hj Hd. specialize (Huniq (S j) d' Hj Hd). lia.
    + destruct (d !! key) eqn:E; [|done]. specialize (Huniq 0%nat d eq_refl).
      rewrite E in Huniq. ospecialize (Huniq _); [by eexists|]. lia.
Qed.

Lemma sharded_lookup kv key :
  sharded_inv kv -> sharded_map kv !! key = shard_of kv key !! key.
Proof.
  intros Hi. apply (merge_lookup_home _ (Z.to_nat (ShardFor key))); [by apply shard_lookup|].
  intros j d Hj Hd. by eapply si_home.
Qed.

(** Replacing a key's shard by one that differs at most at that key. *)
Lemma set_shard_inv kv key data :
  sharded_inv kv -> (forall k, k <> key -> data !! k = shard_of kv key !! k) ->
  sharded_inv (set_shard kv key data).
Proof.
  intros Hi Hd. split; cbn; [by rewrite length_insert, (si_count _ Hi)|].
  intros i d k Hl Hk. apply list_lookup_insert_Some in Hl as [(<- & <- & _)|[_ Hl]].
  - destruct (decide (k = key)) as [->|Hne]; [done|].
    rewrite Hd in Hk by done. eapply si_home; [done|by apply shard_lookup|done].
  - by eapply si_home.
Qed.

Lemma set_shard_map kv key data k :
  sharded_inv kv -> (forall k, k <> key -> data !! k = shard_of kv key !! k) ->
  sharded_map (set_shard kv key data) !! k =
  if decide (k = key) then data !! key else sharded_map kv !! k.
Proof.
  intros Hi Hd. rewrite !sharded_lookup by (done || by apply set_shard_inv).
  unfold shard_of at 1, set_shard. cbn. rewrite nth_lookup.
  pose proof (shard_lookup kv key Hi) as Hkey. pose proof (shard_lookup kv k Hi) as Hk.
  destruct (decide (k = key)) as [->|Hne].
  - rewrite list_lookup_insert_eq; [done|]. by eapply lookup_lt_Some.
  - destruct (decide (Z.to_nat (ShardFor k) = Z.to_nat (ShardFor key))) as [E|E].
    + rewrite E, list_lookup_insert_eq by (by eapply lookup_lt_Some). cbn.
      rewrite Hd by done. unfold shard_of. by rewrite E.
    + rewrite list_lookup_insert_ne by done. by rewrite Hk.
Qed.

Lemma merge_size l :
  (forall i j d d' key, l !! i = Some d -> l !! j = Some d' -> is_Some (d !! key) ->
     is_Some (d' !! key) -> i = j) ->
  size (merge_shards l) = sum_list (size <$> l).
Proof.
  induction l as [|d l IH]; intros Huniq; [by apply map_size_empty|]. cbn.
  rewrite map_size_disj_union; [f_equal; apply IH|].
  - intros i j d1 d2 key H1 H2 E1 E2. specialize (Huniq (S i) (S j) d1 d2 key H1 H2 E1 E2). lia.
  - apply map_disjoint_spec. intros key v w Ev Ew.
    apply merge_lookup in Ew as (j & d' & Hj & Ed').
    specialize (Huniq 0%nat (S j) d d' key eq_refl Hj). rewrite Ev, Ed' in Huniq.
    ospecialize (Huniq _ _); [by eexists..|]. lia.
Qed.

Lemma foldl_u64_sum (l : list nat) acc :
  foldl (fun total n => u64 (total + Z.of_nat n)) (u64 acc) l = u64 (acc + Z.of_nat (sum_list l)).
Proof.
  revert acc. induction l as [|n l IH]; intros acc; cbn [foldl]; [by rewrite Z.add_0_r|].
  replace (u64 (u64 acc + Z.of_nat n)) with (u64 (acc + Z.of_nat n))
    by (unfold u64; by rewrite Zplus_mod_idemp_l).
  rewrite IH. f_equal. cbn. lia.
Qed.

Lemma ShardedKV_Size_map kv :
  sharded_inv kv -> ShardedKV_Size kv = u64 (Z.of_nat (size (sharded_map kv))).
Proof.
  intros Hi. unfold sharded_map. rewrite merge_size.
  - change (u64 (Z.of_nat (sum_list (size <$> shards_ kv))))
      with (u64 (0 + Z.of_nat (sum_list (size <$> shards_ kv)))).
    rewrite <- foldl_u64_sum. unfold ShardedKV_Size. rewrite foldl_fmap. reflexivity.
  - intros i j d d' key Hd Hd' E E'. transitivity (Z.to_nat (ShardFor key)).
    + by eapply si_home.
    + symmetry. by eapply si_home.
Qed.

#[global] Program Instance ShardedKV_laws : KvLaws ShardedKV := {
  kv_inv := sharded_inv;
  kv_map := sharded_map
}.
Next Obligation.
  split; [apply length_replicate|]. intros i data key Hl Hk. cbn in Hl.
  apply lookup_replicate in Hl as [-> _]. rewrite lookup_empty in Hk. by destruct Hk.
Qed.
Next Obligation.
  cbn. unfold sharded_map, ShardedKV_new. cbn [shards_].
  induction (Z.to_nat kShardCount) as [|n IH]; [done|]. cbn. rewrite IH. apply map_union_empty.
Qed.
Next Obligation.
  intros key value s Hi. cbn [kv_Set kv_Get kv_Delete ShardedKV_ops]. unfold ShardedKV_Set. destruct (is_empty key); [done|]. cbn.
  apply set_shard_inv; [done|]. intros k Hne. by rewrite lookup_insert_ne.
Qed.
Next Obligation.
  intros key value s Hi. cbn [kv_Set kv_Get kv_Delete ShardedKV_ops]. unfold ShardedKV_Set, spec_Set.
  destruct (is_empty key); [done|]. cbn [fst snd]. f_equal. apply map_eq. intros k.
  rewrite set_shard_map by (done || (intros; by rewrite lookup_insert_ne)).
  destruct (decide (k = key)) as [->|Hne]; [by rewrite !lookup_insert_eq|].
  by rewrite lookup_insert_ne.
Qed.
Next Obligation.
  intros key s Hi. cbn [kv_Set kv_Get kv_Delete ShardedKV_ops]. unfold ShardedKV_Get, spec_Get. destruct (is_empty key); [done|].
  rewrite sharded_lookup by done. by destruct (shard_of s key !! key).
Qed.
Next Obligation.
  intros key s Hi. cbn [kv_Set kv_Get kv_Delete ShardedKV_ops]. unfold ShardedKV_Delete. destruct (is_empty key); [done|].
  destruct (shard_of s key !! key) eqn:E; [|done]. cbn.
  apply set_shard_inv; [done|]. intros k Hne. by rewrite lookup_delete_ne.
Qed.
Next Obligation.
  intros key s Hi. cbn [kv_Set kv_Get kv_Delete ShardedKV_ops]. unfold ShardedKV_Delete, spec_Delete. destruct (is_empty key); [done|].
  rewrite sharded_lookup by done. destruct (shard_of s key !! key) eqn:E; [|done]. cbn [fst snd].
  f_equal. apply map_eq. intros k.
  rewrite set_shard_map by (done || (intros; by rewrite lookup_delete_ne)).
  destruct (decide (k = key)) as [->|Hne]; [by rewrite !lookup_delete_eq|].
  by rewrite lookup_delete_ne.
Qed.
Next Obligation. intros s Hi. by apply ShardedKV_Size_map. Qed.

End Sharded.

(** ** Runs of a store *)

Inductive KvOp :=
| OpSet (key value : bytes)
| OpGet (key : bytes)
| OpDelete (key : bytes)
| OpSize.

Inductive KvAnswer :=
| AStatus (s : Status)
| AValue (r : Result bytes)
| ASize (n : Z).

(** One operation on a store, and on the map that specifies it. *)
Definition kv_step `{KvOps T} (op : KvOp) (s : T) : KvAnswer * T :=
  match op with
  | OpSet k v => let '(st, s) := kv_Set k v s in (AStatus st, s)
  | OpGet k => (AValue (kv_Get k s), s)
  | OpDelete k => let '(st, s) := kv_Delete k s in (AStatus st, s)
  | OpSize => (ASize (kv_Size s), s)
  end.

Definition spec_step (op : KvOp) (m : kvmap) : KvAnswer * kvmap :=
  match op with
  | OpSet k v => let '(st, m) := spec_Set k v m in (AStatus st, m)
  | OpGet k => (AValue (spec_Get k m), m)
  | OpDelete k => let '(st, m) := spec_Delete k m in (AStatus st, m)
  | OpSize => (ASize (u64 (Z.of_nat (size m))), m)
  end.

Fixpoint run_ops {St} (step : KvOp -> St -> KvAnswer * St) (ops : list KvOp) (s : St)
    : list KvAnswer * St :=
  match ops with
  | [] => ([], s)
  | op :: ops =>
      let '(a, s) := step op s in
      let '(answers, s) := run_ops step ops s in (a :: answers, s)
  end.

Lemma kv_step_spec `{KvLaws T} op s :
  kv_inv s -> kv_inv (kv_step op s).2 /\
  ((kv_step op s).1, kv_map (kv_step op s).2) = spec_step op (kv_map s).
Proof.
  intros Hs. destruct op as [k v|k|k|]; cbn.
  - pose proof (kv_Set_inv k v s Hs). pose proof (kv_Set_map k v s Hs) as E.
    destruct (kv_Set k v s). cbn in *. split; [done|]. by rewrite <- E.
  - by rewrite kv_Get_map.
  - pose proof (kv_Delete_inv k s Hs). pose proof (kv_Delete_map k s Hs) as E.
    destruct (kv_Delete k s). cbn in *. split; [done|]. by rewrite <- E.
  - by rewrite kv_Size_map.
Qed.

(** The store simulates the map on every run. *)
Lemma run_ops_refines `{KvLaws T} ops s :
  kv_inv s ->
  ((run_ops kv_step ops s).1, kv_map (run_ops kv_step ops s).2) = run_ops spec_step ops (kv_map s).
Proof.
  revert s. induction ops as [|op ops IH]; intros s Hs; [done|]. cbn.
  destruct (kv_step_spec op s Hs) as [Hi E]. rewrite <- E. destruct (kv_step op s) as [a s1].
  cbn in *. specialize (IH s1 Hi). rewrite <- IH. by destruct (run_ops kv_step ops s1).
Qed.

(** C37: the striped store is one map. For every hash function and every sequence of
    Set, Get, Delete and Size calls on a new store, the answers (error statuses
    included) are those of a single finite map, and the shards make up that map at
    the end: no key is ever in two shards, lost, or shadowed by another. *)
Theorem sharded_kv_refines_map `{StdHash} (ops : list KvOp) :
  let '(answers, kv) := run_ops kv_step ops ShardedKV_new in
  (answers, sharded_map kv) = run_ops spec_step ops ∅ /\ sharded_inv kv.
Proof.
  pose proof (run_ops_refines (T := ShardedKV) ops kv_new kv_new_inv) as E.
  rewrite kv_new_map in E.
  assert (Hinv : forall s, kv_inv s -> kv_inv (run_ops kv_step ops s).2).
  { clear E. induction ops as [|op ops IH]; intros s Hs; [done|]. cbn.
    destruct (kv_step_spec op s Hs) as [Hi _]. destruct (kv_step op s) as [a s1]. cbn in *.
    specialize (IH s1 Hi). by destruct (run_ops kv_step ops s1). }
  specialize (Hinv kv_new kv_new_inv). cbn [kv_new ShardedKV_ops] in *.
  by destruct (run_ops kv_step ops ShardedKV_new).
Qed.
