(* ===== verification/WalWriter.v ===== *)
(** * The log writer ([src/persistence/wal_writer.cpp])

    Opening, appending, syncing and rewriting [data_dir/wal/wal.log]. [Sync] releases
    the mutex while it waits, so it is given by its three atomic parts (entry, leader
    loop, flush); [Sync] itself composes them for a caller that no other thread
    interferes with, and GroupCommit.v interleaves them. *)

From Stdlib Require Import Strings.String Sorted.
From S2P Require Import Prelude Common BigEndian Crc32 Os WalRecord.

(** ** The system calls the persistence layer makes *)

Inductive OpenAns :=
| OpenFd (fd : Z)
| OpenErr (errno : Z).

(** The log file, if it exists, and the answers to the calls to come; when a list is
    used up the call succeeds. [sys_scans] holds the answers to the reads of each scan
    of the log. *)
Record Sys := mkSys {
  sys_wal : option File;
  sys_mkdir : list (option Z);
  sys_open : list OpenAns;
  sys_lseek : list (option Z);
  sys_scans : list (list ReadAns);
  sys_write : list WriteAns;
  sys_fsync : list (option Z);
  sys_ftruncate : list (option Z)
}.

Definition set_sys_wal (f : option File) (s : Sys) : Sys :=
  mkSys f (sys_mkdir s) (sys_open s) (sys_lseek s) (sys_scans s) (sys_write s) (sys_fsync s) (sys_ftruncate s).
Definition set_sys_mkdir l (s : Sys) : Sys :=
  mkSys (sys_wal s) l (sys_open s) (sys_lseek s) (sys_scans s) (sys_write s) (sys_fsync s) (sys_ftruncate s).
Definition set_sys_open l (s : Sys) : Sys :=
  mkSys (sys_wal s) (sys_mkdir s) l (sys_lseek s) (sys_scans s) (sys_write s) (sys_fsync s) (sys_ftruncate s).
Definition set_sys_lseek l (s : Sys) : Sys :=
  mkSys (sys_wal s) (sys_mkdir s) (sys_open s) l (sys_scans s) (sys_write s) (sys_fsync s) (sys_ftruncate s).
Definition set_sys_scans l (s : Sys) : Sys :=
  mkSys (sys_wal s) (sys_mkdir s) (sys_open s) (sys_lseek s) l (sys_write s) (sys_fsync s) (sys_ftruncate s).
Definition set_sys_write l (s : Sys) : Sys :=
  mkSys (sys_wal s) (sys_mkdir s) (sys_open s) (sys_lseek s) (sys_scans s) l (sys_fsync s) (sys_ftruncate s).
Definition set_sys_fsync l (s : Sys) : Sys :=
  mkSys (sys_wal s) (sys_mkdir s) (sys_open s) (sys_lseek s) (sys_scans s) (sys_write s) l (sys_ftruncate s).
Definition set_sys_ftruncate l (s : Sys) : Sys :=
  mkSys (sys_wal s) (sys_mkdir s) (sys_open s) (sys_lseek s) (sys_scans s) (sys_write s) (sys_fsync s) l.

Definition ENOENT : Z := 2.
Definition EEXIST : Z := 17.

Definition sys_file (s : Sys) : File := default (file_on_disk []) (sys_wal s).

Definition next_open (s : Sys) : OpenAns * Sys :=
  match sys_open s with [] => (OpenFd 3, s) | a :: l => (a, set_sys_open l s) end.

(** [open(path, O_RDWR | O_CREAT | O_APPEND)] creates the file when it is missing. *)
Definition open_append (s : Sys) : OpenAns * Sys :=
  let '(a, s) := next_open s in
  match a with
  | OpenFd _ => (a, set_sys_wal (Some (sys_file s)) s)
  | OpenErr _ => (a, s)
  end.

(** [open(path, O_RDONLY)] fails with [ENOENT] when the file is missing. *)
Definition open_read (s : Sys) : OpenAns * Sys :=
  let '(a, s) := next_open s in
  match a, sys_wal s with
  | OpenFd _, None => (OpenErr ENOENT, s)
  | _, _ => (a, s)
  end.

Definition take_scan (s : Sys) : list ReadAns * Sys :=
  match sys_scans s with [] => ([], s) | a :: l => (a, set_sys_scans l s) end.

Section Writer.
Context `{Libc}.

(** ** mkdir -p *)

(** [path.find('/', pos)] *)
Definition find_slash (path : bytes) (pos : Z) : option Z :=
  match list_find (eq (byte_of_Z 47)) (zdrop pos path) with
  | Some (i, _) => Some (pos + Z.of_nat i)
  | None => None
  end.

(** The loop, with the paths given to [mkdir]; each turn moves [pos] forward, so the
    size of the path bounds the turns. *)
Fixpoint mkdir_loop (fuel : nat) (path partial : bytes) (pos : Z) (s : Sys)
    : option (Status * list bytes * Sys) :=
  match fuel with
  | O => None
  | S fuel =>
      if pos <=? zlen path then
        let next := match find_slash path pos with Some n => n | None => zlen path end in
        let partial := partial ++ slice pos (next - pos) path in
        if is_empty partial then mkdir_loop fuel path (partial ++ str "/") (next + 1) s
        else
          let '(r, script) := next_answer (sys_mkdir s) in
          let s := set_sys_mkdir script s in
          match r with
          | Some e =>
              if e =? EEXIST then
                '(st, calls, s) ← mkdir_loop fuel path (partial ++ str "/") (next + 1) s;
                Some (st, partial :: calls, s)
              else Some (IoError (str "mkdir " ++ partial ++ str ": ") e, [partial], s)
          | None =>
              '(st, calls, s) ← mkdir_loop fuel path (partial ++ str "/") (next + 1) s;
              Some (st, partial :: calls, s)
          end
      else Some (Status_Ok, [], s)
  end.

Definition MakeDirectoryRecursive (path : bytes) (s : Sys) : option (Status * list bytes * Sys) :=
  match path with
  | b :: _ =>
      if bool_decide (b = byte_of_Z 47) then mkdir_loop (S (S (length path))) path (str "/") 1 s
      else mkdir_loop (S (S (length path))) path [] 0 s
  | [] => mkdir_loop (S (S (length path))) path [] 0 s
  end.

(** ** The writer *)

Record WalWriter := mkWalWriter {
  data_dir_ : bytes;
  fd_ : Z;
  wal_path_ : bytes;
  last_index_ : Z;
  open_status_ : Status;
  synced_index_ : Z;
  flush_in_progress_ : bool;
  fsync_count_ : Z
}.

(** The members before the constructor's body runs. *)
Definition WalWriter_init (data_dir : bytes) : WalWriter :=
  mkWalWriter data_dir (-1) [] 0 Status_Ok 0 false 0.

Definition set_opened (fd : Z) (path : bytes) (w : WalWriter) : WalWriter :=
  mkWalWriter (data_dir_ w) fd path (last_index_ w) (open_status_ w) (synced_index_ w)
    (flush_in_progress_ w) (fsync_count_ w).
Definition set_last_index (i : Z) (w : WalWriter) : WalWriter :=
  mkWalWriter (data_dir_ w) (fd_ w) (wal_path_ w) i (open_status_ w) (synced_index_ w)
    (flush_in_progress_ w) (fsync_count_ w).
Definition set_open_status (st : Status) (w : WalWriter) : WalWriter :=
  mkWalWriter (data_dir_ w) (fd_ w) (wal_path_ w) (last_index_ w) st (synced_index_ w)
    (flush_in_progress_ w) (fsync_count_ w).
Definition set_synced_index (i : Z) (w : WalWriter) : WalWriter :=
  mkWalWriter (data_dir_ w) (fd_ w) (wal_path_ w) (last_index_ w) (open_status_ w) i
    (flush_in_progress_ w) (fsync_count_ w).
Definition set_flush (b : bool) (w : WalWriter) : WalWriter :=
  mkWalWriter (data_dir_ w) (fd_ w) (wal_path_ w) (last_index_ w) (open_status_ w) (synced_index_ w)
    b (fsync_count_ w).
Definition set_fsync_count (n : Z) (w : WalWriter) : WalWriter :=
  mkWalWriter (data_dir_ w) (fd_ w) (wal_path_ w) (last_index_ w) (open_status_ w) (synced_index_ w)
    (flush_in_progress_ w) n.

(** [OpenOrCreate]; [None] would be an unfinished loop and does not occur. *)
Definition OpenOrCreate (w : WalWriter) (s : Sys) : option (Status * WalWriter * Sys) :=
  let wal_dir := data_dir_ w ++ str "/wal" in
  '(status, _, s) ← MakeDirectoryRecursive wal_dir s;
  if negb (Status_ok status) then Some (status, w, s)
  else
    let path := wal_dir ++ str "/wal.log" in
    let '(a, s) := open_append s in
    match a with
    | OpenErr e => Some (IoError (str "open " ++ path ++ str ": ") e, set_opened (-1) path w, s)
    | OpenFd fd =>
        let w := set_opened fd path w in
        let '(r, script) := next_answer (sys_lseek s) in
        let s := set_sys_lseek script s in
        match r with
        | Some e => Some (IoError (str "lseek " ++ path ++ str ": ") e, w, s)
        | None =>
            let '(reads, s) := take_scan s in
            '(read_status, last) ←
              read_wal (f_data (sys_file s)) reads (fun _ record => wr_index record) (last_index_ w);
            let w := set_last_index last w in
            if negb (Status_ok read_status) then Some (read_status, w, s)
            else Some (Status_Ok, set_synced_index (last_index_ w) w, s)
        end
    end.

(** The constructor. *)
Definition WalWriter_new (data_dir : bytes) (s : Sys) : option (WalWriter * Sys) :=
  '(st, w, s) ← OpenOrCreate (WalWriter_init data_dir) s;
  Some (set_open_status st w, s).

(** The destructor: the descriptors it closes. *)
Definition WalWriter_destroy (w : WalWriter) : list Z := if 0 <=? fd_ w then [fd_ w] else [].

(** The move constructor: the new object, and what is left of the other. *)
Definition WalWriter_move (other : WalWriter) : WalWriter * WalWriter :=
  (other,
   mkWalWriter [] (-1) [] (last_index_ other) (mkStatus (code (open_status_ other)) [])
     (synced_index_ other) (flush_in_progress_ other) (fsync_count_ other)).

(** Move assignment from a different object: what was assigned, what is left of the
    other, and the descriptors closed. *)
Definition WalWriter_move_assign (w other : WalWriter) : WalWriter * WalWriter * list Z :=
  let closed := if 0 <=? fd_ w then [fd_ w] else [] in
  let '(w, other) := WalWriter_move other in (w, other, closed).

Definition WriteAll (s : Sys) (b : bytes) : Status * Sys :=
  let '(e, f, script) := write_append (sys_write s) (sys_file s) b in
  let s := set_sys_wal (Some f) (set_sys_write script s) in
  match e with
  | Some e => (IoError (str "write wal: ") e, s)
  | None => (Status_Ok, s)
  end.

Definition Append (record : WalRecord) (w : WalWriter) (s : Sys) : Result Z * WalWriter * Sys :=
  if negb (Status_ok (open_status_ w)) then (Failed (open_status_ w), w, s)
  else
    let record := mkWalRecord (wr_term record) (u64 (last_index_ w + 1)) (wr_op record)
                    (wr_key record) (wr_value record) in
    let encoded := EncodeWalRecord record [] in
    let '(status, s) := WriteAll s encoded in
    if negb (Status_ok status) then (Failed status, w, s)
    else
      let w := set_last_index (wr_index record) w in
      (Value (last_index_ w), w, s).

Definition FsyncNow (w : WalWriter) (s : Sys) : Status * WalWriter * Sys :=
  let '(r, script) := next_answer (sys_fsync s) in
  let s := set_sys_fsync script s in
  match r with
  | Some e => (IoError (str "fsync wal: ") e, w, s)
  | None =>
      (Status_Ok, set_fsync_count (u64 (fsync_count_ w + 1)) w,
       set_sys_wal (fsync_file <$> sys_wal s) s)
  end.

(** ** Sync, in its atomic parts *)

Definition kGroupCommitMaxRecords : Z := 16.

(** [static_cast<int>] *)
Definition i32 (z : Z) : Z := let m := z mod 2 ^ 32 in if m <? 2 ^ 31 then m else m - 2 ^ 32.

Inductive SyncNext :=
| SyncReturn (st : Status)  (** return from [Sync] *)
| SyncFollow                (** wait for the batch leader's flush *)
| SyncLead.                 (** become the batch leader *)

(** Up to the first wait. *)
Definition Sync_entry (at_least_index : Z) (w : WalWriter) : SyncNext :=
  if negb (Status_ok (open_status_ w)) then SyncReturn (open_status_ w)
  else if at_least_index <=? synced_index_ w then SyncReturn Status_Ok
  else if flush_in_progress_ w then SyncFollow
  else SyncLead.

(** The predicate a follower waits for, and what it does when it holds. *)
Definition Sync_follow_ready (at_least_index : Z) (w : WalWriter) : bool :=
  (at_least_index <=? synced_index_ w) || negb (flush_in_progress_ w).
Definition Sync_follow_done (at_least_index : Z) (w : WalWriter) : SyncNext :=
  if at_least_index <=? synced_index_ w then SyncReturn Status_Ok else SyncLead.

(** The leader announces itself. *)
Definition Sync_lead (w : WalWriter) : WalWriter := set_flush true w.

(** The condition of the leader's loop, and its exit after a wait. *)
Definition Sync_batch_open (w : WalWriter) : bool :=
  i32 (u64 (last_index_ w - synced_index_ w)) <? kGroupCommitMaxRecords.
Definition Sync_quiet (observed_index : Z) (w : WalWriter) : bool :=
  last_index_ w =? observed_index.

(** After the loop. *)
Definition Sync_flush (at_least_index : Z) (w : WalWriter) (s : Sys) : Status * WalWriter * Sys :=
  let '(status, w, s) := FsyncNow w s in
  let w := if Status_ok status then set_synced_index (last_index_ w) w else w in
  let w := set_flush false w in
  if negb (Status_ok status) then (status, w, s)
  else ((if at_least_index <=? synced_index_ w then Status_Ok else status), w, s).

(** [Sync] when no other thread touches the writer: a leader's first wait ends at the
    tick or at the deadline with [last_index_] unchanged, and both leave the loop.
    [None]: it would wait for a flush that nobody runs. *)
Definition Sync (at_least_index : Z) (w : WalWriter) (s : Sys) : option (Status * WalWriter * Sys) :=
  match Sync_entry at_least_index w with
  | SyncReturn st => Some (st, w, s)
  | SyncFollow => None
  | SyncLead => Some (Sync_flush at_least_index (Sync_lead w) s)
  end.

(** ** Rewriting the log *)

(** [for (record : records) WriteAll(fd_, encoded)] with its early return. *)
Fixpoint write_records (records : list WalRecord) (s : Sys) : Status * Sys :=
  match records with
  | [] => (Status_Ok, s)
  | record :: records =>
      let encoded := EncodeWalRecord record [] in
      let '(status, s) := WriteAll s encoded in
      if negb (Status_ok status) then (status, s) else write_records records s
  end.

Definition last_record_index (records : list WalRecord) : Z :=
  match last records with None => 0 | Some r => wr_index r end.

Definition RewriteAll (records : list WalRecord) (w : WalWriter) (s : Sys) : Status * WalWriter * Sys :=
  if negb (Status_ok (open_status_ w)) then (open_status_ w, w, s)
  else
    let '(r, script) := next_answer (sys_ftruncate s) in
    let s := set_sys_ftruncate script s in
    match r with
    | Some e => (IoError (str "ftruncate wal: ") e, w, s)
    | None =>
        let s := set_sys_wal (truncate_file <$> sys_wal s) s in
        let '(r, script) := next_answer (sys_lseek s) in
        let s := set_sys_lseek script s in
        match r with
        | Some e => (IoError (str "lseek wal: ") e, w, s)
        | None =>
            let '(status, s) := write_records records s in
            if negb (Status_ok status) then (status, w, s)
            else
              let '(status, w, s) := FsyncNow w s in
              if negb (Status_ok status) then (status, w, s)
              else
                let w := set_last_index (last_record_index records) w in
                let w := set_synced_index (last_index_ w) w in
                (Status_Ok, w, s)
        end
    end.

Definition last_index (w : WalWriter) : Z := last_index_ w.
Definition wal_path (w : WalWriter) : bytes := wal_path_ w.

End Writer.

(** ** mkdir -p creates the ancestors of a path, outermost first *)

(** The positions where the path is cut: its slashes from [pos] on, and its end. *)
Fixpoint cuts_from (fuel : nat) (path : bytes) (pos : Z) : list Z :=
  match fuel with
  | O => []
  | S fuel =>
      match find_slash path pos with
      | Some n => n :: cuts_from fuel path (n + 1)
      | None => [zlen path]
      end
  end.

Definition is_slash_at (path : bytes) (n : Z) : Prop :=
  0 <= n /\ path !! Z.to_nat n = Some (byte_of_Z 47).

Definition ancestors (path : bytes) (cuts : list Z) : list bytes :=
  filter (fun p => p <> []) ((fun n => ztake n path) <$> cuts).

(** No [mkdir] fails but with [EEXIST]. *)
Definition mkdir_ok (script : list (option Z)) : Prop :=
  Forall (fun r => r = None \/ r = Some EEXIST) script.

Lemma find_slash_spec path pos n :
  0 <= pos -> find_slash path pos = Some n ->
  pos <= n < zlen path /\ is_slash_at path n /\
  forall m, pos <= m < n -> ~ is_slash_at path m.
Proof.
  intros Hp. unfold find_slash. destruct (list_find _ _) as [[i b]|] eqn:E; [|done].
  intros [= <-]. apply list_find_Some in E as (Hl & <- & Hfirst).
  unfold zdrop in Hl. rewrite lookup_drop in Hl.
  assert (Hn : path !! Z.to_nat (pos + Z.of_nat i) = Some (byte_of_Z 47)).
  { rewrite <- Hl. f_equal. lia. }
  pose proof (lookup_lt_Some _ _ _ Hn). unfold zlen. split; [lia|]. split; [split; [lia|done]|].
  intros m Hm [_ Hs]. destruct (Hfirst (Z.to_nat (m - pos)) (byte_of_Z 47)); [|lia|done].
  unfold zdrop. rewrite lookup_drop, <- Hs. f_equal. lia.
Qed.

Lemma find_slash_None path pos :
  0 <= pos -> find_slash path pos = None -> forall m, pos <= m -> ~ is_slash_at path m.
Proof.
  intros Hp. unfold find_slash. destruct (list_find _ _) as [[]|] eqn:E; [done|]. intros _ m Hm [_ Hs].
  apply list_find_None in E. rewrite Forall_lookup in E.
  apply (E (Z.to_nat (m - pos)) (byte_of_Z 47)); [|done].
  unfold zdrop. rewrite lookup_drop, <- Hs. f_equal. lia.
Qed.

Lemma ztake_extend (path : bytes) pos next :
  0 <= pos <= next -> ztake pos path ++ slice pos (next - pos) path = ztake next path.
Proof.
  intros Hp. unfold slice, ztake, zdrop. rewrite take_take_drop. f_equal. lia.
Qed.

Lemma ztake_slash (path : bytes) n :
  is_slash_at path n -> ztake n path ++ str "/" = ztake (n + 1) path.
Proof.
  intros [Hn Hs]. unfold ztake. replace (Z.to_nat (n + 1)) with (S (Z.to_nat n)) by lia.
  by rewrite (take_S_r _ _ _ Hs).
Qed.

Section MkdirProofs.
Context `{Libc}.

Lemma mkdir_loop_spec fuel path pos s :
  0 <= pos <= zlen path -> mkdir_ok (sys_mkdir s) -> zlen path - pos + 1 < Z.of_nat fuel ->
  exists s', mkdir_loop fuel path (ztake pos path) pos s =
    Some (Status_Ok, ancestors path (cuts_from fuel path pos), s') /\
    (exists l, s' = set_sys_mkdir l s).
Proof.
  revert pos s. induction fuel as [|fuel IH]; intros pos s Hp Hok Hf; [lia|].
  cbn [mkdir_loop cuts_from]. replace (pos <=? zlen path) with true by lia.
  set (next := match find_slash path pos with Some n => n | None => zlen path end).
  assert (Hnext : pos <= next <= zlen path).
  { unfold next. destruct (find_slash path pos) eqn:E; [|lia]. apply find_slash_spec in E; lia. }
  rewrite ztake_extend by lia.
  (* what follows the call *)
  assert (Hrest : forall s0, mkdir_ok (sys_mkdir s0) -> exists s',
    mkdir_loop fuel path (ztake next path ++ str "/") (next + 1) s0 =
      Some (Status_Ok, ancestors path (match find_slash path pos with
        Some n => cuts_from fuel path (n + 1) | None => [] end), s') /\
    (exists l, s' = set_sys_mkdir l s0)).
  { intros s0 Hok0. unfold next in *. destruct (find_slash path pos) as [n|] eqn:E.
    - apply find_slash_spec in E as (Hn & Hs & _); [|lia].
      rewrite ztake_slash by done. apply IH; [lia|done|lia].
    - destruct fuel as [|fuel]; [lia|]. cbn [mkdir_loop].
      replace (zlen path + 1 <=? zlen path) with false by lia. eexists. split; [done|].
      exists (sys_mkdir s0). by destruct s0. }
  assert (Hcuts : forall P, P (next :: match find_slash path pos with
      Some n => cuts_from fuel path (n + 1) | None => [] end) ->
    P (match find_slash path pos with
       Some n => n :: cuts_from fuel path (n + 1) | None => [zlen path] end)).
  { intros P. unfold next. by destruct (find_slash path pos). }
  apply (Hcuts (fun c => exists s', _ = Some (Status_Ok, ancestors path c, s') /\ _)).
  unfold ancestors. cbn [fmap list_fmap]. rewrite filter_cons.
  destruct (is_empty (ztake next path)) eqn:Ee.
  - apply is_empty_true in Ee. rewrite decide_False by (rewrite Ee; tauto). by apply Hrest.
  - rewrite decide_True by (intros E0; rewrite E0 in Ee; done).
    destruct (next_answer (sys_mkdir s)) as [r script] eqn:Er.
    assert (Hr : (r = None \/ r = Some EEXIST) /\ mkdir_ok script).
    { unfold next_answer in Er. destruct (sys_mkdir s) as [|a l]; injection Er as <- <-; [by auto|].
      by apply Forall_cons in Hok. }
    destruct Hr as [Hr Hok'].
    destruct (Hrest (set_sys_mkdir script s) Hok') as (s' & E & l & ->).
    exists (set_sys_mkdir l s). split; [|by exists l].
    destruct Hr as [->| ->]; [|rewrite Z.eqb_refl]; by rewrite E.
Qed.

(** The path's first position: past a leading slash. *)
Definition mkdir_start (path : bytes) : Z :=
  match path with b :: _ => if bool_decide (b = byte_of_Z 47) then 1 else 0 | [] => 0 end.

Lemma MakeDirectoryRecursive_spec path s :
  mkdir_ok (sys_mkdir s) ->
  exists s', MakeDirectoryRecursive path s =
    Some (Status_Ok, ancestors path (cuts_from (S (S (length path))) path (mkdir_start path)), s') /\
    (exists l, s' = set_sys_mkdir l s).
Proof.
  intros Hok. unfold MakeDirectoryRecursive, mkdir_start.
  pose proof (zlen_nonneg path). unfold zlen in *.
  destruct path as [|b path].
  - apply (mkdir_loop_spec _ [] 0); unfold zlen; cbn; (done || lia).
  - case_bool_decide as Hb.
    + subst b. apply (mkdir_loop_spec _ (byte_of_Z 47 :: path) 1); unfold zlen; cbn [length]; (done || lia).
    + apply (mkdir_loop_spec _ (b :: path) 0); unfold zlen; cbn [length]; (done || lia).
Qed.

End MkdirProofs.

Lemma cuts_from_spec fuel path pos :
  0 <= pos <= zlen path -> zlen path - pos + 1 < Z.of_nat fuel ->
  StronglySorted Z.lt (cuts_from fuel path pos) /\
  forall n, n ∈ cuts_from fuel path pos <-> (pos <= n < zlen path /\ is_slash_at path n) \/ n = zlen path.
Proof.
  revert pos. induction fuel as [|fuel IH]; intros pos Hp Hf; [lia|]. cbn [cuts_from].
  destruct (find_slash path pos) as [n|] eqn:E.
  - apply find_slash_spec in E as (Hn & Hs & Hfirst); [|lia].
    destruct (IH (n + 1)) as [Hsorted Hin]; [lia..|]. split.
    + constructor; [done|]. apply Forall_forall. intros m Hm. apply Hin in Hm. lia.
    + intros m. rewrite elem_of_cons, Hin. split.
      * intros [->|[[? ?]| ->]]; [left; split; [lia|done]|left; split; [lia|done]|by right].
      * intros [[? Hm]| ->]; [|by auto].
        destruct (Z.lt_trichotomy m n) as [Hlt|[->|Hgt]]; [|by auto|].
        -- exfalso. apply (Hfirst m); [lia|done].
        -- right. left. split; [lia|done].
  - pose proof (find_slash_None path pos ltac:(lia) E) as Hnone. split.
    + repeat constructor.
    + intros m. rewrite list_elem_of_singleton. split; [by auto|].
      intros [[? Hm]| ->]; [|done]. exfalso. apply (Hnone m); [lia|done].
Qed.

(** [mkdir -p]. When no [mkdir] fails except with [EEXIST], the loop terminates
    with success, and the directories it asked for are the path cut at each slash after
    a leading one and the whole path, in order, without the empty path: every parent is
    created before its children. *)
Theorem mkdir_creates_ancestors `{Libc} (path : bytes) (s : Sys) :
  mkdir_ok (sys_mkdir s) ->
  exists cuts s', MakeDirectoryRecursive path s = Some (Status_Ok, ancestors path cuts, s') /\
    StronglySorted Z.lt cuts /\
    forall n, n ∈ cuts <->
      (mkdir_start path <= n < zlen path /\ is_slash_at path n) \/ n = zlen path.
Proof.
  intros Hok. destruct (MakeDirectoryRecursive_spec path s Hok) as (s' & E & _).
  eexists _, s'. split; [exact E|]. apply cuts_from_spec.
  - unfold mkdir_start, zlen. destruct path; [lia|]. case_bool_decide; cbn [length]; lia.
  - unfold mkdir_start, zlen. destruct path; [lia|]. case_bool_decide; lia.
Qed.

(** A C library for the concrete runs. *)
Definition example_libc : Libc := {| strerror := fun _ => str "error" |}.
#[local] Existing Instance example_libc.

Definition fresh_sys : Sys := mkSys None [] [] [] [] [] [] [].

Lemma mkdir_creates_ancestors_witness :
  MakeDirectoryRecursive (str "/a/b") (set_sys_mkdir [Some EEXIST] fresh_sys) =
    Some (Status_Ok, [str "/a"; str "/a/b"], fresh_sys) /\
  exists cuts s', MakeDirectoryRecursive (str "/a/b") (set_sys_mkdir [Some EEXIST] fresh_sys) =
    Some (Status_Ok, ancestors (str "/a/b") cuts, s') /\
    StronglySorted Z.lt cuts /\
    forall n, n ∈ cuts <->
      (mkdir_start (str "/a/b") <= n < zlen (str "/a/b") /\ is_slash_at (str "/a/b") n) \/
      n = zlen (str "/a/b").
Proof.
  split; [vm_compute; reflexivity|].
  apply (mkdir_creates_ancestors (str "/a/b")). apply Forall_singleton. by right.
Defined.

(** ** The writer against an abstract log

    [wal_state rs n w s]: the writer is open on a log that holds exactly [rs], of which
    at least the first [n] records are durable. *)

Definition log_indexed (rs : list WalRecord) : Prop :=
  forall i r, rs !! i = Some r -> wr_index r = Z.of_nat i + 1.

Record wal_state (rs : list WalRecord) (n : Z) (w : WalWriter) (s : Sys) : Prop := {
  ws_open : open_status_ w = Status_Ok;
  ws_valid : Forall wal_valid rs;
  ws_indexed : log_indexed rs;
  ws_last : last_index_ w = zlen rs;
  ws_synced : synced_index_ w = n;
  ws_n : 0 <= n <= zlen rs;
  ws_idle : flush_in_progress_ w = false;
  ws_file : exists durable, sys_wal s = Some (mkFile (encode_log rs) durable []) /\
    encode_log (ztake n rs) `prefix_of` durable /\ durable `prefix_of` encode_log rs
}.

Lemma log_indexed_snoc rs r :
  log_indexed rs -> wr_index r = zlen rs + 1 -> log_indexed (rs ++ [r]).
Proof.
  intros Hrs Hr i x Hx. apply lookup_app_Some in Hx as [Hx|[Hl Hx]]; [by apply Hrs|].
  apply list_lookup_singleton_Some in Hx as [Hi <-]. rewrite Hr. unfold zlen. lia.
Qed.

Lemma log_indexed_last rs : log_indexed rs -> last_record_index rs = zlen rs.
Proof.
  intros Hrs. unfold last_record_index. destruct (last rs) as [r|] eqn:E.
  - rewrite last_lookup in E. pose proof (lookup_lt_Some _ _ _ E). apply Hrs in E.
    rewrite E. unfold zlen. lia.
  - by apply last_None in E as ->.
Qed.

Lemma foldl_last_index rs d :
  foldl (fun _ record => wr_index record) d rs = match last rs with None => d | Some r => wr_index r end.
Proof.
  destruct rs as [|r rs _] using rev_ind; [done|]. by rewrite foldl_snoc, last_snoc.
Qed.

Section WriterProofs.
Context `{Libc}.

Lemma IoError_not_ok what e : Status_ok (IoError what e) = false.
Proof. done. Qed.

Lemma WriteAll_spec sys b st sys' :
  WriteAll sys b = (st, sys') ->
  exists written left_ script, b = written ++ left_ /\
    sys' = set_sys_wal (Some (extend_file (sys_file sys) written)) (set_sys_write script sys) /\
    (Status_ok st = true <-> left_ = []) /\ (Status_ok st = true -> st = Status_Ok) /\
    (Status_ok st = false -> code st = ErrorCode.kIOError).
Proof.
  unfold WriteAll. destruct (write_append _ _ _) as [[e f] script] eqn:E.
  apply write_append_spec in E as (d & l & -> & -> & He).
  destruct e as [e|]; intros [= <- <-]; exists d, l, script; (split; [done|]); (split; [done|]).
  - split; [|done]. split; [done|]. intros Hl. by apply He in Hl.
  - split; [|done]. by rewrite <- He.
Qed.

Lemma WriteAll_ok sys b st sys' :
  writes_ok (sys_write sys) -> WriteAll sys b = (st, sys') -> st = Status_Ok /\ writes_ok (sys_write sys').
Proof.
  intros Hw. unfold WriteAll. destruct (write_append _ _ _) as [[e f] script] eqn:E.
  apply write_append_ok in E as [-> Hs]; [|done]. by intros [= <- <-].
Qed.

(** The record [Append] writes. *)
Definition appended (rs : list WalRecord) (r : WalRecord) : WalRecord :=
  mkWalRecord (wr_term r) (zlen rs + 1) (wr_op r) (wr_key r) (wr_value r).

Lemma encode_log_single r : encode_log [r] = encode_wal r.
Proof. unfold encode_log. cbn. by rewrite app_nil_r. Qed.

(** [Append] adds its record at the end of the log, or fails, leaving the writer as it
    was and at most a strict prefix of the record in the file. *)
Lemma Append_spec rs n w sys r res w' sys' :
  wal_state rs n w sys -> wal_valid (appended rs r) -> zlen rs + 1 < 2 ^ 64 ->
  Append r w sys = (res, w', sys') ->
  (res = Value (zlen rs + 1) /\ wal_state (rs ++ [appended rs r]) n w' sys') \/
  (exists st written left_ script durable, res = Failed st /\ code st = ErrorCode.kIOError /\ w' = w /\
     encode_wal (appended rs r) = written ++ left_ /\ left_ <> [] /\
     sys_wal sys = Some (mkFile (encode_log rs) durable []) /\
     sys' = set_sys_wal (Some (mkFile (encode_log rs ++ written) durable [])) (set_sys_write script sys)).
Proof.
  intros Hst Hv Hlt. pose proof Hst as [Ho Hval Hidx Hl Hs Hn Hi (durable & Hf & Hd1 & Hd2)].
  unfold Append. rewrite Ho, Status_ok_Ok. cbn [negb wr_index wr_term wr_op wr_key wr_value].
  assert (Hu : u64 (last_index_ w + 1) = zlen rs + 1).
  { rewrite Hl. apply Z.mod_small. pose proof (zlen_nonneg rs). lia. }
  rewrite Hu. fold (appended rs r) (encode_wal (appended rs r)).
  destruct (WriteAll sys _) as [st sys1] eqn:E.
  apply WriteAll_spec in E as (written & left_ & script & Henc & -> & Hok & Hok' & Hio).
  assert (Hfile : sys_file sys = mkFile (encode_log rs) durable []) by (unfold sys_file; by rewrite Hf).
  rewrite Hfile. unfold extend_file. cbn [f_data f_durable f_past].
  destruct (Status_ok st) eqn:Est; cbn [negb]; intros [= <- <- <-].
  - left. split; [done|]. assert (left_ = []) as -> by (by apply Hok). rewrite app_nil_r in Henc.
    constructor; cbn; try done.
    + apply Forall_app. split; [done|]. by constructor.
    + by apply log_indexed_snoc.
    + zlen_lia.
    + rewrite zlen_app. pose proof (zlen_nonneg [appended rs r]). lia.
    + exists durable. rewrite encode_log_app, encode_log_single, Henc.
      split; [done|]. rewrite ztake_app_le by done. split; [done|]. by apply prefix_app_r.
  - right. exists st, written, left_, script, durable. split; [done|]. split; [by apply Hio|]. split; [done|].
    split; [done|]. split; [|by split]. intros ->. by destruct Hok as [_ Hok]; discriminate (Hok eq_refl).
Qed.

Lemma Append_ok rs n w sys r :
  wal_state rs n w sys -> wal_valid (appended rs r) -> zlen rs + 1 < 2 ^ 64 -> writes_ok (sys_write sys) ->
  exists w' sys', Append r w sys = (Value (zlen rs + 1), w', sys') /\
    wal_state (rs ++ [appended rs r]) n w' sys' /\ writes_ok (sys_write sys') /\ sys_fsync sys' = sys_fsync sys.
Proof.
  intros Hst Hv Hlt Hw. destruct (Append r w sys) as [[res w'] sys'] eqn:E.
  assert (Hok : Result_ok res = true /\ writes_ok (sys_write sys') /\ sys_fsync sys' = sys_fsync sys).
  { revert E. unfold Append. rewrite (ws_open _ _ _ _ Hst), Status_ok_Ok. cbn [negb].
    destruct (WriteAll sys _) as [st s1] eqn:E1.
    pose proof (WriteAll_spec _ _ _ _ E1) as (? & ? & ? & _ & Hs1 & _).
    apply WriteAll_ok in E1 as [-> Hw1]; [|done]. rewrite Status_ok_Ok. cbn [negb].
    intros [= <- <- <-]. split; [done|]. split; [done|]. by rewrite Hs1. }
  destruct Hok as (Hok & Hw' & Hfs).
  destruct (Append_spec _ _ _ _ _ _ _ _ Hst Hv Hlt E)
    as [[-> Hst']|(st & ? & ? & ? & ? & -> & _)]; [|done].
  by exists w', sys'.
Qed.

(** The flush that [Sync] runs, by what [fsync] answers. *)
Lemma Sync_fails rs n w sys i e script :
  wal_state rs n w sys -> n < i -> next_answer (sys_fsync sys) = (Some e, script) ->
  Sync i w sys = Some (IoError (str "fsync wal: ") e, w, set_sys_fsync script sys).
Proof.
  intros [Ho Hval Hidx Hl Hs Hn Hi _] Hlt Ha.
  unfold Sync, Sync_entry. rewrite Ho, Status_ok_Ok, Hs. cbn [negb].
  replace (i <=? n) with false by lia. rewrite Hi.
  unfold Sync_flush, FsyncNow, Sync_lead. rewrite Ha, IoError_not_ok. cbn [negb].
  do 3 f_equal. destruct w; cbn in *; subst; done.
Qed.

Lemma Sync_succeeds rs n w sys i script :
  wal_state rs n w sys -> n < i -> next_answer (sys_fsync sys) = (None, script) ->
  exists w' sys', Sync i w sys = Some (Status_Ok, w', sys') /\ wal_state rs (zlen rs) w' sys' /\
    sys_wal sys' = Some (file_on_disk (encode_log rs)) /\ sys_write sys' = sys_write sys /\
    sys_fsync sys' = script.
Proof.
  intros [Ho Hval Hidx Hl Hs Hn Hi (durable & Hf & Hd1 & Hd2)] Hlt Ha.
  unfold Sync, Sync_entry. rewrite Ho, Status_ok_Ok, Hs. cbn [negb].
  replace (i <=? n) with false by lia. rewrite Hi.
  unfold Sync_flush, FsyncNow, Sync_lead. rewrite Ha, Status_ok_Ok. cbn [negb].
  match goal with |- context [if ?c then Status_Ok else Status_Ok] =>
    replace (if c then Status_Ok else Status_Ok) with Status_Ok by (by destruct c) end.
  eexists _, _. split; [done|]. cbn. rewrite Hf. cbn. split; [|done].
  constructor; cbn; try done; try lia.
  exists (encode_log rs). split; [done|]. split; [|done].
  unfold ztake, zlen. rewrite Nat2Z.id, firstn_all. done.
Qed.

Lemma Sync_spec rs n w sys i res :
  wal_state rs n w sys -> Sync i w sys = res ->
  (i <= n /\ res = Some (Status_Ok, w, sys)) \/
  (n < i /\ exists w' sys', res = Some (Status_Ok, w', sys') /\ wal_state rs (zlen rs) w' sys' /\
     sys_wal sys' = Some (file_on_disk (encode_log rs)) /\ sys_write sys' = sys_write sys) \/
  (n < i /\ exists st script, res = Some (st, w, set_sys_fsync script sys) /\ code st = ErrorCode.kIOError).
Proof.
  intros Hst <-. destruct (Z.le_gt_cases i n) as [Hle|Hlt].
  - left. split; [done|]. destruct Hst as [Ho _ _ _ Hs _ _ _].
    unfold Sync, Sync_entry. rewrite Ho, Status_ok_Ok, Hs. cbn [negb].
    by replace (i <=? n) with true by lia.
  - right. destruct (next_answer (sys_fsync sys)) as [[e|] script] eqn:Ha.
    + right. split; [done|]. rewrite (Sync_fails rs n w sys i e script) by done. by eexists _, _.
    + left. split; [done|].
      destruct (Sync_succeeds rs n w sys i script) as (w' & s' & E & ? & ? & ? & _); [done..|].
      rewrite E. by exists w', s'.
Qed.

(** The state does not depend on the answers to come. *)
Lemma wal_state_frame rs n w sys sys' :
  wal_state rs n w sys -> sys_wal sys' = sys_wal sys -> wal_state rs n w sys'.
Proof. intros [? ? ? ? ? ? ? (d & Hf & ?)] E. constructor; try done. exists d. by rewrite E. Qed.

Lemma extend_file_nil f : extend_file f [] = f.
Proof. destruct f. unfold extend_file. cbn. by rewrite app_nil_r. Qed.

Lemma write_records_ok records sys f st sys' :
  sys_wal sys = Some f -> write_records records sys = (st, sys') -> Status_ok st = true ->
  st = Status_Ok /\ exists script,
  sys' = set_sys_wal (Some (extend_file f (encode_log records))) (set_sys_write script sys).
Proof.
  revert sys f. induction records as [|r records IH]; intros sys f Hf; cbn [write_records].
  - intros [= <- <-] _. split; [done|]. exists (sys_write sys).
    change (encode_log []) with (@nil byte). rewrite extend_file_nil, <- Hf. by destruct sys.
  - fold (encode_wal r). destruct (WriteAll sys (encode_wal r)) as [st1 sys1] eqn:E.
    apply WriteAll_spec in E as (written & left_ & script & Henc & -> & Hok & Hok' & Hio).
    destruct (Status_ok st1) eqn:Est; cbn [negb]; [|intros [= <- <-]; congruence].
    assert (left_ = []) as -> by (by apply Hok). rewrite app_nil_r in Henc.
    intros E Hst. eapply IH in E as (-> & script' & ->); [|done|done]. split; [done|].
    exists script'. unfold sys_file. rewrite Hf.
    change (r :: records) with ([r] ++ records). rewrite encode_log_app, encode_log_single, Henc.
    unfold extend_file, set_sys_wal, set_sys_write. cbn. by rewrite app_assoc.
Qed.

(** [RewriteAll] that reports success has replaced the log, durably. *)
Lemma RewriteAll_spec rs n w sys records st w' sys' :
  wal_state rs n w sys -> Forall wal_valid records -> log_indexed records ->
  RewriteAll records w sys = (st, w', sys') -> Status_ok st = true ->
  st = Status_Ok /\ wal_state records (zlen records) w' sys' /\
  sys_wal sys' = Some (file_on_disk (encode_log records)).
Proof.
  intros [Ho Hval Hidx Hl Hs Hn Hi (durable & Hf & Hd1 & Hd2)] Hv Hx.
  unfold RewriteAll. rewrite Ho, Status_ok_Ok. cbn [negb].
  destruct (next_answer (sys_ftruncate sys)) as [[e|] script]; [intros [= <- <- <-]; done|].
  destruct (next_answer _) as [[e|] script'] in |- *; [intros [= <- <- <-]; done|].
  destruct (write_records records _) as [st1 sys1] eqn:E.
  destruct (Status_ok st1) eqn:Est; cbn [negb]; [|intros [= <- <- <-]; congruence].
  eapply write_records_ok in E as (-> & script1 & ->); [|cbn; by rewrite Hf|done].
  unfold FsyncNow. destruct (next_answer _) as [[e|] script2] in |- *; [intros [= <- <- <-]; done|].
  rewrite Status_ok_Ok. cbn [negb]. intros [= <- <- <-] _. split; [done|].
  unfold extend_file, truncate_file. cbn. rewrite (log_indexed_last records) by done.
  split; [|done]. constructor; cbn; try done.
  - pose proof (zlen_nonneg records). lia.
  - exists (encode_log records). split; [done|]. unfold ztake, zlen. by rewrite Nat2Z.id, firstn_all.
Qed.

(** The calls of the constructor succeed. *)
Record opens_ok (s : Sys) : Prop := {
  oo_mkdir : mkdir_ok (sys_mkdir s);
  oo_open : exists fd, 0 <= fd /\ (next_open s).1 = OpenFd fd;
  oo_lseek : (next_answer (sys_lseek s)).1 = None;
  oo_scan : reads_ok (take_scan s).1
}.

Lemma WalWriter_new_spec dir rs t sys :
  opens_ok sys -> Forall wal_valid rs -> log_indexed rs -> torn_tail t ->
  f_data (sys_file sys) = encode_log rs ++ t ->
  exists w sys', WalWriter_new dir sys = Some (w, sys') /\
    sys_wal sys' = Some (sys_file sys) /\ open_status_ w = Status_Ok /\
    last_index_ w = zlen rs /\ synced_index_ w = zlen rs /\ flush_in_progress_ w = false /\
    0 <= fd_ w /\ sys_write sys' = sys_write sys /\ sys_fsync sys' = sys_fsync sys /\
    sys_scans sys' = sys_scans (take_scan sys).2 /\ sys_open sys' = sys_open (next_open sys).2.
Proof.
  intros [Hm (fd & Hfd & Ho) Hl Hr] Hval Hidx Ht Hdata. unfold WalWriter_new, OpenOrCreate.
  destruct (MakeDirectoryRecursive_spec (data_dir_ (WalWriter_init dir) ++ str "/wal") sys Hm)
    as (s1 & -> & script & ->).
  cbn [mbind option_bind]. rewrite Status_ok_Ok. cbn [negb].
  unfold open_append, next_open in *. cbn [sys_open set_sys_mkdir].
  destruct (sys_open sys) as [|a l] eqn:El; cbn in Ho; subst;
    (try injection Ho as ->); cbn -[read_wal Z.leb];
    (destruct (sys_lseek sys) as [|r ls]; cbn in Hl; subst; cbn -[read_wal Z.leb]);
    unfold take_scan in *; cbn [sys_scans set_sys_lseek set_sys_wal set_sys_open set_sys_mkdir sys_file] in *;
    (destruct (sys_scans sys) as [|sc scs] eqn:Esc; cbn [fst snd] in Hr);
    unfold sys_file in *; cbn -[read_wal]; rewrite Hdata, (read_wal_log _ rs t) by (done || constructor);
    cbn; eexists _, _; (split; [done|]); cbn; rewrite foldl_last_index;
    fold (last_record_index rs); rewrite log_indexed_last by done; eauto 15.
Qed.
End WriterProofs.
