(* ===== verification/DurableStorage.v ===== *)
(** * Recovery and the durable store ([src/persistence/recovery.cpp],
    [src/persistence/durable_storage.cpp])

    Replaying the log into the key-value store, and Set/Get/Delete on top of the log
    writer. The store is any [KvOps]; the theorems use the laws of its interface only.
    The operations are those of a caller that no other thread interferes with; a wait
    that nobody would end is [None]. *)

From Stdlib Require Import Strings.String.
From S2P Require Import Prelude Common BigEndian Crc32 Os WalRecord ShardedKV WalWriter.

Section Storage.
Context `{Libc} {T : Type} `{KvOps T}.

(** ** Recovery *)

(** The switch on [record.op] that applies a record to the store. *)
Definition apply_record (kv : T) (record : WalRecord) : T :=
  match wr_op record with
  | WalOp.kSet => (kv_Set (wr_key record) (wr_value record) kv).2
  | WalOp.kDelete => (kv_Delete (wr_key record) kv).2
  end.

(** The body of the loop, on the store and [*last_applied_index]. *)
Definition replay_step (st : T * Z) (record : WalRecord) : T * Z :=
  (apply_record st.1 record, wr_index record).

(** Status, store, [*last_applied_index]; [None] would be an unfinished loop. *)
Definition RecoverFromWal (data_dir : bytes) (kv : T) (s : Sys) : option (Status * T * Z * Sys) :=
  let wal_path := data_dir ++ str "/wal/wal.log" in
  let '(a, s) := open_read s in
  match a with
  | OpenErr e =>
      if e =? ENOENT then Some (Status_Ok, kv, 0, s)
      else Some (IoError (str "open " ++ wal_path ++ str ": ") e, kv, 0, s)
  | OpenFd _ =>
      let '(reads, s) := take_scan s in
      '(result, (kv, last)) ← read_wal (f_data (sys_file s)) reads replay_step (kv, 0);
      Some (result, kv, last, s)
  end.

(** ** The durable store *)

Record DurableStorage := mkDurableStorage {
  ds_data_dir : bytes;
  ds_kv : T;
  ds_wal : WalWriter;
  ds_last_applied_index : Z;
  ds_recovery_status : Status
}.

Definition set_ds_wal (w : WalWriter) (d : DurableStorage) : DurableStorage :=
  mkDurableStorage (ds_data_dir d) (ds_kv d) w (ds_last_applied_index d) (ds_recovery_status d).
Definition set_ds_applied (kv : T) (i : Z) (d : DurableStorage) : DurableStorage :=
  mkDurableStorage (ds_data_dir d) kv (ds_wal d) i (ds_recovery_status d).

(** The constructor. *)
Definition DurableStorage_new (data_dir : bytes) (s : Sys) : option (DurableStorage * Sys) :=
  '(w, s) ← WalWriter_new data_dir s;
  '(st, kv, last, s) ← RecoverFromWal data_dir kv_new s;
  Some (mkDurableStorage data_dir kv w last st, s).

Definition DurableStorage_Open (data_dir : bytes) (s : Sys) : option (Result DurableStorage * Sys) :=
  '(storage, s) ← DurableStorage_new data_dir s;
  if negb (Status_ok (ds_recovery_status storage))
  then Some (Failed (ds_recovery_status storage), s)
  else Some (Value storage, s).

Definition EmptyValue : Status :=
  Status_Error ErrorCode.kInvalidArgument (str "SET requires a non-empty value").

Definition DurableStorage_Set (key value : bytes) (d : DurableStorage) (s : Sys)
    : option (Status * DurableStorage * Sys) :=
  if is_empty key then Some (EmptyKey, d, s)
  else if is_empty value then Some (EmptyValue, d, s)
  else
    let record := mkWalRecord 0 0 WalOp.kSet key value in
    let '(appended, w, s) := Append record (ds_wal d) s in
    let d := set_ds_wal w d in
    match appended with
    | Failed st => Some (st, d, s)
    | Value index =>
        '(status, w, s) ← Sync index (ds_wal d) s;
        let d := set_ds_wal w d in
        if negb (Status_ok status) then Some (status, d, s)
        else if ds_last_applied_index d =? u64 (index - 1) then
          let '(set_status, kv) := kv_Set key value (ds_kv d) in
          Some (set_status, set_ds_applied kv index d, s)
        else None
    end.

Definition DurableStorage_Get (key : bytes) (d : DurableStorage) : Result bytes :=
  kv_Get key (ds_kv d).

Definition DurableStorage_Delete (key : bytes) (d : DurableStorage) (s : Sys)
    : option (Status * DurableStorage * Sys) :=
  if is_empty key then Some (EmptyKey, d, s)
  else
    let record := mkWalRecord 0 0 WalOp.kDelete key [] in
    let '(appended, w, s) := Append record (ds_wal d) s in
    let d := set_ds_wal w d in
    match appended with
    | Failed st => Some (st, d, s)
    | Value index =>
        '(status, w, s) ← Sync index (ds_wal d) s;
        let d := set_ds_wal w d in
        if negb (Status_ok status) then Some (status, d, s)
        else if ds_last_applied_index d =? u64 (index - 1) then
          let '(delete_status, kv) := kv_Delete key (ds_kv d) in
          Some (delete_status, set_ds_applied kv index d, s)
        else None
    end.

Definition ApplyCommitted (record : WalRecord) (d : DurableStorage) : DurableStorage :=
  let kv :=
    match wr_op record with
    | WalOp.kSet => (kv_Set (wr_key record) (wr_value record) (ds_kv d)).2
    | WalOp.kDelete => (kv_Delete (wr_key record) (ds_kv d)).2
    end in
  set_ds_applied kv (wr_index record) d.

End Storage.

Arguments DurableStorage T : clear implicits.

(** ** What a log means *)

Definition spec_apply (m : kvmap) (r : WalRecord) : kvmap :=
  match wr_op r with
  | WalOp.kSet => (spec_Set (wr_key r) (wr_value r) m).2
  | WalOp.kDelete => (spec_Delete (wr_key r) m).2
  end.

(** The map a sequence of records leaves behind. *)
Definition replay (rs : list WalRecord) : kvmap := foldl spec_apply ∅ rs.

Lemma replay_snoc rs r : replay (rs ++ [r]) = spec_apply (replay rs) r.
Proof. unfold replay. by rewrite foldl_snoc. Qed.

(** ** Cutting a log at any byte *)

Lemma encode_wal_torn r pre suf :
  wal_valid r -> encode_wal r = pre ++ suf -> suf <> [] -> torn_tail pre.
Proof.
  intros Hr E Hs. right. exists (raw_of r), suf. split; [by apply raw_of_valid|].
  split; [by rewrite <- encode_wal_raw|done].
Qed.

(** A prefix of a log is some of its records and a torn tail; it holds all the records
    whose bytes it covers. *)
Lemma log_prefix_cut rs b n :
  Forall wal_valid rs -> b `prefix_of` encode_log rs -> encode_log (take n rs) `prefix_of` b ->
  (n <= length rs)%nat ->
  exists k t, b = encode_log (take k rs) ++ t /\ torn_tail t /\ (n <= k <= length rs)%nat.
Proof.
  intros Hrs. revert b n. induction Hrs as [|r rs Hr Hrs IH]; intros b n Hb Hn Hle.
  - cbn in Hle. apply prefix_nil_inv in Hb as ->. exists 0%nat, []. split; [done|].
    split; [by left|]. cbn. lia.
  - change (r :: rs) with ([r] ++ rs) in Hb. rewrite encode_log_app, encode_log_single in Hb.
    destruct Hb as [suf Hb]. symmetry in Hb.
    apply app_eq_inv in Hb as [(k & -> & Hk)|(k & Hk & ->)].
    + destruct n as [|n].
      * destruct (IH k 0%nat) as (j & t & -> & Ht & Hj); [by exists suf|apply prefix_nil|lia|].
        exists (S j), t. split; [|split; [done|cbn; lia]].
        cbn [take]. change (r :: take j rs) with ([r] ++ take j rs).
        by rewrite encode_log_app, encode_log_single, <- app_assoc.
      * cbn [take] in Hn. change (r :: take n rs) with ([r] ++ take n rs) in Hn.
        rewrite encode_log_app, encode_log_single in Hn. apply prefix_app_inv in Hn.
        destruct (IH k n) as (j & t & -> & Ht & Hj); [by exists suf|done|cbn in Hle; lia|].
        exists (S j), t. split; [|split; [done|cbn; lia]].
        cbn [take]. change (r :: take j rs) with ([r] ++ take j rs).
        by rewrite encode_log_app, encode_log_single, <- app_assoc.
    + destruct (decide (k = [])) as [->|Hne].
      * rewrite app_nil_r in Hk. subst b. exists 1%nat, []. cbn [take].
        rewrite encode_log_single, app_nil_r. split; [done|]. split; [by left|].
        split; [|cbn; lia]. destruct n as [|[|n]]; [lia..|]. exfalso.
        apply prefix_length in Hn. cbn in Hle. destruct rs as [|r2 rs]; [cbn in Hle; lia|].
        cbn [take] in Hn. change (r :: r2 :: take n rs) with ([r] ++ [r2] ++ take n rs) in Hn.
        rewrite !encode_log_app, !encode_log_single, !length_app in Hn.
        pose proof (zlen_encode_wal r2). unfold zlen in *. lia.
      * exists 0%nat, b. split; [done|]. split; [by eapply encode_wal_torn|].
        split; [|lia]. destruct n as [|n]; [lia|]. exfalso. apply prefix_length in Hn.
        cbn [take] in Hn. change (r :: take n rs) with ([r] ++ take n rs) in Hn.
        rewrite encode_log_app, encode_log_single, Hk, !length_app in Hn.
        destruct k; [done|cbn in Hn; lia].
Qed.

(** Every call of an opening succeeds. *)
Record sys_quiet (s : Sys) : Prop := {
  sq_mkdir : mkdir_ok (sys_mkdir s);
  sq_open : Forall (fun a => match a with OpenFd fd => 0 <= fd | OpenErr _ => False end) (sys_open s);
  sq_lseek : Forall (eq None) (sys_lseek s);
  sq_scans : Forall reads_ok (sys_scans s)
}.

Lemma sys_quiet_opens s : sys_quiet s -> opens_ok s.
Proof.
  intros [Hm Ho Hl Hs]. split; [done|..].
  - unfold next_open. destruct (sys_open s) as [|[fd|e] l]; cbn.
    + exists 3. split; [lia|done].
    + apply Forall_cons in Ho as [? _]. by exists fd.
    + apply Forall_cons in Ho as [[] _].
  - destruct (sys_lseek s) as [|a l]; [done|]. by apply Forall_cons in Hl as [<- _].
  - unfold take_scan. destruct (sys_scans s) as [|a l]; [constructor|]. by apply Forall_cons in Hs as [? _].
Qed.

Section StorageProofs.
Context `{Libc} {T : Type} `{KvLaws T}.
Implicit Types (kv : T) (d : DurableStorage T) (sys : Sys).

Lemma apply_record_spec kv r :
  kv_inv kv -> kv_inv (apply_record kv r) /\ kv_map (apply_record kv r) = spec_apply (kv_map kv) r.
Proof.
  intros Hi. unfold apply_record, spec_apply. destruct (wr_op r).
  - split; [by apply kv_Set_inv|]. by rewrite <- kv_Set_map.
  - split; [by apply kv_Delete_inv|]. by rewrite <- kv_Delete_map.
Qed.

Lemma replay_steps kv i rs :
  kv_inv kv -> exists kv', foldl replay_step (kv, i) rs = (kv', foldl (fun _ r => wr_index r) i rs) /\
    kv_inv kv' /\ kv_map kv' = foldl spec_apply (kv_map kv) rs.
Proof.
  revert kv i. induction rs as [|r rs IH]; intros kv i Hi; cbn [foldl]; [by exists kv|].
  destruct (apply_record_spec kv r Hi) as [Hi' Hm].
  destruct (IH (apply_record kv r) (wr_index r) Hi') as (kv' & E & Hk & Hmap).
  exists kv'. unfold replay_step at 2. cbn [fst snd]. rewrite E. split; [done|]. split; [done|].
  by rewrite Hmap, Hm.
Qed.

(** Opening a log of valid records, possibly torn at its end, replays exactly them. *)
Lemma Open_spec dir rs t sys :
  sys_quiet sys -> Forall wal_valid rs -> log_indexed rs -> torn_tail t ->
  f_data (sys_file sys) = encode_log rs ++ t ->
  exists d sys', DurableStorage_Open dir sys = Some (Value d, sys') /\
    kv_inv (ds_kv d) /\ kv_map (ds_kv d) = replay rs /\ ds_last_applied_index d = zlen rs /\
    sys_wal sys' = Some (sys_file sys) /\ sys_write sys' = sys_write sys /\
    sys_fsync sys' = sys_fsync sys /\
    open_status_ (ds_wal d) = Status_Ok /\ last_index_ (ds_wal d) = zlen rs /\
    synced_index_ (ds_wal d) = zlen rs /\ flush_in_progress_ (ds_wal d) = false.
Proof.
  intros Hq Hval Hidx Ht Hdata.
  destruct (WalWriter_new_spec dir rs t sys) as (w & s1 & Ew & Hf & Ho & Hl & Hs & Hfl & _ & Hw & Hfs & Hsc & Hop);
    [by apply sys_quiet_opens|done..|].
  unfold DurableStorage_Open, DurableStorage_new. rewrite Ew. cbn [mbind option_bind].
  unfold RecoverFromWal, open_read.
  assert (Hnext : exists fd, next_open s1 = (OpenFd fd, set_sys_open (sys_open (next_open s1).2) s1)).
  { destruct Hq as [_ Hq _ _]. unfold next_open in *. rewrite Hop.
    destruct (sys_open sys) as [|a l] eqn:El; cbn; rewrite ?El.
    - exists 3. by destruct s1; cbn in *; subst.
    - apply Forall_cons in Hq as [_ Hq]. destruct l as [|[fd|e] l]; cbn.
      + exists 3. by destruct s1; cbn in *; subst.
      + by exists fd.
      + by apply Forall_cons in Hq as [[] _]. }
  destruct Hnext as (fd & ->). cbn [sys_wal set_sys_open]. rewrite Hf.
  set (s2 := set_sys_open _ s1).
  assert (Hscan : reads_ok (take_scan s2).1 /\ sys_wal (take_scan s2).2 = sys_wal s1 /\
     sys_write (take_scan s2).2 = sys_write s1 /\ sys_fsync (take_scan s2).2 = sys_fsync s1).
  { destruct Hq as [_ _ _ Hq]. unfold s2, take_scan in *. cbn [sys_scans set_sys_open].
    rewrite Hsc. destruct (sys_scans sys) as [|a l] eqn:El; cbn; rewrite ?El; [by repeat constructor|].
    apply Forall_cons in Hq as [_ Hq]. destruct l as [|a2 l]; cbn; [by repeat constructor|].
    by apply Forall_cons in Hq as [? _]. }
  destruct (take_scan s2) as [reads s3]. cbn [fst snd] in Hscan. destruct Hscan as (Hr & Hf3 & Hw3 & Hfs3).
  assert (sys_file s3 = sys_file sys) as -> by (unfold sys_file at 1; by rewrite Hf3, Hf).
  rewrite Hdata, (read_wal_log _ rs t) by done.
  destruct (replay_steps kv_new 0 rs kv_new_inv) as (kv & -> & Hk & Hm).
  rewrite kv_new_map in Hm. rewrite foldl_last_index. fold (last_record_index rs).
  rewrite log_indexed_last by done. cbn.
  eexists _, _. split; [done|]. cbn. rewrite Hf3, Hw3, Hfs3. by rewrite Hw, Hfs, Hf.
Qed.

(** ** The invariant of a healthy store *)

Record ds_inv (rs : list WalRecord) (d : DurableStorage T) (s : Sys) : Prop := {
  di_wal : wal_state rs (zlen rs) (ds_wal d) s;
  di_kv : kv_inv (ds_kv d);
  di_map : kv_map (ds_kv d) = replay rs;
  di_applied : ds_last_applied_index d = zlen rs
}.

(** A write: the shared shape of Set and Delete after their argument checks. *)
Definition ds_write (record : WalRecord) (apply : T -> Status * T) d sys : option (Status * DurableStorage T * Sys) :=
  let '(appended, w, s) := Append record (ds_wal d) sys in
  let d := set_ds_wal w d in
  match appended with
  | Failed st => Some (st, d, s)
  | Value index =>
      '(status, w, s) ← Sync index (ds_wal d) s;
      let d := set_ds_wal w d in
      if negb (Status_ok status) then Some (status, d, s)
      else if ds_last_applied_index d =? u64 (index - 1) then
        let '(st, kv) := apply (ds_kv d) in Some (st, set_ds_applied kv index d, s)
      else None
  end.

(** What a write leaves behind: the record appended, synced and applied; or an error,
    the store unchanged, and at most a part of the record after the log. *)
Lemma ds_write_spec rs r apply d sys :
  ds_inv rs d sys -> wal_valid (appended rs r) -> zlen rs + 1 < 2 ^ 64 ->
  (forall kv, kv_inv kv -> kv_inv (apply kv).2 /\ kv_map (apply kv).2 = spec_apply (kv_map kv) (appended rs r)) ->
  exists st d' sys', ds_write r apply d sys = Some (st, d', sys') /\
  ((st = (apply (ds_kv d)).1 /\ ds_inv (rs ++ [appended rs r]) d' sys' /\
      (exists f, sys_wal sys' = Some f /\ crash_file f = crash_file (file_on_disk (encode_log (rs ++ [appended rs r]))))) \/
   (code st = ErrorCode.kIOError /\ ds_kv d' = ds_kv d /\ ds_last_applied_index d' = zlen rs /\
      exists data, sys_wal sys' = Some data /\ f_past data = [] /\
        encode_log rs `prefix_of` f_durable data /\
        f_data data `prefix_of` encode_log (rs ++ [appended rs r]))).
Proof.
  intros [Hw Hk Hm Ha] Hv Hlt Happly. unfold ds_write.
  assert (Hall : ztake (zlen rs) rs = rs) by (unfold ztake, zlen; by rewrite Nat2Z.id, firstn_all).
  destruct (Append r (ds_wal d) sys) as [[res w1] s1] eqn:E1.
  destruct (Append_spec _ _ _ _ _ _ _ _ Hw Hv Hlt E1)
    as [[-> Hw1]|(st & written & left_ & script & durable & -> & Hst & -> & Henc & Hne & Hf & ->)].
  - cbn [ds_wal set_ds_wal]. destruct (Sync_spec _ _ _ _ (zlen rs + 1) _ Hw1 eq_refl)
      as [[Hle _]|[(_ & w2 & s2 & -> & Hw2 & Hf2 & _)|(_ & st & script & -> & Hst)]].
    + destruct Hw as [_ _ _ _ _ Hn _ _]. lia.
    + cbn [mbind option_bind]. rewrite Status_ok_Ok. cbn [negb ds_last_applied_index set_ds_wal].
      assert (u64 (zlen rs + 1 - 1) = zlen rs) as ->.
      { replace (zlen rs + 1 - 1) with (zlen rs) by lia. apply Z.mod_small.
        pose proof (zlen_nonneg rs). lia. }
      rewrite Ha, Z.eqb_refl. cbn [ds_kv set_ds_wal]. destruct (Happly _ Hk) as [Hk' Hm'].
      destruct (apply (ds_kv d)) as [st kv]. cbn [fst snd] in *.
      eexists _, _, _. split; [done|]. left. split; [done|]. split.
      * split; cbn [ds_wal ds_kv ds_last_applied_index set_ds_applied set_ds_wal]; [done|done|..].
        -- rewrite Hm', Hm. unfold replay. by rewrite foldl_snoc.
        -- zlen_lia.
      * eexists. split; [exact Hf2|done].
    + cbn [mbind option_bind]. replace (Status_ok st) with false by (unfold Status_ok; by rewrite Hst). cbn [negb]. eexists _, _, _. split; [done|]. right.
      split; [done|]. split; [done|]. split; [done|].
      destruct Hw1 as [_ _ _ _ _ _ _ (durable & Hf & Hd1 & Hd2)].
      eexists. cbn [sys_wal set_sys_fsync]. split; [done|]. cbn. split; [done|]. split; [|done].
      rewrite ztake_app_le, Hall in Hd1; [done|]. pose proof (zlen_nonneg rs). lia.
  - eexists _, _, _. split; [done|]. right. split; [done|]. split; [done|]. split; [done|].
    destruct Hw as [_ _ _ _ _ Hn _ (durable' & Hf' & Hd1 & Hd2)]. rewrite Hf in Hf'. injection Hf' as <-.
    eexists. cbn [sys_wal set_sys_wal]. split; [done|]. cbn. split; [done|]. rewrite Hall in Hd1. split; [done|].
    rewrite encode_log_app, encode_log_single, Henc. apply prefix_app. by exists left_.
Qed.

End StorageProofs.

(** ** Runs of the store *)

Inductive DOp :=
| DSet (key value : bytes)
| DDelete (key : bytes)
| DGet (key : bytes).

Definition ds_step `{Libc} `{KvOps T} (op : DOp) (d : DurableStorage T) (s : Sys)
    : option (KvAnswer * DurableStorage T * Sys) :=
  match op with
  | DSet k v => '(st, d, s) ← DurableStorage_Set k v d s; Some (AStatus st, d, s)
  | DDelete k => '(st, d, s) ← DurableStorage_Delete k d s; Some (AStatus st, d, s)
  | DGet k => Some (AValue (DurableStorage_Get k d), d, s)
  end.

(** The same operation on the map that specifies the store. *)
Definition spec_dstep (op : DOp) (m : kvmap) : KvAnswer * kvmap :=
  match op with
  | DSet k v =>
      if is_empty k then (AStatus EmptyKey, m)
      else if is_empty v then (AStatus EmptyValue, m)
      else (AStatus Status_Ok, <[k := v]> m)
  | DDelete k => let '(st, m) := spec_Delete k m in (AStatus st, m)
  | DGet k => (AValue (spec_Get k m), m)
  end.

Fixpoint spec_drun (ops : list DOp) (m : kvmap) : list KvAnswer * kvmap :=
  match ops with
  | [] => ([], m)
  | op :: ops =>
      let '(a, m) := spec_dstep op m in
      let '(answers, m) := spec_drun ops m in (a :: answers, m)
  end.

(** An answer that reports an I/O error. *)
Definition io_failed (a : KvAnswer) : bool :=
  match a with AStatus st => bool_decide (code st = ErrorCode.kIOError) | _ => false end.

(** A run up to its first I/O error. *)
Fixpoint ds_run `{Libc} `{KvOps T} (ops : list DOp) (d : DurableStorage T) (s : Sys)
    : option (list KvAnswer * DurableStorage T * Sys) :=
  match ops with
  | [] => Some ([], d, s)
  | op :: ops =>
      '(a, d, s) ← ds_step op d s;
      if io_failed a then Some ([a], d, s)
      else '(answers, d, s) ← ds_run ops d s; Some (a :: answers, d, s)
  end.

(** Keys and values within the limit the log reader enforces. *)
Definition op_fits (op : DOp) : Prop :=
  match op with
  | DSet k v => zlen k <= kMaxFieldSize /\ zlen v <= kMaxFieldSize
  | DDelete k => zlen k <= kMaxFieldSize
  | DGet _ => True
  end.

(** The file after a write that failed: every record of [rs] is durable, and what
    follows them is a part of the record of [op]. *)
Definition failed_write (rs : list WalRecord) (op : DOp) (s : Sys) : Prop :=
  exists f r, sys_wal s = Some f /\ f_past f = [] /\ encode_log rs `prefix_of` f_durable f /\
    f_data f `prefix_of` encode_log (rs ++ [r]) /\ Forall wal_valid (rs ++ [r]) /\
    log_indexed (rs ++ [r]) /\ spec_apply (replay rs) r = (spec_dstep op (replay rs)).2.

Section RunProofs.
Context `{Libc} {T : Type} `{KvLaws T}.
Implicit Types (kv : T) (d : DurableStorage T) (sys : Sys).

Lemma appended_valid rs op k v :
  zlen rs + 1 < 2 ^ 64 -> 0 < zlen k <= kMaxFieldSize -> zlen v <= kMaxFieldSize ->
  (op = WalOp.kSet -> v <> []) -> wal_valid (appended rs (mkWalRecord 0 0 op k v)).
Proof.
  intros. pose proof (zlen_nonneg rs). constructor; cbn; (done || lia).
Qed.

(** A write whose effect on the map is that of [op]. *)
Lemma ds_write_step rs op r apply d sys :
  ds_inv rs d sys -> wal_valid (appended rs r) -> zlen rs + 1 < 2 ^ 64 ->
  (forall kv, kv_inv kv -> kv_inv (apply kv).2 /\
     (AStatus (apply kv).1, kv_map (apply kv).2) = spec_dstep op (kv_map kv)) ->
  (forall m, spec_apply m (appended rs r) = (spec_dstep op m).2) ->
  io_failed (spec_dstep op (replay rs)).1 = false ->
  exists st d' sys', ds_write r apply d sys = Some (st, d', sys') /\
  ((io_failed (AStatus st) = false /\ AStatus st = (spec_dstep op (replay rs)).1 /\
      exists rs', ds_inv rs' d' sys' /\ replay rs' = (spec_dstep op (replay rs)).2 /\
        zlen rs <= zlen rs' <= zlen rs + 1) \/
   (io_failed (AStatus st) = true /\ ds_kv d' = ds_kv d /\ failed_write rs op sys')).
Proof.
  intros Hd Hv Hlt Happly Hspec Hio. pose proof Hd as [Hw Hk Hm Ha].
  destruct (ds_write_spec rs r apply d sys Hd Hv Hlt) as (st & d' & s' & E & Hcase).
  { intros kv Hi. destruct (Happly kv Hi) as [? E]. split; [done|]. by rewrite Hspec, <- E. }
  exists st, d', s'. split; [done|]. destruct Hcase as [(-> & Hd' & _)|(Hst & Hkv & _ & f & Hf & Hp & Hdur & Hdat)].
  - left. destruct (Happly _ Hk) as [_ E']. rewrite Hm in E'.
    assert (AStatus (apply (ds_kv d)).1 = (spec_dstep op (replay rs)).1) as Ea by (by rewrite <- E').
    split; [by rewrite Ea|]. split; [done|]. exists (rs ++ [appended rs r]). split; [done|].
    split; [|zlen_lia]. unfold replay. rewrite foldl_snoc. apply Hspec.
  - right. split; [by apply bool_decide_eq_true|]. split; [done|].
    destruct Hw as [_ Hval Hidx _ _ _ _ _].
    exists f, (appended rs r). split; [done|]. split; [done|]. split; [done|]. split; [done|].
    split; [apply Forall_app; split; [done|by constructor]|]. split; [by apply log_indexed_snoc|].
    apply Hspec.
Qed.

(** One operation: the specified answer and the invariant, or an I/O error. *)
Lemma ds_step_spec rs op d sys :
  ds_inv rs d sys -> op_fits op -> zlen rs + 1 < 2 ^ 64 ->
  exists a d' sys', ds_step op d sys = Some (a, d', sys') /\
  ((io_failed a = false /\ a = (spec_dstep op (replay rs)).1 /\
      exists rs', ds_inv rs' d' sys' /\ replay rs' = (spec_dstep op (replay rs)).2 /\
        zlen rs <= zlen rs' <= zlen rs + 1) \/
   (io_failed a = true /\ ds_kv d' = ds_kv d /\ failed_write rs op sys')).
Proof.
  intros Hd Hfit Hlt. pose proof Hd as [Hw Hk Hm Ha]. destruct op as [k v|k|k]; cbn [ds_step].
  - unfold DurableStorage_Set. destruct (is_empty k) eqn:Ek; [|destruct (is_empty v) eqn:Ev].
    + eexists _, _, _. split; [done|]. left. cbn. rewrite Ek. split; [done|]. split; [done|].
      exists rs. split; [done|]. split; [done|lia].
    + eexists _, _, _. split; [done|]. left. cbn. rewrite Ek, Ev. split; [done|]. split; [done|].
      exists rs. split; [done|]. split; [done|lia].
    + pose proof Ek as Ek'. apply is_empty_false in Ek'. destruct Hfit as [Hfk Hfv].
      destruct (ds_write_step rs (DSet k v) (mkWalRecord 0 0 WalOp.kSet k v) (kv_Set k v) d sys Hd)
        as (st & d' & s' & E & Hcase); [..|exists (AStatus st), d', s'].
      * apply appended_valid; [done..|]. intros _ ->. done.
      * done.
      * intros kv Hi. split; [by apply kv_Set_inv|]. pose proof (kv_Set_map k v kv Hi) as E.
        unfold spec_Set in E. cbn [spec_dstep]. rewrite Ek in *. rewrite Ev. by injection E as -> ->.
      * intros m. unfold spec_apply, spec_Set. cbn. by rewrite Ek, Ev.
      * cbn. by rewrite Ek, Ev.
      * unfold ds_write in E. rewrite E. by split.
  - unfold DurableStorage_Delete. destruct (is_empty k) eqn:Ek.
    + eexists _, _, _. split; [done|]. left. cbn. unfold spec_Delete. rewrite Ek.
      split; [done|]. split; [done|]. exists rs. split; [done|]. split; [done|lia].
    + pose proof Ek as Ek'. apply is_empty_false in Ek'. cbn in Hfit.
      destruct (ds_write_step rs (DDelete k) (mkWalRecord 0 0 WalOp.kDelete k []) (kv_Delete k) d sys Hd)
        as (st & d' & s' & E & Hcase); [..|exists (AStatus st), d', s'].
      * apply appended_valid; [done|done|rewrite zlen_nil; unfold kMaxFieldSize; lia|done].
      * done.
      * intros kv Hi. split; [by apply kv_Delete_inv|]. pose proof (kv_Delete_map k kv Hi) as E.
        cbn [spec_dstep]. by rewrite <- E.
      * intros m. unfold spec_apply. cbn. by destruct (spec_Delete k m).
      * cbn. unfold spec_Delete. rewrite Ek. by destruct (replay rs !! k).
      * unfold ds_write in E. rewrite E. by split.
  - eexists _, _, _. split; [done|]. left. cbn. unfold DurableStorage_Get. rewrite kv_Get_map, Hm by done.
    split; [done|]. split; [done|]. exists rs. split; [done|]. split; [done|lia].
Qed.

(** A run: the specified answers, up to an I/O error if one occurs. *)
Lemma ds_run_spec ops rs d sys :
  ds_inv rs d sys -> Forall op_fits ops -> zlen rs + zlen ops < 2 ^ 64 ->
  exists answers d' sys', ds_run ops d sys = Some (answers, d', sys') /\
  exists n rs', kv_map (ds_kv d') = replay rs' /\
    (take n answers, replay rs') = spec_drun (take n ops) (replay rs) /\
    ((n = length ops /\ length answers = n /\ ds_inv rs' d' sys') \/
     (exists op a, ops !! n = Some op /\ answers = take n answers ++ [a] /\ io_failed a = true /\
        failed_write rs' op sys')).
Proof.
  intros Hd Hfit. revert rs d sys Hd.
  induction Hfit as [|op ops Hop Hfit IH]; intros rs d sys Hd Hlt; cbn [ds_run].
  - eexists _, _, _. split; [done|]. exists 0%nat, rs. split; [apply Hd|]. split; [done|]. by left.
  - autorewrite with zlen in Hlt. pose proof (zlen_nonneg ops).
    destruct (ds_step_spec rs op d sys Hd Hop) as (a & d1 & s1 & -> & Hcase); [lia|].
    cbn [mbind option_bind]. destruct Hcase as [(Hio & Ha & rs1 & Hd1 & Hr1 & Hl1)|(Hio & Hkv & Hf)]; rewrite Hio.
    + destruct (IH rs1 d1 s1 Hd1) as (answers & d' & s' & -> & n & rs' & Hm & Hans & Hcase); [lia|].
      cbn [mbind option_bind]. eexists _, _, _. split; [done|]. exists (S n), rs'. split; [done|].
      rewrite Hr1 in Hans. split.
      * cbn [take spec_drun]. rewrite Ha. destruct (spec_dstep op (replay rs)) as [a1 m1]. cbn [fst snd] in *.
        by rewrite <- Hans.
      * destruct Hcase as [(-> & Hlen & Hd')|(op' & a' & Hop' & Hlast & Hio' & Hf')].
        -- left. cbn. by rewrite Hlen.
        -- right. exists op', a'. cbn. split; [done|]. split; [by f_equal|]. done.
    + eexists _, _, _. split; [done|]. exists 0%nat, rs.
      split; [rewrite Hkv; apply Hd|]. split; [done|]. right. by exists op, a.
Qed.

(** Opening a healthy log gives a healthy store. *)
Lemma Open_inv dir rs sys :
  sys_quiet sys -> sys_wal sys = Some (file_on_disk (encode_log rs)) ->
  Forall wal_valid rs -> log_indexed rs ->
  exists d sys', DurableStorage_Open dir sys = Some (Value d, sys') /\ ds_inv rs d sys'.
Proof.
  intros Hq Hf Hval Hidx.
  destruct (Open_spec dir rs [] sys Hq Hval Hidx) as (d & s' & E & Hk & Hm & Ha & Hw & _ & _ & Ho & Hl & Hs & Hfl).
  { by left. }
  { unfold sys_file. by rewrite Hf, app_nil_r. }
  exists d, s'. split; [done|]. split; [|done..].
  constructor; try done; [pose proof (zlen_nonneg rs); lia|].
  exists (encode_log rs). rewrite Hw. unfold sys_file. rewrite Hf. split; [done|].
  unfold ztake, zlen. by rewrite Nat2Z.id, firstn_all.
Qed.

(** A crash of a healthy store loses nothing. *)
Lemma crash_healthy rs d sys b :
  ds_inv rs d sys -> crash_file (sys_file sys) b -> b = encode_log rs.
Proof.
  intros [[_ _ _ _ _ _ _ (durable & Hf & Hd1 & Hd2)] _ _ _].
  unfold ztake, zlen in Hd1. rewrite Nat2Z.id, firstn_all in Hd1.
  unfold sys_file. rewrite Hf. intros (x & y & Hin & Hx & Hy). cbn in Hin.
  apply list_elem_of_singleton in Hin as [= -> ->].
  apply (anti_symm prefix); [done|]. by transitivity durable.
Qed.

(** A crash after a failed write leaves the acknowledged records, and perhaps the one
    of the failed write. *)
Lemma crash_failed rs op sys b :
  failed_write rs op sys -> crash_file (sys_file sys) b ->
  exists rs' t, b = encode_log rs' ++ t /\ torn_tail t /\ Forall wal_valid rs' /\ log_indexed rs' /\
    (replay rs' = replay rs \/ replay rs' = (spec_dstep op (replay rs)).2).
Proof.
  intros (f & r & Hf & Hp & Hdur & Hdat & Hval & Hidx & Hspec). unfold sys_file. rewrite Hf.
  intros (x & y & Hin & Hx & Hy). cbn in Hin. rewrite Hp in Hin.
  apply list_elem_of_singleton in Hin as [= -> ->].
  destruct (log_prefix_cut (rs ++ [r]) b (length rs)) as (k & t & -> & Ht & Hk); [done|..].
  - by transitivity (f_data f).
  - rewrite take_app_length. by transitivity (f_durable f).
  - rewrite length_app. lia.
  - exists (take k (rs ++ [r])), t. split; [done|]. split; [done|].
    split; [by apply Forall_take|]. split.
    { intros i x Hx'. apply lookup_take_Some in Hx' as [Hx' _]. by apply Hidx. }
    rewrite length_app in Hk. cbn in Hk.
    destruct (decide (k = length rs)) as [->|Hne].
    + left. by rewrite take_app_length.
    + right. rewrite take_ge by (rewrite length_app; cbn; lia).
      unfold replay. by rewrite foldl_snoc.
Qed.

(** C10: acknowledged writes survive a crash. Open a store on a log that ends with a whole
    record and run any Set, Get and Delete calls on it, up to the first that reports an I/O
    error, under any short or interrupted reads and writes. Every answer before the error is
    that of one map (the replay of the log), and the memory holds that map. Crash then, at
    any byte the unsynced data allow, and open again: the recovered map is the map before
    the crash, or, if the run ended in an I/O error, perhaps that map with the one failed
    operation applied. Nothing acknowledged is lost and nothing else appears. (A log with a
    torn tail is not truncated when it is opened, and writes acknowledged after that are
    lost: [torn_tail_loses_later_writes].) *)
Theorem acked_writes_survive_crash (dir : bytes) (rs : list WalRecord) (sys : Sys) (ops : list DOp) :
  sys_quiet sys -> sys_wal sys = Some (file_on_disk (encode_log rs)) ->
  Forall wal_valid rs -> log_indexed rs -> Forall op_fits ops -> zlen rs + zlen ops < 2 ^ 64 ->
  exists d1 sys1 answers d sys' n,
    DurableStorage_Open (T := T) dir sys = Some (Value d1, sys1) /\
    ds_run ops d1 sys1 = Some (answers, d, sys') /\
    (take n answers, kv_map (ds_kv d)) = spec_drun (take n ops) (replay rs) /\
    ((n = length ops /\ length answers = n) \/ exists a, answers = take n answers ++ [a] /\ io_failed a = true) /\
    forall b sys2, crash_file (sys_file sys') b -> sys_quiet sys2 -> sys_wal sys2 = Some (file_on_disk b) ->
      exists d2 sys2', DurableStorage_Open (T := T) dir sys2 = Some (Value d2, sys2') /\
        (kv_map (ds_kv d2) = kv_map (ds_kv d) \/
         exists op, ops !! n = Some op /\ kv_map (ds_kv d2) = (spec_dstep op (kv_map (ds_kv d))).2).
Proof.
  intros Hq Hf Hval Hidx Hfit Hlt.
  destruct (Open_inv dir rs sys Hq Hf Hval Hidx) as (d1 & sys1 & Eo & Hd1).
  destruct (ds_run_spec ops rs d1 sys1 Hd1 Hfit Hlt) as (answers & d & sys' & Er & n & rs' & Hm & Hans & Hcase).
  exists d1, sys1, answers, d, sys', n. split; [done|]. split; [done|]. rewrite Hm. split; [done|].
  split; [destruct Hcase as [(? & ? & _)|(? & a & _ & ? & ? & _)]; [by left|right; by exists a]|].
  intros b sys2 Hcrash Hq2 Hf2.
  assert (Hcut : exists rs2 t, b = encode_log rs2 ++ t /\ torn_tail t /\ Forall wal_valid rs2 /\ log_indexed rs2 /\
    (replay rs2 = replay rs' \/ exists op, ops !! n = Some op /\ replay rs2 = (spec_dstep op (replay rs')).2)).
  { destruct Hcase as [(_ & _ & Hd)|(op & a & Hop & _ & _ & Hfail)].
    - exists rs', []. rewrite (crash_healthy _ _ _ _ Hd Hcrash), app_nil_r.
      destruct Hd as [[_ Hv Hx _ _ _ _ _] _ _ _]. split; [done|]. split; [by left|]. auto.
    - destruct (crash_failed _ _ _ _ Hfail Hcrash) as (rs2 & t & ? & ? & ? & ? & Hor).
      exists rs2, t. split; [done|]. split; [done|]. split; [done|]. split; [done|].
      destruct Hor as [Hor|Hor]; [by left|right]. by exists op. }
  destruct Hcut as (rs2 & t & -> & Ht & Hv2 & Hx2 & Hor).
  destruct (Open_spec dir rs2 t sys2 Hq2 Hv2 Hx2 Ht) as (d2 & sys2' & E2 & _ & Hm2 & _).
  { unfold sys_file. by rewrite Hf2. }
  exists d2, sys2'. split; [done|]. by rewrite Hm2.
Qed.

(** ** A disk whose calls succeed *)

Definition disk_ok (s : Sys) : Prop := writes_ok (sys_write s) /\ Forall (eq None) (sys_fsync s).

Lemma fsync_next_ok s : Forall (eq None) (sys_fsync s) ->
  exists script, next_answer (sys_fsync s) = (None, script) /\ Forall (eq None) script.
Proof.
  intros Hf. destruct (sys_fsync s) as [|a l]; [by exists []|]. apply Forall_cons in Hf as [<- Hf]. by exists l.
Qed.

Lemma ds_write_ok rs r apply d sys :
  ds_inv rs d sys -> wal_valid (appended rs r) -> zlen rs + 1 < 2 ^ 64 -> disk_ok sys ->
  exists d' sys', ds_write r apply d sys = Some ((apply (ds_kv d)).1, d', sys') /\ disk_ok sys'.
Proof.
  intros [Hst _ _ Ha] Hv Hlt [Hw Hf]. unfold ds_write. pose proof (zlen_nonneg rs).
  edestruct (Append_ok rs) as (w1 & s1 & -> & Hst1 & Hw1 & Hf1); [done..|]. cbn [ds_wal set_ds_wal].
  destruct (fsync_next_ok s1) as (script & Hn & Hsc); [by rewrite Hf1|].
  destruct (Sync_succeeds _ _ w1 s1 (zlen rs + 1) script Hst1) as (w2 & s2 & -> & _ & _ & Hw2 & Hf2); [lia|done|].
  cbn [mbind option_bind]. rewrite Status_ok_Ok. cbn [negb ds_last_applied_index set_ds_wal]. rewrite Ha.
  unfold u64. rewrite Z.mod_small by lia. replace (zlen rs =? zlen rs + 1 - 1) with true by lia.
  cbn [ds_kv set_ds_wal]. destruct (apply (ds_kv d)) as [st kv]. eexists _, _. split; [done|].
  split; [by rewrite Hw2|by rewrite Hf2].
Qed.

(** One operation on a healthy disk: the specified answer, and everything stays healthy. *)
Lemma ds_step_ok rs op d sys :
  ds_inv rs d sys -> op_fits op -> zlen rs + 1 < 2 ^ 64 -> disk_ok sys ->
  exists d' sys' rs', ds_step op d sys = Some ((spec_dstep op (replay rs)).1, d', sys') /\
    ds_inv rs' d' sys' /\ replay rs' = (spec_dstep op (replay rs)).2 /\ zlen rs <= zlen rs' <= zlen rs + 1 /\
    disk_ok sys'.
Proof.
  intros Hd Hfit Hlt Hdisk. pose proof Hd as [_ Hk Hm _].
  destruct (ds_step_spec rs op d sys Hd Hfit Hlt) as (a & d' & sys' & E & Hcase).
  enough (Hok : io_failed a = false /\ disk_ok sys').
  { destruct Hok as [Hio Hok]. destruct Hcase as [(_ & -> & rs' & Hd' & Hr & Hl)|(Hio' & _)]; [|congruence].
    by exists d', sys', rs'. }
  assert (Hset : forall k v, io_failed (AStatus (kv_Set k v (ds_kv d)).1) = false).
  { intros k v. pose proof (kv_Set_map k v (ds_kv d) Hk) as Es. unfold spec_Set in Es.
    destruct (is_empty k); injection Es as -> _; done. }
  assert (Hdel : forall k, io_failed (AStatus (kv_Delete k (ds_kv d)).1) = false).
  { intros k. pose proof (kv_Delete_map k (ds_kv d) Hk) as Es. unfold spec_Delete in Es.
    destruct (is_empty k); [injection Es as -> _; done|]. destruct (_ !! k); injection Es as -> _; done. }
  destruct op as [k v|k|k]; cbn [ds_step] in E.
  - unfold DurableStorage_Set in E. destruct (is_empty k) eqn:Ek; [by injection E as <- <- <-|].
    destruct (is_empty v) eqn:Ev; [by injection E as <- <- <-|]. apply is_empty_false in Ek. destruct Hfit as [Hfk Hfv].
    destruct (ds_write_ok rs (mkWalRecord 0 0 WalOp.kSet k v) (kv_Set k v) d sys) as (d1 & s1 & E1 & Hok); [done| |done..|].
    { apply appended_valid; [done..|]. by intros _ ->. }
    unfold ds_write in E1. rewrite E1 in E. injection E as <- <- <-. by split.
  - unfold DurableStorage_Delete in E. destruct (is_empty k) eqn:Ek; [by injection E as <- <- <-|].
    apply is_empty_false in Ek. cbn in Hfit.
    destruct (ds_write_ok rs (mkWalRecord 0 0 WalOp.kDelete k []) (kv_Delete k) d sys) as (d1 & s1 & E1 & Hok);
      [done| |done..|].
    { apply appended_valid; [done|done|rewrite zlen_nil; unfold kMaxFieldSize; lia|done]. }
    unfold ds_write in E1. rewrite E1 in E. injection E as <- <- <-. by split.
  - by injection E as <- <- <-.
Qed.

(** A store whose next write returns: no flush is under way, everything logged is applied,
    and the disk is healthy. Nothing bounds the length of the log here: indices that wrap
    around do not make a single writer wait. *)
Record store_live (d : DurableStorage T) (s : Sys) : Prop := {
  sl_flush : flush_in_progress_ (ds_wal d) = false;
  sl_applied : ds_last_applied_index d = last_index_ (ds_wal d);
  sl_index : is_u64 (last_index_ (ds_wal d));
  sl_disk : disk_ok s
}.

Lemma ds_inv_live rs d sys : ds_inv rs d sys -> zlen rs < 2 ^ 64 -> disk_ok sys -> store_live d sys.
Proof.
  intros [[_ _ _ Hl _ _ Hf _] _ _ Ha] Hlt Hok. constructor; [done|congruence| |done]. rewrite Hl.
  split; [apply zlen_nonneg|done].
Qed.

(** [Sync] by a thread that is alone with a healthy disk. *)
Lemma Sync_live i w s :
  flush_in_progress_ w = false -> Status_ok (open_status_ w) = true -> disk_ok s ->
  exists w' s', Sync i w s = Some (Status_Ok, w', s') /\ flush_in_progress_ w' = false /\ last_index_ w' = last_index_ w /\
    disk_ok s'.
Proof.
  intros Hf Ho [Hw Hs]. unfold Sync, Sync_entry. rewrite Ho, Hf. cbn [negb].
  destruct (i <=? synced_index_ w); [by exists w, s|]. unfold Sync_flush, FsyncNow.
  destruct (fsync_next_ok s Hs) as (script & -> & Hsc). rewrite Status_ok_Ok. cbn [negb].
  destruct (_ <=? _); eexists _, _; by (split; [done|]).
Qed.

Lemma ds_write_live r apply d s :
  store_live d s -> exists st d' s', ds_write r apply d s = Some (st, d', s') /\ store_live d' s'.
Proof.
  intros [Hf Ha Hi [Hw Hs]]. unfold ds_write, Append.
  destruct (Status_ok (open_status_ (ds_wal d))) eqn:Eo; cbn [negb]; [|by eexists _, _, _].
  destruct (WriteAll s _) as [st s1] eqn:E1. pose proof (WriteAll_spec _ _ _ _ E1) as (? & ? & ? & _ & Hs1 & _).
  apply WriteAll_ok in E1 as [-> Hw1]; [|done]. rewrite Status_ok_Ok. cbn [negb wr_index ds_wal set_ds_wal].
  match goal with |- context [Sync ?i ?w s1] => destruct (Sync_live i w s1) as (w2 & s2 & -> & Hf2 & Hl2 & Hok2) end;
    [done|done|split; [done|by rewrite Hs1]|].
  cbn [mbind option_bind]. rewrite Status_ok_Ok. cbn [negb ds_last_applied_index set_ds_wal last_index_ set_last_index] in *.
  assert (u64 (u64 (last_index_ (ds_wal d) + 1) - 1) = last_index_ (ds_wal d)) as ->.
  { unfold u64. rewrite Zminus_mod_idemp_l, Z.add_simpl_r. by apply Z.mod_small. }
  rewrite Ha, Z.eqb_refl. cbn [ds_kv set_ds_wal]. destruct (apply (ds_kv d)) as [st kv]. eexists _, _, _. split; [done|].
  constructor; cbn [ds_wal ds_last_applied_index set_ds_applied set_ds_wal]; [done|by rewrite Hl2| |done].
  rewrite Hl2. apply Z.mod_pos_bound. done.
Qed.

Lemma ds_step_live op d s :
  store_live d s -> exists a d' s', ds_step op d s = Some (a, d', s') /\ store_live d' s'.
Proof.
  intros Hl. destruct op as [k v|k|k]; cbn [ds_step]; [| |by eexists _, _, _].
  - unfold DurableStorage_Set. destruct (is_empty k); [by eexists _, _, _|]. destruct (is_empty v); [by eexists _, _, _|].
    destruct (ds_write_live (mkWalRecord 0 0 WalOp.kSet k v) (kv_Set k v) d s Hl) as (st & d' & s' & E & Hl').
    exists (AStatus st), d', s'. split; [|done]. unfold ds_write in E. by rewrite E.
  - unfold DurableStorage_Delete. destruct (is_empty k); [by eexists _, _, _|].
    destruct (ds_write_live (mkWalRecord 0 0 WalOp.kDelete k []) (kv_Delete k) d s Hl) as (st & d' & s' & E & Hl').
    exists (AStatus st), d', s'. split; [|done]. unfold ds_write in E. by rewrite E.
Qed.

(** One failed [fsync] blocks every later write. If the [fsync] of a Set fails and
    every later system call succeeds, the Set reports the error, but its record keeps its
    index and is never applied, so the next Set, although logged and synced, waits for
    [last_applied_index_ == index - 1] for ever. *)
Theorem failed_fsync_blocks_writers rs d sys (e : Z) (k v k2 v2 : bytes) :
  ds_inv rs d sys -> writes_ok (sys_write sys) -> sys_fsync sys = [Some e] -> zlen rs + 2 < 2 ^ 64 ->
  op_fits (DSet k v) -> k <> [] -> v <> [] -> op_fits (DSet k2 v2) -> k2 <> [] -> v2 <> [] ->
  exists st d' sys', DurableStorage_Set k v d sys = Some (st, d', sys') /\
    code st = ErrorCode.kIOError /\ DurableStorage_Set k2 v2 d' sys' = None.
Proof.
  intros [Hst _ _ Ha] Hw Hfs Hlt [Hk Hv] Hkn Hvn [Hk2 Hv2] Hkn2 Hvn2. pose proof (zlen_nonneg rs).
  assert (Hpos : forall x : bytes, x <> [] -> is_empty x = false /\ 0 < zlen x).
  { intros x Hx. assert (is_empty x = false) as Hn by (by destruct x). split; [done|]. by apply is_empty_false. }
  destruct (Hpos k Hkn) as [Hke ?], (Hpos v Hvn) as [Hve ?], (Hpos k2 Hkn2) as [Hk2e ?], (Hpos v2 Hvn2) as [Hv2e ?].
  unfold DurableStorage_Set. rewrite Hke, Hve, Hk2e, Hv2e.
  edestruct (Append_ok rs) as (w1 & s1 & -> & Hst1 & Hw1 & Hfs1); [exact Hst| | |done|];
    [apply appended_valid; (done || lia)|lia|].
  cbn [ds_wal set_ds_wal].
  rewrite (Sync_fails _ _ w1 s1 _ e []) by (done || lia || by rewrite Hfs1, Hfs).
  cbn [mbind option_bind]. rewrite IoError_not_ok. cbn [negb].
  eexists _, _, _. split; [done|]. split; [done|]. cbn [ds_wal set_ds_wal].
  apply (wal_state_frame _ _ _ _ (set_sys_fsync [] s1)) in Hst1; [|done].
  edestruct (Append_ok (rs ++ [appended rs (mkWalRecord 0 0 WalOp.kSet k v)]))
    as (w2 & s2 & E2 & Hst2 & Hw2 & Hfs2); [exact Hst1| | |done|rewrite E2];
    [apply appended_valid; (done || zlen_lia)|zlen_lia|].
  destruct (Sync_succeeds _ _ w2 s2 (zlen (rs ++ [appended rs (mkWalRecord 0 0 WalOp.kSet k v)]) + 1) [] Hst2)
    as (w3 & s3 & E3 & _); [zlen_lia|by rewrite Hfs2|rewrite E3].
  cbn [mbind option_bind]. rewrite Status_ok_Ok. cbn [negb ds_last_applied_index set_ds_wal]. rewrite Ha.
  autorewrite with zlen. unfold u64. rewrite Z.mod_small by lia.
  by replace (zlen rs =? zlen rs + (1 + 0) + 1 - 1) with false by lia.
Qed.

End RunProofs.

(** ** Concrete runs on the striped store *)

Definition example_hash : StdHash := {| std_hash := fun k => zlen k |}.
#[local] Existing Instance example_libc.
#[local] Existing Instance example_hash.

Definition example_r1 : WalRecord := mkWalRecord 0 1 WalOp.kSet (str "a") (str "1").
Definition example_r2 : WalRecord := mkWalRecord 0 2 WalOp.kSet (str "b") (str "2").

Definition disk_sys (b : bytes) : Sys := mkSys (Some (file_on_disk b)) [] [] [] [] [] [] [].

Lemma disk_sys_quiet b : sys_quiet (disk_sys b).
Proof. split; constructor. Qed.

Lemma example_log_valid : Forall wal_valid [example_r1] /\ log_indexed [example_r1].
Proof.
  split.
  - repeat constructor; vm_compute; done.
  - intros [|[|]]; cbn; intros r; [by intros [= <-]|done..].
Qed.

Lemma acked_writes_survive_crash_witness :
  exists (d1 : DurableStorage ShardedKV) sys1 answers d sys' n,
    DurableStorage_Open (str "d") (disk_sys (encode_log [example_r1])) = Some (Value d1, sys1) /\
    ds_run [DSet (str "b") (str "2"); DGet (str "a"); DDelete (str "a")] d1 sys1 = Some (answers, d, sys') /\
    (take n answers, kv_map (ds_kv d)) =
      spec_drun (take n [DSet (str "b") (str "2"); DGet (str "a"); DDelete (str "a")]) (replay [example_r1]).
Proof.
  destruct (acked_writes_survive_crash (T := ShardedKV) (str "d") [example_r1] (disk_sys (encode_log [example_r1]))
    [DSet (str "b") (str "2"); DGet (str "a"); DDelete (str "a")])
    as (d1 & s1 & answers & d & s' & n & Ho & Hr & Ha & _).
  - apply disk_sys_quiet.
  - reflexivity.
  - apply example_log_valid.
  - apply example_log_valid.
  - repeat constructor; vm_compute; discriminate.
  - vm_compute. reflexivity.
  - exists d1, s1, answers, d, s', n. split; [exact Ho|]. split; [exact Hr|exact Ha].
Defined.

(** A new store, on an empty log. *)
Definition fresh_store : DurableStorage ShardedKV :=
  mkDurableStorage (str "d") ShardedKV_new
    (mkWalWriter (str "d") 3 (str "d/wal/wal.log") 0 Status_Ok 0 false 0) 0 Status_Ok.

Definition fresh_disk (fsyncs : list (option Z)) : Sys :=
  mkSys (Some (file_on_disk [])) [] [] [] [] [] fsyncs [].

Lemma fresh_store_opened fsyncs :
  DurableStorage_Open (str "d") (fresh_disk fsyncs) = Some (Value fresh_store, fresh_disk fsyncs).
Proof. reflexivity. Qed.

Lemma fresh_store_inv fsyncs : ds_inv (T := ShardedKV) [] fresh_store (fresh_disk fsyncs).
Proof.
  split; [|exact (kv_new_inv (KvLaws := ShardedKV_laws))|exact (kv_new_map (KvLaws := ShardedKV_laws))|reflexivity].
  constructor; try done. exists []. split; [reflexivity|]. split; apply prefix_nil.
Qed.

Lemma failed_fsync_blocks_writers_witness :
  exists st d' sys', DurableStorage_Set (str "a") (str "1") fresh_store (fresh_disk [Some 5]) = Some (st, d', sys') /\
    code st = ErrorCode.kIOError /\ DurableStorage_Set (str "b") (str "2") d' sys' = None.
Proof.
  apply (failed_fsync_blocks_writers (T := ShardedKV) [] fresh_store (fresh_disk [Some 5]) 5).
  - apply fresh_store_inv.
  - constructor.
  - reflexivity.
  - vm_compute. reflexivity.
  - split; vm_compute; discriminate.
  - discriminate.
  - discriminate.
  - split; vm_compute; discriminate.
  - discriminate.
  - discriminate.
Defined.

(** What happens to a write acknowledged after a restart on a log whose last record was
    torn after [n] bytes: the answer to the Set, and what the next restart finds. *)
Definition write_after_torn_tail (n : nat) : option (Status * Result (Result bytes)) :=
  match DurableStorage_Open (T := ShardedKV) (str "d")
          (disk_sys (encode_log [example_r1] ++ take n (encode_wal example_r2))) with
  | Some (Value d, s) =>
      '(st, _, s) ← DurableStorage_Set (str "c") (str "3") d s;
      match DurableStorage_Open (T := ShardedKV) (str "d") (disk_sys (f_durable (sys_file s))) with
      | Some (Value d2, _) => Some (st, Value (DurableStorage_Get (str "c") d2))
      | Some (Failed e, _) => Some (st, Failed e)
      | None => None
      end
  | _ => None
  end.

(** A torn tail is left in place, and new records are appended after it. With one
    torn byte the next write is acknowledged and synced, and the restart after it
    succeeds without the key; with ten torn bytes the restart fails with a CRC error,
    so the store does not open again. Without a torn tail the write is found. *)
Theorem torn_tail_loses_later_writes :
  write_after_torn_tail 0 = Some (Status_Ok, Value (Value (str "3"))) /\
  write_after_torn_tail 1 = Some (Status_Ok, Value (Failed KeyNotFound)) /\
  write_after_torn_tail 10 = Some (Status_Ok, Failed (CorruptRecord "CRC mismatch")).
Proof. vm_compute. done. Qed.
