(* ===== verification/GroupCommit.v ===== *)
(** * Concurrent writers and group commit

    The interleavings of [DurableStorage::Set] and [DurableStorage::Delete]
    ([src/persistence/durable_storage.cpp]) on one store. A thread's step is what it
    does between acquiring a mutex and releasing it or waiting on a condition variable:
    the append, the entry of [WalWriter::Sync], the wake-ups of a follower and of the
    batch leader, the apply, and the notification after it. A thread that waits without a
    time limit is asleep until another thread notifies its condition variable or it wakes
    up spuriously; then it evaluates its predicate again. *)

From Stdlib Require Import Strings.String.
From S2P Require Import Prelude Common BigEndian Crc32 Os WalRecord ShardedKV WalWriter DurableStorage.

Inductive WOp :=
| WSet (key value : bytes)
| WDelete (key : bytes).

(** Where a thread is. The index is the one [Append] gave to its record. [awake]: the
    thread is about to lock the mutex and evaluate the predicate of its [wait]; otherwise
    it sleeps on the condition variable. *)
Inductive Pc :=
| PStart
| PAppended (index : Z)                (** appended, about to call [Sync] *)
| PFollow (index : Z) (awake : bool)   (** in [cv_->wait], for the leader's flush *)
| PLead (index observed : Z)           (** the batch leader, in [cv_->wait_until] *)
| PSynced (index : Z) (awake : bool)   (** in [apply_cv_->wait], for its turn to apply *)
| PNotify (index : Z) (answer : Status) (** applied, about to call [apply_cv_->notify_all] *)
| PApplied (index : Z) (answer : Status)
| PFailed (answer : Status).

(** The condition variable that a step notifies: [cv_] of the log or [apply_cv_]. *)
Inductive Wake := WakeNobody | WakeSync | WakeApply.

(** [notify_all]: everybody who sleeps on the condition variable wakes up. The leader needs
    no waking, its wait has a time limit. *)
Definition wake_pc (k : Wake) (pc : Pc) : Pc :=
  match k, pc with
  | WakeSync, PFollow index _ => PFollow index true
  | WakeApply, PSynced index _ => PSynced index true
  | _, _ => pc
  end.

Section GroupCommit.
Context `{Libc} {T : Type} `{KvOps T}.

Record Shared := mkShared { sh_store : DurableStorage T; sh_sys : Sys }.

Definition set_wal (w : WalWriter) (s : Sys) (sh : Shared) : Shared :=
  mkShared (set_ds_wal w (sh_store sh)) s.

(** The checks at the head of Set and Delete. *)
Definition check_args (op : WOp) : option Status :=
  match op with
  | WSet key value => if is_empty key then Some EmptyKey else if is_empty value then Some EmptyValue else None
  | WDelete key => if is_empty key then Some EmptyKey else None
  end.

Definition op_record (op : WOp) : WalRecord :=
  match op with
  | WSet key value => mkWalRecord 0 0 WalOp.kSet key value
  | WDelete key => mkWalRecord 0 0 WalOp.kDelete key []
  end.

Definition op_apply (op : WOp) : T -> Status * T :=
  match op with
  | WSet key value => kv_Set key value
  | WDelete key => kv_Delete key
  end.

(** The end of [Sync] for the leader: the flush, and [notify_all] whatever its result. *)
Definition flush (index : Z) (sh : Shared) : Pc * Shared * Wake :=
  let '(st, w, s) := Sync_flush index (ds_wal (sh_store sh)) (sh_sys sh) in
  ((if Status_ok st then PSynced index true else PFailed st), set_wal w s sh, WakeSync).

(** The leader at the head of its loop, the mutex held: wait for more appends, or
    leave the loop and flush. [deadline]: the time cap has passed. *)
Definition lead (deadline : bool) (index observed : Z) (sh : Shared) : Pc * Shared * Wake :=
  if Sync_batch_open (ds_wal (sh_store sh)) && negb deadline then (PLead index observed, sh, WakeNobody)
  else flush index sh.

Definition start_leading (deadline : bool) (index : Z) (sh : Shared) : Pc * Shared * Wake :=
  let w := ds_wal (sh_store sh) in
  let sh := set_wal (Sync_lead w) (sh_sys sh) sh in
  lead deadline index (last_index_ w) sh.

(** A follower finds its predicate false and goes to sleep. *)
Definition sync_next (deadline : bool) (index : Z) (next : SyncNext) (sh : Shared) : Pc * Shared * Wake :=
  match next with
  | SyncReturn st => ((if Status_ok st then PSynced index true else PFailed st), sh, WakeNobody)
  | SyncFollow => (PFollow index false, sh, WakeNobody)
  | SyncLead => start_leading deadline index sh
  end.

(** One step of a thread, with whom it notifies; [None]: it sleeps, or is done. *)
Definition thread_step (deadline : bool) (op : WOp) (pc : Pc) (sh : Shared) : option (Pc * Shared * Wake) :=
  let d := sh_store sh in
  let w := ds_wal d in
  match pc with
  | PStart =>
      match check_args op with
      | Some st => Some (PFailed st, sh, WakeNobody)
      | None =>
          let '(res, w, s) := Append (op_record op) w (sh_sys sh) in
          Some (match res with
                | Value index => (PAppended index, set_wal w s sh, WakeSync)
                | Failed st => (PFailed st, set_wal w s sh, WakeNobody)
                end)
      end
  | PAppended index => Some (sync_next deadline index (Sync_entry index w) sh)
  | PFollow index true =>
      if Sync_follow_ready index w
      then Some (sync_next deadline index (Sync_follow_done index w) sh)
      else Some (PFollow index false, sh, WakeNobody)
  | PLead index observed =>
      if Sync_quiet observed w then Some (flush index sh)
      else Some (lead deadline index (last_index_ w) sh)
  | PSynced index true =>
      if ds_last_applied_index d =? u64 (index - 1) then
        let '(st, kv) := op_apply op (ds_kv d) in
        Some (PNotify index st, mkShared (set_ds_applied kv index d) (sh_sys sh), WakeNobody)
      else Some (PSynced index false, sh, WakeNobody)
  | PNotify index st => Some (PApplied index st, sh, WakeApply)
  | PFollow _ false | PSynced _ false | PApplied _ _ | PFailed _ => None
  end.

(** The threads, each with its operation, and what they share. *)
Record Config := mkConfig { cf_threads : list (WOp * Pc); cf_shared : Shared }.

Definition wake_all (k : Wake) (threads : list (WOp * Pc)) : list (WOp * Pc) :=
  (fun '(op, pc) => (op, wake_pc k pc)) <$> threads.

(** What can happen next: thread [i] runs, or wakes up without having been notified. *)
Inductive Act := ARun (i : nat) (deadline : bool) | ASpurious (i : nat).

Definition gc_step (a : Act) (c : Config) : option Config :=
  match a with
  | ARun i deadline =>
      '(op, pc) ← cf_threads c !! i;
      '(pc, sh, k) ← thread_step deadline op pc (cf_shared c);
      Some (mkConfig (wake_all k (<[i := (op, pc)]> (cf_threads c))) sh)
  | ASpurious i =>
      match cf_threads c !! i with
      | Some (op, PFollow index false) =>
          Some (mkConfig (<[i := (op, PFollow index true)]> (cf_threads c)) (cf_shared c))
      | Some (op, PSynced index false) =>
          Some (mkConfig (<[i := (op, PSynced index true)]> (cf_threads c)) (cf_shared c))
      | _ => None
      end
  end.

(** A schedule; [None]: it runs a thread that cannot. *)
Fixpoint gc_run (acts : list Act) (c : Config) : option Config :=
  match acts with
  | [] => Some c
  | a :: acts => c ← gc_step a c; gc_run acts c
  end.

Definition start (ops : list WOp) (d : DurableStorage T) (s : Sys) : Config :=
  mkConfig ((fun op => (op, PStart)) <$> ops) (mkShared d s).

End GroupCommit.

Arguments Shared T : clear implicits.
Arguments Config T : clear implicits.

(** ** The invariant *)

Definition wop_fits (op : WOp) : Prop :=
  match op with
  | WSet key value => zlen key <= kMaxFieldSize /\ zlen value <= kMaxFieldSize
  | WDelete key => zlen key <= kMaxFieldSize
  end.

(** The operation on the map that specifies the store. *)
Definition spec_wop (op : WOp) (m : kvmap) : Status * kvmap :=
  match op with
  | WSet key value => spec_Set key value m
  | WDelete key => spec_Delete key m
  end.

(** The record of [op] at [index]. *)
Definition record_at (op : WOp) (index : Z) : WalRecord :=
  let r := op_record op in mkWalRecord 0 index (wr_op r) (wr_key r) (wr_value r).

Definition mine (rs : list WalRecord) (op : WOp) (index : Z) : Prop :=
  1 <= index /\ rs !! Z.to_nat (index - 1) = Some (record_at op index).

Definition pc_index (pc : Pc) : option Z :=
  match pc with
  | PAppended i | PFollow i _ | PLead i _ | PSynced i _ | PNotify i _ | PApplied i _ => Some i
  | PStart | PFailed _ => None
  end.

(** The operations of the threads [order], in this order, and their records in a log that
    has [n] records before them. *)
Definition ordered (ops : list WOp) (order : list nat) : list WOp := omap (fun i => ops !! i) order.
Definition log_of (n : Z) (ops : list WOp) : list WalRecord := imap (fun k op => record_at op (n + Z.of_nat k + 1)) ops.

Definition is_lead (pc : Pc) : bool := match pc with PLead _ _ => true | _ => false end.

(** What holds of a thread: its record is in the log at its index; it is not applied
    before it is synced; its answer is the one of the map its predecessors left. *)
Definition pc_ok (rs : list WalRecord) (synced applied : Z) (op : WOp) (pc : Pc) : Prop :=
  match pc with
  | PStart => True
  | PAppended i | PFollow i _ | PLead i _ => mine rs op i /\ applied < i
  | PSynced i _ => mine rs op i /\ applied < i /\ i <= synced
  | PNotify i st | PApplied i st => mine rs op i /\ i <= applied /\ st = (spec_wop op (replay (ztake (i - 1) rs))).1
  | PFailed st => Status_ok st = false
  end.

Section Invariant.
Context `{Libc} {T : Type} `{KvLaws T}.

Record shared_ok (rs : list WalRecord) (synced applied : Z) (flush : bool) (sh : Shared T) : Prop := {
  so_open : open_status_ (ds_wal (sh_store sh)) = Status_Ok;
  so_valid : Forall wal_valid rs;
  so_indexed : log_indexed rs;
  so_last : last_index_ (ds_wal (sh_store sh)) = zlen rs;
  so_synced : synced_index_ (ds_wal (sh_store sh)) = synced;
  so_order : 0 <= applied <= synced /\ synced <= zlen rs;
  so_flush : flush_in_progress_ (ds_wal (sh_store sh)) = flush;
  so_file : exists durable, sys_wal (sh_sys sh) = Some (mkFile (encode_log rs) durable []) /\
    encode_log (ztake synced rs) `prefix_of` durable /\ durable `prefix_of` encode_log rs;
  so_writes : writes_ok (sys_write (sh_sys sh));
  so_kv : kv_inv (ds_kv (sh_store sh));
  so_map : kv_map (ds_kv (sh_store sh)) = replay (ztake applied rs);
  so_applied : ds_last_applied_index (sh_store sh) = applied
}.

(** How one step of a thread moves the log, the synced and the applied index, and whom it
    notifies. *)
Record moves (rs rs' : list WalRecord) (synced synced' applied applied' : Z) (fl fl' : bool)
    (op : WOp) (pc pc' : Pc) (k : Wake) : Prop := {
  mv_log : (rs' = rs /\ is_Some (pc_index pc) /\ (pc_index pc' = pc_index pc \/ exists st, pc' = PFailed st)) \/
           (rs' = rs /\ pc = PStart /\ exists st, check_args op = Some st /\ pc' = PFailed st) \/
           (pc = PStart /\ check_args op = None /\ rs' = rs ++ [record_at op (zlen rs + 1)] /\ pc' = PAppended (zlen rs + 1));
  mv_started : pc' <> PStart;
  mv_synced : synced <= synced';
  mv_applied : applied' = applied \/
    (applied' = applied + 1 /\ pc = PSynced applied' true /\ exists st, pc' = PNotify applied' st);
  mv_flush : if is_lead pc' then fl' = true /\ (is_lead pc = true \/ fl = false)
             else fl' = if is_lead pc then false else fl;
  mv_wake : fl = true -> fl' = false -> k = WakeSync;
  mv_notify : forall i st, pc = PNotify i st -> k = WakeApply;
  mv_follow : forall i, pc' = PFollow i false -> fl' = true;
  mv_turn : forall i, pc' = PSynced i false -> i <> applied' + 1
}.

Lemma shared_ok_wal rs synced applied sh :
  shared_ok rs synced applied false sh ->
  wal_state rs synced (ds_wal (sh_store sh)) (sh_sys sh).
Proof. intros []. constructor; try done. lia. Qed.

Lemma shared_ok_set_flush rs synced applied fl fl' sh :
  shared_ok rs synced applied fl sh ->
  shared_ok rs synced applied fl' (set_wal (set_flush fl' (ds_wal (sh_store sh))) (sh_sys sh) sh).
Proof. intros []. by constructor. Qed.

(** No [fsync] will fail. *)
Definition fsyncs_ok (sh : Shared T) : Prop := Forall (eq None) (sys_fsync (sh_sys sh)).

(** The flush: it covers the whole log, or fails and changes nothing. *)
Lemma flush_spec rs synced applied fl index sh st w s :
  shared_ok rs synced applied fl sh -> index <= zlen rs ->
  Sync_flush index (ds_wal (sh_store sh)) (sh_sys sh) = (st, w, s) ->
  (st = Status_Ok /\ shared_ok rs (zlen rs) applied false (set_wal w s sh) /\
     (fsyncs_ok sh -> fsyncs_ok (set_wal w s sh))) \/
  (Status_ok st = false /\ shared_ok rs synced applied false (set_wal w s sh) /\ ~ fsyncs_ok sh).
Proof.
  intros [Ho Hv Hx Hl Hs Hord Hfl (durable & Hf & Hd1 & Hd2) Hw Hk Hm Ha] Hi.
  unfold Sync_flush, FsyncNow, fsyncs_ok.
  destruct (next_answer (sys_fsync (sh_sys sh))) as [[e|] script] eqn:En.
  - rewrite IoError_not_ok. cbn [negb]. intros [= <- <- <-]. right. split; [done|]. split.
    + constructor; cbn; try done. by exists durable.
    + destruct (sys_fsync (sh_sys sh)) as [|a l]; [done|]. cbn in En. injection En as -> ->.
      intros Hall. apply Forall_cons in Hall as [? _]. done.
  - rewrite Status_ok_Ok. cbn [negb]. intros E. left.
    assert (st = Status_Ok /\ w = set_flush false (set_synced_index (zlen rs)
      (set_fsync_count (u64 (fsync_count_ (ds_wal (sh_store sh)) + 1)) (ds_wal (sh_store sh)))) /\
      s = set_sys_wal (fsync_file <$> sys_wal (sh_sys sh)) (set_sys_fsync script (sh_sys sh))) as (-> & -> & ->).
    { injection E as <- <- <-. split; [by destruct (_ <=? _)|]. by rewrite <- Hl. }
    split; [done|]. split.
    + constructor; cbn; try done; [lia|].
      exists (encode_log rs). rewrite Hf. split; [done|]. split; [|done].
      unfold ztake, zlen. by rewrite Nat2Z.id, firstn_all.
    + cbn. destruct (sys_fsync (sh_sys sh)) as [|a l]; cbn in En; injection En as <- <- || injection En as <-;
        [done|]. intros Hall. by apply Forall_cons in Hall as [_ ?].
Qed.

(** What follows a flush, a wait of the leader, and the start of leading. *)
Record syncs (rs : list WalRecord) (synced applied : Z) (op : WOp) (index : Z)
    (sh : Shared T) (pc' : Pc) (sh' : Shared T) (k : Wake) : Prop := {
  sy_after : exists synced', synced <= synced' /\ pc_ok rs synced' applied op pc' /\
    shared_ok rs synced' applied (is_lead pc') sh';
  sy_pc : ((exists obs, pc' = PLead index obs) /\ k = WakeNobody) \/
    ((pc' = PSynced index true \/ exists st, pc' = PFailed st) /\ k = WakeSync);
  sy_live : fsyncs_ok sh -> fsyncs_ok sh' /\ pc_index pc' = Some index
}.

Lemma flush_syncs rs synced applied fl op index sh pc' sh' k :
  shared_ok rs synced applied fl sh -> mine rs op index -> applied < index -> index <= zlen rs ->
  flush index sh = (pc', sh', k) -> syncs rs synced applied op index sh pc' sh' k.
Proof.
  intros Hsh Hm Ha Hi. unfold flush. destruct (Sync_flush _ _ _) as [[st w] s] eqn:E. intros [= <- <- <-].
  pose proof (so_order _ _ _ _ _ Hsh).
  destruct (flush_spec _ _ _ _ _ _ _ _ _ Hsh Hi E) as [(-> & Hsh' & Hlive)|(Hst & Hsh' & Hlive)].
  - rewrite Status_ok_Ok. constructor; [|by auto|by auto].
    exists (zlen rs). split; [lia|]. split; [|done]. cbn. split; [done|]. lia.
  - rewrite Hst. constructor; [|by eauto|by intros ?].
    exists synced. split; [lia|]. by split.
Qed.

Lemma lead_syncs rs synced applied op deadline index obs sh pc' sh' k :
  shared_ok rs synced applied true sh -> mine rs op index -> applied < index -> index <= zlen rs ->
  lead deadline index obs sh = (pc', sh', k) -> syncs rs synced applied op index sh pc' sh' k.
Proof.
  intros Hsh Hm Ha Hi. unfold lead. destruct (_ && _); [|by eapply flush_syncs].
  intros [= <- <- <-]. constructor; [|by eauto|by auto]. exists synced. split; [lia|]. by split.
Qed.

Lemma start_leading_syncs rs synced applied op deadline index sh pc' sh' k :
  shared_ok rs synced applied false sh -> mine rs op index -> applied < index -> index <= zlen rs ->
  start_leading deadline index sh = (pc', sh', k) -> syncs rs synced applied op index sh pc' sh' k.
Proof.
  intros Hsh Hm Ha Hi. unfold start_leading. intros E.
  eapply lead_syncs in E as [Hafter Hpc Hlive]; [|by apply (shared_ok_set_flush _ _ _ false)|done..].
  by constructor.
Qed.

Lemma Append_flush r w s :
  Append r w s = let '(res, w', s') := Append r (set_flush false w) s in
                 (res, set_flush (flush_in_progress_ w) w', s').
Proof.
  unfold Append. destruct w as [dir fd path last st sync fl n]. cbn.
  destruct (Status_ok st); cbn; [|done]. destruct (WriteAll _ _) as [st' s']. by destruct (Status_ok st').
Qed.

Lemma shared_ok_idle rs synced applied fl sh :
  shared_ok rs synced applied fl sh ->
  wal_state rs synced (set_flush false (ds_wal (sh_store sh))) (sh_sys sh).
Proof. intros []. constructor; try done. cbn. lia. Qed.

Lemma record_at_valid rs op :
  wop_fits op -> check_args op = None -> zlen rs + 1 < 2 ^ 64 -> wal_valid (appended rs (op_record op)).
Proof.
  intros Hfit Hargs Hlt. destruct op as [k v|k]; cbn in Hargs; destruct (is_empty k) eqn:Ek; try done.
  - destruct (is_empty v) eqn:Ev; [done|]. apply is_empty_false in Ek. destruct Hfit.
    apply appended_valid; [done..|]. intros _ ->. done.
  - apply is_empty_false in Ek. cbn in Hfit.
    apply appended_valid; [done|done|rewrite zlen_nil; unfold kMaxFieldSize; lia|done].
Qed.

Lemma mine_snoc rs op r i : mine rs op i -> mine (rs ++ [r]) op i.
Proof. intros [? E]. split; [done|]. by apply lookup_app_l_Some. Qed.

Lemma ztake_snoc {A} (l : list A) x n : 0 <= n <= zlen l -> ztake n (l ++ [x]) = ztake n l.
Proof. intros. by apply ztake_app_le. Qed.

(** A thread's append. *)
Lemma append_step rs synced applied fl op sh res w s :
  shared_ok rs synced applied fl sh -> wop_fits op -> check_args op = None -> zlen rs + 1 < 2 ^ 64 ->
  Append (op_record op) (ds_wal (sh_store sh)) (sh_sys sh) = (res, w, s) ->
  res = Value (zlen rs + 1) /\
  shared_ok (rs ++ [record_at op (zlen rs + 1)]) synced applied fl (set_wal w s sh) /\
  (fsyncs_ok sh -> fsyncs_ok (set_wal w s sh)).
Proof.
  intros Hsh Hfit Hargs Hlt E. pose proof (record_at_valid rs op Hfit Hargs Hlt) as Hv.
  destruct (Append_ok rs synced _ (sh_sys sh) (op_record op) (shared_ok_idle _ _ _ _ _ Hsh) Hv Hlt)
    as (w1 & s1 & E1 & Hst & Hw1 & Hfs); [apply Hsh|].
  rewrite Append_flush, E1 in E. injection E as <- <- <-. split; [done|].
  assert (appended rs (op_record op) = record_at op (zlen rs + 1)) as Er by (by destruct op).
  rewrite Er in Hst. destruct Hsh as [Ho Hval Hx Hl Hs Hord Hfl Hf Hw Hk Hm Ha].
  destruct Hst as [Ho' Hv' Hx' Hl' Hs' Hn' _ Hf']. split.
  - constructor; cbn; try done; [lia|].
    rewrite Hm. f_equal. symmetry. apply ztake_snoc. lia.
  - unfold fsyncs_ok. cbn. by rewrite Hfs.
Qed.

(** The turn to apply. *)
Lemma apply_step rs synced applied fl op index sh st kv :
  shared_ok rs synced applied fl sh -> mine rs op index -> index <= synced -> index = applied + 1 ->
  op_apply op (ds_kv (sh_store sh)) = (st, kv) ->
  st = (spec_wop op (replay (ztake (index - 1) rs))).1 /\
  shared_ok rs synced index fl (mkShared (set_ds_applied kv index (sh_store sh)) (sh_sys sh)).
Proof.
  intros [Ho Hval Hx Hl Hs Hord Hfl Hf Hw Hk Hm Ha] [Hpos Hr] Hi -> E.
  replace (applied + 1 - 1) with applied in * by lia.
  assert (Hop : kv_inv kv /\ (st, kv_map kv) = spec_wop op (replay (ztake applied rs))).
  { rewrite <- Hm. destruct op as [k v|k]; cbn [op_apply] in E; cbn [spec_wop].
    - pose proof (kv_Set_inv k v _ Hk). pose proof (kv_Set_map k v _ Hk). by rewrite E in *.
    - pose proof (kv_Delete_inv k _ Hk). pose proof (kv_Delete_map k _ Hk). by rewrite E in *. }
  destruct Hop as [Hk' Hop]. split; [by rewrite <- Hop|]. constructor; cbn; try done; [lia|].
  replace (ztake (applied + 1) rs) with (ztake applied rs ++ [record_at op (applied + 1)]).
  - rewrite replay_snoc. transitivity (spec_wop op (replay (ztake applied rs))).2; [by rewrite <- Hop|].
    by destruct op.
  - unfold ztake. replace (Z.to_nat (applied + 1)) with (S (Z.to_nat applied)) by lia.
    by rewrite (take_S_r _ _ _ Hr).
Qed.

(** A step with its effects on the log and on the disk. *)
Definition stepped rs synced applied fl op pc (sh : Shared T) pc' (sh' : Shared T) k : Prop :=
  exists rs' synced' applied' fl', shared_ok rs' synced' applied' fl' sh' /\ pc_ok rs' synced' applied' op pc' /\
    moves rs rs' synced synced' applied applied' fl fl' op pc pc' k /\
    (fsyncs_ok sh -> fsyncs_ok sh' /\ forall st, pc' = PFailed st -> pc = PStart /\ check_args op = Some st).

(** The work of the leader is a step. *)
Lemma syncs_stepped rs synced applied fl op index sh pc pc' sh' k :
  syncs rs synced applied op index sh pc' sh' k -> pc_index pc = Some index ->
  (is_lead pc = true \/ fl = false) -> (forall i st, pc <> PNotify i st) ->
  stepped rs synced applied fl op pc sh pc' sh' k.
Proof.
  intros [(synced' & Hle & Hpc & Hsh) Hor Hlive] Hix Hfl Hn. exists rs, synced', applied, (is_lead pc').
  split; [done|]. split; [done|]. split.
  - constructor; [| |done|by left|..].
    + left. split; [done|]. split; [by rewrite Hix|]. rewrite Hix.
      destruct Hor as [[(? & ->) _]|[[->|(? & ->)] _]]; cbn; eauto.
    + by destruct Hor as [[(? & ->) _]|[[->|(? & ->)] _]].
    + destruct (is_lead pc'); [done|]. destruct (is_lead pc); [done|]. by destruct Hfl as [?| ->].
    + intros _. by destruct Hor as [[(? & ->) ->]|[[->|(? & ->)] ->]].
    + intros i st ->. by destruct (Hn i st).
    + intros i ->. by destruct Hor as [[(? & ?) _]|[[?|(? & ?)] _]].
    + intros i ->. by destruct Hor as [[(? & ?) _]|[[?|(? & ?)] _]].
  - intros Hf. destruct (Hlive Hf) as [? Hx]. split; [done|]. intros st ->. done.
Qed.

(** A step that only moves the thread. *)
Lemma stays_stepped rs synced applied fl op sh pc pc' k :
  shared_ok rs synced applied fl sh -> pc_ok rs synced applied op pc' -> pc_index pc' = pc_index pc -> is_Some (pc_index pc) ->
  is_lead pc = false -> is_lead pc' = false -> (forall i st, pc = PNotify i st -> k = WakeApply) ->
  (forall i, pc' = PFollow i false -> fl = true) -> (forall i, pc' = PSynced i false -> i <> applied + 1) ->
  stepped rs synced applied fl op pc sh pc' sh k.
Proof.
  intros Hsh Hpc Hix [x Hx] Hl Hl' Hn Hf Ht. exists rs, synced, applied, fl. split; [done|]. split; [done|]. split.
  - constructor; [|by intros ->; rewrite Hx in Hix|lia|by left|by rewrite Hl', Hl|congruence|done|done|done].
    left. split; [done|]. split; [by eexists|]. by left.
  - intros Hfs. split; [done|]. intros st ->. rewrite Hx in Hix. done.
Qed.

Lemma start_stepped deadline op sh pc' sh' k rs synced applied fl :
  shared_ok rs synced applied fl sh -> wop_fits op -> zlen rs + 1 < 2 ^ 64 ->
  thread_step deadline op PStart sh = Some (pc', sh', k) -> stepped rs synced applied fl op PStart sh pc' sh' k.
Proof.
  intros Hsh Hfit Hlt. pose proof (so_order _ _ _ _ _ Hsh) as Hord. cbn [thread_step].
  destruct (check_args op) as [st|] eqn:Eargs.
  - intros [= <- <- <-]. exists rs, synced, applied, fl. split; [done|]. split.
    { destruct op as [key v|key]; cbn in Eargs; repeat case_match; by simplify_eq. }
    split; [|by intros ?; split; [done|]; intros ? [= ->]].
    constructor; [right; left; by eauto|done|lia|by left|done|congruence|done..].
  - destruct (Append _ _ _) as [[res w] s] eqn:E.
    destruct (append_step _ _ _ _ _ _ _ _ _ Hsh Hfit Eargs Hlt E) as (-> & Hsh' & Hlive).
    intros [= <- <- <-]. eexists _, synced, applied, fl. split; [exact Hsh'|]. split.
    { cbn. split; [|lia]. split; [pose proof (zlen_nonneg rs); lia|].
      rewrite lookup_app_r by (unfold zlen; lia).
      replace (Z.to_nat (zlen rs + 1 - 1) - length rs)%nat with 0%nat by (unfold zlen; lia). done. }
    split; [|by intros Hf; split; [by apply Hlive|]].
    constructor; [by right; right|done|lia|by left|done|congruence|done..].
Qed.

Lemma synced_stepped deadline op i sh pc' sh' k rs synced applied fl :
  shared_ok rs synced applied fl sh -> pc_ok rs synced applied op (PSynced i true) ->
  thread_step deadline op (PSynced i true) sh = Some (pc', sh', k) ->
  stepped rs synced applied fl op (PSynced i true) sh pc' sh' k.
Proof.
  intros Hsh Hpc. pose proof Hpc as (Hm & Ha & Hi). pose proof (so_order _ _ _ _ _ Hsh) as Hord. cbn [thread_step].
  rewrite (so_applied _ _ _ _ _ Hsh).
  assert (Hu : u64 (i - 1) = i - 1).
  { destruct Hm as [Hpos Hr]. pose proof (so_valid _ _ _ _ _ Hsh) as Hv. rewrite Forall_lookup in Hv.
    apply Hv in Hr as [_ [_ Hr] _ _ _]. cbn in Hr. unfold u64. apply Z.mod_small. lia. }
  rewrite Hu. destruct (Z.eqb_spec applied (i - 1)) as [Eq|Hne].
  2: { intros [= <- <- <-]. apply stays_stepped; try done. intros j [= <-]. lia. }
  destruct (op_apply op _) as [st kv] eqn:E. intros [= <- <- <-].
  destruct (apply_step _ _ _ _ _ _ _ _ _ Hsh Hm Hi ltac:(lia) E) as [-> Hsh'].
  exists rs, synced, i, fl. split; [done|]. split; [by cbn; split; [done|]; split; [lia|]|].
  split; [|by intros Hf; split; [done|]].
  constructor; [by left; eauto|done|lia| |done|congruence|done..].
  right. split; [lia|]. split; [done|]. by eexists.
Qed.

Lemma thread_step_spec deadline op pc sh pc' sh' k rs synced applied fl :
  shared_ok rs synced applied fl sh -> wop_fits op -> pc_ok rs synced applied op pc ->
  (is_lead pc = true -> fl = true) -> (pc = PStart -> zlen rs + 1 < 2 ^ 64) ->
  thread_step deadline op pc sh = Some (pc', sh', k) -> stepped rs synced applied fl op pc sh pc' sh' k.
Proof.
  intros Hsh Hfit Hpc Hlead Hlt.
  assert (Hmine : forall i, mine rs op i -> i <= zlen rs).
  { intros i [? Hr]. apply lookup_lt_Some in Hr. unfold zlen. lia. }
  assert (Hstart : forall i, mine rs op i -> applied < i -> pc_index pc = Some i -> is_lead pc = false -> fl = false ->
    (forall j st, pc <> PNotify j st) -> start_leading deadline i sh = (pc', sh', k) ->
    stepped rs synced applied fl op pc sh pc' sh' k).
  { intros i Hm Ha Hix Hl Hfl Hn E. rewrite Hfl in Hsh.
    eapply start_leading_syncs in E; [|exact Hsh|exact Hm|done|by apply Hmine]. eapply syncs_stepped; eauto. }
  destruct pc as [|i|i []|i obs|i []|i st|i st|st]; try done.
  - apply start_stepped; auto.
  - cbn [thread_step pc_ok] in *. destruct Hpc as [Hm Ha]. unfold Sync_entry.
    rewrite (so_open _ _ _ _ _ Hsh), (so_synced _ _ _ _ _ Hsh), (so_flush _ _ _ _ _ Hsh), Status_ok_Ok.
    cbn [negb]. destruct (Z.leb_spec i synced).
    { intros [= <- <- <-]. by apply stays_stepped. }
    destruct fl eqn:Efl; [intros [= <- <- <-]; by apply stays_stepped|]. intros [= E]. by eapply Hstart.
  - cbn [thread_step pc_ok] in *. destruct Hpc as [Hm Ha]. unfold Sync_follow_ready, Sync_follow_done.
    rewrite (so_synced _ _ _ _ _ Hsh), (so_flush _ _ _ _ _ Hsh).
    destruct (Z.leb_spec i synced); cbn [orb].
    { intros [= <- <- <-]. by apply stays_stepped. }
    destruct fl eqn:Efl; cbn [negb sync_next]; [intros [= <- <- <-]; by apply stays_stepped|].
    intros [= E]. by eapply Hstart.
  - cbn [thread_step pc_ok] in *. destruct Hpc as [Hm Ha]. rewrite (Hlead eq_refl) in *.
    destruct (Sync_quiet obs _); intros [= E].
    + eapply flush_syncs in E; [|exact Hsh|exact Hm|done|by apply Hmine]. eapply syncs_stepped; eauto.
    + eapply lead_syncs in E; [|exact Hsh|exact Hm|done|by apply Hmine]. eapply syncs_stepped; eauto.
  - by apply synced_stepped.
  - cbn [thread_step pc_ok] in *. intros [= <- <- <-]. by apply stays_stepped.
Qed.

(** ** The invariant of a configuration *)

Definition is_start (t : WOp * Pc) : nat := match t.2 with PStart => 1 | _ => 0 end.

(** Without [fsync] failures, every unapplied record has a thread that works on it, and
    only a rejected argument makes a thread fail. *)
Record lively (rs : list WalRecord) (applied : Z) (c : Config T) : Prop := {
  lv_fsync : fsyncs_ok (cf_shared c);
  lv_owner : forall x, applied < x <= zlen rs ->
    exists i op pc, cf_threads c !! i = Some (op, pc) /\ pc_index pc = Some x;
  lv_failed : forall i op st, cf_threads c !! i = Some (op, PFailed st) -> check_args op = Some st
}.

(** The threads that have appended, in the order of their appends, and the log. *)
Record ordering (rs0 : list WalRecord) (ops : list WOp) (order : list nat) (rs : list WalRecord)
    (threads : list (WOp * Pc)) : Prop := {
  or_nodup : NoDup order;
  or_ops : threads.*1 = ops;
  or_threads : Forall (fun i => is_Some (ops !! i)) order;
  or_log : rs = rs0 ++ log_of (zlen rs0) (ordered ops order);
  or_called : forall i op pc, threads !! i = Some (op, pc) -> i ∈ order <-> pc <> PStart /\ check_args op = None;
  or_index : forall i op pc x, threads !! i = Some (op, pc) -> pc_index pc = Some x ->
    zlen rs0 < x /\ order !! Z.to_nat (x - zlen rs0 - 1) = Some i;
  or_rejected : forall i op pc st, threads !! i = Some (op, pc) -> check_args op = Some st -> pc = PStart \/ pc = PFailed st
}.

(** Nobody sleeps unless somebody will notify them: a follower while a flush is in
    progress; a thread whose turn has come while another is about to notify. *)
Record sleepers (applied : Z) (fl : bool) (threads : list (WOp * Pc)) : Prop := {
  sl_follow : forall i op x, threads !! i = Some (op, PFollow x false) -> fl = true;
  sl_turn : forall i op x, threads !! i = Some (op, PSynced x false) -> x = applied + 1 ->
    exists j op' y st, threads !! j = Some (op', PNotify y st)
}.

Section Threads.
Variables (rs0 : list WalRecord) (ops : list WOp).

Record inv (live : Prop) (order : list nat) (rs : list WalRecord) (synced applied : Z) (fl : bool) (c : Config T) : Prop := {
  gi_shared : shared_ok rs synced applied fl (cf_shared c);
  gi_fits : forall i op pc, cf_threads c !! i = Some (op, pc) -> wop_fits op;
  gi_pc : forall i op pc, cf_threads c !! i = Some (op, pc) -> pc_ok rs synced applied op pc;
  gi_lead : forall i op pc, cf_threads c !! i = Some (op, pc) -> is_lead pc = true -> fl = true;
  gi_unique : forall i j op op' pc pc', cf_threads c !! i = Some (op, pc) ->
    cf_threads c !! j = Some (op', pc') -> is_lead pc = true -> is_lead pc' = true -> i = j;
  gi_leader : fl = true -> exists i op pc, cf_threads c !! i = Some (op, pc) /\ is_lead pc = true;
  gi_order : ordering rs0 ops order rs (cf_threads c);
  gi_applied : zlen rs0 <= applied;
  gi_bound : zlen rs + Z.of_nat (total is_start (cf_threads c)) < 2 ^ 64;
  gi_live : live -> lively rs applied c
}.

Lemma or_distinct order rs threads i j op op' pc pc' x :
  ordering rs0 ops order rs threads -> threads !! i = Some (op, pc) -> threads !! j = Some (op', pc') ->
  pc_index pc = Some x -> pc_index pc' = Some x -> i = j.
Proof. intros Hor Hi Hj Hx Hx'. apply (or_index _ _ _ _ _ Hor) with (x := x) in Hi as [_ Hi], Hj as [_ Hj]; [congruence|done..]. Qed.

(** A thread that did not move keeps what it had. *)
Lemma pc_ok_others rs rs' synced synced' applied applied' fl fl' op0 pc0 pc0' k op pc :
  moves rs rs' synced synced' applied applied' fl fl' op0 pc0 pc0' k -> 0 <= applied ->
  (forall x, pc_index pc0 = Some x -> pc_index pc <> Some x) ->
  pc_ok rs synced applied op pc -> pc_ok rs' synced' applied' op pc.
Proof.
  intros [Hlog _ Hsy Hap _ _ _ _ _] Happ Hne Hpc.
  assert (Hlog' : rs' = rs \/ rs' = rs ++ [record_at op0 (zlen rs + 1)])
    by (destruct Hlog as [(-> & _)|[(-> & _)|(_ & _ & -> & _)]]; auto).
  assert (Hmine : forall i, mine rs op i -> mine rs' op i).
  { intros i Hm. destruct Hlog' as [->| ->]; [done|]. by apply mine_snoc. }
  assert (Happly : forall i, pc_index pc = Some i -> applied < i -> applied' < i).
  { intros i Hi Hlt. destruct Hap as [->|(-> & Hpc0 & _)]; [done|].
    subst pc0. specialize (Hne _ eq_refl). rewrite Hi in Hne. assert (i <> applied + 1) by congruence. lia. }
  assert (applied <= applied') by (destruct Hap as [->|(-> & _)]; lia).
  assert (Hdone : forall i st, mine rs op i /\ i <= applied /\ st = (spec_wop op (replay (ztake (i - 1) rs))).1 ->
    mine rs' op i /\ i <= applied' /\ st = (spec_wop op (replay (ztake (i - 1) rs'))).1).
  { intros i st (Hm & ? & ->). split; [by apply Hmine|]. split; [lia|].
    destruct Hlog' as [->| ->]; [done|]. do 3 f_equal. symmetry. apply ztake_snoc.
    destruct Hm as [? Hr]. apply lookup_lt_Some in Hr. unfold zlen. lia. }
  destruct pc as [|i|i b|i obs|i b|i st|i st|st]; cbn in *; try done; try (by apply Hdone).
  - destruct Hpc. split; [by apply Hmine|by apply Happly].
  - destruct Hpc. split; [by apply Hmine|by apply Happly].
  - destruct Hpc. split; [by apply Hmine|by apply Happly].
  - destruct Hpc as (? & ? & ?). split; [by apply Hmine|]. split; [by apply Happly|lia].
Qed.

Lemma pc_index_le rs synced applied op pc x :
  pc_ok rs synced applied op pc -> pc_index pc = Some x -> 1 <= x <= zlen rs.
Proof.
  intros Hpc Hx. assert (mine rs op x) as [? Hr].
  { destruct pc; cbn in *; simplify_eq; tauto. }
  apply lookup_lt_Some in Hr. unfold zlen. lia.
Qed.

(** A step keeps [lively]. *)
Lemma lively_step rs rs' synced synced' applied applied' fl fl' threads sh sh' i op pc pc' k :
  lively rs applied (mkConfig threads sh) -> threads !! i = Some (op, pc) ->
  moves rs rs' synced synced' applied applied' fl fl' op pc pc' k ->
  (fsyncs_ok sh -> fsyncs_ok sh' /\ forall st, pc' = PFailed st -> pc = PStart /\ check_args op = Some st) ->
  lively rs' applied' (mkConfig (<[i := (op, pc')]> threads) sh').
Proof.
  intros [Hfs Hown Hfail] Hi Hmv Hstep. cbn in *. destruct (Hstep Hfs) as [Hfs' Hf'].
  assert (Hl : (i < length threads)%nat) by (by eapply lookup_lt_Some).
  constructor; cbn; [done| |].
  - intros x Hx. destruct Hmv as [Hlog _ _ Hap _ _ _ _ _].
    assert (Hold : applied < x <= zlen rs -> x <> applied' \/ applied' = applied ->
      exists j op2 pc2, <[i := (op, pc')]> threads !! j = Some (op2, pc2) /\ pc_index pc2 = Some x).
    { intros Hr _. destruct (Hown x Hr) as (j & op2 & pc2 & Hj & Hx2).
      destruct (decide (j = i)) as [->|Hne]; [|exists j, op2, pc2; by rewrite list_lookup_insert_ne].
      rewrite Hi in Hj. injection Hj as <- <-. exists i, op, pc'.
      split; [by apply list_lookup_insert_eq|].
      destruct Hlog as [(_ & _ & [->|(st & ->)])|[(_ & -> & _)|(-> & _)]]; [done| |done..].
      by destruct (Hf' st eq_refl) as [-> _]. }
    assert (Hlog' : rs' = rs \/ (rs' = rs ++ [record_at op (zlen rs + 1)] /\ pc' = PAppended (zlen rs + 1)))
      by (destruct Hlog as [(-> & _)|[(-> & _)|(_ & _ & -> & ->)]]; auto).
    destruct Hlog' as [->|[-> ->]].
    + apply Hold; [destruct Hap as [->|(-> & _)]; lia|lia].
    + destruct (decide (x = zlen rs + 1)) as [->|Hne].
      * exists i, op, (PAppended (zlen rs + 1)). split; [by apply list_lookup_insert_eq|done].
      * autorewrite with zlen in Hx. apply Hold; [destruct Hap as [->|(-> & _)]; lia|lia].
  - intros j op2 st Hj. apply list_lookup_insert_Some in Hj as [(<- & [= <- ->] & _)|[_ Hj]].
    + by apply Hf'.
    + by eapply Hfail.
Qed.

Lemma ordered_snoc order i op : ops !! i = Some op -> ordered ops (order ++ [i]) = ordered ops order ++ [op].
Proof. intros Hi. unfold ordered. rewrite omap_app. cbn. by rewrite Hi. Qed.

Lemma log_of_snoc n l op : log_of n (l ++ [op]) = log_of n l ++ [record_at op (n + zlen l + 1)].
Proof. unfold log_of. rewrite imap_app. cbn. unfold zlen. by rewrite Nat.add_0_r. Qed.

Lemma length_ordered order : Forall (fun i => is_Some (ops !! i)) order -> length (ordered ops order) = length order.
Proof. induction 1 as [|i order [op Hi] _ IH]; [done|]. unfold ordered in *. cbn. rewrite Hi. cbn. by rewrite IH. Qed.

Lemma or_zlen order rs threads : ordering rs0 ops order rs threads -> zlen rs = zlen rs0 + zlen order.
Proof.
  intros [_ _ Hth -> _ _ _]. apply length_ordered in Hth. unfold log_of, zlen. rewrite length_app, length_imap. lia.
Qed.

(** A step of thread [i] appends it to the order, or leaves the order as it is. *)
Lemma ordering_step order rs rs' synced synced' applied applied' fl fl' threads i op pc pc' k :
  ordering rs0 ops order rs threads -> threads !! i = Some (op, pc) ->
  moves rs rs' synced synced' applied applied' fl fl' op pc pc' k ->
  exists order', ordering rs0 ops order' rs' (<[i := (op, pc')]> threads) /\ order `prefix_of` order'.
Proof.
  intros Hor Hi Hmv. pose proof (or_zlen _ _ _ Hor) as Hlen. destruct Hor as [Hnd Hops Hth Hlog Hcalled Hindex Hrej].
  assert (Hi1 : ops !! i = Some op) by (by rewrite <- Hops, list_lookup_fmap, Hi).
  assert (Hops' : (<[i := (op, pc')]> threads).*1 = ops)
    by (rewrite list_fmap_insert; cbn; rewrite Hops; by apply list_insert_id).
  pose proof (mv_started _ _ _ _ _ _ _ _ _ _ _ _ Hmv) as Hst'.
  destruct (mv_log _ _ _ _ _ _ _ _ _ _ _ _ Hmv) as [(-> & [x0 Hx0] & Hix)|[(-> & -> & st & Hargs & ->)|(-> & Hargs & -> & ->)]].
  - exists order. split; [|done]. constructor; try done.
    + intros j op2 pc2 Hj. apply list_lookup_insert_Some in Hj as [(<- & [= <- <-] & _)|[_ Hj]]; [|by apply Hcalled].
      rewrite (Hcalled i op pc Hi). assert (pc <> PStart) by (by intros ->). tauto.
    + intros j op2 pc2 x Hj Hx. apply list_lookup_insert_Some in Hj as [(<- & [= <- <-] & _)|[_ Hj]]; [|by eapply Hindex].
      destruct Hix as [Hix|(st & ->)]; [|done]. rewrite Hix in Hx. by eapply Hindex.
    + intros j op2 pc2 st Hj Ha. apply list_lookup_insert_Some in Hj as [(<- & [= <- <-] & _)|[_ Hj]]; [|by eapply Hrej].
      by destruct (Hrej i op pc st Hi Ha) as [->| ->].
  - exists order. split; [|done]. constructor; try done.
    + intros j op2 pc2 Hj. apply list_lookup_insert_Some in Hj as [(<- & [= <- <-] & _)|[_ Hj]]; [|by apply Hcalled].
      rewrite (Hcalled i op PStart Hi). rewrite Hargs. split; [by intros [? _]|by intros [_ ?]].
    + intros j op2 pc2 x Hj Hx. apply list_lookup_insert_Some in Hj as [(<- & [= <- <-] & _)|[_ Hj]]; [done|by eapply Hindex].
    + intros j op2 pc2 st2 Hj Ha. apply list_lookup_insert_Some in Hj as [(<- & [= <- <-] & _)|[_ Hj]]; [|by eapply Hrej].
      right. congruence.
  - exists (order ++ [i]). assert (Hni : i ∉ order) by (rewrite (Hcalled i op PStart Hi); by intros [? _]).
    split; [|by eexists]. constructor; try done.
    + apply NoDup_app. split; [done|]. split; [|apply NoDup_singleton]. intros x Hx ->%list_elem_of_singleton. done.
    + apply Forall_app. split; [done|]. apply Forall_singleton. by eexists.
    + rewrite (ordered_snoc _ _ _ Hi1), log_of_snoc, app_assoc, <- Hlog. do 3 f_equal.
      apply length_ordered in Hth. unfold zlen in *. lia.
    + intros j op2 pc2 Hj. rewrite elem_of_app, list_elem_of_singleton.
      apply list_lookup_insert_Some in Hj as [(<- & [= <- <-] & _)|[Hne Hj]]; [tauto|].
      rewrite (Hcalled j op2 pc2 Hj). split; [intros [?|?]; [done|congruence]|by left].
    + intros j op2 pc2 x Hj Hx. apply list_lookup_insert_Some in Hj as [(<- & [= <- <-] & _)|[_ Hj]].
      * injection Hx as <-. pose proof (zlen_nonneg order). split; [lia|].
        replace (Z.to_nat _) with (length order) by (unfold zlen in *; lia). by apply list_lookup_middle.
      * destruct (Hindex j op2 pc2 x Hj Hx) as [? Ho]. split; [done|]. by apply lookup_app_l_Some.
    + intros j op2 pc2 st Hj Ha. apply list_lookup_insert_Some in Hj as [(<- & [= <- <-] & _)|[_ Hj]]; [congruence|by eapply Hrej].
Qed.

(** *** Waking threads up *)

(** Thread by thread, [threads'] is [threads] with some threads awake. *)
Definition woken (t t' : WOp * Pc) : Prop := t'.1 = t.1 /\ exists k, t'.2 = wake_pc k t.2.

Lemma wake_all_woken k threads : Forall2 woken threads (wake_all k threads).
Proof. induction threads as [|[op pc] threads IH]; constructor; [|done]. split; [done|]. by exists k. Qed.

Lemma insert_woken threads i op pc k :
  threads !! i = Some (op, pc) -> Forall2 woken threads (<[i := (op, wake_pc k pc)]> threads).
Proof.
  assert (Hrefl : forall l, Forall2 woken l l) by (induction l; constructor; [split; [done|by exists WakeNobody]|done]).
  intros Hi. apply Forall2_same_length_lookup. split; [by rewrite length_insert|]. intros j x y Hx Hy.
  apply list_lookup_insert_Some in Hy as [(<- & <- & _)|[_ Hy]]; [|rewrite Hx in Hy; injection Hy as <-].
  - rewrite Hi in Hx. injection Hx as <-. split; [done|]. by exists k.
  - split; [done|]. by exists WakeNobody.
Qed.

Lemma woken_lookup threads threads' i op pc' :
  Forall2 woken threads threads' -> threads' !! i = Some (op, pc') -> exists pc k, threads !! i = Some (op, pc) /\ pc' = wake_pc k pc.
Proof.
  intros Hw Hi. eapply Forall2_lookup_r in Hw as ([op0 pc] & Hi0 & Hop & k & Hk); [|exact Hi]. cbn in *. subst. by exists pc, k.
Qed.

Lemma lookup_woken threads threads' i op pc :
  Forall2 woken threads threads' -> threads !! i = Some (op, pc) -> exists k, threads' !! i = Some (op, wake_pc k pc).
Proof.
  intros Hw Hi. eapply Forall2_lookup_l in Hw as ([op0 pc'] & Hi0 & Hop & k & Hk); [|exact Hi]. cbn in *. subst. by exists k.
Qed.

Lemma wake_index k pc : pc_index (wake_pc k pc) = pc_index pc.
Proof. by destruct k, pc. Qed.

Lemma wake_lead k pc : is_lead (wake_pc k pc) = is_lead pc.
Proof. by destruct k, pc. Qed.

Lemma wake_ok k rs synced applied op pc : pc_ok rs synced applied op (wake_pc k pc) <-> pc_ok rs synced applied op pc.
Proof. by destruct k, pc. Qed.

Lemma wake_start k pc : wake_pc k pc = PStart <-> pc = PStart.
Proof. by destruct k, pc. Qed.

Lemma wake_failed k pc st : wake_pc k pc = PFailed st <-> pc = PFailed st.
Proof. by destruct k, pc. Qed.

Lemma woken_starts threads threads' : Forall2 woken threads threads' -> total is_start threads' = total is_start threads.
Proof.
  induction 1 as [|[op pc] [op' pc'] threads threads' [_ [k Hk]] _ IH]; [done|]. cbn in *. subst pc'. rewrite IH. f_equal.
  by destruct k, pc.
Qed.

Lemma woken_ordering order rs threads threads' :
  ordering rs0 ops order rs threads -> Forall2 woken threads threads' -> ordering rs0 ops order rs threads'.
Proof.
  intros [Hnd Hops Hth Hlog Hcalled Hindex Hrej] Hw. constructor; try done.
  - rewrite <- Hops. clear -Hw. induction Hw as [|[op pc] [op' pc'] ? ? [Ho _] _ IH]; [done|]. cbn in *. by rewrite Ho, IH.
  - intros i op pc' Hi. destruct (woken_lookup _ _ _ _ _ Hw Hi) as (pc & k & Hi' & ->). rewrite (Hcalled _ _ _ Hi').
    by rewrite wake_start.
  - intros i op pc' x Hi Hx. destruct (woken_lookup _ _ _ _ _ Hw Hi) as (pc & k & Hi' & ->). rewrite wake_index in Hx. by eapply Hindex.
  - intros i op pc' st Hi Ha. destruct (woken_lookup _ _ _ _ _ Hw Hi) as (pc & k & Hi' & ->). rewrite wake_start, wake_failed.
    by eapply Hrej.
Qed.

Lemma woken_lively rs applied threads threads' (sh : Shared T) :
  lively rs applied (mkConfig threads sh) -> Forall2 woken threads threads' -> lively rs applied (mkConfig threads' sh).
Proof.
  intros [Hfs Hown Hfail] Hw. constructor; cbn in *; [done| |].
  - intros x Hx. destruct (Hown x Hx) as (i & op & pc & Hi & Hix). destruct (lookup_woken _ _ _ _ _ Hw Hi) as [k Hi'].
    exists i, op, (wake_pc k pc). by rewrite wake_index.
  - intros i op st Hi. destruct (woken_lookup _ _ _ _ _ Hw Hi) as (pc & k & Hi' & Hf). symmetry in Hf. apply wake_failed in Hf.
    subst pc. by eapply Hfail.
Qed.

Lemma inv_woken live order rs synced applied fl threads threads' sh :
  inv live order rs synced applied fl (mkConfig threads sh) -> Forall2 woken threads threads' ->
  inv live order rs synced applied fl (mkConfig threads' sh).
Proof.
  intros [Hsh Hfits Hpcs Hlead Huniq Hleader Hor Hap Hbound Hlive] Hw.
  constructor; cbn [cf_threads cf_shared] in *; try done.
  - intros i op pc' Hi. destruct (woken_lookup _ _ _ _ _ Hw Hi) as (pc & k & Hi' & _). by eapply Hfits.
  - intros i op pc' Hi. destruct (woken_lookup _ _ _ _ _ Hw Hi) as (pc & k & Hi' & ->). apply wake_ok. by eapply Hpcs.
  - intros i op pc' Hi. destruct (woken_lookup _ _ _ _ _ Hw Hi) as (pc & k & Hi' & ->). rewrite wake_lead. by eapply Hlead.
  - intros i j op op' pc pc' Hi Hj. destruct (woken_lookup _ _ _ _ _ Hw Hi) as (pc1 & k1 & Hi' & ->).
    destruct (woken_lookup _ _ _ _ _ Hw Hj) as (pc2 & k2 & Hj' & ->). rewrite !wake_lead. by eapply Huniq.
  - intros Hfl. destruct (Hleader Hfl) as (i & op & pc & Hi & Hl). destruct (lookup_woken _ _ _ _ _ Hw Hi) as [k Hi'].
    exists i, op, (wake_pc k pc). by rewrite wake_lead.
  - by eapply woken_ordering.
  - by rewrite (woken_starts _ _ Hw).
  - intros Hl. eapply woken_lively; [by apply Hlive|done].
Qed.

(** *** Steps keep the invariant *)

Lemma inv_insert live order rs synced applied fl threads sh i op pc pc' sh' k :
  inv live order rs synced applied fl (mkConfig threads sh) -> threads !! i = Some (op, pc) ->
  stepped rs synced applied fl op pc sh pc' sh' k ->
  exists order' rs' synced' applied' fl', inv live order' rs' synced' applied' fl' (mkConfig (<[i := (op, pc')]> threads) sh') /\
    moves rs rs' synced synced' applied applied' fl fl' op pc pc' k /\ order `prefix_of` order'.
Proof.
  intros Hinv Hi (rs' & synced' & applied' & fl' & Hsh' & Hpc' & Hmv & Hls).
  pose proof Hinv as [Hsh Hfits Hpcs Hlead Huniq Hleader Hor Hap Hbound Hlive]. cbn [cf_threads cf_shared] in *.
  destruct (ordering_step _ _ _ _ _ _ _ _ _ _ _ _ _ _ _ Hor Hi Hmv) as (order' & Hor' & Hpre).
  exists order', rs', synced', applied', fl'. split; [|done].
  pose proof (total_insert is_start _ i _ (op, pc') Hi) as Hsum. pose proof (so_order _ _ _ _ _ Hsh) as Hord.
  assert (Hl : (i < length threads)%nat) by (by eapply lookup_lt_Some).
  pose proof (mv_flush _ _ _ _ _ _ _ _ _ _ _ _ Hmv) as Hfl.
  constructor; cbn [cf_threads cf_shared]; try done.
  - intros j op2 pc2 Hj. apply list_lookup_insert_Some in Hj as [(<- & [= <- <-] & _)|[_ Hj]]; by eapply Hfits.
  - intros j op2 pc2 Hj. apply list_lookup_insert_Some in Hj as [(<- & [= <- <-] & _)|[Hne Hj]]; [done|].
    eapply pc_ok_others; [exact Hmv|lia| |by eapply Hpcs]. intros x Hx Hx2.
    apply Hne. exact (or_distinct _ _ _ _ _ _ _ _ _ _ Hor Hi Hj Hx Hx2).
  - intros j op2 pc2 Hj Hl2. apply list_lookup_insert_Some in Hj as [(<- & [= <- <-] & _)|[Hne Hj]].
    + rewrite Hl2 in Hfl. by destruct Hfl.
    + destruct (is_lead pc'); [by destruct Hfl|]. rewrite Hfl. destruct (is_lead pc) eqn:El; [|by eapply Hlead].
      exfalso. apply Hne. by eapply Huniq.
  - assert (Hother : forall j op2 pc2, j <> i -> threads !! j = Some (op2, pc2) -> is_lead pc2 = true ->
      is_lead pc' = true -> False).
    { intros j op2 pc2 Hne Hj Hl2 Hl'. rewrite Hl' in Hfl. destruct Hfl as [_ [El| ->]].
      - apply Hne. by eapply Huniq.
      - by specialize (Hlead j op2 pc2 Hj Hl2). }
    intros j m op2 op3 pc2 pc3 Hj Hm Hl2 Hl3.
    apply list_lookup_insert_Some in Hj as [(<- & [= <- <-] & _)|[Hne Hj]];
      apply list_lookup_insert_Some in Hm as [(<- & [= <- <-] & _)|[Hne' Hm]]; [done|..].
    + exfalso. by eapply (Hother m).
    + exfalso. by eapply (Hother j).
    + by eapply Huniq.
  - intros ->. destruct (is_lead pc') eqn:El'.
    + exists i, op, pc'. split; [by apply list_lookup_insert_eq|done].
    + destruct (is_lead pc) eqn:El; [done|]. subst fl. destruct (Hleader eq_refl) as (j & op2 & pc2 & Hj & Hl2).
      exists j, op2, pc2. split; [|done]. rewrite list_lookup_insert_ne; [done|].
      intros ->. rewrite Hi in Hj. injection Hj as <- <-. congruence.
  - destruct (mv_applied _ _ _ _ _ _ _ _ _ _ _ _ Hmv) as [->|(-> & _)]; lia.
  - assert (is_start (op, pc') = 0%nat) as Hz.
    { pose proof (mv_started _ _ _ _ _ _ _ _ _ _ _ _ Hmv). by destruct pc'. }
    rewrite Hz in Hsum.
    destruct (mv_log _ _ _ _ _ _ _ _ _ _ _ _ Hmv) as [(-> & _)|[(-> & _)|(-> & _ & -> & ->)]]; [lia..|].
    change (is_start (op, PStart)) with 1%nat in Hsum. autorewrite with zlen. lia.
  - intros Hlv. by eapply lively_step; [apply Hlive| | |].
Qed.

Lemma sleepers_step rs rs' synced synced' applied applied' fl fl' threads i op pc pc' k :
  sleepers applied fl threads -> threads !! i = Some (op, pc) ->
  moves rs rs' synced synced' applied applied' fl fl' op pc pc' k ->
  sleepers applied' fl' (wake_all k (<[i := (op, pc')]> threads)).
Proof.
  intros [Hfol Hturn] Hi [_ _ _ Hap _ Hwake Hnot Hf Ht].
  assert (Hl : (i < length threads)%nat) by (by eapply lookup_lt_Some).
  assert (Hlook : forall j op2 pc2, wake_all k (<[i := (op, pc')]> threads) !! j = Some (op2, pc2) ->
    exists pc0, <[i := (op, pc')]> threads !! j = Some (op2, pc0) /\ pc2 = wake_pc k pc0).
  { intros j op2 pc2 Hj. unfold wake_all in Hj. apply list_lookup_fmap_Some in Hj as ([op3 pc3] & [= -> ->] & Hj). by exists pc3. }
  constructor.
  - intros j op2 x Hj. apply Hlook in Hj as (pc0 & Hj & E).
    assert (pc0 = PFollow x false /\ k <> WakeSync) as [-> Hk] by (destruct k, pc0; simplify_eq; by split).
    apply list_lookup_insert_Some in Hj as [(<- & [= -> ->] & _)|[_ Hj]]; [by eapply Hf|].
    destruct fl'; [done|]. exfalso. apply Hk, Hwake; [by eapply Hfol|done].
  - intros j op2 x Hj ->. apply Hlook in Hj as (pc0 & Hj & E).
    assert (pc0 = PSynced (applied' + 1) false /\ k <> WakeApply) as [-> Hk] by (destruct k, pc0; simplify_eq; by split).
    assert (Hput : forall m op3 y st, <[i := (op, pc')]> threads !! m = Some (op3, PNotify y st) ->
      exists j op' y st, wake_all k (<[i := (op, pc')]> threads) !! j = Some (op', PNotify y st)).
    { intros m op3 y st Hm. exists m, op3, y, st. unfold wake_all. rewrite list_lookup_fmap, Hm. by destruct k. }
    apply list_lookup_insert_Some in Hj as [(<- & [= -> ->] & _)|[_ Hj]]; [by destruct (Ht _ eq_refl)|].
    destruct Hap as [->|(_ & _ & st & ->)].
    + destruct (Hturn j op2 _ Hj eq_refl) as (m & op3 & y & st & Hm). apply (Hput m op3 y st).
      rewrite list_lookup_insert_ne; [done|]. intros ->. rewrite Hi in Hm. injection Hm as <- ->. by apply Hk, (Hnot y st).
    + eapply Hput. by apply list_lookup_insert_eq.
Qed.

Lemma sleepers_awake applied fl threads i op pc k :
  sleepers applied fl threads -> threads !! i = Some (op, pc) -> (forall y st, pc <> PNotify y st) ->
  (forall x, wake_pc k pc <> PFollow x false /\ wake_pc k pc <> PSynced x false) ->
  sleepers applied fl (<[i := (op, wake_pc k pc)]> threads).
Proof.
  intros [Hfol Hturn] Hi Hn Hpc. constructor.
  - intros j op2 x Hj. apply list_lookup_insert_Some in Hj as [(<- & [= _ E] & _)|[_ Hj]]; [by destruct (Hpc x)|by eapply Hfol].
  - intros j op2 x Hj Hx. apply list_lookup_insert_Some in Hj as [(<- & [= _ E] & _)|[_ Hj]]; [by destruct (Hpc x)|].
    destruct (Hturn j op2 x Hj Hx) as (m & op3 & y & st & Hm). exists m, op3, y, st. rewrite list_lookup_insert_ne; [done|].
    intros ->. rewrite Hi in Hm. injection Hm as <- ->. by destruct (Hn y st).
Qed.

Lemma inv_step live order rs synced applied fl a c c' :
  inv live order rs synced applied fl c -> sleepers applied fl (cf_threads c) -> gc_step a c = Some c' ->
  exists order' rs' synced' applied' fl', inv live order' rs' synced' applied' fl' c' /\
    sleepers applied' fl' (cf_threads c') /\ order `prefix_of` order' /\ applied <= applied'.
Proof.
  destruct c as [threads sh]. intros Hinv Hsl. destruct a as [i deadline|i]; cbn [gc_step cf_threads cf_shared] in *.
  - destruct (threads !! i) as [[op pc]|] eqn:Hi; [|done]. cbn [mbind option_bind].
    destruct (thread_step deadline op pc sh) as [[[pc' sh'] k]|] eqn:Hth; [|done]. intros [= <-].
    assert (Hst : stepped rs synced applied fl op pc sh pc' sh' k).
    { eapply thread_step_spec; [apply Hinv|by eapply (gi_fits _ _ _ _ _ _ _ Hinv)|by eapply (gi_pc _ _ _ _ _ _ _ Hinv)
        |by eapply (gi_lead _ _ _ _ _ _ _ Hinv)| |exact Hth].
      intros ->. pose proof (total_ge is_start _ _ _ Hi) as Hge. change (is_start (op, PStart)) with 1%nat in Hge.
      pose proof (gi_bound _ _ _ _ _ _ _ Hinv). cbn [cf_threads] in *. lia. }
    destruct (inv_insert _ _ _ _ _ _ _ _ _ _ _ _ _ _ Hinv Hi Hst) as (order' & rs' & sy' & ap' & fl' & Hinv' & Hmv & Hpre).
    exists order', rs', sy', ap', fl'. split; [eapply inv_woken; [done|apply wake_all_woken]|].
    split; [by eapply sleepers_step|]. split; [done|]. destruct (mv_applied _ _ _ _ _ _ _ _ _ _ _ _ Hmv) as [->|(-> & _)]; lia.
  - intros E. exists order, rs, synced, applied, fl. destruct (threads !! i) as [[op pc]|] eqn:Hi; [|done].
    assert (exists k, c' = mkConfig (<[i := (op, wake_pc k pc)]> threads) sh /\ (forall y st, pc <> PNotify y st) /\
      forall x, wake_pc k pc <> PFollow x false /\ wake_pc k pc <> PSynced x false) as (k & -> & Hn & Hpc).
    { destruct pc as [|x|x []|x obs|x []|x st|x st|st]; simplify_eq; [exists WakeSync|exists WakeApply]; by split_and!. }
    split; [eapply inv_woken; [done|by apply insert_woken]|]. split; [by apply sleepers_awake|]. split; [done|lia].
Qed.

Lemma inv_run live order rs synced applied fl acts c c' :
  inv live order rs synced applied fl c -> sleepers applied fl (cf_threads c) -> gc_run acts c = Some c' ->
  exists order' rs' synced' applied' fl', inv live order' rs' synced' applied' fl' c' /\
    sleepers applied' fl' (cf_threads c') /\ order `prefix_of` order' /\ applied <= applied'.
Proof.
  revert order rs synced applied fl c. induction acts as [|a acts IH]; intros order rs synced applied fl c Hinv Hsl; cbn [gc_run].
  - intros [= <-]. exists order, rs, synced, applied, fl. split; [done|]. split; [done|]. split; [done|lia].
  - destruct (gc_step a c) as [c1|] eqn:E; [|done]. cbn [mbind option_bind]. intros Hr.
    destruct (inv_step _ _ _ _ _ _ _ _ _ Hinv Hsl E) as (o1 & r1 & s1 & a1 & f1 & Hinv1 & Hsl1 & Hp1 & Ha1).
    destruct (IH _ _ _ _ _ _ Hinv1 Hsl1 Hr) as (o2 & r2 & s2 & a2 & f2 & Hinv2 & Hsl2 & Hp2 & Ha2).
    exists o2, r2, s2, a2, f2. split; [done|]. split; [done|]. split; [by etrans|lia].
Qed.

Lemma total_starts l : total is_start ((fun op => (op, PStart)) <$> l) = length l.
Proof. induction l as [|op l IH]; [done|]. cbn [fmap list_fmap total length]. by rewrite IH. Qed.

Lemma inv_start (live : Prop) d sys :
  ds_inv rs0 d sys -> writes_ok (sys_write sys) -> Forall wop_fits ops -> zlen rs0 + zlen ops < 2 ^ 64 ->
  (live -> Forall (eq None) (sys_fsync sys)) ->
  inv live [] rs0 (zlen rs0) (zlen rs0) false (start ops d sys) /\
  sleepers (zlen rs0) false (cf_threads (start ops d sys)).
Proof.
  intros [Hw Hk Hm Ha] Hws Hfit Hlt Hlive.
  assert (Hstart : forall i op pc, ((fun op => (op, PStart)) <$> ops) !! i = Some (op, pc) -> pc = PStart /\ wop_fits op).
  { intros i op pc Hi. apply list_lookup_fmap_Some in Hi as (op' & [= -> ->] & Hi).
    split; [done|]. rewrite Forall_lookup in Hfit. by eapply Hfit. }
  assert (Hall : ztake (zlen rs0) rs0 = rs0) by (unfold ztake, zlen; by rewrite Nat2Z.id, firstn_all).
  split; [|by constructor; intros i op x Hi; apply Hstart in Hi as [? _]].
  pose proof (zlen_nonneg rs0). constructor; cbn [start cf_threads cf_shared].
  - destruct Hw. constructor; cbn [sh_store sh_sys]; (done || lia || by rewrite Hall).
  - intros i op pc Hi. by apply Hstart in Hi as [_ ?].
  - intros i op pc Hi. by apply Hstart in Hi as [-> _].
  - intros i op pc Hi. by apply Hstart in Hi as [-> _].
  - intros i j op op' pc pc' Hi _ Hl. by apply Hstart in Hi as [-> _].
  - done.
  - constructor.
    + constructor.
    + rewrite <- list_fmap_compose. apply list_fmap_id.
    + constructor.
    + by rewrite app_nil_r.
    + intros i op pc Hi. apply Hstart in Hi as [-> _]. split; [by intros ?%elem_of_nil|by intros [? _]].
    + intros i op pc x Hi Hx. by apply Hstart in Hi as [-> _].
    + intros i op pc st Hi _. left. by apply Hstart in Hi as [-> _].
  - lia.
  - rewrite total_starts. exact Hlt.
  - intros Hl. constructor; cbn; [by apply Hlive|lia|].
    intros i op st Hi. by apply Hstart in Hi as [? _].
Qed.

(** ** Progress and termination *)

Definition finished (pc : Pc) : bool :=
  match pc with PApplied _ _ | PFailed _ => true | _ => false end.

Definition asleep (pc : Pc) : bool :=
  match pc with PFollow _ false | PSynced _ false => true | _ => false end.

(** A thread that is neither finished nor asleep can run. *)
Lemma thread_runs op pc (sh : Shared T) :
  finished pc = false -> asleep pc = false -> is_Some (thread_step true op pc sh).
Proof.
  intros Hf Ha. destruct pc as [|x|x []|x obs|x []|x st|x st|st]; try done; cbn [thread_step].
  - destruct (check_args op); [by eexists|]. destruct (Append _ _ _) as [[? ?] ?]. by eexists.
  - destruct (Sync_follow_ready _ _); by eexists.
  - destruct (Sync_quiet _ _); by eexists.
  - destruct (_ =? _); [|by eexists]. destruct (op_apply _ _). by eexists.
Qed.

(** While a thread is not finished, some thread can run. *)
Lemma progress (live : Prop) order rs synced applied fl c :
  inv live order rs synced applied fl c -> sleepers applied fl (cf_threads c) -> live ->
  (exists i op pc, cf_threads c !! i = Some (op, pc) /\ finished pc = false) ->
  exists i op pc, cf_threads c !! i = Some (op, pc) /\ finished pc = false /\ asleep pc = false.
Proof.
  intros Hinv Hsl Hlive (i & op & pc & Hi & Hfin).
  pose proof Hinv as [Hsh _ Hpcs _ _ Hleader _ _ _ Hlv]. destruct (Hlv Hlive) as [_ Hown _].
  destruct (asleep pc) eqn:Has; [|by exists i, op, pc].
  assert (Hfollow : forall j op x, cf_threads c !! j = Some (op, PFollow x false) ->
    exists i op pc, cf_threads c !! i = Some (op, pc) /\ finished pc = false /\ asleep pc = false).
  { intros j op2 x Hj. apply (sl_follow _ _ _ Hsl) in Hj. destruct (Hleader Hj) as (m & op3 & pc3 & Hm & Hl).
    exists m, op3, pc3. split; [done|]. by destruct pc3. }
  destruct pc as [|x|x []|x obs|x []|x st|x st|st]; try done; [by eapply Hfollow|].
  (* the record after the applied ones has a thread *)
  pose proof (Hpcs _ _ _ Hi) as (_ & Hx & Hsy). pose proof (so_order _ _ _ _ _ Hsh) as Hord.
  destruct (Hown (applied + 1)) as (j & op2 & pc2 & Hj & Hix); [lia|].
  destruct (asleep pc2) eqn:Has2.
  - destruct pc2 as [|y|y []|y obs|y []|y st|y st|st]; try done; [by eapply Hfollow|]. cbn in Hix. simplify_eq.
    destruct (sl_turn _ _ _ Hsl j op2 _ Hj eq_refl) as (m & op3 & y & st & Hm). by exists m, op3, (PNotify y st).
  - exists j, op2, pc2. split; [done|]. split; [|done]. pose proof (Hpcs _ _ _ Hj) as Hok.
    destruct pc2; cbn in *; simplify_eq; try done. lia.
Qed.

(** The weight of a thread among [N]. Each step of a thread lowers it; a notification
    raises the weights of at most [N] sleepers by one, an append also that of the waiting
    leader, which the step pays for. *)
Definition pc_weight (N : nat) (last : Z) (t : WOp * Pc) : nat :=
  match t.2 with
  | PStart => 3 * N + 7
  | PAppended _ => 2 * N + 5
  | PFollow _ awake => if awake then 2 * N + 5 else 2 * N + 4
  | PLead _ observed => if (last =? observed)%Z then 2 * N + 4 else 2 * N + 5
  | PSynced _ awake => if awake then N + 3 else N + 2
  | PNotify _ _ => N + 1
  | PApplied _ _ | PFailed _ => 0
  end%nat.

Definition weight (c : Config T) : nat :=
  total (pc_weight (length (cf_threads c)) (last_index_ (ds_wal (sh_store (cf_shared c))))) (cf_threads c).

Lemma weight_others N last last' (threads : list (WOp * Pc)) :
  (forall i j op op' pc pc', threads !! i = Some (op, pc) -> threads !! j = Some (op', pc') ->
     is_lead pc = true -> is_lead pc' = true -> i = j) ->
  (total (pc_weight N last') threads <= total (pc_weight N last) threads + 1)%nat.
Proof.
  induction threads as [|[op pc] threads IH]; intros Huniq; [cbn; lia|]. cbn [total].
  destruct (is_lead pc) eqn:El.
  - assert (Hrest : total (pc_weight N last') threads = total (pc_weight N last) threads).
    { clear IH. assert (Hno : forall i op' pc', threads !! i = Some (op', pc') -> is_lead pc' = false).
      { intros i op' pc' Hi. destruct (is_lead pc') eqn:El'; [|done].
        specialize (Huniq 0%nat (S i) op op' pc pc' eq_refl Hi El El'). lia. }
      clear Huniq. induction threads as [|[op' pc'] threads IH]; [done|]. cbn [total]. f_equal.
      - specialize (Hno 0%nat op' pc' eq_refl). by destruct pc'.
      - apply IH. intros i. apply (Hno (S i)). }
    rewrite Hrest. destruct pc; try done. unfold pc_weight at 1 3. cbn.
    destruct (last =? observed), (last' =? observed); lia.
  - assert (pc_weight N last' (op, pc) = pc_weight N last (op, pc)) as -> by (by destruct pc).
    assert (total (pc_weight N last') threads <= total (pc_weight N last) threads + 1)%nat; [|lia].
    apply IH. intros i j op1 op2 pc1 pc2 Hi Hj H1' H2'. specialize (Huniq (S i) (S j) op1 op2 pc1 pc2 Hi Hj H1' H2'). lia.
Qed.

(** What a notification costs. *)
Definition wake_cost (N : nat) (k : Wake) : nat := match k with WakeNobody => 0 | _ => N end.

Lemma weight_wake N last k threads :
  (total (pc_weight N last) (wake_all k threads) <= total (pc_weight N last) threads + wake_cost (length threads) k)%nat.
Proof.
  assert (Hone : forall op pc, (pc_weight N last (op, wake_pc k pc) <= pc_weight N last (op, pc) + wake_cost 1 k)%nat).
  { intros op pc. destruct k, pc as [|x|x []|x obs|x []|x st|x st|st]; cbn [wake_pc wake_cost pc_weight snd]; lia. }
  induction threads as [|[op pc] threads IH]; [destruct k; cbn; lia|]. cbn [wake_all fmap list_fmap total length].
  specialize (Hone op pc). fold (wake_all k threads). destruct k; cbn [wake_cost] in *; lia.
Qed.

Lemma flush_last index w s st w' s' : Sync_flush index w s = (st, w', s') -> last_index_ w' = last_index_ w.
Proof. unfold Sync_flush, FsyncNow. destruct (next_answer _) as [[e|] script]; by intros [= <- <- <-]. Qed.

(** The end of a leader's [Sync], and the leader's loop. *)
Lemma flush_weight N op index sh pc' sh' k :
  flush index sh = (pc', sh', k) ->
  last_index_ (ds_wal (sh_store sh')) = last_index_ (ds_wal (sh_store (T := T) sh)) /\
  (pc_weight N (last_index_ (ds_wal (sh_store sh))) (op, pc') + wake_cost N k <= 2 * N + 3)%nat.
Proof.
  unfold flush. destruct (Sync_flush _ _ _) as [[st w] s] eqn:E. intros [= <- <- <-]. apply flush_last in E.
  split; [done|]. destruct (Status_ok st); cbn; lia.
Qed.

Lemma lead_weight N op deadline index obs sh pc' sh' k :
  lead deadline index obs sh = (pc', sh', k) ->
  last_index_ (ds_wal (sh_store sh')) = last_index_ (ds_wal (sh_store (T := T) sh)) /\
  ((pc' = PLead index obs /\ k = WakeNobody) \/
   (pc_weight N (last_index_ (ds_wal (sh_store sh))) (op, pc') + wake_cost N k <= 2 * N + 3)%nat).
Proof.
  unfold lead. destruct (_ && _); [by intros [= <- <- <-]; auto|]. intros E.
  apply (flush_weight N op) in E as [? ?]. auto.
Qed.

Lemma sync_next_weight N op deadline index next sh pc' sh' k :
  sync_next deadline index next sh = (pc', sh', k) ->
  last_index_ (ds_wal (sh_store sh')) = last_index_ (ds_wal (sh_store (T := T) sh)) /\
  (pc_weight N (last_index_ (ds_wal (sh_store sh))) (op, pc') + wake_cost N k <= 2 * N + 4)%nat.
Proof.
  destruct next as [st| |]; cbn [sync_next].
  - intros [= <- <- <-]. split; [done|]. destruct (Status_ok st); cbn; lia.
  - intros [= <- <- <-]. split; [done|]. cbn. lia.
  - intros E. apply (lead_weight N op) in E as [El Hor]. cbn [sh_store set_wal ds_wal set_ds_wal] in El, Hor. split; [done|].
    destruct Hor as [[-> ->]|]; [|cbn [last_index_ Sync_lead set_flush] in *; lia].
    unfold pc_weight. cbn. rewrite Z.eqb_refl. lia.
Qed.

(** A step lowers the weight of its thread, by more than it can cost the others. *)
Lemma thread_step_weight N deadline op pc sh pc' sh' k :
  thread_step deadline op pc sh = Some (pc', sh', k) ->
  let last := last_index_ (ds_wal (sh_store (T := T) sh)) in
  let last' := last_index_ (ds_wal (sh_store sh')) in
  (last' = last /\ pc_weight N last' (op, pc') + wake_cost N k < pc_weight N last (op, pc))%nat \/
  (pc = PStart /\ pc_weight N last' (op, pc') + wake_cost N k + 1 < 3 * N + 7)%nat.
Proof.
  destruct pc as [|i|i []|i obs|i []|i st|i st|st]; cbn [thread_step]; try done; cbv zeta.
  - destruct (check_args op); [intros [= <- <- <-]; right; cbn; (split; [done|lia])|].
    destruct (Append _ _ _) as [[res w] s]. destruct res; intros [= <- <- <-]; right; (split; [done|cbn; lia]).
  - intros [= E]. apply (sync_next_weight N op) in E as [-> Hw]. left. split; [done|]. unfold pc_weight at 2; cbn [snd]. lia.
  - destruct (Sync_follow_ready _ _).
    + intros [= E]. apply (sync_next_weight N op) in E as [-> Hw]. left. split; [done|]. unfold pc_weight at 2; cbn [snd]. lia.
    + intros [= <- <- <-]. left. split; [done|]. cbn. lia.
  - unfold Sync_quiet. destruct (Z.eqb_spec (last_index_ (ds_wal (sh_store sh))) obs) as [Eq|Hne]; intros [= E].
    + apply (flush_weight N op) in E as [-> Hw]. left. split; [done|]. unfold pc_weight at 2; cbn [snd].
      rewrite Eq, Z.eqb_refl. rewrite Eq in Hw. lia.
    + apply (lead_weight N op) in E as [-> Hor]. left. split; [done|].
      unfold pc_weight at 2. cbn [snd]. rewrite (proj2 (Z.eqb_neq _ _)) by done.
      destruct Hor as [[-> ->]|]; [|lia]. unfold pc_weight. cbn. rewrite Z.eqb_refl. lia.
  - destruct (_ =? _).
    + destruct (op_apply _ _). intros [= <- <- <-]. left. cbn. split; [done|lia].
    + intros [= <- <- <-]. left. cbn. split; [done|lia].
  - intros [= <- <- <-]. left. cbn. split; [done|lia].
Qed.

Definition is_spurious (a : Act) : bool := match a with ASpurious _ => true | ARun _ _ => false end.

Lemma step_weight live order rs synced applied fl a c c' :
  inv live order rs synced applied fl c -> gc_step a c = Some c' ->
  length (cf_threads c') = length (cf_threads c) /\
  (weight c' + 1 <= weight c + (if is_spurious a then 2 else 0))%nat.
Proof.
  destruct c as [threads sh]. intros Hinv. unfold weight. destruct a as [i deadline|i]; cbn [gc_step cf_threads cf_shared is_spurious].
  - destruct (threads !! i) as [[op pc]|] eqn:Hi; [|done]. cbn [mbind option_bind].
    destruct (thread_step deadline op pc sh) as [[[pc' sh'] k]|] eqn:Hth; [|done]. intros [= <-]. cbn [cf_threads cf_shared].
    assert (Hlen : length (wake_all k (<[i := (op, pc')]> threads)) = length threads).
    { unfold wake_all. by rewrite length_fmap, length_insert. }
    split; [done|]. rewrite Hlen. apply (thread_step_weight (length threads)) in Hth. cbv zeta in Hth.
    set (last := last_index_ (ds_wal (sh_store sh))) in *. set (last' := last_index_ (ds_wal (sh_store sh'))) in *.
    pose proof (total_insert (pc_weight (length threads) last') _ i _ (op, pc') Hi) as Hsum.
    pose proof (weight_wake (length threads) last' k (<[i := (op, pc')]> threads)) as Hwk. rewrite length_insert in Hwk.
    pose proof (weight_others (length threads) last last' threads (gi_unique _ _ _ _ _ _ _ Hinv)) as Hother.
    destruct Hth as [[El Hlt]|[-> Hlt]]; [rewrite El in *; lia|].
    change (pc_weight (length threads) last' (op, PStart)) with (3 * length threads + 7)%nat in Hsum. lia.
  - destruct (threads !! i) as [[op pc]|] eqn:Hi; [|done]. set (last := last_index_ (ds_wal (sh_store sh))).
    destruct pc as [|x|x []|x obs|x []|x st|x st|st]; try done; intros [= <-]; cbn [cf_threads cf_shared]; rewrite length_insert;
      (split; [done|]); fold last.
    + pose proof (total_insert (pc_weight (length threads) last) _ i _ (op, PFollow x true) Hi) as Hsum.
      cbn [pc_weight snd] in Hsum. lia.
    + pose proof (total_insert (pc_weight (length threads) last) _ i _ (op, PSynced x true) Hi) as Hsum.
      cbn [pc_weight snd] in Hsum. lia.
Qed.

Definition spurious (acts : list Act) : nat := total (fun a => if is_spurious a then 1 else 0)%nat acts.

Lemma run_bounded live order rs synced applied fl acts c c' :
  inv live order rs synced applied fl c -> sleepers applied fl (cf_threads c) -> gc_run acts c = Some c' ->
  (length acts + weight c' <= weight c + 2 * spurious acts)%nat.
Proof.
  revert order rs synced applied fl c. induction acts as [|a acts IH]; intros order rs synced applied fl c Hinv Hsl;
    cbn [gc_run length]; [intros [= <-]; unfold spurious; cbn; lia|].
  destruct (gc_step a c) as [c1|] eqn:E; [|done]. cbn [mbind option_bind]. intros Hr.
  destruct (inv_step _ _ _ _ _ _ _ _ _ Hinv Hsl E) as (o1 & r1 & s1 & a1 & f1 & Hinv1 & Hsl1 & _).
  specialize (IH _ _ _ _ _ _ Hinv1 Hsl1 Hr). apply (step_weight _ _ _ _ _ _ _ _ _ Hinv) in E as [_ E].
  unfold spurious in *. cbn [total]. destruct (is_spurious a); lia.
Qed.

Lemma total_start_weight N last l :
  total (pc_weight N last) ((fun op => (op, PStart)) <$> l) = (length l * (3 * N + 7))%nat.
Proof.
  induction l as [|op l IH]; [done|]. cbn [fmap list_fmap total length].
  change (pc_weight N last (op, PStart)) with (3 * N + 7)%nat. rewrite IH. lia.
Qed.

Lemma weight_start d sys : weight (start ops d sys) = (length ops * (3 * length ops + 7))%nat.
Proof. unfold weight, start. cbn [cf_threads cf_shared]. by rewrite length_fmap, total_start_weight. Qed.

End Threads.

(** ** Properties of group commit *)

(** The map after the operations, one at a time. *)
Definition serial (m : kvmap) (l : list WOp) : kvmap := foldl (fun m op => (spec_wop op m).2) m l.

(** The calls [ops] on a store with the log [rs0] behave as a sequence of calls. [order]:
    the threads that have appended a record; of these the first [n] have been applied. *)
Record serialised (rs0 : list WalRecord) (ops : list WOp) (order : list nat) (n : nat) (c : Config T) : Prop := {
  sr_order : NoDup order /\ Forall (fun i => is_Some (ops !! i)) order;
  sr_ops : (cf_threads c).*1 = ops;
  sr_called : forall i op pc, cf_threads c !! i = Some (op, pc) -> i ∈ order <-> pc <> PStart /\ check_args op = None;
  sr_rejected : forall i op pc st, cf_threads c !! i = Some (op, pc) -> check_args op = Some st -> pc = PStart \/ pc = PFailed st;
  sr_answer : forall i op index st, cf_threads c !! i = Some (op, PApplied index st) ->
    exists k, order !! k = Some i /\ (k < n)%nat /\ st = (spec_wop op (serial (replay rs0) (take k (ordered ops order)))).1;
  sr_map : kv_map (ds_kv (sh_store (cf_shared c))) = serial (replay rs0) (take n (ordered ops order));
  sr_log : f_data (sys_file (sh_sys (cf_shared c))) = encode_log (rs0 ++ log_of (zlen rs0) (ordered ops order));
  sr_crash : forall b, crash_file (sys_file (sh_sys (cf_shared c))) b ->
    exists k t, b = encode_log (rs0 ++ log_of (zlen rs0) (take k (ordered ops order))) ++ t /\ torn_tail t /\ (n <= k)%nat
}.

Lemma log_of_take n l k : log_of n (take k l) = take k (log_of n l).
Proof.
  unfold log_of. apply list_eq. intros i. rewrite list_lookup_imap. destruct (decide (i < k)%nat) as [Hlt|Hge].
  - rewrite !lookup_take_lt by done. by rewrite list_lookup_imap.
  - rewrite !lookup_take_ge by lia. done.
Qed.

(** Replaying the records of the operations is running the operations. *)
Lemma replay_log_of rs n l : replay (rs ++ log_of n l) = serial (replay rs) l.
Proof.
  induction l as [|op l IH] using rev_ind; [by rewrite app_nil_r|].
  rewrite log_of_snoc, app_assoc, replay_snoc, IH. unfold serial. rewrite foldl_app. by destruct op.
Qed.

(** A prefix of the log that holds [rs0]. *)
Lemma log_take rs0 l x : zlen rs0 <= x ->
  ztake x (rs0 ++ log_of (zlen rs0) l) = rs0 ++ log_of (zlen rs0) (take (Z.to_nat (x - zlen rs0)) l).
Proof.
  intros Hx. unfold ztake. rewrite take_app_ge by (unfold zlen in Hx; lia). rewrite log_of_take. do 2 f_equal. unfold zlen. lia.
Qed.

Lemma inv_serialised live rs0 ops order rs synced applied fl c :
  inv rs0 ops live order rs synced applied fl c ->
  serialised rs0 ops order (Z.to_nat (applied - zlen rs0)) c.
Proof.
  intros [Hsh _ Hpcs _ _ _ Hor Hap _ _]. pose proof (or_zlen _ _ _ _ _ Hor) as Hlen. pose proof Hor as [Hnd Hops Hth Hlog Hcalled Hindex Hrej].
  pose proof Hsh as [_ Hval _ _ _ Hord _ (durable & Hf & Hd1 & Hd2) _ _ Hm _].
  assert (Hmap : forall x, zlen rs0 <= x -> replay (ztake x rs) = serial (replay rs0) (take (Z.to_nat (x - zlen rs0)) (ordered ops order)))
    by (intros x Hx; by rewrite Hlog, log_take, replay_log_of).
  constructor; try done.
  - intros i op index st Hi. pose proof (Hindex i op _ index Hi eq_refl) as [Hlt Ho].
    apply Hpcs in Hi as (_ & Hle & Hst). exists (Z.to_nat (index - zlen rs0 - 1)). split; [done|]. split; [lia|].
    rewrite Hst, Hmap by lia. do 4 f_equal. lia.
  - by rewrite Hm, Hmap.
  - unfold sys_file. rewrite Hf. cbn. by rewrite Hlog.
  - intros b (x & y & Hin & Hx & Hy).
    unfold sys_file in Hin. rewrite Hf in Hin. cbn in Hin. apply list_elem_of_singleton in Hin as [= -> ->].
    destruct (log_prefix_cut rs b (Z.to_nat synced)) as (k & t & -> & Ht & Hk); [done|done|by transitivity durable| |].
    { unfold zlen in Hord. lia. }
    exists (k - length rs0)%nat, t. split; [|split; [done|unfold zlen in *; lia]]. f_equal. f_equal.
    replace k with (Z.to_nat (Z.of_nat k)) at 1 by lia. change (take (Z.to_nat ?x) rs) with (ztake x rs).
    rewrite Hlog, log_take by (unfold zlen in *; lia). do 3 f_equal. unfold zlen. lia.
Qed.

(** C14: concurrent writers are serialised by the log. Start any number of Set and Delete
    calls on an open store whose writes succeed (perhaps short or interrupted), with any
    [fsync] failures, and let them interleave in any way, with any spurious wake-ups. At
    every moment there is an order of the calls that have appended a record, the order of
    the log: the memory is the map after the first [n] of them one by one; a call that has
    returned an answer is among these, and the answer is the one the map gives it after the
    calls before it; the log file holds the old records and those of the calls in this
    order; every crash leaves the records of at least the first [n]. Later the order only
    grows at its end, so a call that began after another returned comes after it. *)
Theorem group_commit_serialises (rs0 : list WalRecord) (d : DurableStorage T) (sys : Sys)
    (ops : list WOp) (acts acts' : list Act) (c c' : Config T) :
  ds_inv rs0 d sys -> writes_ok (sys_write sys) -> Forall wop_fits ops -> zlen rs0 + zlen ops < 2 ^ 64 ->
  gc_run acts (start ops d sys) = Some c -> gc_run acts' c = Some c' ->
  exists order n order' n', serialised rs0 ops order n c /\ serialised rs0 ops order' n' c' /\
    order `prefix_of` order' /\ (n <= n')%nat.
Proof.
  intros Hd Hw Hfit Hlt Hr Hr'.
  destruct (inv_start rs0 ops False d sys Hd Hw Hfit Hlt ltac:(done)) as [Hinv Hsl].
  destruct (inv_run _ _ _ _ _ _ _ _ _ _ _ Hinv Hsl Hr) as (o1 & rs1 & s1 & a1 & f1 & Hinv1 & Hsl1 & _).
  destruct (inv_run _ _ _ _ _ _ _ _ _ _ _ Hinv1 Hsl1 Hr') as (o2 & rs2 & s2 & a2 & f2 & Hinv2 & _ & Hp & Ha).
  eexists o1, _, o2, _. split; [by eapply inv_serialised|]. split; [by eapply inv_serialised|]. split; [done|lia].
Qed.

(** No thread can run; what remains is to wait for a spurious wake-up. *)
Definition quiescent (c : Config T) : Prop := forall i deadline, gc_step (ARun i deadline) c = None.

Lemma finished_quiescent (c : Config T) : forallb (fun t => finished t.2) (cf_threads c) = true -> quiescent c.
Proof.
  intros Hf i deadline. cbn [gc_step]. destruct (cf_threads c !! i) as [[op pc]|] eqn:Hi; [|done].
  rewrite forallb_forall in Hf. apply list_elem_of_lookup_2, list_elem_of_In, Hf in Hi. by destruct pc.
Qed.

(** C18: group commit does not deadlock, loses no wake-up and does not run for ever. When
    writes and [fsync] succeed, a schedule of [N] concurrent calls has at most
    [N * (3 * N + 7)] steps and two more for each spurious wake-up; and when no thread can
    run, without counting on a spurious wake-up, every call has applied its write, notified
    the others and returned, except those whose arguments were rejected. *)
Theorem group_commit_terminates (rs0 : list WalRecord) (d : DurableStorage T) (sys : Sys) (ops : list WOp)
    (acts : list Act) (c : Config T) :
  ds_inv rs0 d sys -> writes_ok (sys_write sys) -> Forall (eq None) (sys_fsync sys) ->
  Forall wop_fits ops -> zlen rs0 + zlen ops < 2 ^ 64 -> gc_run acts (start ops d sys) = Some c ->
  (length acts <= length ops * (3 * length ops + 7) + 2 * spurious acts)%nat /\
  (quiescent c -> forall i op pc, cf_threads c !! i = Some (op, pc) ->
     (exists index st, pc = PApplied index st) \/ (exists st, pc = PFailed st /\ check_args op = Some st)).
Proof.
  intros Hd Hw Hfs Hfit Hlt Hr.
  destruct (inv_start rs0 ops True d sys Hd Hw Hfit Hlt ltac:(done)) as [Hinv Hsl]. split.
  - pose proof (run_bounded _ _ _ _ _ _ _ _ _ _ _ Hinv Hsl Hr). rewrite weight_start in *. lia.
  - intros Hq i op pc Hi.
    destruct (inv_run _ _ _ _ _ _ _ _ _ _ _ Hinv Hsl Hr) as (o1 & rs1 & s1 & a1 & f1 & Hinv1 & Hsl1 & _).
    destruct (finished pc) eqn:Ef.
    + destruct pc; try done; [by eauto|]. right. eexists. split; [done|].
      by eapply lv_failed; [apply (gi_live _ _ _ _ _ _ _ _ _ Hinv1)|].
    + destruct (progress _ _ _ _ _ _ _ _ _ Hinv1 Hsl1 I) as (j & op2 & pc2 & Hj & Hf2 & Ha2); [by eauto|].
      destruct (thread_runs op2 pc2 (cf_shared c) Hf2 Ha2) as [[[pc' sh'] k] E]. specialize (Hq j true). cbn [gc_step] in Hq.
      rewrite Hj in Hq. cbn [mbind option_bind] in Hq. by rewrite E in Hq.
Qed.

End Invariant.

#[local] Existing Instance example_libc.
#[local] Existing Instance example_hash.

Definition example_ops : list WOp := [WSet (str "a") (str "1"); WDelete (str "b"); WSet (str "a") (str "2")].

Lemma example_ops_fit : Forall wop_fits example_ops.
Proof. repeat constructor; vm_compute; discriminate. Qed.

(** The third call appends first and leads, the first follows and sleeps; the flush covers
    both and wakes the follower, which waits for its turn, is notified and applies. *)
Definition example_first : list Act :=
  [ARun 2 false; ARun 2 false; ARun 0 false; ARun 0 false; ARun 2 false; ARun 2 true; ARun 0 false; ARun 0 false;
   ARun 2 false; ARun 2 false].
Definition example_rest : list Act :=
  [ARun 0 false; ARun 0 false; ARun 1 false; ARun 1 true; ARun 1 false; ARun 1 false].

Definition example_start : Config ShardedKV := start example_ops fresh_store (fresh_disk []).

(** Where a schedule leads. *)
Definition example_after (acts : list Act) (c : Config ShardedKV) : Config ShardedKV := default c (gc_run acts c).

Lemma example_reached acts c : bool_decide (is_Some (gc_run acts c)) = true -> gc_run acts c = Some (example_after acts c).
Proof. unfold example_after. intros [c' E]%bool_decide_eq_true. by rewrite E. Qed.

Definition example_mid : Config ShardedKV := example_after example_first example_start.
Definition example_end : Config ShardedKV := example_after example_rest example_mid.

Lemma group_commit_serialises_witness :
  cf_threads example_mid !! 2%nat = Some (WSet (str "a") (str "2"), PApplied 1 Status_Ok) /\
  exists order n order' n', serialised [] example_ops order n example_mid /\ serialised [] example_ops order' n' example_end /\
    order `prefix_of` order' /\ (n <= n')%nat.
Proof.
  split; [vm_compute; reflexivity|].
  apply (group_commit_serialises (T := ShardedKV) [] fresh_store (fresh_disk []) example_ops example_first example_rest).
  - apply fresh_store_inv.
  - constructor.
  - apply example_ops_fit.
  - vm_compute. reflexivity.
  - apply (example_reached example_first example_start). vm_compute. reflexivity.
  - apply (example_reached example_rest example_mid). vm_compute. reflexivity.
Defined.

(** Where the whole schedule ends, everybody has returned. *)
Lemma example_end_quiescent : quiescent (example_after (example_first ++ example_rest) example_start).
Proof. apply finished_quiescent. vm_compute. reflexivity. Qed.

Lemma group_commit_terminates_witness :
  let c := example_after (example_first ++ example_rest) example_start in
  length (cf_threads c) = 3%nat /\
  (forall i op pc, cf_threads c !! i = Some (op, pc) ->
    (exists index st, pc = PApplied index st) \/ (exists st, pc = PFailed st /\ check_args op = Some st)).
Proof.
  intros c. split; [vm_compute; reflexivity|].
  destruct (group_commit_terminates (T := ShardedKV) [] fresh_store (fresh_disk []) example_ops (example_first ++ example_rest) c)
    as [_ Hq].
  - apply fresh_store_inv.
  - constructor.
  - constructor.
  - apply example_ops_fit.
  - vm_compute. reflexivity.
  - apply (example_reached (example_first ++ example_rest) example_start). vm_compute. reflexivity.
  - exact (Hq example_end_quiescent).
Defined.
