(* ===== verification/RaftLog.v ===== *)
(** * The Raft log ([src/raft/log.cpp])

    The in-memory entries and the operations that write through to the log file. The
    log borrows the [WalWriter] of the node's [DurableStorage], so the operations take
    and return it, with the operating system's state. *)

From Stdlib Require Import Strings.String.
From S2P Require Import Prelude Common BigEndian Crc32 Os WalRecord WalWriter RaftTypes.

Definition to_record (e : LogEntry) : WalRecord :=
  mkWalRecord (le_term e) (le_index e) (le_op e) (le_key e) (le_value e).
Definition of_record (r : WalRecord) : LogEntry :=
  mkLogEntry (wr_term r) (wr_index r) (wr_op r) (wr_key r) (wr_value r).
Definition set_le_index (i : Z) (e : LogEntry) : LogEntry :=
  mkLogEntry (le_term e) i (le_op e) (le_key e) (le_value e).

(** ** Reading [entries_] *)

Definition Log_Get (entries : list LogEntry) (index : Z) : option LogEntry :=
  if (index =? 0) || (zlen entries <? index) then None
  else
    entry ← entries !! Z.to_nat (index - 1);
    if negb (le_index entry =? index) then None else Some entry.

Definition Log_EntriesFrom (entries : list LogEntry) (index : Z) : list LogEntry :=
  if (index =? 0) || (zlen entries <? index) then [] else zdrop (index - 1) entries.

Definition Log_LastIndex (entries : list LogEntry) : Z :=
  match last entries with None => 0 | Some e => le_index e end.

Definition Log_LastTerm (entries : list LogEntry) : Z :=
  match last entries with None => 0 | Some e => le_term e end.

(** [while (!entries_.empty() && entries_.back().index >= from_index) pop_back();], on
    the reversed vector. *)
Fixpoint pop_while (from_index : Z) (rev_entries : list LogEntry) : list LogEntry :=
  match rev_entries with
  | [] => []
  | e :: rest => if from_index <=? le_index e then pop_while from_index rest else e :: rest
  end.
Definition pop_from (from_index : Z) (entries : list LogEntry) : list LogEntry :=
  reverse (pop_while from_index (reverse entries)).

Section Log.
Context `{Libc}.

Definition Log_Load (data_dir : bytes) (s : Sys) : option (Status * list LogEntry * Sys) :=
  let wal_path := data_dir ++ str "/wal/wal.log" in
  let '(a, s) := open_read s in
  match a with
  | OpenErr e =>
      if e =? ENOENT then Some (Status_Ok, [], s)
      else Some (IoError (str "open " ++ wal_path ++ str ": ") e, [], s)
  | OpenFd _ =>
      let '(reads, s) := take_scan s in
      '(result, entries) ←
        read_wal (f_data (sys_file s)) reads (fun entries record => entries ++ [of_record record]) [];
      Some (result, entries, s)
  end.

(** Status, [entry.index] on success, [entries_], and the shared writer. *)
Definition Log_Append (entry : LogEntry) (entries : list LogEntry) (w : WalWriter) (s : Sys)
    : option (Status * LogEntry * list LogEntry * WalWriter * Sys) :=
  let record := mkWalRecord (le_term entry) 0 (le_op entry) (le_key entry) (le_value entry) in
  let '(appended, w, s) := Append record w s in
  match appended with
  | Failed st => Some (st, entry, entries, w, s)
  | Value index =>
      '(status, w, s) ← Sync index w s;
      if negb (Status_ok status) then Some (status, entry, entries, w, s)
      else
        let entry := set_le_index index entry in
        Some (Status_Ok, entry, entries ++ [entry], w, s)
  end.

Definition Log_TruncateFrom (from_index : Z) (entries : list LogEntry) (w : WalWriter) (s : Sys)
    : Status * list LogEntry * WalWriter * Sys :=
  if from_index =? 0 then
    (Status_Error ErrorCode.kInvalidArgument (str "TruncateFrom(0) would drop the entire log"), entries, w, s)
  else
    let entries := pop_from from_index entries in
    let kept := to_record <$> entries in
    let '(status, w, s) := RewriteAll kept w s in
    (status, entries, w, s).

End Log.

(** ** Well-formed logs: [entries_[i]] holds index [i + 1]. *)

Definition log_wf (entries : list LogEntry) : Prop :=
  forall i e, entries !! i = Some e -> le_index e = Z.of_nat i + 1.

Lemma of_to_record e : of_record (to_record e) = e.
Proof. by destruct e. Qed.

Lemma to_of_record r : to_record (of_record r) = r.
Proof. by destruct r. Qed.

Lemma log_wf_indexed entries : log_wf entries <-> log_indexed (to_record <$> entries).
Proof.
  unfold log_wf, log_indexed. split.
  - intros Hwf i r Hr. apply list_lookup_fmap_Some in Hr as (e & -> & He). by apply Hwf.
  - intros Hi i e He. apply (Hi i (to_record e)). by rewrite list_lookup_fmap, He.
Qed.

Lemma Log_Get_wf entries index :
  log_wf entries ->
  Log_Get entries index = if 1 <=? index then entries !! Z.to_nat (index - 1) else
                          if index =? 0 then None else Log_Get entries index.
Proof.
  intros Hwf. destruct (Z.leb_spec 1 index) as [Hi|Hi].
  - unfold Log_Get. replace (index =? 0) with false by lia. cbn [orb].
    destruct (Z.ltb_spec (zlen entries) index) as [Hgt|Hle].
    + symmetry. apply lookup_ge_None. unfold zlen in Hgt. lia.
    + destruct (entries !! Z.to_nat (index - 1)) as [e|] eqn:E; cbn [mbind option_bind]; [|done].
      apply Hwf in E as He. destruct (Z.eqb_spec (le_index e) index); [done|]. lia.
  - destruct (Z.eqb_spec index 0) as [->|]; [done|done].
Qed.

Lemma Log_Get_pos entries index :
  log_wf entries -> 1 <= index -> Log_Get entries index = entries !! Z.to_nat (index - 1).
Proof. intros Hwf Hi. rewrite Log_Get_wf by done. by replace (1 <=? index) with true by lia. Qed.

Lemma Log_Get_0 entries : Log_Get entries 0 = None.
Proof. done. Qed.

Lemma Log_LastIndex_wf entries : log_wf entries -> Log_LastIndex entries = zlen entries.
Proof.
  intros Hwf. unfold Log_LastIndex. rewrite last_lookup.
  destruct (entries !! pred (length entries)) as [e|] eqn:E.
  - pose proof (lookup_lt_Some _ _ _ E). rewrite (Hwf _ _ E). unfold zlen. lia.
  - apply lookup_ge_None in E. unfold zlen. lia.
Qed.

Lemma Log_EntriesFrom_wf entries index :
  1 <= index -> Log_EntriesFrom entries index = zdrop (index - 1) entries.
Proof.
  intros Hi. unfold Log_EntriesFrom. replace (index =? 0) with false by lia. cbn [orb].
  destruct (Z.ltb_spec (zlen entries) index); [|done]. symmetry. apply zdrop_all. lia.
Qed.

Lemma log_wf_snoc entries e :
  log_wf entries -> le_index e = zlen entries + 1 -> log_wf (entries ++ [e]).
Proof.
  intros Hwf He i x Hx. apply lookup_app_Some in Hx as [Hx|[Hl Hx]]; [by apply Hwf|].
  apply list_lookup_singleton_Some in Hx as [Hi <-]. rewrite He. unfold zlen. lia.
Qed.

Lemma log_wf_take n entries : log_wf entries -> log_wf (take n entries).
Proof. intros Hwf i e He. apply lookup_take_Some in He as [He _]. by apply Hwf. Qed.

Lemma log_wf_ztake n entries : log_wf entries -> log_wf (ztake n entries).
Proof. apply log_wf_take. Qed.

(** On a well-formed log, popping from an index keeps what is before it. *)
Lemma pop_from_wf from_index entries :
  log_wf entries -> 1 <= from_index -> pop_from from_index entries = ztake (from_index - 1) entries.
Proof.
  intros Hwf Hf. unfold pop_from. induction entries as [|e entries IH] using rev_ind.
  - unfold ztake. by rewrite take_nil.
  - rewrite reverse_app. cbn [reverse app pop_while].
    assert (He : le_index e = zlen entries + 1).
    { rewrite (Hwf (length entries) e); [unfold zlen; lia|]. by rewrite lookup_app_r, Nat.sub_diag. }
    change (reverse [e]) with [e]. cbn [app pop_while]. rewrite He.
    assert (Hwf' : log_wf entries).
    { intros i x Hx. apply Hwf. by apply lookup_app_l_Some. }
    destruct (Z.leb_spec from_index (zlen entries + 1)) as [Hle|Hgt].
    + rewrite IH by done. symmetry. apply ztake_app_le. lia.
    + rewrite reverse_cons, reverse_involutive. symmetry. unfold ztake. apply take_ge.
      rewrite length_app. cbn. unfold zlen in Hgt. lia.
Qed.
