(* ===== verification/ClusterConfig.v ===== *)
(** * The cluster configuration file ([src/cluster/cluster_config.cpp])

    The line parser, with the character classification, stream extraction and number
    conversion of the C++ library that it uses ("C" locale), and the validation. *)

From Stdlib Require Import Strings.String.
From S2P Require Import Prelude Common.

(** ** Characters *)

Definition isspace (c : byte) : bool :=
  let z := byte_to_Z c in (z =? 32) || ((9 <=? z) && (z <=? 13)).
Definition isdigit (c : byte) : bool :=
  let z := byte_to_Z c in (48 <=? z) && (z <=? 57).
Definition digit_value (c : byte) : Z := byte_to_Z c - 48.

Definition newline : byte := byte_of_Z 10.
Definition space : byte := byte_of_Z 32.
Definition hash_sign : byte := byte_of_Z 35.
Definition equals_sign : byte := byte_of_Z 61.

Fixpoint drop_while (f : byte -> bool) (s : bytes) : bytes :=
  match s with [] => [] | c :: s' => if f c then drop_while f s' else s end.
Fixpoint take_while (f : byte -> bool) (s : bytes) : bytes :=
  match s with [] => [] | c :: s' => if f c then c :: take_while f s' else [] end.

(** The two loops of [Trim]: from the front, then from the back. *)
Definition Trim (s : bytes) : bytes :=
  reverse (drop_while isspace (reverse (drop_while isspace s))).

(** ** [std::istringstream] extraction *)

(** The characters left, [failbit], [eofbit]. *)
Record istream := mkIstream { is_rest : bytes; is_fail : bool; is_eof : bool }.

Definition istream_of (s : bytes) : istream := mkIstream s false false.

(** The sentry of a formatted extraction: skip white space; the end is a failure. *)
Definition skip_ws (st : istream) : istream :=
  if is_fail st || is_eof st then mkIstream (is_rest st) true (is_eof st)
  else
    let s := drop_while isspace (is_rest st) in
    if is_empty s then mkIstream [] true true else mkIstream s false false.

(** [>> std::string]; [None]: nothing stored. *)
Definition extract_string (st : istream) : bytes * istream :=
  let st := skip_ws st in
  if is_fail st then ([], st)
  else
    let word := take_while (fun c => negb (isspace c)) (is_rest st) in
    let s := drop_while (fun c => negb (isspace c)) (is_rest st) in
    (word, mkIstream s (is_empty word) (is_empty s)).

Definition digits_value (s : bytes) : Z := foldl (fun acc c => acc * 10 + digit_value c) 0 s.

(** [>> n] for a signed integer type: an optional sign, then decimal digits. Without
    digits the extraction fails and stores 0; out of range it fails and stores the
    nearest value of the type. *)
Definition extract_int (lo hi : Z) (st : istream) : Z * istream :=
  let st := skip_ws st in
  if is_fail st then (0, st)
  else
    let '(neg, s) :=
      match is_rest st with
      | c :: s => if byte_to_Z c =? 45 then (true, s) else if byte_to_Z c =? 43 then (false, s) else (false, c :: s)
      | [] => (false, [])
      end in
    let ds := take_while isdigit s in
    let s := drop_while isdigit s in
    let v := if neg then - digits_value ds else digits_value ds in
    if is_empty ds then (0, mkIstream s true (is_empty s))
    else if v <? lo then (lo, mkIstream s true (is_empty s))
    else if hi <? v then (hi, mkIstream s true (is_empty s))
    else (v, mkIstream s false (is_empty s)).

Definition extract_long : istream -> Z * istream := extract_int (- 2 ^ 63) (2 ^ 63 - 1).
Definition extract_i32 : istream -> Z * istream := extract_int (- 2 ^ 31) (2 ^ 31 - 1).

(** [std::stoul] on a string of digits. *)
Definition stoul (s : bytes) : Outcome Z :=
  let v := digits_value s in
  if 2 ^ 64 <=? v then Throws std_out_of_range else Returns v.

(** [std::to_string] of an unsigned value; twenty digits are enough for 64 bits. *)
Fixpoint to_digits (fuel : nat) (v : Z) (acc : bytes) : bytes :=
  match fuel with
  | O => acc
  | S fuel =>
      let acc := byte_of_Z (48 + v mod 10) :: acc in
      if v <? 10 then acc else to_digits fuel (v / 10) acc
  end.
Definition to_string (v : Z) : bytes := to_digits 20 v [].

(** [std::to_string(int)]. *)
Definition to_string_int (v : Z) : bytes := if v <? 0 then str "-" ++ to_string (- v) else to_string v.

(** ** The configuration *)

Record PeerInfo := mkPeerInfo { node_id : Z; host : bytes; port : Z }.

Record ClusterConfig := mkClusterConfig {
  local_node_id : Z;
  leader_node_id : Z;
  peers : list PeerInfo
}.

Definition ClusterConfig_default : ClusterConfig := mkClusterConfig 0 0 [].

#[global] Instance peer_info_eq_dec : EqDecision PeerInfo.
Proof. solve_decision. Defined.

Definition bad_config (what : String.string) (arg : bytes) : Status :=
  Status_Error ErrorCode.kInvalidArgument (str what ++ arg).
Arguments bad_config what%_string_scope arg.

(** [line.rfind("peer", 0) == 0 && (line.size() == 4 || isspace(line[4]))] *)
Definition is_peer_line (line : bytes) : bool :=
  bool_decide (take 4 line = str "peer") &&
  ((zlen line =? 4) || match line !! 4%nat with Some c => isspace c | None => false end).

(** [line.find('=')] *)
Definition find_eq (line : bytes) : option nat := fst <$> list_find (eq equals_sign) line.

Definition ParseLine (raw_line : bytes) (config : ClusterConfig) : Outcome (Status * ClusterConfig) :=
  let line := Trim raw_line in
  if is_empty line || bool_decide (head line = Some hash_sign) then Returns (Status_Ok, config)
  else if is_peer_line line then
    let tokens := istream_of line in
    let '(_, tokens) := extract_string tokens in
    let '(id, tokens) := extract_long tokens in
    let '(h, tokens) := extract_string tokens in
    let '(p, tokens) := extract_i32 tokens in
    if is_fail tokens || negb (is_eof tokens) || (id <=? 0) || (0xFFFFFFFF <? id) || (p <=? 0) || (0xFFFF <? p)
    then Returns (bad_config "malformed peer line: " raw_line, config)
    else Returns (Status_Ok, mkClusterConfig (local_node_id config) (leader_node_id config)
                               (peers config ++ [mkPeerInfo (u32 id) h (u16 p)]))
  else
    match find_eq line with
    | None => Returns (bad_config "unrecognized config line: " raw_line, config)
    | Some eq =>
        let key := Trim (take eq line) in
        let value := Trim (drop (S eq) line) in
        if is_empty value || negb (forallb isdigit value)
        then Returns (bad_config "malformed value in line: " raw_line, config)
        else
          match stoul value with
          | Throws e => Throws e
          | Returns v =>
              let parsed := u32 v in
              if bool_decide (key = str "node_id") then
                Returns (Status_Ok, mkClusterConfig parsed (leader_node_id config) (peers config))
              else if bool_decide (key = str "leader_id") then
                Returns (Status_Ok, mkClusterConfig (local_node_id config) parsed (peers config))
              else Returns (bad_config "unknown config key: " key, config)
          end
    end.

(** The loop over the peers: a duplicate ends it; otherwise whether the local node and
    the leader were seen. *)
Fixpoint validate_peers (config : ClusterConfig) (ps : list PeerInfo) (seen_local seen_leader : bool)
    : Result (bool * bool) :=
  match ps with
  | [] => Value (seen_local, seen_leader)
  | peer :: rest =>
      if existsb (fun p => node_id p =? node_id peer) rest
      then Failed (bad_config "duplicate peer id " (to_string (node_id peer)))
      else
        let seen_local := if node_id peer =? local_node_id config then true else seen_local in
        let seen_leader := if node_id peer =? leader_node_id config then true else seen_leader in
        validate_peers config rest seen_local seen_leader
  end.

Definition Validate (config : ClusterConfig) : Status :=
  if local_node_id config =? 0 then bad_config "cluster config missing node_id" []
  else if is_empty (peers config) then bad_config "cluster config has no peers" []
  else
    match validate_peers config (peers config) false (leader_node_id config =? 0) with
    | Failed st => st
    | Value (seen_local, seen_leader) =>
        if negb seen_local then bad_config "local node_id is not in the peer list" []
        else if negb seen_leader then bad_config "leader_id is not in the peer list" []
        else Status_Ok
    end.

Definition FindPeer (config : ClusterConfig) (id : Z) : option PeerInfo :=
  snd <$> list_find (fun p => node_id p = id) (peers config).

(** [std::getline] until it fails: the lines of the file. *)
Fixpoint lines_of (cur : bytes) (s : bytes) : list bytes :=
  match s with
  | [] => if is_empty cur then [] else [cur]
  | c :: s => if bool_decide (c = newline) then cur :: lines_of [] s else lines_of (cur ++ [c]) s
  end.

(** The loop over the lines, with its early return. *)
Fixpoint parse_lines (lines : list bytes) (config : ClusterConfig) : Outcome (Status * ClusterConfig) :=
  match lines with
  | [] => Returns (Status_Ok, config)
  | line :: lines =>
      match ParseLine line config with
      | Throws e => Throws e
      | Returns (status, config) =>
          if negb (Status_ok status) then Returns (status, config) else parse_lines lines config
      end
  end.

(** [file]: the contents of the file at [path], if it can be opened. *)
Definition LoadClusterConfig (path : bytes) (file : option bytes) (out : ClusterConfig)
    : Outcome (Status * ClusterConfig) :=
  match file with
  | None => Returns (Status_Error ErrorCode.kIOError (str "open cluster config: " ++ path), out)
  | Some contents =>
      match parse_lines (lines_of [] contents) ClusterConfig_default with
      | Throws e => Throws e
      | Returns (status, config) =>
          if negb (Status_ok status) then Returns (status, out)
          else
            let status := Validate config in
            if negb (Status_ok status) then Returns (status, out) else Returns (Status_Ok, config)
      end
  end.

(** ** What a loaded configuration satisfies *)

Definition peer_ok (p : PeerInfo) : Prop := 1 <= node_id p < 2 ^ 32 /\ 1 <= port p < 2 ^ 16.

(** The Raft layer's assumptions on its configuration. *)
Record config_ok (c : ClusterConfig) : Prop := {
  co_local : local_node_id c <> 0 /\ local_node_id c ∈ node_id <$> peers c;
  co_leader : leader_node_id c = 0 \/ leader_node_id c ∈ node_id <$> peers c;
  co_nodup : NoDup (node_id <$> peers c);
  co_peers : Forall peer_ok (peers c)
}.

Lemma ParseLine_peers raw config st config' :
  ParseLine raw config = Returns (st, config') -> Forall peer_ok (peers config) -> Forall peer_ok (peers config').
Proof.
  unfold ParseLine. intros H Hp. repeat case_match; simplify_eq; try done.
  cbn. apply Forall_app. split; [done|]. constructor; [|done].
  match goal with H : _ || _ = false |- _ => repeat (apply orb_false_iff in H as [H ?]) end.
  unfold peer_ok, u32, u16. cbn. rewrite !Z.mod_small by lia. lia.
Qed.

Lemma parse_lines_peers lines config st config' :
  parse_lines lines config = Returns (st, config') -> Forall peer_ok (peers config) -> Forall peer_ok (peers config').
Proof.
  revert config. induction lines as [|l lines IH]; intros config; cbn [parse_lines]; [by intros [= <- <-]|].
  destruct (ParseLine l config) as [[s c]|e] eqn:E; [|done].
  intros H Hp. apply ParseLine_peers in E; [|done]. destruct (negb _); [by simplify_eq|]. by eapply IH.
Qed.

Lemma existsb_node_id id ps :
  existsb (fun p => node_id p =? id) ps = false <-> id ∉ node_id <$> ps.
Proof.
  induction ps as [|p ps IH]; cbn; [split; [intros _ []%elem_of_nil|done]|].
  rewrite orb_false_iff, IH, not_elem_of_cons, Z.eqb_neq. split; intros [? ?]; split; congruence.
Qed.

Lemma validate_peers_spec config ps a b a' b' :
  validate_peers config ps a b = Value (a', b') ->
  NoDup (node_id <$> ps) /\
  (a' = true -> a = true \/ local_node_id config ∈ node_id <$> ps) /\
  (b' = true -> b = true \/ leader_node_id config ∈ node_id <$> ps).
Proof.
  revert a b. induction ps as [|p ps IH]; intros a b; cbn [validate_peers].
  - intros [= <- <-]. split; [constructor|]. auto.
  - destruct (existsb _ ps) eqn:E; [done|]. apply existsb_node_id in E. intros H.
    apply IH in H as (Hnd & Ha & Hb). split; [by constructor|]. cbn. rewrite !elem_of_cons.
    split; intros H; [specialize (Ha H)|specialize (Hb H)].
    + destruct (Z.eqb_spec (node_id p) (local_node_id config)); [by auto|tauto].
    + destruct (Z.eqb_spec (node_id p) (leader_node_id config)); [by auto|tauto].
Qed.

Lemma bad_config_not_ok what arg : Status_ok (bad_config what arg) = false.
Proof. done. Qed.

Lemma Validate_ok config :
  Status_ok (Validate config) = true -> Forall peer_ok (peers config) -> config_ok config.
Proof.
  unfold Validate. intros H Hp.
  destruct (Z.eqb_spec (local_node_id config) 0); [done|].
  destruct (is_empty (peers config)); [done|].
  destruct (validate_peers config (peers config) false (leader_node_id config =? 0)) as [[a b]|st] eqn:E.
  - apply validate_peers_spec in E as (Hnd & Ha & Hb).
    destruct a; [|done]. destruct b; [|done]. split; [|..|done|done].
    + split; [done|]. by destruct (Ha eq_refl).
    + destruct (Hb eq_refl); [left; lia|by right].
  - exfalso. clear Hp. revert E H. generalize false, (leader_node_id config =? 0).
    induction (peers config) as [|p ps IH]; intros x y; cbn [validate_peers]; [done|].
    destruct (existsb _ ps); [by intros [= <-]|]. apply IH.
Qed.

Lemma LoadClusterConfig_ok (path contents : bytes) (out config : ClusterConfig) :
  LoadClusterConfig path (Some contents) out = Returns (Status_Ok, config) -> config_ok config.
Proof.
  unfold LoadClusterConfig.
  destruct (parse_lines _ _) as [[st c]|e] eqn:E; [|done].
  destruct (Status_ok st) eqn:Es; cbn [negb]; [|intros [= -> _]; done].
  destruct (Status_ok (Validate c)) eqn:Ev; cbn [negb]; [|intros [= H _]; rewrite H in Ev; done].
  intros [= <-]. apply Validate_ok; [done|]. eapply parse_lines_peers; [exact E|]. constructor.
Qed.

(** A configuration that loads is one Raft can run on. Whatever the file holds, if
    loading reports success then every peer has a non-zero 32-bit id and a non-zero
    16-bit port, no id occurs twice, the local node is a peer, and the bootstrap leader,
    if there is one, is a peer. *)
Theorem loaded_config_ok (path contents : bytes) (out config : ClusterConfig) :
  LoadClusterConfig path (Some contents) out = Returns (Status_Ok, config) -> config_ok config.
Proof. apply LoadClusterConfig_ok. Qed.

Definition example_config : ClusterConfig :=
  mkClusterConfig 2 1 [mkPeerInfo 1 (str "a") 7400; mkPeerInfo 2 (str "b") 7401].

Definition example_file : bytes :=
  str "# cluster" ++ [newline] ++ str "node_id = 2" ++ [newline] ++ str "leader_id=1" ++ [newline] ++ [newline] ++
  str "peer 1 a 7400" ++ [newline] ++ str "  peer 2  b 7401 ".

Lemma loaded_config_ok_witness :
  LoadClusterConfig (str "cluster.conf") (Some example_file) ClusterConfig_default =
    Returns (Status_Ok, example_config) /\ config_ok example_config.
Proof.
  split; [vm_compute; reflexivity|].
  apply (loaded_config_ok (str "cluster.conf") example_file ClusterConfig_default). vm_compute. reflexivity.
Defined.

(** The id of a configuration is truncated silently. [node_id=4294967298] is
    accepted as node 2, and a value of twenty-one digits ends the process with an
    exception instead of an error status. *)
Theorem node_id_truncated :
  LoadClusterConfig (str "cluster.conf")
    (Some (str "node_id=4294967298" ++ [newline] ++ str "peer 2 b 7401")) ClusterConfig_default =
    Returns (Status_Ok, mkClusterConfig 2 0 [mkPeerInfo 2 (str "b") 7401]) /\
  LoadClusterConfig (str "cluster.conf")
    (Some (str "node_id=100000000000000000000" ++ [newline] ++ str "peer 2 b 7401")) ClusterConfig_default =
    Throws std_out_of_range.
Proof. vm_compute. done. Qed.

(** ** Writing a configuration in the documented format, and loading it back *)

Definition print_peer (p : PeerInfo) : bytes :=
  str "peer " ++ to_string (node_id p) ++ [space] ++ host p ++ [space] ++ to_string (port p).

Definition print_config (c : ClusterConfig) : bytes :=
  str "node_id=" ++ to_string (local_node_id c) ++ [newline] ++
  str "leader_id=" ++ to_string (leader_node_id c) ++ [newline] ++
  concat ((fun p => print_peer p ++ [newline]) <$> peers c).

(** A host name: not empty, no white space. *)
Definition host_ok (h : bytes) : Prop := h <> [] /\ Forall (fun c => isspace c = false) h.

Lemma digits_value_snoc ds d : digits_value (ds ++ [d]) = digits_value ds * 10 + digit_value d.
Proof. unfold digits_value. by rewrite foldl_snoc. Qed.

Lemma digit_char d : 0 <= d < 10 ->
  isdigit (byte_of_Z (48 + d)) = true /\ digit_value (byte_of_Z (48 + d)) = d.
Proof.
  intros Hd. unfold isdigit, digit_value. rewrite byte_to_of_Z, Z.mod_small by lia. split; lia.
Qed.

Lemma to_digits_spec fuel v acc :
  0 <= v < 10 ^ Z.of_nat fuel -> (0 < fuel)%nat ->
  exists ds, to_digits fuel v acc = ds ++ acc /\ ds <> [] /\ Forall (fun c => isdigit c = true) ds /\
    digits_value ds = v.
Proof.
  revert v acc. induction fuel as [|fuel IH]; intros v acc Hv Hf; [lia|]. cbn [to_digits].
  assert (Hm : 0 <= v mod 10 < 10) by (apply Z.mod_pos_bound; lia).
  destruct (digit_char _ Hm) as [Hd Hdv].
  destruct (Z.ltb_spec v 10) as [Hlt|Hge].
  - exists [byte_of_Z (48 + v mod 10)]. split; [done|]. split; [done|]. split; [by constructor|].
    unfold digits_value. cbn. rewrite Hdv, Z.mod_small by lia. done.
  - rewrite Nat2Z.inj_succ, Z.pow_succ_r in Hv by lia.
    assert (Hq : 0 <= v / 10 < 10 ^ Z.of_nat fuel).
    { split; [apply Z.div_pos; lia|]. apply Z.div_lt_upper_bound; lia. }
    destruct fuel as [|fuel]; [cbn in Hq; assert (v / 10 = 0) by lia; assert (1 <= v / 10) by (apply Z.div_le_lower_bound; lia); lia|].
    destruct (IH (v / 10) (byte_of_Z (48 + v mod 10) :: acc) Hq ltac:(lia)) as (ds & E & Hne & Hall & Hval).
    exists (ds ++ [byte_of_Z (48 + v mod 10)]). rewrite E, <- app_assoc. split; [done|].
    split; [by destruct ds|]. split; [apply Forall_app; split; [done|by constructor]|].
    rewrite digits_value_snoc, Hval, Hdv. pose proof (Z.div_mod v 10). lia.
Qed.

(** [to_string] is a non-empty string of digits with the value it was given. *)
Lemma to_string_spec v : 0 <= v < 2 ^ 32 ->
  to_string v <> [] /\ Forall (fun c => isdigit c = true) (to_string v) /\ digits_value (to_string v) = v.
Proof.
  intros Hv. destruct (to_digits_spec 20 v []) as (ds & E & ? & ? & ?); [|lia|].
  { split; [lia|]. apply Z.lt_trans with (2 ^ 32); [lia|]. vm_compute. done. }
  unfold to_string. rewrite E, app_nil_r. done.
Qed.

Lemma isdigit_not_space c : isdigit c = true -> isspace c = false.
Proof. unfold isdigit, isspace. lia. Qed.

Lemma take_while_app f (a b : bytes) :
  Forall (fun c => f c = true) a -> match b with [] => True | c :: _ => f c = false end ->
  take_while f (a ++ b) = a /\ drop_while f (a ++ b) = b.
Proof.
  induction 1 as [|c a Hc Ha IH]; intros Hb.
  - destruct b as [|c b]; [done|]. cbn. by rewrite Hb.
  - cbn. rewrite Hc. destruct (IH Hb) as [-> ->]. done.
Qed.

Lemma drop_while_id f (s : bytes) :
  match s with [] => True | c :: _ => f c = false end -> drop_while f s = s.
Proof. destruct s as [|c s]; [done|]. intros Hc. cbn [drop_while]. by rewrite Hc. Qed.

(** A line that begins and ends with other characters than white space. *)
Definition tight (s : bytes) : Prop :=
  (exists c s', s = c :: s' /\ isspace c = false) /\ (exists c s', s = s' ++ [c] /\ isspace c = false).

Lemma Trim_tight s : tight s -> Trim s = s.
Proof.
  intros [(c & s1 & E1 & H1) (d & s2 & E2 & H2)]. unfold Trim.
  rewrite (drop_while_id isspace s) by (by rewrite E1).
  rewrite (drop_while_id isspace (reverse s)); [apply reverse_involutive|].
  by rewrite E2, reverse_snoc.
Qed.

Lemma Trim_digits ds : ds <> [] -> Forall (fun c => isdigit c = true) ds -> Trim ds = ds.
Proof.
  intros Hne Hd. apply Trim_tight. split.
  - destruct ds as [|c ds]; [done|]. apply Forall_cons in Hd as [Hc _]. exists c, ds.
    split; [done|by apply isdigit_not_space].
  - destruct ds as [|c ds _] using rev_ind; [done|]. apply Forall_app in Hd as [_ Hd].
    apply Forall_cons in Hd as [Hd _]. exists c, ds. split; [done|]. apply isdigit_not_space, Hd.
Qed.

(** ** Reading the printed lines back *)

Lemma extract_string_word word rest :
  word <> [] -> Forall (fun c => isspace c = false) word ->
  match rest with [] => True | c :: _ => isspace c = true end ->
  forall lead, Forall (fun c => isspace c = true) lead ->
  extract_string (mkIstream (lead ++ word ++ rest) false false) = (word, mkIstream rest false (is_empty rest)).
Proof.
  intros Hne Hw Hr lead Hl. unfold extract_string, skip_ws. cbn [is_fail is_eof is_rest orb].
  destruct (take_while_app isspace lead (word ++ rest) Hl) as [_ ->].
  { destruct word as [|c word]; [done|]. by apply Forall_cons in Hw as [? _]. }
  replace (is_empty (word ++ rest)) with false by (by destruct word). cbn [is_fail is_rest].
  destruct (take_while_app (fun c => negb (isspace c)) word rest) as [-> ->].
  { eapply Forall_impl; [exact Hw|]. by intros c ->. }
  { destruct rest as [|c rest]; [done|]. by rewrite Hr. }
  by replace (is_empty word) with false by (by destruct word).
Qed.

Lemma extract_int_digits lo hi ds rest :
  ds <> [] -> Forall (fun c => isdigit c = true) ds -> lo <= digits_value ds <= hi ->
  match rest with [] => True | c :: _ => isspace c = true end ->
  extract_int lo hi (mkIstream (space :: ds ++ rest) false false) =
    (digits_value ds, mkIstream rest false (is_empty rest)).
Proof.
  intros Hne Hd Hv Hr. unfold extract_int, skip_ws. cbn [is_fail is_eof is_rest orb].
  change (drop_while isspace (space :: ds ++ rest)) with (drop_while isspace (ds ++ rest)).
  destruct ds as [|c ds]; [done|]. pose proof Hd as Hd'. apply Forall_cons in Hd' as [Hc _].
  rewrite (drop_while_id isspace ((c :: ds) ++ rest)) by (cbn; by apply isdigit_not_space).
  cbn [app is_empty is_fail is_rest]. unfold isdigit in Hc.
  replace (byte_to_Z c =? 45) with false by lia. replace (byte_to_Z c =? 43) with false by lia.
  change (c :: ds ++ rest) with ((c :: ds) ++ rest).
  destruct (take_while_app isdigit (c :: ds) rest) as [-> ->]; [done| |].
  { destruct rest as [|x rest]; [done|]. unfold isspace in Hr. unfold isdigit. lia. }
  cbn [is_empty]. replace (digits_value (c :: ds) <? lo) with false by lia.
  by replace (hi <? digits_value (c :: ds)) with false by lia.
Qed.

Lemma digits_no_space ds :
  Forall (fun c => isdigit c = true) ds -> Forall (fun c => isspace c = false) ds.
Proof. intros H. eapply Forall_impl; [exact H|]. apply isdigit_not_space. Qed.

Lemma print_peer_line p config :
  peer_ok p -> host_ok (host p) ->
  ParseLine (print_peer p) config =
    Returns (Status_Ok, mkClusterConfig (local_node_id config) (leader_node_id config) (peers config ++ [p])).
Proof.
  intros [Hid Hport] [Hhne Hh].
  destruct (to_string_spec (node_id p)) as (Hine & Hids & Hidv); [lia|].
  destruct (to_string_spec (port p)) as (Hpne & Hps & Hpv); [lia|].
  assert (Htight : tight (print_peer p)).
  { split; [by exists (byte_of_Z 112), (str "eer " ++ to_string (node_id p) ++ [space] ++ host p ++ [space] ++ to_string (port p))|].
    destruct (to_string (port p)) as [|c ds _] eqn:E using rev_ind; [done|].
    apply Forall_app in Hps as [_ Hc]. apply Forall_cons in Hc as [Hc _].
    exists c, (str "peer " ++ to_string (node_id p) ++ [space] ++ host p ++ [space] ++ ds).
    split; [|apply isdigit_not_space, Hc]. unfold print_peer. rewrite E. by rewrite <- !app_assoc. }
  unfold ParseLine. rewrite (Trim_tight _ Htight).
  change (is_empty (print_peer p)) with false.
  change (bool_decide (head (print_peer p) = Some hash_sign)) with false. cbn [orb].
  assert (is_peer_line (print_peer p) = true) as ->.
  { unfold is_peer_line, print_peer. cbn. by rewrite orb_true_r. }
  unfold istream_of, print_peer.
  set (r1 := to_string (node_id p) ++ [space] ++ host p ++ [space] ++ to_string (port p)).
  change (str "peer " ++ r1) with ([] ++ str "peer" ++ space :: r1).
  rewrite (extract_string_word (str "peer") (space :: r1)) by first [done | repeat constructor].
  unfold r1, extract_long. cbn [is_empty app].
  rewrite (extract_int_digits (- 2 ^ 63) (2 ^ 63 - 1) (to_string (node_id p)) (space :: host p ++ space :: to_string (port p)) Hine Hids ltac:(rewrite Hidv; lia) eq_refl).
  cbn [is_empty]. change (space :: host p ++ ?r) with ([space] ++ host p ++ r).
  rewrite (extract_string_word (host p) (space :: to_string (port p))) by first [done | repeat constructor].
  cbn [is_empty]. unfold extract_i32. rewrite <- (app_nil_r (to_string (port p))) at 1.
  rewrite (extract_int_digits (- 2 ^ 31) (2 ^ 31 - 1) (to_string (port p)) [] Hpne Hps ltac:(rewrite Hpv; lia) I).
  cbn [is_fail is_eof is_empty orb negb]. rewrite Hidv, Hpv.
  replace (node_id p <=? 0) with false by lia. replace (0xFFFFFFFF <? node_id p) with false by lia.
  replace (port p <=? 0) with false by lia. replace (0xFFFF <? port p) with false by lia. cbn [orb].
  unfold u32, u16. rewrite !Z.mod_small by lia. by destruct p.
Qed.

Lemma print_tight (prefix ds : bytes) c s :
  prefix = c :: s -> isspace c = false -> ds <> [] -> Forall (fun c => isdigit c = true) ds ->
  tight (prefix ++ ds).
Proof.
  intros -> Hc Hne Hd. split; [by exists c, (s ++ ds)|].
  destruct ds as [|d ds _] using rev_ind; [done|]. apply Forall_app in Hd as [_ Hd].
  apply Forall_cons in Hd as [Hd _]. exists d, ((c :: s) ++ ds). split; [by rewrite <- app_assoc|].
  apply isdigit_not_space, Hd.
Qed.

Lemma forallb_digits ds : Forall (fun c => isdigit c = true) ds -> forallb isdigit ds = true.
Proof. induction 1 as [|c ds Hc _ IH]; [done|]. cbn. by rewrite Hc. Qed.

Lemma print_key_line config v :
  0 <= v < 2 ^ 32 ->
  ParseLine (str "node_id=" ++ to_string v) config =
    Returns (Status_Ok, mkClusterConfig v (leader_node_id config) (peers config)) /\
  ParseLine (str "leader_id=" ++ to_string v) config =
    Returns (Status_Ok, mkClusterConfig (local_node_id config) v (peers config)).
Proof.
  intros Hv. destruct (to_string_spec v Hv) as (Hne & Hd & Hval).
  assert (He : is_empty (to_string v) = false) by (by destruct (to_string v)).
  assert (Hst : stoul (to_string v) = Returns v).
  { unfold stoul. rewrite Hval. by replace (2 ^ 64 <=? v) with false by lia. }
  assert (Hu : u32 v = v) by (apply Z.mod_small; lia).
  unfold ParseLine. split.
  - rewrite (Trim_tight (str "node_id=" ++ to_string v)) by (by eapply print_tight).
    change (is_empty (str "node_id=" ++ to_string v)) with false.
    change (bool_decide (head (str "node_id=" ++ to_string v) = Some hash_sign)) with false.
    change (is_peer_line (str "node_id=" ++ to_string v)) with false.
    change (find_eq (str "node_id=" ++ to_string v)) with (Some 7%nat). cbn [orb]. cbv iota beta zeta.
    change (drop 8 (str "node_id=" ++ to_string v)) with (to_string v).
    change (Trim (take 7 (str "node_id=" ++ to_string v))) with (str "node_id").
    rewrite Trim_digits, He, forallb_digits, Hst, Hu by done. done.
  - rewrite (Trim_tight (str "leader_id=" ++ to_string v)) by (by eapply print_tight).
    change (is_empty (str "leader_id=" ++ to_string v)) with false.
    change (bool_decide (head (str "leader_id=" ++ to_string v) = Some hash_sign)) with false.
    change (is_peer_line (str "leader_id=" ++ to_string v)) with false.
    change (find_eq (str "leader_id=" ++ to_string v)) with (Some 9%nat). cbn [orb]. cbv iota beta zeta.
    change (drop 10 (str "leader_id=" ++ to_string v)) with (to_string v).
    change (Trim (take 9 (str "leader_id=" ++ to_string v))) with (str "leader_id").
    rewrite Trim_digits, He, forallb_digits, Hst, Hu by done. done.
Qed.

Lemma lines_of_line cur line rest :
  newline ∉ line -> lines_of cur (line ++ [newline] ++ rest) = (cur ++ line) :: lines_of [] rest.
Proof.
  revert cur. induction line as [|c line IH]; intros cur Hn.
  - cbn [app lines_of]. rewrite bool_decide_true by done. by rewrite app_nil_r.
  - apply not_elem_of_cons in Hn as [Hc Hn]. cbn [app lines_of].
    rewrite bool_decide_false by congruence.
    change (line ++ newline :: rest) with (line ++ [newline] ++ rest).
    rewrite (IH (cur ++ [c]) Hn). by rewrite <- app_assoc.
Qed.

Lemma no_newline s : Forall (fun c => isspace c = false) s -> newline ∉ s.
Proof. intros Hs Hin. rewrite Forall_forall in Hs. discriminate (Hs _ Hin). Qed.

Lemma no_newline_constants : (newline ∉ str "peer ") /\ newline ∉ [space].
Proof. split; apply (bool_decide_eq_true_1 _); vm_compute; reflexivity. Qed.

Lemma print_peers_lines ps :
  Forall peer_ok ps -> Forall (fun p => host_ok (host p)) ps ->
  lines_of [] (concat ((fun p => print_peer p ++ [newline]) <$> ps)) = print_peer <$> ps.
Proof.
  intros Hok Hhost. induction ps as [|p ps IH]; [done|].
  apply Forall_cons in Hok as [Hp Hok]. apply Forall_cons in Hhost as [Hh Hhost].
  cbn [fmap list_fmap concat]. rewrite <- app_assoc, lines_of_line; [by rewrite <- IH|].
  destruct Hp as [Hid Hport]. destruct Hh as [_ Hh].
  destruct (to_string_spec (node_id p)) as (_ & Hids & _); [lia|].
  destruct (to_string_spec (port p)) as (_ & Hps & _); [lia|].
  unfold print_peer. rewrite !not_elem_of_app.
  split; [exact (proj1 no_newline_constants)|].
  split; [exact (no_newline _ (digits_no_space _ Hids))|]. split; [exact (proj2 no_newline_constants)|].
  split; [exact (no_newline _ Hh)|]. split; [exact (proj2 no_newline_constants)|].
  exact (no_newline _ (digits_no_space _ Hps)).
Qed.

Lemma parse_printed_peers ps config :
  Forall peer_ok ps -> Forall (fun p => host_ok (host p)) ps ->
  parse_lines (print_peer <$> ps) config =
    Returns (Status_Ok, mkClusterConfig (local_node_id config) (leader_node_id config) (peers config ++ ps)).
Proof.
  intros Hok Hhost. revert config. induction ps as [|p ps IH]; intros config.
  - cbn. rewrite app_nil_r. by destruct config.
  - apply Forall_cons in Hok as [Hp Hok]. apply Forall_cons in Hhost as [Hh Hhost].
    cbn [fmap list_fmap parse_lines]. rewrite print_peer_line by done. rewrite Status_ok_Ok. cbn [negb].
    rewrite IH by done. cbn. by rewrite <- app_assoc.
Qed.

Lemma validate_peers_nodup config ps a b :
  NoDup (node_id <$> ps) ->
  exists a' b', validate_peers config ps a b = Value (a', b') /\
    (a = true \/ local_node_id config ∈ node_id <$> ps -> a' = true) /\
    (b = true \/ leader_node_id config ∈ node_id <$> ps -> b' = true).
Proof.
  revert a b. induction ps as [|p ps IH]; intros a b Hnd; cbn [validate_peers].
  - exists a, b. split; [done|]. by split; intros [?|[]%elem_of_nil].
  - cbn in Hnd. apply NoDup_cons in Hnd as [Hp Hnd]. rewrite (proj2 (existsb_node_id _ _) Hp).
    destruct (IH (if node_id p =? local_node_id config then true else a)
      (if node_id p =? leader_node_id config then true else b) Hnd) as (a' & b' & E & Ha & Hb).
    exists a', b'. split; [exact E|].
    cbn. rewrite !elem_of_cons. split; intros H; [apply Ha|apply Hb].
    + destruct (Z.eqb_spec (node_id p) (local_node_id config)); [by left|]. intuition congruence.
    + destruct (Z.eqb_spec (node_id p) (leader_node_id config)); [by left|]. intuition congruence.
Qed.

Lemma Validate_complete config : config_ok config -> Validate config = Status_Ok.
Proof.
  intros [[Hl Hlin] Hleader Hnd Hps]. unfold Validate.
  rewrite (proj2 (Z.eqb_neq _ _)) by done.
  replace (is_empty (peers config)) with false by (destruct (peers config); [by apply elem_of_nil in Hlin|done]).
  destruct (validate_peers_nodup config (peers config) false (leader_node_id config =? 0) Hnd)
    as (a & b & -> & Ha & Hb).
  rewrite Ha by (by right). rewrite Hb; [done|].
  destruct Hleader as [->|]; [by left|by right].
Qed.

(** C40: the file format round-trips. A configuration that satisfies Raft's assumptions,
    with host names that are words, written as [node_id=], [leader_id=] and [peer] lines,
    loads back as itself, whatever [out] held. *)
Theorem config_roundtrip (path : bytes) (config out : ClusterConfig) :
  config_ok config -> Forall (fun p => host_ok (host p)) (peers config) ->
  LoadClusterConfig path (Some (print_config config)) out = Returns (Status_Ok, config).
Proof.
  intros Hok Hhost. pose proof Hok as [[Hl Hlin] Hleader Hnd Hps].
  assert (Hrange : forall id, id ∈ node_id <$> peers config -> 0 <= id < 2 ^ 32).
  { intros id Hin. apply list_elem_of_fmap in Hin as (p & -> & Hp).
    rewrite Forall_forall in Hps. destruct (Hps p Hp) as [Hid _]. lia. }
  assert (Hl32 : 0 <= local_node_id config < 2 ^ 32) by (by apply Hrange).
  assert (Hd32 : 0 <= leader_node_id config < 2 ^ 32) by (destruct Hleader as [->|]; [lia|by apply Hrange]).
  assert (Hnl : forall v, 0 <= v < 2 ^ 32 ->
    (newline ∉ str "node_id=" ++ to_string v) /\ (newline ∉ str "leader_id=" ++ to_string v)).
  { intros v Hv. destruct (to_string_spec v Hv) as (_ & Hd & _). rewrite !not_elem_of_app.
    pose proof (no_newline _ (digits_no_space _ Hd)).
    split; (split; [apply (bool_decide_eq_true_1 _); vm_compute; reflexivity|done]). }
  unfold LoadClusterConfig, print_config.
  rewrite (app_assoc (str "node_id=")), lines_of_line by (by apply Hnl).
  rewrite (app_assoc (str "leader_id=")), lines_of_line by (by apply Hnl).
  rewrite print_peers_lines by done. cbn [app parse_lines].
  rewrite (proj1 (print_key_line _ _ Hl32)), Status_ok_Ok. cbn [negb].
  rewrite (proj2 (print_key_line _ _ Hd32)), Status_ok_Ok. cbn [negb].
  rewrite parse_printed_peers by done. rewrite Status_ok_Ok. cbn [negb local_node_id leader_node_id peers
    ClusterConfig_default app].
  assert (mkClusterConfig (local_node_id config) (leader_node_id config) (peers config) = config) as ->
    by (by destruct config).
  by rewrite Validate_complete.
Qed.

Lemma config_roundtrip_witness :
  LoadClusterConfig (str "cluster.conf") (Some (print_config example_config)) ClusterConfig_default =
    Returns (Status_Ok, example_config).
Proof.
  apply (config_roundtrip (str "cluster.conf") example_config ClusterConfig_default).
  - split.
    + split; [discriminate|]. apply (bool_decide_eq_true_1 _). vm_compute. reflexivity.
    + right. apply (bool_decide_eq_true_1 _). vm_compute. reflexivity.
    + apply (bool_decide_eq_true_1 _). vm_compute. reflexivity.
    + repeat constructor; vm_compute; discriminate.
  - repeat constructor; discriminate.
Defined.
