(* ===== verification/RaftNode.v ===== *)
(** * A Raft node ([src/raft/node.cpp])

    The node's state and every operation on it. A handler that takes the node's mutex
    once is one definition; a function that releases the mutex around an RPC
    ([StartElection], [ReplicateToPeer], [Propose], [ConfirmLeadershipQuorum]) is given
    by the parts it runs under the mutex, and by their composition with the RPCs'
    results. What the node keeps on disk is behind the [ReplicaOps] interface. Clock
    readings and random timeouts are arguments. *)

From Stdlib Require Import Strings.String.
From stdpp Require Import sorting.
From S2P Require Import Prelude Common BigEndian Crc32 Os WalRecord ShardedKV WalWriter DurableStorage.
From S2P Require Import RaftTypes RaftLog ClusterConfig.

(** ** The node's storage *)

(** [log_], [storage_] and the state file of a node. [None] from an append: it would
    wait for a flush that nobody runs. *)
Class ReplicaOps (R : Type) := {
  rep_entries : R -> list LogEntry;
  rep_Append : LogEntry -> R -> option (Status * LogEntry * R);
  rep_TruncateFrom : Z -> R -> Status * R;
  rep_last_applied_index : R -> Z;
  rep_ApplyCommitted : WalRecord -> R -> R;
  rep_PersistState : PersistentState -> R -> R;
  rep_LoadPersistedState : R -> Status * PersistentState * R;
  rep_LoadLog : R -> option (Status * R)
}.

(** A clock reading and a random election timeout, in milliseconds. *)
Record Clock := mkClock { now : Z; random_timeout : Z }.

Definition kTickInterval : Z := 15.
Definition kHeartbeatInterval : Z := 75.
Definition kElectionTimeoutMin : Z := 250.
Definition kElectionTimeoutMax : Z := 400.
Definition kProposeTimeout : Z := 3000.

Section Node.
Context {R : Type} `{ReplicaOps R}.

Record RaftNode := mkRaftNode {
  local_node_id_ : Z;
  config_ : ClusterConfig;
  replica_ : R;
  open_status_ : Status;
  state_ : RaftState;
  current_term_ : Z;
  voted_for_ : Z;
  leader_id_ : Z;
  commit_index_ : Z;
  election_deadline_ : Z;
  next_heartbeat_ : Z;
  next_index_ : gmap Z Z;
  match_index_ : gmap Z Z;
  last_ack_time_ : gmap Z Z
}.

Definition log_entries (n : RaftNode) : list LogEntry := rep_entries (replica_ n).

(** ** Assignments *)

Definition set_replica r (n : RaftNode) : RaftNode :=
  mkRaftNode (local_node_id_ n) (config_ n) r (open_status_ n) (state_ n) (current_term_ n) (voted_for_ n)
    (leader_id_ n) (commit_index_ n) (election_deadline_ n) (next_heartbeat_ n) (next_index_ n)
    (match_index_ n) (last_ack_time_ n).
Definition set_state x (n : RaftNode) : RaftNode :=
  mkRaftNode (local_node_id_ n) (config_ n) (replica_ n) (open_status_ n) x (current_term_ n) (voted_for_ n)
    (leader_id_ n) (commit_index_ n) (election_deadline_ n) (next_heartbeat_ n) (next_index_ n)
    (match_index_ n) (last_ack_time_ n).
Definition set_term_vote t v (n : RaftNode) : RaftNode :=
  mkRaftNode (local_node_id_ n) (config_ n) (replica_ n) (open_status_ n) (state_ n) t v
    (leader_id_ n) (commit_index_ n) (election_deadline_ n) (next_heartbeat_ n) (next_index_ n)
    (match_index_ n) (last_ack_time_ n).
Definition set_leader_id x (n : RaftNode) : RaftNode :=
  mkRaftNode (local_node_id_ n) (config_ n) (replica_ n) (open_status_ n) (state_ n) (current_term_ n) (voted_for_ n)
    x (commit_index_ n) (election_deadline_ n) (next_heartbeat_ n) (next_index_ n)
    (match_index_ n) (last_ack_time_ n).
Definition set_commit_index x (n : RaftNode) : RaftNode :=
  mkRaftNode (local_node_id_ n) (config_ n) (replica_ n) (open_status_ n) (state_ n) (current_term_ n) (voted_for_ n)
    (leader_id_ n) x (election_deadline_ n) (next_heartbeat_ n) (next_index_ n)
    (match_index_ n) (last_ack_time_ n).
Definition set_election_deadline x (n : RaftNode) : RaftNode :=
  mkRaftNode (local_node_id_ n) (config_ n) (replica_ n) (open_status_ n) (state_ n) (current_term_ n) (voted_for_ n)
    (leader_id_ n) (commit_index_ n) x (next_heartbeat_ n) (next_index_ n)
    (match_index_ n) (last_ack_time_ n).
Definition set_next_heartbeat x (n : RaftNode) : RaftNode :=
  mkRaftNode (local_node_id_ n) (config_ n) (replica_ n) (open_status_ n) (state_ n) (current_term_ n) (voted_for_ n)
    (leader_id_ n) (commit_index_ n) (election_deadline_ n) x (next_index_ n)
    (match_index_ n) (last_ack_time_ n).
Definition set_indexes next match_ (n : RaftNode) : RaftNode :=
  mkRaftNode (local_node_id_ n) (config_ n) (replica_ n) (open_status_ n) (state_ n) (current_term_ n) (voted_for_ n)
    (leader_id_ n) (commit_index_ n) (election_deadline_ n) (next_heartbeat_ n) next match_ (last_ack_time_ n).
Definition set_last_ack_time x (n : RaftNode) : RaftNode :=
  mkRaftNode (local_node_id_ n) (config_ n) (replica_ n) (open_status_ n) (state_ n) (current_term_ n) (voted_for_ n)
    (leader_id_ n) (commit_index_ n) (election_deadline_ n) (next_heartbeat_ n) (next_index_ n)
    (match_index_ n) x.

(** [config_.peers] without this node. *)
Definition other_peers (n : RaftNode) : list PeerInfo :=
  filter (fun p => node_id p <> local_node_id_ n) (peers (config_ n)).

Definition majority (n : RaftNode) : Z := zlen (peers (config_ n)) / 2 + 1.

(** [next_index_[id]]: an absent key is inserted with value 0. *)
Definition next_index_at (id : Z) (n : RaftNode) : Z * RaftNode :=
  let v := default 0 (next_index_ n !! id) in
  (v, set_indexes (<[id := v]> (next_index_ n)) (match_index_ n) n).

(** ** Timers and persistence *)

Definition ResetElectionDeadlineLocked (clk : Clock) (n : RaftNode) : RaftNode :=
  set_election_deadline (now clk + random_timeout clk) n.

Definition PersistStateLocked (n : RaftNode) : RaftNode :=
  set_replica (rep_PersistState (mkPersistentState (current_term_ n) (voted_for_ n)) (replica_ n)) n.

(** The constructor. *)
Definition RaftNode_new (clk : Clock) (id : Z) (config : ClusterConfig) (r : R) : option RaftNode :=
  let n := mkRaftNode id config r Status_Ok RaftState.kFollower 0 0 0 0 0 0 ∅ ∅ ∅ in
  let '(st, ps, r) := rep_LoadPersistedState r in
  let n := set_replica r n in
  let set_status st n :=
    mkRaftNode (local_node_id_ n) (config_ n) (replica_ n) st (state_ n) (current_term_ n) (voted_for_ n)
      (leader_id_ n) (commit_index_ n) (election_deadline_ n) (next_heartbeat_ n) (next_index_ n)
      (match_index_ n) (last_ack_time_ n) in
  if negb (Status_ok st) then Some (set_status st n)
  else
    let n := set_term_vote (current_term ps) (voted_for ps) n in
    '(st, r) ← rep_LoadLog (replica_ n);
    let n := set_status st (set_replica r n) in
    if negb (Status_ok st) then Some n else Some (ResetElectionDeadlineLocked clk n).

(** ** Accessors *)

Definition last_applied (n : RaftNode) : Z := rep_last_applied_index (replica_ n).

Definition lag_entries (n : RaftNode) : Z := u64 (commit_index_ n - rep_last_applied_index (replica_ n)).

Definition replication_lag_entries (peer_id : Z) (n : RaftNode) : Z :=
  if peer_id =? local_node_id_ n then 0
  else if negb (bool_decide (state_ n = RaftState.kLeader)) then 0
  else
    match match_index_ n !! peer_id with
    | None => 0
    | Some m =>
        let last_index := Log_LastIndex (log_entries n) in
        if m <? last_index then last_index - m else 0
    end.

(** ** Changes of role *)

Definition BecomeFollowerLocked (clk : Clock) (term : Z) (n : RaftNode) : RaftNode :=
  let n := set_term_vote term 0 n in
  let n := set_state RaftState.kFollower n in
  let n := set_leader_id 0 n in
  let n := set_last_ack_time ∅ n in
  let n := PersistStateLocked n in
  ResetElectionDeadlineLocked clk n.

Definition BecomeLeaderLocked (time : Z) (n : RaftNode) : RaftNode :=
  let n := set_state RaftState.kLeader n in
  let n := set_leader_id (local_node_id_ n) n in
  let n := set_last_ack_time ∅ n in
  let next := u64 (Log_LastIndex (log_entries n) + 1) in
  let n := set_indexes (list_to_map ((fun p => (node_id p, next)) <$> other_peers n))
             (list_to_map ((fun p => (node_id p, 0)) <$> other_peers n)) n in
  set_next_heartbeat time n.

Definition HasRecentMajorityContactLocked (time : Z) (n : RaftNode) : bool :=
  if negb (bool_decide (state_ n = RaftState.kLeader)) then false
  else
    let contacted := 1 + zlen (filter (fun '(_, when) => time - when <= kHeartbeatInterval)
                                 (map_to_list (last_ack_time_ n))) in
    majority n <=? contacted.

(** ** Applying committed entries *)

(** The loop; each turn applies one entry of the log, so its length bounds the turns. *)
Fixpoint apply_loop (fuel : nat) (commit : Z) (r : R) : option R :=
  match fuel with
  | O => None
  | S fuel =>
      if rep_last_applied_index r <? commit then
        let next := u64 (rep_last_applied_index r + 1) in
        match Log_Get (rep_entries r) next with
        | None => Some r
        | Some entry => apply_loop fuel commit (rep_ApplyCommitted (to_record entry) r)
        end
      else Some r
  end.

Definition ApplyCommittedEntriesLocked (n : RaftNode) : option RaftNode :=
  r ← apply_loop (S (length (log_entries n))) (commit_index_ n) (replica_ n);
  Some (set_replica r n).

(** ** The RPC handlers *)

Definition HandleRequestVote (clk1 clk2 : Clock) (req : RequestVoteRequest) (n : RaftNode)
    : RequestVoteResponse * RaftNode :=
  let n := if current_term_ n <? rvq_term req then BecomeFollowerLocked clk1 (rvq_term req) n else n in
  let term := current_term_ n in
  if rvq_term req <? current_term_ n then (mkRequestVoteResponse term false, n)
  else
    let can_vote := (voted_for_ n =? 0) || (voted_for_ n =? rvq_candidate_id req) in
    let last_term := Log_LastTerm (log_entries n) in
    let challenger_log_at_least_as_up_to_date :=
      (last_term <? rvq_last_log_term req) ||
      ((rvq_last_log_term req =? last_term) && (Log_LastIndex (log_entries n) <=? rvq_last_log_index req)) in
    if can_vote && challenger_log_at_least_as_up_to_date then
      let n := set_term_vote (current_term_ n) (rvq_candidate_id req) n in
      let n := PersistStateLocked n in
      let n := ResetElectionDeadlineLocked clk2 n in
      (mkRequestVoteResponse term true, n)
    else (mkRequestVoteResponse term false, n).

(** The loop over the entries of a request; the statuses of [TruncateFrom] and
    [Append] are not looked at. *)
Fixpoint append_loop (entries : list LogEntry) (index : Z) (r : R) : option R :=
  match entries with
  | [] => Some r
  | entry :: entries =>
      let index := u64 (index + 1) in
      match Log_Get (rep_entries r) index with
      | Some existing =>
          if le_term existing =? le_term entry then append_loop entries index r
          else
            let '(_, r) := rep_TruncateFrom index r in
            '(_, _, r) ← rep_Append entry r;
            append_loop entries index r
      | None =>
          '(_, _, r) ← rep_Append entry r;
          append_loop entries index r
      end
  end.

(** [req.prev_log_index > 0] and the log does not hold that entry. *)
Definition prev_mismatch (entries : list LogEntry) (req : AppendEntriesRequest) : bool :=
  (0 <? aeq_prev_log_index req) &&
  match Log_Get entries (aeq_prev_log_index req) with
  | None => true
  | Some prev => negb (le_term prev =? aeq_prev_log_term req)
  end.

Definition HandleAppendEntries (clk1 clk2 : Clock) (req : AppendEntriesRequest) (n : RaftNode)
    : option (AppendEntriesResponse * RaftNode) :=
  if aeq_term req <? current_term_ n then Some (mkAppendEntriesResponse (current_term_ n) false, n)
  else
    let n := if current_term_ n <? aeq_term req then BecomeFollowerLocked clk1 (aeq_term req) n
             else if bool_decide (state_ n = RaftState.kCandidate) then set_state RaftState.kFollower n
             else n in
    let n := set_leader_id (aeq_leader_id req) n in
    let n := ResetElectionDeadlineLocked clk2 n in
    let term := current_term_ n in
    if prev_mismatch (log_entries n) req then Some (mkAppendEntriesResponse term false, n)
    else
      r ← append_loop (aeq_entries req) (aeq_prev_log_index req) (replica_ n);
      let n := set_replica r n in
      if commit_index_ n <? aeq_leader_commit req then
        let n := set_commit_index (Z.min (aeq_leader_commit req) (Log_LastIndex (log_entries n))) n in
        n ← ApplyCommittedEntriesLocked n;
        Some (mkAppendEntriesResponse term true, n)
      else Some (mkAppendEntriesResponse term true, n).

(** ** Commitment on the leader *)

Definition sort_indices (l : list Z) : list Z := merge_sort Z.le l.

Definition AdvanceCommitIndexLocked (n : RaftNode) : option RaftNode :=
  let indices := sort_indices (Log_LastIndex (log_entries n) :: (map_to_list (match_index_ n)).*2) in
  let majority := (length indices / 2 + 1)%nat in
  let candidate := nth (length indices - majority) indices 0 in
  if candidate <=? commit_index_ n then Some n
  else
    match Log_Get (log_entries n) candidate with
    | Some entry =>
        if le_term entry =? current_term_ n
        then ApplyCommittedEntriesLocked (set_commit_index candidate n)
        else Some n
    | None => Some n
    end.

(** ** ReplicateToPeer: the request, and the reply *)

(** The [prev_log_index] and [prev_log_term] of a request to a peer. *)
Definition prev_of (next_idx : Z) (n : RaftNode) : Z * Z :=
  let prev_log_index := u64 (next_idx - 1) in
  let prev := if prev_log_index =? 0 then None else Log_Get (log_entries n) prev_log_index in
  (prev_log_index, match prev with Some e => le_term e | None => 0 end).

Definition ReplicateToPeer_request (peer : Z) (n : RaftNode) : option AppendEntriesRequest * RaftNode :=
  if negb (bool_decide (state_ n = RaftState.kLeader)) then (None, n)
  else
    let term := current_term_ n in
    let '(next_idx, n) := next_index_at peer n in
    let '(prev_log_index, prev_log_term) := prev_of next_idx n in
    let entries := Log_EntriesFrom (log_entries n) next_idx in
    (Some (mkAppendEntriesRequest term (local_node_id_ n) prev_log_index prev_log_term (commit_index_ n) entries), n).

(** [req] is the request that [resp] answers; [None]: the RPC failed. *)
Definition ReplicateToPeer_reply (clk : Clock) (peer : Z) (req : AppendEntriesRequest)
    (resp : option AppendEntriesResponse) (n : RaftNode) : option RaftNode :=
  match resp with
  | None => Some n
  | Some resp =>
      if negb (bool_decide (state_ n = RaftState.kLeader)) || negb (current_term_ n =? aeq_term req) then Some n
      else if current_term_ n <? aer_term resp then Some (BecomeFollowerLocked clk (aer_term resp) n)
      else if aer_success resp then
        let n := set_last_ack_time (<[peer := now clk]> (last_ack_time_ n)) n in
        let n :=
          match last (aeq_entries req) with
          | Some back =>
              set_indexes (<[peer := u64 (le_index back + 1)]> (next_index_ n))
                (<[peer := le_index back]> (match_index_ n)) n
          | None => n
          end in
        AdvanceCommitIndexLocked n
      else
        let '(next_idx, n) := next_index_at peer n in
        if 1 <? next_idx
        then Some (set_indexes (<[peer := u64 (next_idx - 1)]> (next_index_ n)) (match_index_ n) n)
        else Some n
  end.

(** ** Propose *)

Definition NotLeader : Status := Status_Error ErrorCode.kInvalidArgument (str "not leader").

(** Up to the release of the mutex: the index of the new entry, or the error. *)
Definition Propose_append (entry : LogEntry) (n : RaftNode) : option (Result Z * RaftNode) :=
  if negb (bool_decide (state_ n = RaftState.kLeader)) then Some (Failed NotLeader, n)
  else
    let entry := mkLogEntry (current_term_ n) (le_index entry) (le_op entry) (le_key entry) (le_value entry) in
    '(status, entry, r) ← rep_Append entry (replica_ n);
    let n := set_replica r n in
    if negb (Status_ok status) then Some (Failed status, n) else Some (Value (le_index entry), n).

(** The condition the caller waits for, and the answer. *)
Definition Propose_ready (index : Z) (n : RaftNode) : bool :=
  (index <=? rep_last_applied_index (replica_ n)) || negb (bool_decide (state_ n = RaftState.kLeader)).

Definition Propose_answer (reached : bool) (index : Z) (n : RaftNode) : Status :=
  if negb reached then Status_Error ErrorCode.kIOError (str "propose timed out waiting for commit")
  else if rep_last_applied_index (replica_ n) <? index then NotLeader
  else Status_Ok.

(** ** ConfirmLeadershipQuorum *)

Inductive Confirm :=
| ConfirmReturn (b : bool)
| ConfirmAsk (term : Z).

Definition ConfirmLeadershipQuorum_begin (time : Z) (n : RaftNode) : Confirm :=
  if negb (bool_decide (state_ n = RaftState.kLeader)) then ConfirmReturn false
  else if HasRecentMajorityContactLocked time n then ConfirmReturn true
  else ConfirmAsk (current_term_ n).

(** The request to a peer; [None]: return false. *)
Definition ConfirmLeadershipQuorum_request (term peer : Z) (n : RaftNode)
    : option AppendEntriesRequest * RaftNode :=
  if negb (bool_decide (state_ n = RaftState.kLeader)) || negb (current_term_ n =? term) then (None, n)
  else
    let '(next_idx, n) := next_index_at peer n in
    let '(prev_log_index, prev_log_term) := prev_of next_idx n in
    (Some (mkAppendEntriesRequest term (local_node_id_ n) prev_log_index prev_log_term (commit_index_ n) []), n).

(** The count of acknowledgements after a reply, or the early [return false]. *)
Definition ConfirmLeadershipQuorum_reply (clk : Clock) (term peer acks : Z)
    (resp : option AppendEntriesResponse) (n : RaftNode) : option Z * RaftNode :=
  match resp with
  | None => (Some acks, n)
  | Some resp =>
      if current_term_ n <? aer_term resp then (None, BecomeFollowerLocked clk (aer_term resp) n)
      else if negb (bool_decide (state_ n = RaftState.kLeader)) || negb (current_term_ n =? term) then (None, n)
      else if aer_success resp
      then (Some (acks + 1), set_last_ack_time (<[peer := now clk]> (last_ack_time_ n)) n)
      else (Some acks, n)
  end.

(** ** StartElection *)

Definition StartElection_begin (clk : Clock) (n : RaftNode) : RequestVoteRequest * RaftNode :=
  let n := set_term_vote (u64 (current_term_ n + 1)) (local_node_id_ n) n in
  let n := set_state RaftState.kCandidate n in
  let n := set_leader_id 0 n in
  let n := PersistStateLocked n in
  let n := ResetElectionDeadlineLocked clk n in
  (mkRequestVoteRequest (current_term_ n) (local_node_id_ n) (Log_LastIndex (log_entries n))
     (Log_LastTerm (log_entries n)), n).

(** The count of votes after a reply, or the early return. *)
Definition StartElection_reply (clk : Clock) (term votes : Z) (resp : option RequestVoteResponse)
    (n : RaftNode) : option Z * RaftNode :=
  match resp with
  | None => (Some votes, n)
  | Some resp =>
      if negb (bool_decide (state_ n = RaftState.kCandidate)) || negb (current_term_ n =? term) then (None, n)
      else if current_term_ n <? rvr_term resp then (None, BecomeFollowerLocked clk (rvr_term resp) n)
      else (Some (if rvr_vote_granted resp then votes + 1 else votes), n)
  end.

Definition StartElection_finish (time term votes : Z) (n : RaftNode) : RaftNode :=
  if bool_decide (state_ n = RaftState.kCandidate) && (current_term_ n =? term) && (majority n <=? votes)
  then BecomeLeaderLocked time n else n.

(** ** The background loop: one turn *)

Inductive LoopAction := SendHeartbeats | Elect | Idle.

Definition RunLoop_tick (time : Z) (n : RaftNode) : LoopAction * RaftNode :=
  let is_leader := bool_decide (state_ n = RaftState.kLeader) in
  let election_timed_out := negb is_leader && (election_deadline_ n <=? time) in
  if is_leader && (next_heartbeat_ n <=? time)
  then (SendHeartbeats, set_next_heartbeat (time + kHeartbeatInterval) n)
  else if election_timed_out then (Elect, n) else (Idle, n).

End Node.

Arguments RaftNode R : clear implicits.

(** ** The laws of a healthy storage

    No system call fails, and a crash leaves what was synced. *)

(** Entries that the log file can hold and give back. *)
Definition storable (e : LogEntry) : Prop :=
  is_u64 (le_term e) /\ 0 < zlen (le_key e) <= kMaxFieldSize /\ zlen (le_value e) <= kMaxFieldSize /\
  (le_op e = WalOp.kSet -> le_value e <> []).

Definition state_fits (ps : PersistentState) : Prop := is_u64 (current_term ps) /\ is_u32 (voted_for ps).

Class ReplicaLaws (R : Type) `{ReplicaOps R} := {
  rep_ok : R -> Prop;
  rep_persisted : R -> PersistentState;
  (** the contents of the store *)
  rep_map : R -> kvmap;
  (** a crash of the machine, and a new process on what is left *)
  rep_restarts : R -> R -> Prop;
  rep_log_wf r : rep_ok r -> log_wf (rep_entries r) /\ Forall storable (rep_entries r);
  rep_applied_nonneg r : rep_ok r -> 0 <= rep_last_applied_index r;
  rep_Append_law e r : rep_ok r -> storable e -> zlen (rep_entries r) + 1 < 2 ^ 64 ->
    exists r', rep_Append e r = Some (Status_Ok, set_le_index (zlen (rep_entries r) + 1) e, r') /\ rep_ok r' /\
      rep_entries r' = rep_entries r ++ [set_le_index (zlen (rep_entries r) + 1) e] /\
      rep_last_applied_index r' = rep_last_applied_index r /\ rep_persisted r' = rep_persisted r;
  rep_TruncateFrom_law i r : rep_ok r -> 1 <= i ->
    exists r', rep_TruncateFrom i r = (Status_Ok, r') /\ rep_ok r' /\
      rep_entries r' = ztake (i - 1) (rep_entries r) /\
      rep_last_applied_index r' = rep_last_applied_index r /\ rep_persisted r' = rep_persisted r;
  rep_ApplyCommitted_law rec r : rep_ok r -> 0 <= wr_index rec ->
    rep_ok (rep_ApplyCommitted rec r) /\ rep_entries (rep_ApplyCommitted rec r) = rep_entries r /\
    rep_last_applied_index (rep_ApplyCommitted rec r) = wr_index rec /\
    rep_persisted (rep_ApplyCommitted rec r) = rep_persisted r;
  rep_PersistState_law ps r : rep_ok r -> state_fits ps ->
    rep_ok (rep_PersistState ps r) /\ rep_entries (rep_PersistState ps r) = rep_entries r /\
    rep_last_applied_index (rep_PersistState ps r) = rep_last_applied_index r /\
    rep_persisted (rep_PersistState ps r) = ps;
  rep_restart_law r r' : rep_ok r -> rep_restarts r r' ->
    exists r1 r2, rep_LoadPersistedState r' = (Status_Ok, rep_persisted r, r1) /\
      rep_LoadLog r1 = Some (Status_Ok, r2) /\ rep_ok r2 /\ rep_entries r2 = rep_entries r /\
      rep_persisted r2 = rep_persisted r;
  rep_Append_map e r st e' r' : rep_Append e r = Some (st, e', r') -> rep_map r' = rep_map r;
  rep_TruncateFrom_map i r : rep_map (rep_TruncateFrom i r).2 = rep_map r;
  rep_PersistState_map ps r : rep_map (rep_PersistState ps r) = rep_map r;
  rep_ApplyCommitted_map rec r : rep_ok r -> rep_map (rep_ApplyCommitted rec r) = spec_apply (rep_map r) rec
}.

(** ** The effect of the append loop on the entries *)

Fixpoint amerge (log es : list LogEntry) (index : nat) : list LogEntry :=
  match es with
  | [] => log
  | e :: es =>
      match log !! index with
      | Some x =>
          if le_term x =? le_term e then amerge log es (S index)
          else amerge (take index log ++ [set_le_index (Z.of_nat index + 1) e]) es (S index)
      | None => amerge (log ++ [set_le_index (Z.of_nat index + 1) e]) es (S index)
      end
  end.

(** Two logs agree up to any position where their terms agree. *)
Definition matching (l1 l2 : list LogEntry) : Prop :=
  forall k x y, l1 !! k = Some x -> l2 !! k = Some y -> le_term x = le_term y ->
    take (S k) l1 = take (S k) l2.

Lemma take_prefix_lookup {A} (l1 l2 : list A) k : take k l1 = take k l2 -> forall i, (i < k)%nat -> l1 !! i = l2 !! i.
Proof. intros E i Hi. rewrite <- (lookup_take_lt l1 k i), <- (lookup_take_lt l2 k i) by done. by rewrite E. Qed.

(** Merging a suffix of a well-formed log [L] that matches: nothing changes when the log
    already extends [L]; otherwise the result is [L]. *)
Lemma amerge_spec L log es index :
  log_wf L -> drop index L = es -> take index log = take index L -> (index <= length L)%nat ->
  (index <= length log)%nat -> matching log L ->
  amerge log es index = if decide (L `prefix_of` log) then log else L.
Proof.
  revert log index. induction es as [|e es IH]; intros log index Hwf Hdrop Htake Hi Hil Hm; cbn [amerge].
  - assert (length L = index) by (apply (f_equal length) in Hdrop; rewrite length_drop in Hdrop; cbn in Hdrop; lia).
    rewrite decide_True; [done|]. exists (drop index log).
    rewrite <- (take_drop index log) at 1. f_equal. rewrite Htake. apply take_ge. lia.
  - assert (HL : L !! index = Some e).
    { rewrite <- (Nat.add_0_r index), <- lookup_drop, Hdrop. done. }
    assert (Hdrop' : drop (S index) L = es).
    { rewrite <- (Nat.add_1_r index), <- drop_drop, Hdrop. done. }
    pose proof (lookup_lt_Some _ _ _ HL) as HlL.
    assert (He : set_le_index (Z.of_nat index + 1) e = e).
    { rewrite <- (Hwf _ _ HL). by destruct e. }
    rewrite He.
    assert (Hnew : take index L ++ [e] = take (S index) L) by (symmetry; by apply take_S_r).
    assert (Hrest : forall log', take (S index) log' = take (S index) L -> (length log' = S index)%nat ->
      amerge log' es (S index) = L).
    { intros log' Ht Hlen. assert (log' = take (S index) L) as El.
      { rewrite <- Ht. symmetry. apply take_ge. lia. }
      rewrite (IH log' (S index)); [|done|done|done|lia|lia|].
      - destruct (decide _) as [[k Hk]|]; [|done]. rewrite El in Hk |- *.
        apply (f_equal length) in Hk as Hk'. rewrite length_app, length_take in Hk'.
        assert (k = []) as -> by (destruct k; [done|cbn [length] in Hk'; lia]). rewrite app_nil_r in Hk. done.
      - subst log'. intros k x y Hx Hy _. apply lookup_take_Some in Hx as [_ Hk].
        rewrite take_take. f_equal. lia. }
    destruct (log !! index) as [x|] eqn:Ex.
    + destruct (Z.eqb_spec (le_term x) (le_term e)) as [Eq|Hne].
      * pose proof (lookup_lt_Some _ _ _ Ex). apply IH; [done|done| |lia|lia|done]. by eapply Hm.
      * rewrite Hrest.
        -- rewrite decide_False; [done|]. intros [k Hk]. rewrite Hk, lookup_app_l, HL in Ex by lia. congruence.
        -- rewrite <- Hnew, <- Htake. apply take_ge. rewrite length_app, length_take. cbn. lia.
        -- rewrite length_app, length_take. pose proof (lookup_lt_Some _ _ _ Ex). cbn. lia.
    + apply lookup_ge_None in Ex. assert (Hlog : log = take index L).
      { rewrite <- Htake. symmetry. apply take_ge. lia. }
      rewrite Hrest.
      * rewrite decide_False; [done|]. intros [k Hk]. apply (f_equal length) in Hk. rewrite length_app in Hk. lia.
      * rewrite Hlog, Hnew. rewrite take_take. f_equal. lia.
      * rewrite Hlog, length_app, length_take. cbn. lia.
Qed.
