(* ===== verification/RaftNodeSpec.v ===== *)
(** * What the operations of a Raft node do

    The effect of each operation of RaftNode.v on a node whose storage is healthy:
    term, vote, role, log and commit index, on every branch. *)

From Stdlib Require Import Strings.String Sorted.
From stdpp Require Import sorting.
From S2P Require Import Prelude Common BigEndian Crc32 Os WalRecord WalWriter RaftTypes RaftLog ClusterConfig.
From S2P Require Import RaftNode.

Section Specs.
Context {R : Type} `{ReplicaLaws R}.
Implicit Types (n : RaftNode R) (r : R).

(** The node's storage is healthy and its state file is up to date. *)
Record node_ok (n : RaftNode R) : Prop := {
  nk_rep : rep_ok (replica_ n);
  nk_persisted : rep_persisted (replica_ n) = mkPersistentState (current_term_ n) (voted_for_ n);
  nk_fits : state_fits (mkPersistentState (current_term_ n) (voted_for_ n))
}.

(** The fields that no operation but the constructor sets. *)
Definition same_node n n' : Prop := local_node_id_ n' = local_node_id_ n /\ config_ n' = config_ n.

Lemma same_node_refl n : same_node n n.
Proof. done. Qed.

(** Either nothing is committed or applied, or everything up to the commit index is. *)
Definition applies n n' : Prop :=
  (last_applied n' = last_applied n /\ commit_index_ n' = commit_index_ n) \/
  last_applied n' = Z.max (last_applied n) (commit_index_ n').

Lemma node_log_wf n : node_ok n -> log_wf (log_entries n) /\ Forall storable (log_entries n).
Proof. intros [Hr _ _]. by apply rep_log_wf. Qed.

(** ** Storage *)

Lemma append_loop_spec es index r :
  rep_ok r -> Forall storable es -> (index <= length (rep_entries r))%nat ->
  zlen (rep_entries r) + zlen es < 2 ^ 64 ->
  exists r', append_loop es (Z.of_nat index) r = Some r' /\ rep_ok r' /\
    rep_entries r' = amerge (rep_entries r) es index /\
    rep_last_applied_index r' = rep_last_applied_index r /\ rep_persisted r' = rep_persisted r.
Proof.
  revert index r. induction es as [|e es IH]; intros index r Hok Hst Hi Hlt; cbn [append_loop amerge]; [by exists r|].
  apply Forall_cons in Hst as [He Hst]. autorewrite with zlen in Hlt. pose proof (zlen_nonneg es).
  assert (u64 (Z.of_nat index + 1) = Z.of_nat (S index)) as ->.
  { unfold u64. rewrite Z.mod_small by (unfold zlen in *; lia). lia. }
  destruct (rep_log_wf r Hok) as [Hwf _]. rewrite Log_Get_pos by (done || lia).
  replace (Z.to_nat (Z.of_nat (S index) - 1)) with index by lia.
  destruct (rep_entries r !! index) as [x|] eqn:Ex.
  - pose proof (lookup_lt_Some _ _ _ Ex).
    destruct (le_term x =? le_term e); [apply IH; (done || lia)|].
    destruct (rep_TruncateFrom_law (Z.of_nat (S index)) r Hok) as (r1 & -> & Hok1 & He1 & Ha1 & Hp1); [lia|].
    replace (Z.of_nat (S index) - 1) with (Z.of_nat index) in He1 by lia.
    assert (Hl1 : rep_entries r1 = take index (rep_entries r)) by (rewrite He1; unfold ztake; by rewrite Nat2Z.id).
    assert (Hz : zlen (rep_entries r1) = Z.of_nat index) by (rewrite Hl1; unfold zlen; rewrite length_take; lia).
    destruct (rep_Append_law e r1 Hok1 He) as (r2 & -> & Hok2 & He2 & Ha2 & Hp2); [unfold zlen in *; lia|].
    cbn [mbind option_bind]. rewrite Hz in He2.
    destruct (IH (S index) r2 Hok2 Hst) as (r3 & -> & Hok3 & He3 & Ha3 & Hp3).
    { rewrite He2, Hl1, length_app, length_take. cbn. lia. }
    { rewrite He2, zlen_app, Hz. unfold zlen in *. cbn. lia. }
    exists r3. split; [done|]. split; [done|]. rewrite He3, He2, Hl1. split; [done|]. split; congruence.
  - apply lookup_ge_None in Ex. assert (Hz : zlen (rep_entries r) = Z.of_nat index) by (unfold zlen; lia).
    destruct (rep_Append_law e r Hok He) as (r2 & -> & Hok2 & He2 & Ha2 & Hp2); [lia|].
    cbn [mbind option_bind]. rewrite Hz in He2.
    destruct (IH (S index) r2 Hok2 Hst) as (r3 & -> & Hok3 & He3 & Ha3 & Hp3).
    { rewrite He2, length_app. cbn. lia. }
    { rewrite He2, zlen_app, Hz. unfold zlen in *. cbn. lia. }
    exists r3. split; [done|]. split; [done|]. rewrite He3, He2. split; [done|]. split; congruence.
Qed.

(** Applying moves the applied index up to the commit index, as far as the log goes. *)
Lemma apply_loop_spec fuel commit r :
  rep_ok r -> commit < 2 ^ 64 ->
  Z.max 0 (zlen (rep_entries r) - rep_last_applied_index r) < Z.of_nat fuel ->
  exists r', apply_loop fuel commit r = Some r' /\ rep_ok r' /\ rep_entries r' = rep_entries r /\
    rep_persisted r' = rep_persisted r /\
    rep_last_applied_index r' = Z.max (rep_last_applied_index r) (Z.min commit (zlen (rep_entries r))).
Proof.
  revert r. induction fuel as [|fuel IH]; intros r Hok Hc Hf; [lia|]. cbn [apply_loop].
  pose proof (rep_applied_nonneg r Hok) as Hnn.
  destruct (Z.ltb_spec (rep_last_applied_index r) commit) as [Hlt|Hge].
  - destruct (rep_log_wf r Hok) as [Hwf _].
    assert (u64 (rep_last_applied_index r + 1) = rep_last_applied_index r + 1) as ->
      by (unfold u64; apply Z.mod_small; lia).
    rewrite Log_Get_pos by (done || lia).
    destruct (rep_entries r !! Z.to_nat (rep_last_applied_index r + 1 - 1)) as [e|] eqn:E.
    + pose proof (lookup_lt_Some _ _ _ E). apply Hwf in E as Hidx.
      destruct (rep_ApplyCommitted_law (to_record e) r Hok) as (Hok1 & He1 & Ha1 & Hp1); [cbn; lia|].
      cbn [wr_index to_record] in Ha1.
      destruct (IH (rep_ApplyCommitted (to_record e) r) Hok1 Hc) as (r' & -> & Hok' & He' & Hp' & Ha').
      { rewrite He1, Ha1. unfold zlen in *. lia. }
      exists r'. split; [done|]. split; [done|]. rewrite He', He1, Hp', Hp1, Ha', Ha1, He1.
      split; [done|]. split; [done|]. unfold zlen. lia.
    + apply lookup_ge_None in E. exists r. split; [done|]. split; [done|]. split; [done|]. split; [done|].
      unfold zlen. lia.
  - exists r. split; [done|]. split; [done|]. split; [done|]. split; [done|]. lia.
Qed.

Lemma ApplyCommitted_spec n :
  rep_ok (replica_ n) -> commit_index_ n < 2 ^ 64 ->
  exists r', ApplyCommittedEntriesLocked n = Some (set_replica r' n) /\ rep_ok r' /\
    rep_entries r' = log_entries n /\ rep_persisted r' = rep_persisted (replica_ n) /\
    rep_last_applied_index r' = Z.max (last_applied n) (Z.min (commit_index_ n) (zlen (log_entries n))).
Proof.
  intros Hok Hc. unfold ApplyCommittedEntriesLocked.
  destruct (apply_loop_spec (S (length (log_entries n))) (commit_index_ n) (replica_ n) Hok Hc)
    as (r' & -> & Hrest).
  - pose proof (rep_applied_nonneg _ Hok). unfold log_entries, zlen. lia.
  - exists r'. by split.
Qed.

(** ** Roles *)

Lemma PersistState_ok n :
  rep_ok (replica_ n) -> state_fits (mkPersistentState (current_term_ n) (voted_for_ n)) ->
  node_ok (PersistStateLocked n) /\ log_entries (PersistStateLocked n) = log_entries n /\
  last_applied (PersistStateLocked n) = last_applied n.
Proof.
  intros Hok Hfit. destruct (rep_PersistState_law _ _ Hok Hfit) as (Hok' & He & Ha & Hp).
  split; [|by split]. by constructor.
Qed.

Lemma BecomeFollower_spec clk t n :
  node_ok n -> is_u64 t ->
  let n' := BecomeFollowerLocked clk t n in
  node_ok n' /\ same_node n n' /\ log_entries n' = log_entries n /\ last_applied n' = last_applied n /\
  current_term_ n' = t /\ voted_for_ n' = 0 /\ state_ n' = RaftState.kFollower /\
  commit_index_ n' = commit_index_ n /\ match_index_ n' = match_index_ n /\ next_index_ n' = next_index_ n.
Proof.
  intros [Hok _ _] Ht. cbv zeta. unfold BecomeFollowerLocked.
  destruct (PersistState_ok (set_last_ack_time ∅ (set_leader_id 0 (set_state RaftState.kFollower (set_term_vote t 0 n)))))
    as ([Hok' Hp' Hf'] & He & Ha); [done|split; [done|cbn; lia]|].
  split; [by constructor|]. split; [done|]. split; [exact He|]. split; [exact Ha|]. done.
Qed.

(** The candidate's log is at least as up to date. *)
Definition up_to_date (last_index last_term : Z) (log : list LogEntry) : Prop :=
  Log_LastTerm log < last_term \/ (last_term = Log_LastTerm log /\ Log_LastIndex log <= last_index).

Lemma HandleRequestVote_spec clk1 clk2 req n :
  node_ok n -> is_u64 (rvq_term req) -> is_u32 (rvq_candidate_id req) ->
  exists resp n', HandleRequestVote clk1 clk2 req n = (resp, n') /\
    node_ok n' /\ same_node n n' /\ log_entries n' = log_entries n /\ last_applied n' = last_applied n /\
    commit_index_ n' = commit_index_ n /\ match_index_ n' = match_index_ n /\ next_index_ n' = next_index_ n /\
    current_term_ n' = Z.max (current_term_ n) (rvq_term req) /\ rvr_term resp = current_term_ n' /\
    state_ n' = (if current_term_ n <? rvq_term req then RaftState.kFollower else state_ n) /\
    if rvr_vote_granted resp then
      current_term_ n' = rvq_term req /\ voted_for_ n' = rvq_candidate_id req /\
      (current_term_ n < rvq_term req \/ voted_for_ n = 0 \/ voted_for_ n = rvq_candidate_id req) /\
      up_to_date (rvq_last_log_index req) (rvq_last_log_term req) (log_entries n)
    else voted_for_ n' = if current_term_ n <? rvq_term req then 0 else voted_for_ n.
Proof.
  intros Hn Ht Hc. unfold HandleRequestVote.
  set (n1 := if current_term_ n <? rvq_term req then BecomeFollowerLocked clk1 (rvq_term req) n else n).
  assert (H1 : node_ok n1 /\ same_node n n1 /\ log_entries n1 = log_entries n /\ last_applied n1 = last_applied n /\
    commit_index_ n1 = commit_index_ n /\ match_index_ n1 = match_index_ n /\ next_index_ n1 = next_index_ n /\
    current_term_ n1 = Z.max (current_term_ n) (rvq_term req) /\
    state_ n1 = (if current_term_ n <? rvq_term req then RaftState.kFollower else state_ n) /\
    voted_for_ n1 = if current_term_ n <? rvq_term req then 0 else voted_for_ n).
  { unfold n1. destruct (Z.ltb_spec (current_term_ n) (rvq_term req)).
    - destruct (BecomeFollower_spec clk1 (rvq_term req) n Hn Ht) as (? & ? & ? & ? & E & ? & ? & ? & ? & ?).
      rewrite E. split; [done|]. split; [done|]. split; [done|]. split; [done|]. split; [done|].
      split; [done|]. split; [done|]. split; [lia|]. done.
    - split; [done|]. split; [done|]. split; [done|]. split; [done|]. split; [done|]. split; [done|].
      split; [done|]. split; [lia|]. done. }
  destruct H1 as (Hn1 & Hs1 & Hlog1 & Ha1 & Hci1 & Hm1 & Hx1 & Ht1 & Hst1 & Hv1).
  destruct (Z.ltb_spec (rvq_term req) (current_term_ n1)) as [Hlt|Hge].
  { eexists _, n1. split; [done|]. cbn. by rewrite Hv1, Ht1. }
  rewrite Hlog1.
  destruct ((voted_for_ n1 =? 0) || (voted_for_ n1 =? rvq_candidate_id req)) eqn:Ecan; cbn [andb];
    [|eexists _, n1; split; [done|]; cbn; by rewrite Hv1, Ht1].
  destruct ((Log_LastTerm (log_entries n) <? rvq_last_log_term req) ||
    (rvq_last_log_term req =? Log_LastTerm (log_entries n)) &&
    (Log_LastIndex (log_entries n) <=? rvq_last_log_index req)) eqn:Eup; cbn [andb];
    [|eexists _, n1; split; [done|]; cbn; by rewrite Hv1, Ht1].
  eexists _, _. split; [done|]. cbn [rvr_term rvr_vote_granted].
  destruct (PersistState_ok (set_term_vote (current_term_ n1) (rvq_candidate_id req) n1)) as ([Hok' Hp' Hf'] & He & Ha);
    [apply Hn1|split; [|done]; cbn; destruct Hn1 as [_ _ [? _]]; done|].
  split; [by constructor|]. split; [done|]. split; [by rewrite <- Hlog1|]. split; [by rewrite <- Ha1|].
  split; [done|]. split; [done|]. split; [done|]. split; [done|]. split; [done|]. split; [done|].
  split; [change (current_term_ n1 = rvq_term req); lia|]. split; [done|]. split.
  - rewrite Hv1 in Ecan. destruct (Z.ltb_spec (current_term_ n) (rvq_term req)); [by left|]. right. lia.
  - unfold up_to_date. lia.
Qed.

Lemma HandleAppendEntries_spec clk1 clk2 req n :
  node_ok n -> is_u64 (aeq_term req) -> Forall storable (aeq_entries req) ->
  0 <= aeq_prev_log_index req -> aeq_leader_commit req < 2 ^ 64 -> commit_index_ n < 2 ^ 64 ->
  zlen (log_entries n) + zlen (aeq_entries req) < 2 ^ 64 ->
  exists resp n', HandleAppendEntries clk1 clk2 req n = Some (resp, n') /\
  applies n n' /\
  ((aeq_term req < current_term_ n /\ n' = n /\ resp = mkAppendEntriesResponse (current_term_ n) false) \/
   (current_term_ n <= aeq_term req /\ node_ok n' /\ same_node n n' /\
    current_term_ n' = aeq_term req /\ aer_term resp = aeq_term req /\
    voted_for_ n' = (if current_term_ n <? aeq_term req then 0 else voted_for_ n) /\
    state_ n' = (if (current_term_ n <? aeq_term req) || bool_decide (state_ n = RaftState.kCandidate)
                 then RaftState.kFollower else state_ n) /\
    match_index_ n' = match_index_ n /\ next_index_ n' = next_index_ n /\
    ((prev_mismatch (log_entries n) req = true /\ aer_success resp = false /\
      log_entries n' = log_entries n /\ commit_index_ n' = commit_index_ n) \/
     (prev_mismatch (log_entries n) req = false /\ aer_success resp = true /\
      log_entries n' = amerge (log_entries n) (aeq_entries req) (Z.to_nat (aeq_prev_log_index req)) /\
      commit_index_ n' = (if commit_index_ n <? aeq_leader_commit req
        then Z.min (aeq_leader_commit req) (zlen (log_entries n')) else commit_index_ n))))).
Proof.
  intros Hn Ht Hst Hprev Hlc Hci Hlen. unfold HandleAppendEntries.
  destruct (Z.ltb_spec (aeq_term req) (current_term_ n)) as [Hlt|Hge];
    [eexists _, _; split; [done|]; split; [by left|]; by left|].
  set (n1 := ResetElectionDeadlineLocked clk2 (set_leader_id (aeq_leader_id req)
    (if current_term_ n <? aeq_term req then BecomeFollowerLocked clk1 (aeq_term req) n
     else if bool_decide (state_ n = RaftState.kCandidate) then set_state RaftState.kFollower n else n))).
  assert (H1 : node_ok n1 /\ same_node n n1 /\ log_entries n1 = log_entries n /\ last_applied n1 = last_applied n /\
    commit_index_ n1 = commit_index_ n /\ match_index_ n1 = match_index_ n /\ next_index_ n1 = next_index_ n /\
    current_term_ n1 = aeq_term req /\
    state_ n1 = (if (current_term_ n <? aeq_term req) || bool_decide (state_ n = RaftState.kCandidate)
                 then RaftState.kFollower else state_ n) /\
    voted_for_ n1 = if current_term_ n <? aeq_term req then 0 else voted_for_ n).
  { unfold n1. destruct (Z.ltb_spec (current_term_ n) (aeq_term req)); cbn [orb].
    - destruct (BecomeFollower_spec clk1 (aeq_term req) n Hn Ht) as ([? ? ?] & ? & ? & ? & ? & ? & ? & ? & ? & ?).
      split; [by constructor|]. done.
    - assert (current_term_ n = aeq_term req) by lia. destruct Hn as [? ? ?].
      destruct (bool_decide (state_ n = RaftState.kCandidate)); (split; [by constructor|]); done. }
  destruct H1 as (Hn1 & Hs1 & Hlog1 & Hla1 & Hci1 & Hm1 & Hx1 & Ht1 & Hst1 & Hv1).
  rewrite Hlog1. destruct (prev_mismatch (log_entries n) req) eqn:Emis.
  { eexists _, n1. split; [done|]. split; [by left|]. right. split; [done|]. split; [done|]. split; [done|]. split; [done|].
    cbn. split; [done|]. split; [done|]. split; [done|]. split; [done|]. split; [done|]. left. by rewrite Hlog1. }
  assert (Hin : (Z.to_nat (aeq_prev_log_index req) <= length (log_entries n1))%nat).
  { rewrite Hlog1. unfold prev_mismatch in Emis. destruct (Z.ltb_spec 0 (aeq_prev_log_index req)) as [Hp|]; [|lia].
    cbn [andb] in Emis. destruct (node_log_wf n Hn) as [Hwf _]. rewrite Log_Get_pos in Emis by (done || lia).
    destruct (log_entries n !! _) eqn:E; [|done]. apply lookup_lt_Some in E. lia. }
  assert (Hlen1 : zlen (log_entries n1) + zlen (aeq_entries req) < 2 ^ 64) by (by rewrite Hlog1).
  destruct (append_loop_spec (aeq_entries req) (Z.to_nat (aeq_prev_log_index req)) (replica_ n1)
    (nk_rep _ Hn1) Hst Hin Hlen1) as (r' & E & Hok' & He' & Ha' & Hp').
  rewrite Z2Nat.id in E by lia. rewrite E. cbn [mbind option_bind].
  set (n2 := set_replica r' n1). fold (log_entries n1) in He'. rewrite Hlog1 in He'.
  assert (Hn2 : node_ok n2).
  { destruct Hn1 as [_ Hp1 Hf1]. constructor; [done|exact (eq_trans Hp' Hp1)|done]. }
  assert (Hl2 : Log_LastIndex (log_entries n2) = zlen (log_entries n2))
    by (apply Log_LastIndex_wf; by apply node_log_wf).
  change (commit_index_ n2) with (commit_index_ n1). rewrite Hci1, Hl2.
  destruct (Z.ltb_spec (commit_index_ n) (aeq_leader_commit req)) as [Hc|Hc].
  - destruct (ApplyCommitted_spec (set_commit_index (Z.min (aeq_leader_commit req) (zlen (log_entries n2))) n2))
      as (r3 & E3 & Hok3 & He3 & Hp3 & Ha3); [done|cbn; lia|].
    rewrite E3. cbn [mbind option_bind]. eexists _, _. split; [done|].
    split; [right; unfold last_applied in *; cbn [replica_ set_replica commit_index_ set_commit_index n2] in *;
      change (log_entries (set_commit_index _ n2)) with (log_entries n2) in Ha3; lia|].
    right. split; [done|].
    split; [destruct Hn2 as [_ Hp2 Hf2]; constructor; [done|exact (eq_trans Hp3 Hp2)|done]|].
    split; [done|]. split; [done|]. split; [done|]. split; [done|]. split; [done|]. split; [done|]. split; [done|].
    right. split; [done|]. split; [done|].
    assert (El : log_entries (set_replica r3 (set_commit_index (Z.min (aeq_leader_commit req) (zlen (log_entries n2))) n2))
      = log_entries n2) by exact He3.
    rewrite El. split; [exact He'|]. done.
  - eexists _, n2. split; [done|].
    split; [left; split; [unfold last_applied in *; cbn [replica_ set_replica n2]; lia|exact Hci1]|]. right. split; [done|]. split; [done|]. split; [done|]. split; [done|].
    split; [done|]. split; [done|]. split; [done|]. split; [done|]. split; [done|].
    right. split; [done|]. split; [done|]. split; [exact He'|exact Hci1].
Qed.

(** ** Commitment *)

Lemma filter_all {A} (P : A -> Prop) `{forall x, Decision (P x)} l : Forall P l -> filter P l = l.
Proof. induction 1 as [|x l Hx _ IH]; [done|]. rewrite filter_cons, decide_True by done. by rewrite IH. Qed.

(** At least [m] members of a list are no smaller than the one [m] places from the end of
    its sorted form. *)
Lemma sorted_count (l : list Z) m :
  (1 <= m <= length l)%nat ->
  (m <= length (filter (fun x : Z => (nth (length l - m) (sort_indices l) 0 <= x)%Z) l))%nat.
Proof.
  intros Hm. set (s := sort_indices l).
  assert (Hperm : s ≡ₚ l) by apply merge_sort_Permutation.
  assert (Hsorted : StronglySorted Z.le s) by (apply Sorted_StronglySorted; [apply _|apply (Sorted_merge_sort Z.le)]).
  assert (Hlen : length s = length l) by (by apply Permutation_length).
  set (c := nth (length l - m) s 0).
  assert (Hf : filter (fun x => c <= x) s ≡ₚ filter (fun x => c <= x) l) by (by apply filter_Permutation).
  rewrite <- (Permutation_length Hf). rewrite <- (take_drop (length l - m) s), filter_app, length_app.
  assert (Hdrop : filter (fun x => c <= x) (drop (length l - m) s) = drop (length l - m) s).
  { apply filter_all, Forall_forall.
    assert (Hd : StronglySorted Z.le (drop (length l - m) s)).
    { rewrite <- (take_drop (length l - m) s) in Hsorted. by apply StronglySorted_app_1_r in Hsorted. }
    assert (Hc : drop (length l - m) s = c :: drop (S (length l - m)) s).
    { unfold c. rewrite nth_lookup. destruct (s !! (length l - m)%nat) as [x|] eqn:E.
      - by apply drop_S.
      - apply lookup_ge_None in E. lia. }
    rewrite Hc in Hd |- *. apply StronglySorted_inv in Hd as [_ Hd]. rewrite Forall_forall in Hd.
    intros x [->|Hx]%elem_of_cons; [lia|by apply Hd]. }
  rewrite Hdrop, length_drop. lia.
Qed.

Lemma half_bound k : (1 <= k)%nat -> (1 <= k / 2 + 1 <= k)%nat.
Proof.
  intros Hk. destruct (Nat.eq_dec k 1%nat) as [->|]; [cbn; lia|].
  assert (k / 2 <= k - 1)%nat by (apply Nat.Div0.div_le_upper_bound; lia). lia.
Qed.

(** The indices the leader counts: its own log's end and what the peers acknowledged. *)
Definition leader_indices n : list Z := zlen (log_entries n) :: (map_to_list (match_index_ n)).*2.

(** [c] is covered by a majority of the counted indices and its entry is of this term. *)
Definition commits n (c : Z) : Prop :=
  (exists e, 1 <= c /\ log_entries n !! Z.to_nat (c - 1) = Some e /\ le_term e = current_term_ n) /\
  (length (leader_indices n) / 2 + 1 <= length (filter (fun x : Z => (c <= x)%Z) (leader_indices n)))%nat.

Lemma AdvanceCommit_spec n :
  node_ok n -> 0 <= commit_index_ n < 2 ^ 64 -> zlen (log_entries n) < 2 ^ 64 ->
  exists n', AdvanceCommitIndexLocked n = Some n' /\ applies n n' /\ node_ok n' /\ same_node n n' /\
    log_entries n' = log_entries n /\ current_term_ n' = current_term_ n /\ voted_for_ n' = voted_for_ n /\
    state_ n' = state_ n /\ match_index_ n' = match_index_ n /\ next_index_ n' = next_index_ n /\
    (commit_index_ n' = commit_index_ n \/ (commit_index_ n < commit_index_ n' /\ commits n (commit_index_ n'))).
Proof.
  intros Hn Hc Hlen. unfold AdvanceCommitIndexLocked. destruct (node_log_wf n Hn) as [Hwf _].
  rewrite Log_LastIndex_wf by done. fold (leader_indices n).
  assert (Hsl : length (sort_indices (leader_indices n)) = length (leader_indices n)).
  { apply Permutation_length, merge_sort_Permutation. }
  rewrite Hsl. set (m := (length (leader_indices n) / 2 + 1)%nat).
  assert (Hm : (1 <= m <= length (leader_indices n))%nat).
  { apply half_bound. cbn [leader_indices length]. lia. }
  pose proof (sorted_count (leader_indices n) m Hm) as Hcount.
  set (c := nth (length (leader_indices n) - m) (sort_indices (leader_indices n)) 0) in *.
  assert (Hstay : exists n', Some n = Some n' /\ applies n n' /\ node_ok n' /\ same_node n n' /\
    log_entries n' = log_entries n /\ current_term_ n' = current_term_ n /\ voted_for_ n' = voted_for_ n /\
    state_ n' = state_ n /\ match_index_ n' = match_index_ n /\ next_index_ n' = next_index_ n /\
    (commit_index_ n' = commit_index_ n \/ (commit_index_ n < commit_index_ n' /\ commits n (commit_index_ n')))).
  { exists n. split; [done|]. split; [by left|]. repeat (split; [done|]). by left. }
  destruct (Z.leb_spec c (commit_index_ n)) as [Hle|Hgt]; [done|].
  rewrite Log_Get_pos by (done || lia).
  destruct (log_entries n !! Z.to_nat (c - 1)) as [e|] eqn:E; [|done].
  destruct (Z.eqb_spec (le_term e) (current_term_ n)) as [Ht|]; [|done].
  assert (Hc64 : c < 2 ^ 64).
  { apply lookup_lt_Some in E. unfold zlen in Hlen. lia. }
  destruct (ApplyCommitted_spec (set_commit_index c n)) as (r' & E' & Hok' & He' & Hp' & Ha'); [apply Hn|done|].
  eexists. split; [exact E'|].
  split; [right; unfold last_applied in *; cbn [replica_ set_replica commit_index_ set_commit_index] in *;
    change (log_entries (set_commit_index c n)) with (log_entries n) in Ha'; apply lookup_lt_Some in E; unfold zlen in *; lia|].
  split; [destruct Hn as [_ Hp Hf]; constructor; [done|exact (eq_trans Hp' Hp)|done]|].
  split; [done|]. split; [exact He'|]. do 5 (split; [done|]). right. split; [done|].
  change (commit_index_ (set_replica r' (set_commit_index c n))) with c. split; [|done].
  exists e. split; [lia|done].
Qed.

(** ** The leader's requests and replies *)

(** The term of the entry before [next]; 0 at the beginning of the log. *)
Definition term_before (next : Z) (log : list LogEntry) : Z :=
  match (if next =? 1 then None else log !! Z.to_nat (next - 2)) with Some e => le_term e | None => 0 end.

Lemma prev_of_spec n next :
  node_ok n -> 1 <= next <= zlen (log_entries n) + 1 -> zlen (log_entries n) + 1 < 2 ^ 64 ->
  prev_of next n = (next - 1, term_before next (log_entries n)).
Proof.
  intros Hn Hr Hlen. destruct (node_log_wf n Hn) as [Hwf _]. unfold prev_of, term_before.
  assert (u64 (next - 1) = next - 1) as -> by (unfold u64; apply Z.mod_small; lia). f_equal.
  destruct (Z.eqb_spec next 1) as [->|]; [done|]. replace (next - 1 =? 0) with false by lia.
  rewrite Log_Get_pos by (done || lia). by replace (next - 1 - 1) with (next - 2) by lia.
Qed.

(** A request to a peer whose next index lies in the log: everything from there on. *)
Lemma ReplicateToPeer_request_spec p n next :
  node_ok n -> state_ n = RaftState.kLeader -> next_index_ n !! p = Some next ->
  1 <= next <= zlen (log_entries n) + 1 -> zlen (log_entries n) + 1 < 2 ^ 64 ->
  ReplicateToPeer_request p n =
    (Some (mkAppendEntriesRequest (current_term_ n) (local_node_id_ n) (next - 1)
             (term_before next (log_entries n)) (commit_index_ n) (zdrop (next - 1) (log_entries n))),
     set_indexes (next_index_ n) (match_index_ n) n).
Proof.
  intros Hn Hl Hnext Hr Hlen. unfold ReplicateToPeer_request. rewrite Hl, bool_decide_true by done. cbn [negb].
  unfold next_index_at. rewrite Hnext. cbn [default from_option id]. rewrite insert_id by done.
  rewrite (prev_of_spec (set_indexes (next_index_ n) (match_index_ n) n) next);
    [|destruct Hn; by constructor|done|done].
  change (log_entries (set_indexes ?a ?b n)) with (log_entries n). rewrite Log_EntriesFrom_wf by lia. done.
Qed.

(** The same without the entries. *)
Lemma ConfirmLeadershipQuorum_request_spec p n next :
  node_ok n -> state_ n = RaftState.kLeader -> next_index_ n !! p = Some next ->
  1 <= next <= zlen (log_entries n) + 1 -> zlen (log_entries n) + 1 < 2 ^ 64 ->
  ConfirmLeadershipQuorum_request (current_term_ n) p n =
    (Some (mkAppendEntriesRequest (current_term_ n) (local_node_id_ n) (next - 1)
             (term_before next (log_entries n)) (commit_index_ n) []),
     set_indexes (next_index_ n) (match_index_ n) n).
Proof.
  intros Hn Hl Hnext Hr Hlen. unfold ConfirmLeadershipQuorum_request.
  rewrite Hl, bool_decide_true, Z.eqb_refl by done. cbn [negb orb].
  unfold next_index_at. rewrite Hnext. cbn [default from_option id]. rewrite insert_id by done.
  rewrite (prev_of_spec (set_indexes (next_index_ n) (match_index_ n) n) next);
    [|destruct Hn; by constructor|done|done]. done.
Qed.

Lemma ReplicateToPeer_reply_spec clk p req resp n :
  node_ok n -> is_u64 (aer_term resp) -> 0 <= commit_index_ n < 2 ^ 64 -> zlen (log_entries n) < 2 ^ 64 ->
  exists n', ReplicateToPeer_reply clk p req (Some resp) n = Some n' /\
    applies n n' /\ node_ok n' /\ same_node n n' /\
    log_entries n' = log_entries n /\
    ((n' = n /\ ~ (state_ n = RaftState.kLeader /\ current_term_ n = aeq_term req)) \/
     (current_term_ n < aer_term resp /\ current_term_ n' = aer_term resp /\ voted_for_ n' = 0 /\
      state_ n' = RaftState.kFollower /\ commit_index_ n' = commit_index_ n) \/
     (state_ n = RaftState.kLeader /\ current_term_ n = aeq_term req /\
      current_term_ n' = current_term_ n /\ voted_for_ n' = voted_for_ n /\ state_ n' = state_ n /\
      ((aer_success resp = true /\
        match last (aeq_entries req) with
        | Some back => match_index_ n' = <[p := le_index back]> (match_index_ n) /\
                       next_index_ n' = <[p := u64 (le_index back + 1)]> (next_index_ n)
        | None => match_index_ n' = match_index_ n /\ next_index_ n' = next_index_ n
        end /\
        (commit_index_ n' = commit_index_ n \/ (commit_index_ n < commit_index_ n' /\ commits n' (commit_index_ n')))) \/
       (aer_success resp = false /\ match_index_ n' = match_index_ n /\ commit_index_ n' = commit_index_ n /\
        exists next, default 0 (next_index_ n !! p) = next /\
          next_index_ n' = <[p := if 1 <? next then u64 (next - 1) else next]> (next_index_ n))))).
Proof.
  intros Hn Ht Hc Hlen. unfold ReplicateToPeer_reply.
  destruct (negb (bool_decide (state_ n = RaftState.kLeader)) || negb (current_term_ n =? aeq_term req)) eqn:Est.
  { exists n. split; [done|]. split; [by left|]. repeat (split; [done|]). left. split; [done|]. intros [Hl Hq].
    rewrite Hl, bool_decide_true, Hq, Z.eqb_refl in Est by done. done. }
  apply orb_false_iff in Est as [Hl Hq]. apply negb_false_iff, bool_decide_eq_true in Hl.
  apply negb_false_iff, Z.eqb_eq in Hq.
  destruct (Z.ltb_spec (current_term_ n) (aer_term resp)) as [Hlt|Hge].
  { destruct (BecomeFollower_spec clk (aer_term resp) n Hn Ht) as (? & ? & ? & ? & ? & ? & ? & ? & ? & ?).
    eexists. split; [done|]. split; [by left|]. split; [done|]. split; [done|]. split; [done|]. right. left. done. }
  destruct (aer_success resp) eqn:Es.
  - set (n1 := match last (aeq_entries req) with
      | Some back => set_indexes (<[p := u64 (le_index back + 1)]> (next_index_ (set_last_ack_time (<[p := now clk]> (last_ack_time_ n)) n)))
          (<[p := le_index back]> (match_index_ (set_last_ack_time (<[p := now clk]> (last_ack_time_ n)) n)))
          (set_last_ack_time (<[p := now clk]> (last_ack_time_ n)) n)
      | None => set_last_ack_time (<[p := now clk]> (last_ack_time_ n)) n end).
    assert (H1 : node_ok n1 /\ same_node n n1 /\ log_entries n1 = log_entries n /\ last_applied n1 = last_applied n /\
      commit_index_ n1 = commit_index_ n /\ current_term_ n1 = current_term_ n /\ voted_for_ n1 = voted_for_ n /\ state_ n1 = state_ n /\
      match last (aeq_entries req) with
      | Some back => match_index_ n1 = <[p := le_index back]> (match_index_ n) /\
                     next_index_ n1 = <[p := u64 (le_index back + 1)]> (next_index_ n)
      | None => match_index_ n1 = match_index_ n /\ next_index_ n1 = next_index_ n
      end).
    { destruct Hn as [? ? ?]. unfold n1. destruct (last (aeq_entries req)); (split; [by constructor|]); done. }
    destruct H1 as (Hn1 & Hs1 & Hlog1 & Ha1 & Hc1 & Ht1 & Hv1 & Hst1 & Hm1).
    destruct (AdvanceCommit_spec n1 Hn1) as (n' & E & Ha' & Hn' & Hs' & Hlog' & Ht' & Hv' & Hst' & Hmi' & Hni' & Hci');
      [by rewrite Hc1|by rewrite Hlog1|].
    exists n'. split; [exact E|]. split; [by unfold applies in *; rewrite Ha1, Hc1 in Ha'|]. split; [done|].
    split; [destruct Hs1, Hs'; split; congruence|]. split; [congruence|]. right. right.
    split; [done|]. split; [done|]. split; [congruence|]. split; [congruence|]. split; [congruence|]. left.
    split; [done|]. split; [destruct (last (aeq_entries req)); by rewrite Hmi', Hni'|].
    rewrite Hc1 in Hci'. destruct Hci' as [|[? [Hex Hq']]]; [by left|right]. split; [done|].
    unfold commits, leader_indices in *. rewrite Hlog', Ht', Hmi'. done.
  - unfold next_index_at. set (next := default 0 (next_index_ n !! p)). destruct Hn as [? ? ?].
    destruct (Z.ltb_spec 1 next) as [Hgt|Hle].
    + eexists. split; [done|]. split; [by left|]. split; [by constructor|]. split; [done|]. split; [done|]. right. right.
      do 5 (split; [done|]). right. do 3 (split; [done|]). exists next. split; [done|].
      replace (1 <? next) with true by lia. cbn. by rewrite insert_insert_eq.
    + eexists. split; [done|]. split; [by left|]. split; [by constructor|]. split; [done|]. split; [done|]. right. right.
      do 5 (split; [done|]). right. do 3 (split; [done|]). exists next. split; [done|].
      by replace (1 <? next) with false by lia.
Qed.

(** ** Proposals, elections and restarts *)

(** The entry that [Propose] adds to the leader's log. *)
Definition proposed (e : LogEntry) n : LogEntry :=
  mkLogEntry (current_term_ n) (zlen (log_entries n) + 1) (le_op e) (le_key e) (le_value e).

Lemma Propose_append_spec e n :
  node_ok n -> storable (mkLogEntry (current_term_ n) 0 (le_op e) (le_key e) (le_value e)) ->
  zlen (log_entries n) + 1 < 2 ^ 64 ->
  (state_ n <> RaftState.kLeader /\ Propose_append e n = Some (Failed NotLeader, n)) \/
  (state_ n = RaftState.kLeader /\
   exists r', Propose_append e n = Some (Value (zlen (log_entries n) + 1), set_replica r' n) /\
     node_ok (set_replica r' n) /\ rep_entries r' = log_entries n ++ [proposed e n] /\
     rep_last_applied_index r' = last_applied n).
Proof.
  intros Hn Hst Hlen. unfold Propose_append.
  destruct (decide (state_ n = RaftState.kLeader)) as [Hl|Hl]; [|left; split; [done|]; by rewrite bool_decide_false].
  right. split; [done|]. rewrite bool_decide_true by done. cbn [negb].
  destruct (rep_Append_law (mkLogEntry (current_term_ n) (le_index e) (le_op e) (le_key e) (le_value e)) (replica_ n))
    as (r' & -> & Hok & He & Ha & Hp); [apply Hn|exact Hst|exact Hlen|].
  cbn [mbind option_bind Status_ok negb]. exists r'. split; [done|].
  split; [destruct Hn as [_ Hp0 Hf]; constructor; [done|exact (eq_trans Hp Hp0)|done]|by split].
Qed.

Lemma StartElection_begin_spec clk n :
  node_ok n -> current_term_ n + 1 < 2 ^ 64 -> is_u32 (local_node_id_ n) ->
  exists req n', StartElection_begin clk n = (req, n') /\ last_applied n' = last_applied n /\ node_ok n' /\ same_node n n' /\
    log_entries n' = log_entries n /\ commit_index_ n' = commit_index_ n /\
    match_index_ n' = match_index_ n /\ next_index_ n' = next_index_ n /\
    current_term_ n' = current_term_ n + 1 /\ voted_for_ n' = local_node_id_ n /\ state_ n' = RaftState.kCandidate /\
    req = mkRequestVoteRequest (current_term_ n + 1) (local_node_id_ n) (zlen (log_entries n))
            (Log_LastTerm (log_entries n)).
Proof.
  intros Hn Ht Hid. unfold StartElection_begin.
  assert (u64 (current_term_ n + 1) = current_term_ n + 1) as ->.
  { destruct Hn as [_ _ [[Hge _] _]]. cbn in Hge. unfold u64. apply Z.mod_small. lia. }
  destruct (PersistState_ok (set_leader_id 0 (set_state RaftState.kCandidate
    (set_term_vote (current_term_ n + 1) (local_node_id_ n) n)))) as ([Hok' Hp' Hf'] & He & Ha).
  { apply Hn. }
  { destruct Hn as [_ _ [[Hge _] _]]. cbn in Hge. split; [cbn; lia|exact Hid]. }
  eexists _, _. split; [done|]. split; [exact Ha|]. split; [by constructor|]. split; [done|]. split; [exact He|].
  do 6 (split; [done|]). unfold log_entries, ResetElectionDeadlineLocked in *. cbn [replica_ set_election_deadline] in *.
  cbn [current_term_ local_node_id_ set_term_vote set_leader_id set_state PersistStateLocked set_replica].
  f_equal; [|f_equal; exact He].
  etrans; [exact (f_equal Log_LastIndex He)|]. apply Log_LastIndex_wf. by apply node_log_wf.
Qed.

Lemma StartElection_reply_spec clk term votes resp n :
  node_ok n -> (forall a, resp = Some a -> is_u64 (rvr_term a)) ->
  (exists a, resp = Some a /\ state_ n = RaftState.kCandidate /\ current_term_ n = term /\ current_term_ n < rvr_term a /\
     StartElection_reply clk term votes resp n = (None, BecomeFollowerLocked clk (rvr_term a) n)) \/
  (StartElection_reply clk term votes resp n = (None, n)) \/
  (exists a, resp = Some a /\ rvr_term a <= term /\
     StartElection_reply clk term votes resp n = (Some (if rvr_vote_granted a then votes + 1 else votes), n)) \/
  (resp = None /\ StartElection_reply clk term votes resp n = (Some votes, n)).
Proof.
  intros Hn Hr. destruct resp as [a|]; cbn [StartElection_reply]; [|by do 3 right].
  destruct (decide (state_ n = RaftState.kCandidate)) as [Hc|Hc];
    [rewrite bool_decide_true by done|rewrite bool_decide_false by done; right; by left].
  destruct (Z.eqb_spec (current_term_ n) term) as [Ht|Ht]; cbn [negb orb]; [|right; by left].
  destruct (Z.ltb_spec (current_term_ n) (rvr_term a)) as [Hlt|Hge].
  - left. exists a. done.
  - do 2 right. left. exists a. split; [done|]. split; [lia|done].
Qed.

Lemma BecomeLeader_spec time n :
  node_ok n -> zlen (log_entries n) + 1 < 2 ^ 64 ->
  let n' := BecomeLeaderLocked time n in
  node_ok n' /\ same_node n n' /\ log_entries n' = log_entries n /\ commit_index_ n' = commit_index_ n /\
  current_term_ n' = current_term_ n /\ voted_for_ n' = voted_for_ n /\ state_ n' = RaftState.kLeader /\
  (forall p, match_index_ n' !! p = if decide (p ∈ node_id <$> other_peers n) then Some 0 else None) /\
  (forall p, next_index_ n' !! p =
     if decide (p ∈ node_id <$> other_peers n) then Some (zlen (log_entries n) + 1) else None).
Proof.
  intros Hn Hlen. cbv zeta. destruct (node_log_wf n Hn) as [Hwf _].
  assert (Hmap : forall (v : Z) (ps : list PeerInfo) (p : Z),
    (list_to_map ((fun q => (node_id q, v)) <$> ps) : gmap Z Z) !! p =
    if decide (p ∈ node_id <$> ps) then Some v else None).
  { intros v ps p. induction ps as [|q ps IH]; [done|]. cbn [fmap list_fmap list_to_map foldr uncurry].
    destruct (decide (node_id q = p)) as [Hq|Hq].
    - rewrite Hq, lookup_insert_eq, decide_True; [done|]. apply elem_of_cons. by left.
    - rewrite lookup_insert_ne by done. rewrite IH. apply decide_ext. rewrite elem_of_cons. naive_solver. }
  destruct Hn as [? ? ?]. split; [by constructor|]. do 6 (split; [done|]). unfold BecomeLeaderLocked.
  cbn [match_index_ next_index_ set_next_heartbeat set_indexes]. split; intros p; rewrite Hmap; [done|].
  change (log_entries (set_last_ack_time _ _)) with (log_entries n). rewrite Log_LastIndex_wf by done.
  unfold u64. rewrite Z.mod_small by (pose proof (zlen_nonneg (log_entries n)); lia). done.
Qed.

(** A restart keeps term, vote and log, and forgets the rest. *)
Lemma restart_spec clk n r :
  node_ok n -> rep_restarts (replica_ n) r ->
  exists n', RaftNode_new clk (local_node_id_ n) (config_ n) r = Some n' /\ node_ok n' /\ same_node n n' /\
    Status_ok (open_status_ n') = true /\
    log_entries n' = log_entries n /\ current_term_ n' = current_term_ n /\ voted_for_ n' = voted_for_ n /\
    state_ n' = RaftState.kFollower /\ commit_index_ n' = 0 /\ match_index_ n' = ∅ /\ next_index_ n' = ∅.
Proof.
  intros Hn Hr. destruct (rep_restart_law _ _ (nk_rep _ Hn) Hr) as (r1 & r2 & E1 & E2 & Hok & He & Hp).
  unfold RaftNode_new. rewrite E1. cbn [Status_ok negb replica_ set_replica set_term_vote]. rewrite E2.
  cbn [mbind option_bind Status_ok negb]. eexists. split; [done|].
  rewrite (nk_persisted _ Hn) in Hp |- *. split; [destruct Hn as [_ _ Hf]; by constructor|].
  split; [done|]. split; [done|]. split; [exact He|]. done.
Qed.

End Specs.
