(* ===== verification/RaftCluster.v ===== *)
(** * A cluster of Raft nodes

    The nodes of RaftNode.v, the elections they are running and the RPCs between them.
    An event is one stretch that some thread runs under a node's mutex: the look of the
    background loop at the clock, the beginning of an election (any time later, since
    other threads run between the two), one iteration of the election's loop over
    the peers, a handler serving a request, the two halves of [ReplicateToPeer] and of
    [ConfirmLeadershipQuorum], the first half of [Propose], or the death of a process and
    its restart on what its disk holds. Requests and replies stay in the network once
    sent, so that they can be lost, delayed, reordered and delivered again. *)

From Stdlib Require Import Strings.String.
From S2P Require Import Prelude Common BigEndian Codec Crc32 Os WalRecord WalWriter RaftTypes RpcCodec RaftLog ClusterConfig.
From S2P Require Import RaftNode.

(** ** Messages: a request with its receiver; a reply with its sender and the request it answers *)

Inductive Msg :=
| MVoteReq (to : Z) (req : RequestVoteRequest)
| MVoteResp (from : Z) (req : RequestVoteRequest) (resp : RequestVoteResponse)
| MAppReq (to : Z) (req : AppendEntriesRequest)
| MAppResp (from : Z) (req : AppendEntriesRequest) (resp : AppendEntriesResponse).

#[export] Instance RequestVoteRequest_eq_dec : EqDecision RequestVoteRequest.
Proof. solve_decision. Defined.
#[export] Instance RequestVoteResponse_eq_dec : EqDecision RequestVoteResponse.
Proof. solve_decision. Defined.
#[export] Instance AppendEntriesRequest_eq_dec : EqDecision AppendEntriesRequest.
Proof. solve_decision. Defined.
#[export] Instance AppendEntriesResponse_eq_dec : EqDecision AppendEntriesResponse.
Proof. solve_decision. Defined.
#[export] Instance Msg_eq_dec : EqDecision Msg.
Proof. solve_decision. Defined.

(** The local variables of a [StartElection] under way. *)
Record Election := mkElection {
  el_req : RequestVoteRequest;
  el_rest : list Z;  (* the peers not asked yet *)
  el_votes : Z
}.

(** Whether [SendRpc] sends an append request: [EncodeClusterRequest] refuses a body that
    does not fit into a frame. The other requests of a node always fit. *)
Definition rpc_sent (req : AppendEntriesRequest) : bool :=
  Result_ok (EncodeClusterRequest (mkClusterRequest 0 ClusterOpcode.kAppendEntries (EncodeAppendEntriesRequest req))).

Section Cluster.
Context {R : Type} `{ReplicaOps R}.

Record Cluster := mkCluster {
  nodes : gmap Z (RaftNode R);
  elections : gmap Z Election;
  net : list Msg
}.

Inductive Event :=
| EvElect (i : Z) (clk : Clock)
| EvAsk (i : Z)
| EvVote (to : Z) (req : RequestVoteRequest) (clk1 clk2 : Clock)
| EvVoteReply (i : Z) (resp : option RequestVoteResponse) (clk : Clock)
| EvElected (i time : Z)
| EvReplicate (i p : Z)
| EvAppend (to : Z) (req : AppendEntriesRequest) (clk1 clk2 : Clock)
| EvAppendReply (i p : Z) (req : AppendEntriesRequest) (resp : AppendEntriesResponse) (clk : Clock)
| EvPropose (i : Z) (e : LogEntry)
| EvConfirm (i p term : Z)
| EvConfirmReply (i p acks : Z) (req : AppendEntriesRequest) (resp : AppendEntriesResponse) (clk : Clock)
| EvRestart (i : Z) (disk : R) (clk : Clock)
| EvTick (i time : Z).

Definition set_node i n (c : Cluster) : Cluster := mkCluster (<[i := n]> (nodes c)) (elections c) (net c).
Definition send m (c : Cluster) : Cluster := mkCluster (nodes c) (elections c) (m :: net c).
Definition set_election i el (c : Cluster) : Cluster := mkCluster (nodes c) (<[i := el]> (elections c)) (net c).
Definition end_election i (c : Cluster) : Cluster := mkCluster (nodes c) (delete i (elections c)) (net c).

Definition guard (b : bool) : option unit := if b then Some () else None.

(** The cluster after an event; [None]: the event cannot happen. *)
Definition exec (ev : Event) (c : Cluster) : option Cluster :=
  match ev with
  | EvElect i clk =>
      n ← nodes c !! i;
      guard (bool_decide (elections c !! i = None));;
      let '(req, n) := StartElection_begin clk n in
      Some (set_election i (mkElection req (node_id <$> other_peers n) 1) (set_node i n c))
  | EvAsk i =>
      el ← elections c !! i;
      p ← head (el_rest el);
      Some (send (MVoteReq p (el_req el)) c)
  | EvVote to req clk1 clk2 =>
      n ← nodes c !! to;
      guard (bool_decide (MVoteReq to req ∈ net c));;
      let '(resp, n) := HandleRequestVote clk1 clk2 req n in
      Some (send (MVoteResp to req resp) (set_node to n c))
  | EvVoteReply i resp clk =>
      n ← nodes c !! i;
      el ← elections c !! i;
      p ← head (el_rest el);
      guard (match resp with Some resp => bool_decide (MVoteResp p (el_req el) resp ∈ net c) | None => true end);;
      match StartElection_reply clk (rvq_term (el_req el)) (el_votes el) resp n with
      | (None, n) => Some (end_election i (set_node i n c))
      | (Some votes, n) => Some (set_election i (mkElection (el_req el) (tail (el_rest el)) votes) (set_node i n c))
      end
  | EvElected i time =>
      n ← nodes c !! i;
      el ← elections c !! i;
      guard (bool_decide (el_rest el = []));;
      Some (end_election i (set_node i (StartElection_finish time (rvq_term (el_req el)) (el_votes el) n) c))
  | EvReplicate i p =>
      n ← nodes c !! i;
      guard (bool_decide (p ∈ node_id <$> other_peers n));;
      match ReplicateToPeer_request p n with
      | (Some req, n) => Some (if rpc_sent req then send (MAppReq p req) (set_node i n c) else set_node i n c)
      | (None, n) => Some (set_node i n c)
      end
  | EvAppend to req clk1 clk2 =>
      n ← nodes c !! to;
      guard (bool_decide (MAppReq to req ∈ net c));;
      '(resp, n) ← HandleAppendEntries clk1 clk2 req n;
      Some (send (MAppResp to req resp) (set_node to n c))
  | EvAppendReply i p req resp clk =>
      n ← nodes c !! i;
      guard (bool_decide (MAppResp p req resp ∈ net c) && (aeq_leader_id req =? i));;
      n ← ReplicateToPeer_reply clk p req (Some resp) n;
      Some (set_node i n c)
  | EvPropose i e =>
      n ← nodes c !! i;
      '(_, n) ← Propose_append e n;
      Some (set_node i n c)
  | EvConfirm i p term =>
      n ← nodes c !! i;
      guard (bool_decide (p ∈ node_id <$> other_peers n));;
      match ConfirmLeadershipQuorum_request term p n with
      | (Some req, n) => Some (send (MAppReq p req) (set_node i n c))
      | (None, n) => Some (set_node i n c)
      end
  | EvConfirmReply i p acks req resp clk =>
      n ← nodes c !! i;
      guard (bool_decide (MAppResp p req resp ∈ net c) && (aeq_leader_id req =? i));;
      Some (set_node i (snd (ConfirmLeadershipQuorum_reply clk (aeq_term req) p acks (Some resp) n)) c)
  | EvRestart i disk clk =>
      n ← nodes c !! i;
      n ← RaftNode_new clk (local_node_id_ n) (config_ n) disk;
      Some (end_election i (set_node i n c))
  | EvTick i time =>
      n ← nodes c !! i;
      Some (set_node i (snd (RunLoop_tick time n)) c)
  end.

Fixpoint exec_all (evs : list Event) (c : Cluster) : option Cluster :=
  match evs with
  | [] => Some c
  | ev :: evs => c ← exec ev c; exec_all evs c
  end.

End Cluster.

Arguments Cluster R : clear implicits.
Arguments Event R : clear implicits.

(** ** Which requests are sent *)

(** The bytes that entries take in a request. *)
Definition entries_size (es : list LogEntry) : Z := zlen (concat (encode_entry <$> es)).

Lemma zlen_encode_entry e : zlen (encode_entry e) = 25 + zlen (le_key e) + zlen (le_value e).
Proof. unfold encode_entry, WriteEntry, WriteU8, WriteBytes. autorewrite with nkv_write zlen. cbn. lia. Qed.

Lemma zlen_EncodeAppendEntriesRequest req : zlen (EncodeAppendEntriesRequest req) = 40 + entries_size (aeq_entries req).
Proof. unfold EncodeAppendEntriesRequest, entries_size. rewrite WriteEntries_app. autorewrite with nkv_write zlen. lia. Qed.

Lemma rpc_sent_size req : rpc_sent req = (53 + entries_size (aeq_entries req) <=? kMaxPayloadSize).
Proof.
  unfold rpc_sent. rewrite EncodeClusterRequest_eq. cbn [payload_of]. rewrite zlen_payload_ClusterRequest. cbn [clreq_body].
  rewrite zlen_EncodeAppendEntriesRequest.
  destruct (Z.ltb_spec kMaxPayloadSize (8 + 1 + 4 + (40 + entries_size (aeq_entries req))));
    destruct (Z.leb_spec (53 + entries_size (aeq_entries req)) kMaxPayloadSize); (reflexivity || lia).
Qed.

Lemma entries_size_app es es' : entries_size (es ++ es') = entries_size es + entries_size es'.
Proof. unfold entries_size. rewrite fmap_app, concat_app. apply zlen_app. Qed.

Lemma entries_size_nonneg es : 0 <= entries_size es.
Proof. apply zlen_nonneg. Qed.

Lemma entries_size_drop k es : entries_size (drop k es) <= entries_size es.
Proof. rewrite <- (take_drop k es) at 2. rewrite entries_size_app. pose proof (entries_size_nonneg (take k es)). lia. Qed.

(** The empty requests of [ConfirmLeadershipQuorum] are sent. *)
Lemma rpc_sent_empty req : aeq_entries req = [] -> rpc_sent req = true.
Proof. intros E. rewrite rpc_sent_size, E. reflexivity. Qed.
