(* ===== verification/RaftGhost.v ===== *)
(** * The history of a cluster

    What the safety argument remembers of a run and no node stores: the log each
    candidate stood with, the votes with the voter's log at the time, the leader of each
    term with its log, and how far each node acknowledged each leader's log. *)

From Stdlib Require Import Strings.String.
From S2P Require Import Prelude Common BigEndian Crc32 Os WalRecord WalWriter RaftTypes RaftLog ClusterConfig.
From S2P Require Import RaftNode RaftNodeSpec.

Record Leadership := mkLeadership {
  ld_id : Z;
  ld_start : list LogEntry;  (* the log it was elected with *)
  ld_log : list LogEntry;    (* its log, as far as it got *)
  ld_voters : list Z
}.

Record Ghost := mkGhost {
  g_cand : gmap (Z * Z) (list LogEntry);       (* (term, candidate) *)
  g_vote : gmap (Z * Z) (Z * list LogEntry);   (* (voter, term) to candidate and the voter's log *)
  g_ldr : gmap Z Leadership;                   (* term *)
  g_ack : gmap (Z * Z) nat                     (* (node, term) to a length of that leader's log *)
}.

Definition acked (g : Ghost) (v t : Z) : nat := default O (g_ack g !! (v, t)).

(** Every entry of a log comes, with all before it, from the leader of its term. *)
Definition valid (g : Ghost) (X : list LogEntry) : Prop :=
  forall k e, X !! k = Some e ->
    exists ld, g_ldr g !! le_term e = Some ld /\ take (S k) X = take (S k) (ld_log ld).

(** The leaders elected after term [t], up to [u], started with the first [k] entries of
    the log of [t]'s leader. *)
Definition carried (g : Ghost) (t : Z) (k : nat) (u : Z) : Prop :=
  forall w lw ld, t < w <= u -> g_ldr g !! w = Some lw -> g_ldr g !! t = Some ld ->
    take k (ld_start lw) = take k (ld_log ld).

Section Quorums.
Context (ids : list Z).

Definition quorum (Q : list Z) : Prop :=
  NoDup Q /\ Q ⊆ ids /\ (length ids / 2 + 1 <= length Q)%nat.

(** A length of the leader's log is chosen: its last entry is of the leader's own term
    and a quorum acknowledged it. *)
Definition chosen (g : Ghost) (t : Z) (k : nat) : Prop :=
  exists ld e Q, g_ldr g !! t = Some ld /\ (0 < k)%nat /\ ld_log ld !! pred k = Some e /\ le_term e = t /\
    quorum Q /\ forall v, v ∈ Q -> (k <= acked g v t)%nat.

(** The first [k] entries of [X] are part of something chosen by term [u]. *)
Definition committed (g : Ghost) (u : Z) (X : list LogEntry) (k : nat) : Prop :=
  k = O \/ exists t m ld, t <= u /\ chosen g t m /\ (k <= m)%nat /\ g_ldr g !! t = Some ld /\
    take k X = take k (ld_log ld).

Lemma quorums_meet Q1 Q2 : NoDup ids -> quorum Q1 -> quorum Q2 -> exists v, v ∈ Q1 /\ v ∈ Q2.
Proof.
  intros Hids (Hn1 & Hs1 & Hl1) (Hn2 & Hs2 & Hl2).
  destruct (decide (Exists (fun v => v ∈ Q2) Q1)) as [He|He].
  { apply Exists_exists in He as (v & ? & ?). by exists v. }
  assert (Hnd : NoDup (Q1 ++ Q2)).
  { apply NoDup_app. split; [done|]. split; [|done]. intros v Hv1 Hv2. apply He, Exists_exists. by exists v. }
  assert (Hsub : Q1 ++ Q2 ⊆+ ids).
  { apply NoDup_submseteq; [done|]. intros v [Hv|Hv]%elem_of_app; [by apply Hs1|by apply Hs2]. }
  apply submseteq_length in Hsub. rewrite length_app in Hsub.
  pose proof (Nat.div_mod_eq (length ids) 2). pose proof (Nat.mod_upper_bound (length ids) 2). lia.
Qed.

Lemma committed_0 g u X : committed g u X 0.
Proof. by left. Qed.

Lemma chosen_length g t k ld : chosen g t k -> g_ldr g !! t = Some ld -> (k <= length (ld_log ld))%nat.
Proof.
  intros (ld' & e & Q & Hld & Hk & He & _) Hld'. replace ld' with ld in * by congruence.
  apply lookup_lt_Some in He. lia.
Qed.

Lemma committed_length g u X k : committed g u X k -> (k <= length X)%nat.
Proof.
  intros [->|(t & m & ld & _ & Hch & Hk & Hld & E)]; [lia|].
  pose proof (chosen_length _ _ _ _ Hch Hld). apply (f_equal length) in E. rewrite !length_take in E. lia.
Qed.

(** Commitment is about the first [k] entries. *)
Lemma committed_take g u u' X Y k :
  committed g u X k -> u <= u' -> take k X = take k Y -> committed g u' Y k.
Proof.
  intros [->|(t & m & ld & Ht & Hch & Hk & Hld & E)] Hu EY; [by left|]. right. exists t, m, ld.
  split; [lia|]. split; [done|]. split; [done|]. split; [done|]. congruence.
Qed.

End Quorums.

(** ** Histories grow *)

Record ext (g g' : Ghost) : Prop := {
  ext_cand : g_cand g ⊆ g_cand g';
  ext_vote : g_vote g ⊆ g_vote g';
  ext_ldr : forall t ld, g_ldr g !! t = Some ld ->
    exists ld', g_ldr g' !! t = Some ld' /\ ld_id ld' = ld_id ld /\ ld_start ld' = ld_start ld /\
      ld_voters ld' = ld_voters ld /\ ld_log ld `prefix_of` ld_log ld';
  ext_ack : forall v t, (acked g v t <= acked g' v t)%nat
}.

Lemma ext_refl g : ext g g.
Proof. constructor; [done|done| |done]. intros t ld Hld. by exists ld. Qed.

Lemma ext_trans g1 g2 g3 : ext g1 g2 -> ext g2 g3 -> ext g1 g3.
Proof.
  intros [Hc1 Hv1 Hl1 Ha1] [Hc2 Hv2 Hl2 Ha2]. constructor.
  - by etrans.
  - by etrans.
  - intros t ld (l2 & E2 & ? & ? & ? & ?)%Hl1. apply Hl2 in E2 as (l3 & E3 & ? & ? & ? & ?). exists l3.
    split; [done|]. split; [congruence|]. split; [congruence|]. split; [congruence|]. by etrans.
  - intros v t. specialize (Ha1 v t). specialize (Ha2 v t). lia.
Qed.

Lemma take_prefix {A} (l1 l2 : list A) k : l1 `prefix_of` l2 -> (k <= length l1)%nat -> take k l2 = take k l1.
Proof. intros [r ->] Hk. by rewrite take_app_le. Qed.

Lemma take_eq_length {A} (l1 l2 : list A) k : take k l1 = take k l2 -> (k <= length l1)%nat -> (k <= length l2)%nat.
Proof. intros E Hk. apply (f_equal length) in E. rewrite !length_take in E. lia. Qed.

(** What agrees with a leader's log up to a length it has agrees with it when it grows. *)
Lemma take_grows {A} (X l1 l2 : list A) k :
  take k X = take k l1 -> l1 `prefix_of` l2 -> (k <= length X)%nat -> take k X = take k l2.
Proof.
  intros E Hp Hk. pose proof (take_eq_length _ _ _ E Hk). rewrite E. symmetry. by apply take_prefix.
Qed.

Lemma valid_ext g g' X : ext g g' -> valid g X -> valid g' X.
Proof.
  intros Hext HX k e He. destruct (HX k e He) as (ld & Hld & E).
  destruct (ext_ldr _ _ Hext _ _ Hld) as (ld' & Hld' & _ & _ & _ & Hp). exists ld'. split; [done|].
  apply lookup_lt_Some in He. by eapply take_grows.
Qed.

Lemma valid_prefix g X Y : X `prefix_of` Y -> valid g Y -> valid g X.
Proof.
  intros Hp HY k e He. destruct (HY k e) as (ld & Hld & E); [by eapply prefix_lookup_Some|].
  exists ld. split; [done|]. rewrite <- E. symmetry. apply take_prefix; [done|].
  apply lookup_lt_Some in He. lia.
Qed.

Lemma carried_ext g g' t k u ld :
  ext g g' -> g_ldr g !! t = Some ld -> (k <= length (ld_log ld))%nat -> carried g' t k u -> carried g t k u.
Proof.
  intros Hext Hld Hk Hc w lw ld0 Hw Hlw Hld0. replace ld0 with ld in * by congruence.
  destruct (ext_ldr _ _ Hext _ _ Hlw) as (lw' & Hlw' & _ & Hs & _ & _).
  destruct (ext_ldr _ _ Hext _ _ Hld) as (ld' & Hld' & _ & _ & _ & Hp).
  rewrite <- Hs, (Hc w lw' ld' Hw Hlw' Hld'). by apply take_prefix.
Qed.

Lemma carried_le g t k u u' : u' <= u -> carried g t k u -> carried g t k u'.
Proof. intros Hu Hc w lw ld Hw. apply Hc. lia. Qed.

Lemma chosen_ext ids g g' t k : ext g g' -> chosen ids g t k -> chosen ids g' t k.
Proof.
  intros Hext (ld & e & Q & Hld & Hk & He & Ht & HQ & Ha).
  destruct (ext_ldr _ _ Hext _ _ Hld) as (ld' & Hld' & _ & _ & _ & Hp). exists ld', e, Q.
  split; [done|]. split; [done|]. split; [by eapply prefix_lookup_Some|]. split; [done|]. split; [done|].
  intros v Hv. specialize (Ha v Hv). pose proof (ext_ack _ _ Hext v t). lia.
Qed.

Lemma committed_ext ids g g' u X k : ext g g' -> committed ids g u X k -> committed ids g' u X k.
Proof.
  intros Hext Hc. pose proof (committed_length _ _ _ _ _ Hc) as Hk.
  destruct Hc as [->|(t & m & ld & Ht & Hch & Hm & Hld & E)]; [by left|]. right.
  destruct (ext_ldr _ _ Hext _ _ Hld) as (ld' & Hld' & _ & _ & _ & Hp). exists t, m, ld'.
  split; [done|]. split; [by eapply chosen_ext|]. split; [done|]. split; [done|]. by eapply take_grows.
Qed.

(** Two valid logs agree up to any position where their terms agree. *)
Lemma valid_matching g X Y : valid g X -> valid g Y -> matching X Y.
Proof.
  intros HX HY k x y Hx Hy Et. destruct (HX k x Hx) as (l1 & Hl1 & E1). destruct (HY k y Hy) as (l2 & Hl2 & E2).
  rewrite Et in Hl1. replace l2 with l1 in * by congruence. congruence.
Qed.

(** ** Events in the history *)

Definition add_cand t i X (g : Ghost) : Ghost := mkGhost (<[(t, i) := X]> (g_cand g)) (g_vote g) (g_ldr g) (g_ack g).
Definition add_vote v t c X (g : Ghost) : Ghost := mkGhost (g_cand g) (<[(v, t) := (c, X)]> (g_vote g)) (g_ldr g) (g_ack g).
Definition set_ldr t ld (g : Ghost) : Ghost := mkGhost (g_cand g) (g_vote g) (<[t := ld]> (g_ldr g)) (g_ack g).
Definition add_ack v t k (g : Ghost) : Ghost :=
  mkGhost (g_cand g) (g_vote g) (g_ldr g) (<[(v, t) := Nat.max (acked g v t) k]> (g_ack g)).

Lemma acked_add_ack v t k g v' t' :
  acked (add_ack v t k g) v' t' = if decide ((v, t) = (v', t')) then Nat.max (acked g v t) k else acked g v' t'.
Proof.
  unfold acked at 1. cbn [g_ack add_ack]. destruct (decide _) as [E|E].
  - by rewrite E, lookup_insert_eq.
  - by rewrite lookup_insert_ne.
Qed.

Lemma ext_add_cand t i X g : g_cand g !! (t, i) = None -> ext g (add_cand t i X g).
Proof. intros Hn. constructor; [by apply insert_subseteq|done| |done]. intros u ld Hld. by exists ld. Qed.

Lemma ext_add_vote v t c X g : g_vote g !! (v, t) = None -> ext g (add_vote v t c X g).
Proof. intros Hn. constructor; [done|by apply insert_subseteq| |done]. intros u ld Hld. by exists ld. Qed.

Lemma ext_add_ack v t k g : ext g (add_ack v t k g).
Proof.
  constructor; [done|done|intros u ld Hld; by exists ld|]. intros v' t'. rewrite acked_add_ack.
  destruct (decide _) as [[= -> ->]|]; lia.
Qed.

Lemma ext_set_ldr_new t ld g : g_ldr g !! t = None -> ext g (set_ldr t ld g).
Proof.
  intros Hn. constructor; [done|done| |done]. intros u l Hl. exists l.
  split; [|done]. cbn. rewrite lookup_insert_ne; [done|]. congruence.
Qed.

Lemma ext_set_ldr_grow t ld es g :
  g_ldr g !! t = Some ld -> ext g (set_ldr t (mkLeadership (ld_id ld) (ld_start ld) (ld_log ld ++ es) (ld_voters ld)) g).
Proof.
  intros Hld. constructor; [done|done| |done]. intros u l Hl. cbn [g_ldr set_ldr].
  destruct (decide (u = t)) as [->|Hu].
  - replace l with ld in * by congruence. rewrite lookup_insert_eq. eexists. split; [done|]. cbn.
    split; [done|]. split; [done|]. split; [done|]. by apply prefix_app_r.
  - rewrite lookup_insert_ne by done. by exists l.
Qed.
