(* ===== verification/RaftInvariant.v ===== *)
(** * The invariant of a cluster

    What holds of every node, leader, message and running election of a reachable
    cluster with respect to its history, and that the invariant survives every event. It
    comes in two strengths: for all runs, and with what is known about commit indices in
    the runs whose append requests announce no commit index beyond what they cover. *)

From Stdlib Require Import Strings.String.
From S2P Require Import Prelude Common BigEndian Crc32 Os WalRecord WalWriter RaftTypes RaftLog ClusterConfig.
From S2P Require Import RaftNode RaftNodeSpec RaftCluster RaftGhost.

(** A log that the file can hold, far from the bounds of the indices. *)
Definition good_log (X : list LogEntry) : Prop := log_wf X /\ Forall storable X /\ zlen X <= 2 ^ 62.

(** [strict]: the facts about commit indices are part of the invariant. *)
Class Strength := { strict : Prop }.

Definition every_run : Strength := {| strict := False |}.
Definition covered_run : Strength := {| strict := True |}.

(** No append request that was ever sent announces a commit index beyond the entries that
    it checks or carries. *)
Definition commits_covered {R} (c : Cluster R) : Prop :=
  forall to req, MAppReq to req ∈ net c ->
    aeq_leader_commit req <= aeq_prev_log_index req + zlen (aeq_entries req).

Section Invariant.
Context {R : Type} `{ReplicaLaws R} {St : Strength}.
Context (members : list PeerInfo).
Implicit Types (n : RaftNode R) (g : Ghost) (i : Z).

Abbreviation ids := (node_id <$> members).

Definition sure g (u : Z) (X : list LogEntry) (k : nat) : Prop := strict -> committed ids g u X k.

(** A vote: not later than the voter's term; for a candidate whose log is at least as up
    to date; and, until the term has a leader and if it counted for that leader, cast with
    everything the voter acknowledged and no later leader dropped. *)
Record vote_inv g i n (t c : Z) (VL : list LogEntry) : Prop := {
  vi_term : t <= current_term_ n;
  vi_current : t = current_term_ n -> voted_for_ n = c;
  vi_cand : c <> 0;
  vi_wf : log_wf VL;
  vi_valid : valid g VL;
  vi_up_to_date : exists CL, g_cand g !! (t, c) = Some CL /\ up_to_date (zlen CL) (Log_LastTerm CL) VL;
  vi_keeps : (g_ldr g !! t = None \/ exists ld, g_ldr g !! t = Some ld /\ i ∈ ld_voters ld) ->
    forall u k ld, u < t -> (k <= acked g i u)%nat -> g_ldr g !! u = Some ld -> carried g u k (t - 1) ->
      take k VL = take k (ld_log ld)
}.

(** The leader's indices: one per other member; acknowledged, and within its log. *)
Record index_inv g n : Prop := {
  xi_match_dom : forall p, is_Some (match_index_ n !! p) <-> p ∈ node_id <$> other_peers n;
  xi_match : forall p m, match_index_ n !! p = Some m -> 0 <= m /\ (Z.to_nat m <= acked g p (current_term_ n))%nat;
  xi_next_dom : forall p, is_Some (next_index_ n !! p) <-> p ∈ node_id <$> other_peers n;
  xi_next : forall p x, next_index_ n !! p = Some x -> 1 <= x <= zlen (log_entries n) + 1
}.

Record node_inv g (i : Z) n : Prop := {
  ni_ok : node_ok n;
  ni_id : local_node_id_ n = i;
  ni_peers : peers (config_ n) = members;
  ni_len : zlen (log_entries n) <= 2 ^ 62;
  ni_valid : valid g (log_entries n);
  ni_terms : Forall (fun e => le_term e <= current_term_ n) (log_entries n);
  ni_voted : voted_for_ n <> 0 -> exists VL, g_vote g !! (i, current_term_ n) = Some (voted_for_ n, VL);
  ni_votes : forall t c VL, g_vote g !! (i, t) = Some (c, VL) -> vote_inv g i n t c VL;
  ni_cands : forall t CL, g_cand g !! (t, i) = Some CL ->
    1 <= t <= current_term_ n /\ valid g CL /\ Forall (fun e => le_term e < t) CL /\ good_log CL;
  ni_candidate : state_ n = RaftState.kCandidate ->
    g_cand g !! (current_term_ n, i) = Some (log_entries n) /\ voted_for_ n = i;
  ni_ldrs : forall t ld, g_ldr g !! t = Some ld -> ld_id ld = i ->
    t <= current_term_ n /\ (t = current_term_ n -> state_ n <> RaftState.kCandidate);
  ni_leader : state_ n = RaftState.kLeader ->
    (exists ld, g_ldr g !! current_term_ n = Some ld /\ ld_id ld = i /\ ld_log ld = log_entries n) /\ index_inv g n;
  ni_acks : forall t k, (0 < k <= acked g i t)%nat ->
    exists ld, g_ldr g !! t = Some ld /\ t <= current_term_ n /\ (k <= length (ld_log ld))%nat /\
      (carried g t k (current_term_ n) -> take k (log_entries n) = take k (ld_log ld));
  ni_commit : 0 <= commit_index_ n <= 2 ^ 62 /\
    sure g (current_term_ n) (log_entries n) (Z.to_nat (commit_index_ n))
}.

Record ldr_inv g (t : Z) (ld : Leadership) : Prop := {
  li_cand : g_cand g !! (t, ld_id ld) = Some (ld_start ld);
  li_member : ld_id ld ∈ ids;
  li_prefix : ld_start ld `prefix_of` ld_log ld;
  li_own : forall k e, (length (ld_start ld) <= k)%nat -> ld_log ld !! k = Some e -> le_term e = t;
  li_valid : valid g (ld_log ld);
  li_good : good_log (ld_log ld);
  li_quorum : quorum ids (ld_voters ld);
  li_votes : forall v, v ∈ ld_voters ld -> exists VL, g_vote g !! (v, t) = Some (ld_id ld, VL);
  li_ack : acked g (ld_id ld) t = length (ld_log ld)
}.

(** ** Messages and elections *)

Definition vote_req_inv g (req : RequestVoteRequest) : Prop :=
  is_u64 (rvq_term req) /\ is_u32 (rvq_candidate_id req) /\ rvq_candidate_id req <> 0 /\
  exists CL, g_cand g !! (rvq_term req, rvq_candidate_id req) = Some CL /\
    rvq_last_log_index req = zlen CL /\ rvq_last_log_term req = Log_LastTerm CL.

(** An append request carries a stretch of its leader's log; in the strict invariant, what
    it says is committed ends within that stretch. *)
Record app_req_inv g (req : AppendEntriesRequest) (ld : Leadership) : Prop := {
  ai_ldr : g_ldr g !! aeq_term req = Some ld;
  ai_id : ld_id ld = aeq_leader_id req;
  ai_term : is_u64 (aeq_term req);
  ai_prev : 0 <= aeq_prev_log_index req;
  ai_len : aeq_prev_log_index req + zlen (aeq_entries req) <= zlen (ld_log ld);
  ai_entries : aeq_entries req =
    drop (Z.to_nat (aeq_prev_log_index req))
      (take (Z.to_nat (aeq_prev_log_index req + zlen (aeq_entries req))) (ld_log ld));
  ai_prev_term : 0 < aeq_prev_log_index req ->
    exists e, ld_log ld !! Z.to_nat (aeq_prev_log_index req - 1) = Some e /\ le_term e = aeq_prev_log_term req;
  ai_commit : 0 <= aeq_leader_commit req <= 2 ^ 62 /\
    (strict -> aeq_leader_commit req <= aeq_prev_log_index req + zlen (aeq_entries req));
  ai_committed : sure g (aeq_term req) (ld_log ld) (Z.to_nat (aeq_leader_commit req))
}.

Definition msg_inv g (m : Msg) : Prop :=
  match m with
  | MVoteReq to req => vote_req_inv g req
  | MVoteResp from req resp =>
      is_u64 (rvr_term resp) /\
      (rvr_vote_granted resp = true ->
       exists VL, g_vote g !! (from, rvq_term req) = Some (rvq_candidate_id req, VL))
  | MAppReq to req => to <> aeq_leader_id req /\ exists ld, app_req_inv g req ld
  | MAppResp from req resp =>
      is_u64 (aer_term resp) /\ from ∈ ids /\ from <> aeq_leader_id req /\ (exists ld, app_req_inv g req ld) /\
      (aer_success resp = true ->
       (Z.to_nat (aeq_prev_log_index req + zlen (aeq_entries req)) <= acked g from (aeq_term req))%nat)
  end.

Definition election_inv g (i : Z) (el : Election) : Prop :=
  vote_req_inv g (el_req el) /\ rvq_candidate_id (el_req el) = i /\ i ∈ ids /\
  exists S, NoDup (i :: S ++ el_rest el) /\ S ++ el_rest el ⊆ ids /\ el_votes el = 1 + zlen S /\
    forall v, v ∈ i :: S -> exists VL, g_vote g !! (v, rvq_term (el_req el)) = Some (i, VL).

Record Inv (c : Cluster R) g : Prop := {
  inv_dom : forall i, is_Some (nodes c !! i) <-> i ∈ ids;
  inv_nodes : forall i n, nodes c !! i = Some n -> node_inv g i n;
  inv_ldrs : forall t ld, g_ldr g !! t = Some ld -> ldr_inv g t ld;
  inv_net : forall m, m ∈ net c -> msg_inv g m;
  inv_elections : forall i el, elections c !! i = Some el -> election_inv g i el
}.

(** ** The invariant and growing histories *)

(** Only what the history holds about node [i] changed. *)
Record ext_at (i : Z) g g' : Prop := {
  ea_ext : ext g g';
  ea_cand : forall t j, j <> i -> g_cand g' !! (t, j) = g_cand g !! (t, j);
  ea_vote : forall j t, j <> i -> g_vote g' !! (j, t) = g_vote g !! (j, t);
  ea_ldr : forall t ld, g_ldr g' !! t = Some ld -> ld_id ld <> i -> g_ldr g !! t = Some ld;
  ea_ack : forall j t, j <> i -> acked g' j t = acked g j t
}.

Lemma ext_at_refl i g : ext_at i g g.
Proof. constructor; [apply ext_refl|done..]. Qed.

Lemma sure_ext g g' u X k : ext g g' -> sure g u X k -> sure g' u X k.
Proof. intros Hext Hs Hst. eapply committed_ext; [exact Hext|by apply Hs]. Qed.

Lemma sure_take g u u' X Y k :
  sure g u X k -> u <= u' -> (strict -> (k <= length X)%nat -> take k X = take k Y) -> sure g u' Y k.
Proof.
  intros Hs Hu E Hst. specialize (Hs Hst). eapply committed_take; [exact Hs|done|].
  apply E; [done|]. by eapply committed_length.
Qed.

Lemma sure_term g u u' X k : sure g u X k -> u <= u' -> sure g u' X k.
Proof. intros Hs Hu. by eapply sure_take. Qed.

Lemma sure_0 g u X : sure g u X 0.
Proof. intros _. apply committed_0. Qed.

Lemma vote_inv_ext g g' j n t c VL :
  ext g g' -> (forall u, u < t -> acked g' j u = acked g j u) ->
  (forall u k, (0 < k <= acked g j u)%nat -> exists ld, g_ldr g !! u = Some ld /\ (k <= length (ld_log ld))%nat) ->
  vote_inv g j n t c VL -> vote_inv g' j n t c VL.
Proof.
  intros Hext Hack Hks [Ht Hcur Hc Hwf HV (CL & HCL & Hup) Hk].
  constructor; [done|done|done|done|by eapply valid_ext| |].
  - exists CL. split; [|done]. by eapply lookup_weaken, ext_cand.
  - intros Hl u k ld' Hu Hka Hld' Hcar. rewrite Hack in Hka by done. destruct (decide (k = O)) as [->|Hk0]; [done|].
    destruct (Hks u k) as (ld & Hld & Hlen); [lia|].
    destruct (ext_ldr _ _ Hext _ _ Hld) as (ld2 & Hld2 & _ & _ & _ & Hp). replace ld2 with ld' in * by congruence.
    rewrite (take_prefix _ _ _ Hp Hlen). apply (Hk) with (u := u); [|done|done|done|by eapply carried_ext].
    destruct (g_ldr g !! t) as [l|] eqn:E; [|by left]. right. exists l. split; [done|].
    destruct (ext_ldr _ _ Hext _ _ E) as (l' & El' & _ & _ & Hv & _).
    destruct Hl as [Hl|(l2 & El2 & Hin)]; [congruence|]. replace l2 with l' in * by congruence. by rewrite <- Hv.
Qed.

Lemma index_inv_ext g g' n : ext g g' -> index_inv g n -> index_inv g' n.
Proof.
  intros Hext [? Hm ? ?]. constructor; [done| |done|done]. intros p m Hp.
  destruct (Hm p m Hp). pose proof (ext_ack _ _ Hext p (current_term_ n)). lia.
Qed.

(** Other nodes do not notice. *)
Lemma node_inv_other i g g' j n : ext_at i g g' -> j <> i -> node_inv g j n -> node_inv g' j n.
Proof.
  intros [Hext Hcand Hvote Hldr Hack] Hj [Hok Hid Hpe Hlen Hval Hterms Hvd Hvs Hcs Hcn Hls Hle Hak [Hc0 Hcm]].
  constructor; [done|done|done|done|by eapply valid_ext|done| | | | | | | |].
  - by rewrite Hvote.
  - intros t c VL. rewrite Hvote by done. intros Hv. apply Hvs in Hv.
    eapply vote_inv_ext; [exact Hext|by intros; apply Hack| |exact Hv].
    intros u k Hk. destruct (Hak u k Hk) as (ld & ? & _ & ? & _). by exists ld.
  - intros t CL. rewrite Hcand by done. intros Hc. destruct (Hcs _ _ Hc) as (? & ? & ? & ?).
    split; [done|]. split; [by eapply valid_ext|done].
  - intros Hst. rewrite Hcand by done. by apply Hcn.
  - intros t ld Hld Hi. apply (Hls t ld); [|done]. apply Hldr; [done|congruence].
  - intros Hst. destruct (Hle Hst) as [(ld & Hld & Hi & Hlog) Hx]. split; [|by eapply index_inv_ext].
    destruct (ext_ldr _ _ Hext _ _ Hld) as (ld' & Hld' & Hi' & _). exists ld'.
    assert (g_ldr g !! current_term_ n = Some ld') as E by (apply Hldr; [done|congruence]).
    replace ld' with ld in * by congruence. done.
  - intros t k Hk. rewrite Hack in Hk by done. destruct (Hak t k Hk) as (ld & Hld & Ht & Hlk & Himp).
    destruct (ext_ldr _ _ Hext _ _ Hld) as (ld' & Hld' & _ & _ & _ & Hp). exists ld'.
    split; [done|]. split; [done|]. split; [apply prefix_length in Hp; lia|]. intros Hcar.
    rewrite (take_prefix _ _ _ Hp Hlk). apply Himp. by eapply carried_ext.
  - split; [done|]. by eapply sure_ext.
Qed.

Lemma vote_req_inv_ext g g' req : ext g g' -> vote_req_inv g req -> vote_req_inv g' req.
Proof.
  intros Hext (Ht & Hc & Hz & CL & HCL & Hi). split; [done|]. split; [done|]. split; [done|].
  exists CL. split; [|done]. by eapply lookup_weaken, ext_cand.
Qed.

Lemma app_req_inv_ext g g' req ld :
  ext g g' -> app_req_inv g req ld -> exists ld', app_req_inv g' req ld'.
Proof.
  intros Hext [Hld Hid Ht Hp Hl He Hpt Hc Hcm].
  destruct (ext_ldr _ _ Hext _ _ Hld) as (ld' & Hld' & Hid' & _ & _ & Hpre). exists ld'.
  assert (Hle : (length (ld_log ld) <= length (ld_log ld'))%nat) by (by apply prefix_length).
  constructor; [done|congruence|done|done|unfold zlen in *; lia| | |done|].
  - rewrite He at 1. f_equal. symmetry. apply take_prefix; [done|]. unfold zlen in *. lia.
  - intros Hp0. destruct (Hpt Hp0) as (e & He' & Hte). exists e. split; [by eapply prefix_lookup_Some|done].
  - eapply sure_take; [by eapply sure_ext|done|]. intros _ Hk. symmetry. by apply take_prefix.
Qed.

Lemma msg_inv_ext g g' m : ext g g' -> msg_inv g m -> msg_inv g' m.
Proof.
  intros Hext. destruct m as [to req|from req resp|to req|from req resp]; cbn.
  - by apply vote_req_inv_ext.
  - intros [Hu Hv]. split; [done|]. intros Hg. destruct (Hv Hg) as [VL HV]. exists VL.
    by eapply lookup_weaken, ext_vote.
  - intros [Hne [ld Hld]]. split; [done|]. by eapply app_req_inv_ext.
  - intros (Hu & Hin & Hne & [ld Hld] & Ha). split; [done|]. split; [done|]. split; [done|].
    split; [by eapply app_req_inv_ext|]. intros Hs. specialize (Ha Hs).
    pose proof (ext_ack _ _ Hext from (aeq_term req)). lia.
Qed.

Lemma election_inv_ext g g' i el : ext g g' -> election_inv g i el -> election_inv g' i el.
Proof.
  intros Hext (Hr & Hc & Hi & S & Hnd & Hsub & Hv & Hvs). split; [by eapply vote_req_inv_ext|].
  split; [done|]. split; [done|]. exists S. split; [done|]. split; [done|]. split; [done|].
  intros v Hin. destruct (Hvs v Hin) as [VL HV]. exists VL. by eapply lookup_weaken, ext_vote.
Qed.

(** The history changed at [i] only, and not the leaders. *)
Lemma ldr_inv_ext i g g' :
  ext_at i g g' -> (forall t, g_ldr g' !! t = g_ldr g !! t) ->
  (forall t ld, g_ldr g !! t = Some ld -> ld_id ld = i -> acked g' i t = acked g i t) ->
  forall t ld, ldr_inv g t ld -> g_ldr g !! t = Some ld -> ldr_inv g' t ld.
Proof.
  intros [Hext _ _ _ Hack] Hl Hai t ld [Hc Hm Hp Ho Hv Hg Hq Hvo Ha] Hld.
  constructor; [by eapply lookup_weaken, ext_cand|done|done|done|by eapply valid_ext|done|done| |].
  - intros v Hin. destruct (Hvo v Hin) as [VL HV]. exists VL. by eapply lookup_weaken, ext_vote.
  - destruct (decide (ld_id ld = i)) as [Hi|Hi]; [|by rewrite Hack].
    rewrite <- Ha, Hi. by eapply Hai.
Qed.

(** One event at node [i]. *)
Lemma inv_step_at i c g g' n n' :
  Inv c g -> nodes c !! i = Some n -> ext_at i g g' -> node_inv g' i n' ->
  (forall t ld, g_ldr g' !! t = Some ld -> ldr_inv g' t ld) ->
  Inv (set_node i n' c) g'.
Proof.
  intros [Hd Hn Hl Hm He] Hi Hea Hn' Hl'. constructor; cbn [nodes elections net set_node].
  - intros j. rewrite <- Hd. destruct (decide (j = i)) as [->|Hj].
    + rewrite lookup_insert_eq, Hi. split; intros _; by eexists.
    + by rewrite lookup_insert_ne.
  - intros j m Hj. apply lookup_insert_Some in Hj as [[<- <-]|[Hne Hj]]; [done|].
    eapply node_inv_other; [exact Hea|congruence|by apply Hn].
  - done.
  - intros m Hin. eapply msg_inv_ext; [apply Hea|by apply Hm].
  - intros j el Hel. eapply election_inv_ext; [apply Hea|by apply He].
Qed.

Lemma inv_send m c g : Inv c g -> msg_inv g m -> Inv (send m c) g.
Proof.
  intros [Hd Hn Hl Hm He] Hm'. constructor; try done. cbn. intros m' [->|Hin]%elem_of_cons; [done|by apply Hm].
Qed.

Lemma inv_set_election i el c g : Inv c g -> election_inv g i el -> Inv (set_election i el c) g.
Proof.
  intros [Hd Hn Hl Hm He] Hel. constructor; try done. cbn. intros j el' Hj.
  apply lookup_insert_Some in Hj as [[<- <-]|[_ Hj]]; [done|by apply He].
Qed.

Lemma inv_end_election i c g : Inv c g -> Inv (end_election i c) g.
Proof.
  intros [Hd Hn Hl Hm He]. constructor; try done. cbn. intros j el' Hj.
  apply lookup_delete_Some in Hj as [_ Hj]. by apply He.
Qed.

End Invariant.
