(* ===== verification/RaftCompleteness.v ===== *)
(** * Later leaders have everything chosen

    The heart of the safety argument: in a cluster that satisfies the invariant, a leader
    is elected with every entry that a leader of an earlier term got chosen, or ever will. *)

From Stdlib Require Import Strings.String.
From S2P Require Import Prelude Common BigEndian Crc32 Os WalRecord WalWriter RaftTypes RaftLog ClusterConfig.
From S2P Require Import RaftNode RaftNodeSpec RaftCluster RaftGhost RaftInvariant.

Definition members_ok (members : list PeerInfo) : Prop :=
  NoDup (node_id <$> members) /\ Forall (fun i => 0 < i < 2 ^ 32) (node_id <$> members).

Section Completeness.
Context {R : Type} `{ReplicaLaws R} {St : Strength}.
Context (members : list PeerInfo) (Hmembers : members_ok members).
Implicit Types (n : RaftNode R) (g : Ghost) (i : Z) (c : Cluster R).

Abbreviation ids := (node_id <$> members).
Abbreviation chosen := (chosen ids).
Abbreviation committed := (committed ids).

Lemma inv_node c g i : Inv members c g -> i ∈ ids -> exists n, nodes c !! i = Some n /\ node_inv members g i n.
Proof. intros HI Hi. destruct (proj2 (inv_dom _ _ _ HI i) Hi) as [n Hn]. exists n. split; [done|by eapply inv_nodes]. Qed.

(** The log a leader started with has earlier terms only. *)
Lemma ldr_start c g t ld :
  Inv members c g -> g_ldr g !! t = Some ld ->
  1 <= t /\ valid g (ld_start ld) /\ Forall (fun e => le_term e < t) (ld_start ld).
Proof.
  intros HI Hld. destruct (inv_ldrs _ _ _ HI _ _ Hld) as [Hc Hm _ _ _ _ _ _ _].
  destruct (inv_node _ _ _ HI Hm) as (n & _ & Hn). destruct (ni_cands _ _ _ _ Hn _ _ Hc) as (? & ? & ? & _).
  split; [lia|done].
Qed.

Lemma ldr_terms c g t ld k e :
  Inv members c g -> g_ldr g !! t = Some ld -> ld_log ld !! k = Some e ->
  le_term e <= t /\ (le_term e = t -> (length (ld_start ld) <= k)%nat).
Proof.
  intros HI Hld He. destruct (inv_ldrs _ _ _ HI _ _ Hld) as [_ _ [es Hp] Ho _ _ _ _ _].
  destruct (ldr_start _ _ _ _ HI Hld) as (_ & _ & Hlt).
  destruct (decide (length (ld_start ld) <= k)%nat) as [Hk|Hk].
  - rewrite (Ho k e Hk He). split; [lia|done].
  - rewrite Hp, lookup_app_l in He by lia. rewrite Forall_lookup in Hlt. apply Hlt in He. lia.
Qed.

Lemma valid_last g X e :
  valid g X -> last X = Some e ->
  Log_LastTerm X = le_term e /\
  exists ld, g_ldr g !! le_term e = Some ld /\ X !! pred (length X) = Some e /\
    X = take (length X) (ld_log ld) /\ (0 < length X)%nat.
Proof.
  intros HX He. unfold Log_LastTerm. rewrite He. split; [done|]. rewrite last_lookup in He.
  destruct (HX _ _ He) as (ld & Hld & E). exists ld. pose proof (lookup_lt_Some _ _ _ He).
  replace (S (pred (length X))) with (length X) in E by lia.
  split; [done|]. split; [done|]. split; [|lia]. rewrite <- E. symmetry. by apply take_ge.
Qed.

Lemma nonempty_last {A} (X : list A) : (0 < length X)%nat -> exists e, last X = Some e.
Proof. intros Hl. destruct (last X) as [e|] eqn:E; [by exists e|]. apply last_None in E. subst. cbn in Hl. lia. Qed.

(** A candidate as up to date as a voter that has the first [k] entries has them too,
    provided the leaders since then do. *)
Lemma up_to_date_keeps c g t k ld e u CL VL :
  Inv members c g -> g_ldr g !! t = Some ld -> (0 < k)%nat -> ld_log ld !! pred k = Some e -> le_term e = t ->
  valid g CL -> Forall (fun x => le_term x < u) CL -> log_wf VL -> valid g VL ->
  up_to_date (zlen CL) (Log_LastTerm CL) VL ->
  take k VL = take k (ld_log ld) -> carried g t k (u - 1) ->
  take k CL = take k (ld_log ld).
Proof.
  intros HI Hld Hk He Ht HCL HCu HVw HVL Hup HV Hcar.
  pose proof (lookup_lt_Some _ _ _ He) as Hkl.
  assert (HkV : (k <= length VL)%nat) by (eapply take_eq_length; [by symmetry|lia]).
  destruct (nonempty_last VL) as [eV HeV]; [lia|].
  destruct (valid_last _ _ _ HVL HeV) as (EV & lV & HlV & _ & HVeq & _).
  assert (Htau : t <= le_term eV).
  { assert (HeL : ld_log lV !! pred k = Some e).
    { rewrite (take_prefix_lookup (ld_log lV) VL k), (take_prefix_lookup VL (ld_log ld) k); [done|done|lia| |lia].
      rewrite HVeq, take_take. f_equal. lia. }
    pose proof (ldr_terms _ _ _ _ _ _ HI HlV HeL). lia. }
  destruct (ldr_start _ _ _ _ HI Hld) as (Ht1 & _ & _).
  destruct (decide (CL = [])) as [->|HCne].
  { exfalso. destruct Hup as [Hup|[Hup _]]; cbn in Hup; lia. }
  destruct (nonempty_last CL) as [eC HeC]; [destruct CL; [done|cbn; lia]|].
  destruct (valid_last _ _ _ HCL HeC) as (EC & lC & HlC & HeCl & HCeq & _).
  unfold up_to_date in Hup. rewrite EC, EV in Hup. destruct Hup as [Hlt|[Heq Hlen]].
  - assert (HeCL : ld_log lC !! pred (length CL) = Some eC).
    { rewrite HCeq in HeCl. rewrite <- HCeq in HeCl at 1. apply lookup_take_Some in HeCl as [? _]. done. }
    destruct (ldr_terms _ _ _ _ _ _ HI HlC HeCL) as [_ Hstart]. specialize (Hstart eq_refl).
    rewrite Forall_lookup in HCu. apply HCu in HeCl as Hu.
    assert (HcC : take k (ld_start lC) = take k (ld_log ld)) by (apply (Hcar (le_term eC)); [lia|done|done]).
    assert (HkS : (k <= length (ld_start lC))%nat) by (eapply take_eq_length; [by symmetry|lia]).
    destruct (inv_ldrs _ _ _ HI _ _ HlC) as [_ _ Hp _ _ _ _ _ _].
    rewrite HCeq, take_take, Nat.min_l by lia. by rewrite (take_prefix _ _ _ Hp HkS).
  - rewrite Heq, HlV in HlC. replace lC with lV in * by congruence.
    rewrite Log_LastIndex_wf in Hlen by done. unfold zlen in Hlen.
    rewrite <- HV, HCeq, HVeq, !take_take. f_equal. lia.
Qed.

(** A leader starts with everything chosen in earlier terms. *)
Lemma chosen_carried c g t k :
  Inv members c g -> chosen g t k -> forall u, carried g t k u.
Proof.
  intros HI Hch. destruct Hmembers as [Hnd _].
  assert (Hall : forall d u, u - t <= Z.of_nat d -> carried g t k u); [|intros u; apply (Hall (Z.to_nat (u - t))); lia].
  induction d as [|d IH]; intros u Hd w lw ld Hw Hlw Hld; [lia|].
  destruct Hch as (ld' & e & Q & Hld' & Hk & He & Ht & HQ & Hack). replace ld' with ld in * by congruence.
  destruct (inv_ldrs _ _ _ HI _ _ Hlw) as [Hcand Hmem _ _ _ _ HV Hvotes _].
  destruct (quorums_meet _ _ _ Hnd HQ HV) as (v & HvQ & HvV).
  destruct (Hvotes v HvV) as [VL Hvote].
  destruct (inv_node _ _ v HI) as (n & _ & Hn); [by apply (proj1 (proj2 HQ))|].
  destruct (ni_votes _ _ _ _ Hn _ _ _ Hvote) as [_ _ _ Hwf Hval (CL & HCL & Hup) Hkeep].
  replace CL with (ld_start lw) in * by congruence.
  destruct (ldr_start _ _ _ _ HI Hlw) as (_ & HvalC & HtC).
  assert (Hcar : carried g t k (w - 1)) by (apply IH; lia).
  eapply up_to_date_keeps; [done|done|done|done|done|done|exact HtC|done|exact Hval|done| |done].
  apply (Hkeep ltac:(right; by exists lw) t k ld); [lia|by apply Hack|done|done].
Qed.

(** Hence what is chosen in a term is in every log that extends a later leader's. *)
Lemma chosen_in_later c g t k ld w lw :
  Inv members c g -> chosen g t k -> t <= w -> g_ldr g !! t = Some ld -> g_ldr g !! w = Some lw ->
  take k (ld_log lw) = take k (ld_log ld).
Proof.
  intros HI Hch Hw Hld Hlw. destruct (decide (t = w)) as [->|Hne]; [congruence|].
  pose proof (chosen_length _ _ _ _ _ Hch Hld).
  assert (E : take k (ld_start lw) = take k (ld_log ld)) 
    by (apply (chosen_carried c g t k HI Hch w w lw ld); [lia|done|done]).
  rewrite <- E. destruct (inv_ldrs _ _ _ HI _ _ Hlw) as [_ _ Hp _ _ _ _ _ _].
  apply take_prefix; [done|]. eapply take_eq_length; [by symmetry|lia].
Qed.

Lemma take_le {A} (X Y : list A) j k : (j <= k)%nat -> take k X = take k Y -> take j X = take j Y.
Proof. intros Hj E. rewrite <- (Nat.min_l j k) by done. rewrite <- !take_take. by rewrite E. Qed.

Lemma committed_in_later c g u X k w lw :
  Inv members c g -> committed g u X k -> u <= w -> g_ldr g !! w = Some lw -> take k X = take k (ld_log lw).
Proof.
  intros HI [->|(t & m & ld & Ht & Hch & Hk & Hld & E)] Hu Hlw; [done|]. rewrite E. symmetry.
  eapply take_le; [exact Hk|]. apply (chosen_in_later c g t m ld w lw); (done || lia).
Qed.

(** Two committed prefixes agree. *)
Lemma committed_agree c g u1 u2 X Y j k :
  Inv members c g -> committed g u1 X j -> committed g u2 Y k ->
  take (Nat.min j k) X = take (Nat.min j k) Y.
Proof.
  intros HI [->|(t1 & m1 & l1 & _ & Hch1 & Hj & Hl1 & E1)]; [done|].
  intros [->|(t2 & m2 & l2 & _ & Hch2 & Hk & Hl2 & E2)]; [by rewrite Nat.min_0_r|].
  rewrite (take_le X (ld_log l1) _ j) by (done || lia). rewrite (take_le Y (ld_log l2) _ k) by (done || lia).
  destruct (Z.le_ge_cases t1 t2) as [Hle|Hge].
  - symmetry. apply (take_le _ _ _ m1); [lia|]. by apply (chosen_in_later c g t1 m1 l1 t2 l2).
  - apply (take_le _ _ _ m2); [lia|]. by apply (chosen_in_later c g t2 m2 l2 t1 l1).
Qed.

End Completeness.
