(* ===== verification/RaftSteps.v ===== *)
(** * The invariant survives every event *)

From Stdlib Require Import Strings.String.
From S2P Require Import Prelude Common BigEndian Crc32 Os WalRecord WalWriter RaftTypes RaftLog ClusterConfig.
From S2P Require Import RaftNode RaftNodeSpec RaftCluster RaftGhost RaftInvariant RaftCompleteness.

Section Steps.
Context {R : Type} `{ReplicaLaws R} {St : Strength}.
Context (members : list PeerInfo) (Hmembers : members_ok members).
Implicit Types (n : RaftNode R) (g : Ghost) (i : Z) (c : Cluster R).

Abbreviation ids := (node_id <$> members).
Abbreviation Inv := (Inv members).
Abbreviation node_inv := (node_inv members).
Abbreviation sure := (sure members).

(** ** Events that keep the log *)

Lemma vote_inv_node g i n n' t v VL :
  vote_inv g i n t v VL -> current_term_ n <= current_term_ n' ->
  (t = current_term_ n' -> voted_for_ n' = v) -> vote_inv g i n' t v VL.
Proof. intros [Ht Hcur Hc Hwf HV Hup Hk] Hle Heq. constructor; [lia|done..]. Qed.

Lemma node_inv_same_log g i n n' :
  node_inv g i n -> node_ok n' -> same_node n n' -> log_entries n' = log_entries n ->
  0 <= commit_index_ n' <= 2 ^ 62 /\ sure g (current_term_ n') (log_entries n) (Z.to_nat (commit_index_ n')) ->
  (current_term_ n' = current_term_ n /\ voted_for_ n' = voted_for_ n /\
   (state_ n' = state_ n \/ state_ n' = RaftState.kFollower) /\ (state_ n' = RaftState.kLeader -> index_inv g n')) \/
  (current_term_ n < current_term_ n' /\ voted_for_ n' = 0 /\ state_ n' = RaftState.kFollower) ->
  node_inv g i n'.
Proof.
  intros [Hok Hid Hpe Hlen Hval Hterms Hvd Hvs Hcs Hcn Hls Hle Hak Hcm] Hok' [Hid' Hcfg] Hlog Hcommit Hcase.
  assert (Htle : current_term_ n <= current_term_ n') by lia.
  assert (Hst : state_ n' = RaftState.kFollower \/ (state_ n' = state_ n /\ current_term_ n' = current_term_ n))
    by (destruct Hcase as [(? & _ & [?|?] & _)|(_ & _ & ?)]; auto).
  assert (Hvt : current_term_ n' = current_term_ n -> voted_for_ n' = voted_for_ n)
    by (destruct Hcase as [(_ & ? & _)|(? & _ & _)]; [done|lia]).
  constructor; rewrite ?Hlog; [done|congruence|congruence|done|done| | | | | | | | |done].
  - eapply Forall_impl; [exact Hterms|]. intros e He; cbn beta in *. lia.
  - destruct Hcase as [(E & Ev & _)|(_ & Ev & _)]; [by rewrite E, Ev|by rewrite Ev].
  - intros t v VL HV. pose proof (Hvs _ _ _ HV) as Hold. eapply vote_inv_node; [exact Hold|done|].
    intros ->. destruct Hold as [Hle' Hcur _ _ _ _ _]. rewrite Hvt by lia. apply Hcur. lia.
  - intros t CL HC. destruct (Hcs _ _ HC) as (? & ? & ? & ?). split; [lia|done].
  - intros Hc. destruct Hst as [|[Es Et]]; [congruence|]. rewrite Et. destruct Hcn as [? Hv]; [congruence|].
    split; [done|]. rewrite Hvt; done.
  - intros t ld Hld Hi. destruct (Hls t ld Hld Hi) as [Ht Hne]. split; [lia|]. intros E.
    destruct Hst as [->|[-> Et]]; [done|]. apply Hne. lia.
  - intros Hl. destruct Hcase as [(Et & _ & [Es|Es] & Hx)|(_ & _ & Es)]; [|congruence..].
    rewrite Et. split; [|by apply Hx]. apply Hle. congruence.
  - intros t k Hk. destruct (Hak t k Hk) as (ld & Hld & Ht & Hlk & Himp). exists ld.
    split; [done|]. split; [lia|]. split; [done|]. intros Hcar. apply Himp. by eapply carried_le.
Qed.

(** A node that steps down to a later term. *)
Lemma node_inv_follower g i clk t n :
  node_inv g i n -> is_u64 t -> current_term_ n < t -> node_inv g i (BecomeFollowerLocked clk t n).
Proof.
  intros Hn Ht Hlt.
  destruct (BecomeFollower_spec clk t n (ni_ok _ _ _ _ Hn) Ht) as (Hok & Hs & Hl & _ & Et & Ev & Es & Ec & _).
  apply (node_inv_same_log g i n); [done|done|done|done| |right; rewrite Et; done].
  rewrite Ec, Et. destruct (ni_commit _ _ _ _ Hn) as [? Hcm]. split; [done|]. eapply sure_term; [exact Hcm|lia].
Qed.

(** An event that the history need not record. *)
Lemma inv_same_ghost i c g n n' :
  Inv c g -> nodes c !! i = Some n -> node_inv g i n' -> Inv (set_node i n' c) g.
Proof.
  intros HI Hn Hn'. eapply inv_step_at; [exact HI|exact Hn|apply ext_at_refl|done|]. by apply (inv_ldrs _ _ _ HI).
Qed.

Lemma commit_bound g i n :
  node_inv g i n -> 0 <= commit_index_ n < 2 ^ 64 /\ (strict -> commit_index_ n <= zlen (log_entries n)).
Proof.
  intros Hn. destruct (ni_commit _ _ _ _ Hn) as [Hc1 Hc2]. split; [lia|]. intros Hst.
  specialize (Hc2 Hst). apply committed_length in Hc2. unfold zlen in *. lia.
Qed.

(** ** Restarts *)

Lemma step_restart i c g n disk clk c' :
  Inv c g -> nodes c !! i = Some n -> rep_restarts (replica_ n) disk ->
  exec (EvRestart i disk clk) c = Some c' -> Inv c' g.
Proof.
  intros HI Hi Hr Hex. pose proof (inv_nodes _ _ _ HI _ _ Hi) as Hn. cbn [exec] in Hex. rewrite Hi in Hex.
  cbn [mbind option_bind] in Hex.
  destruct (restart_spec clk n disk (ni_ok _ _ _ _ Hn) Hr) as (n' & E & Hok & Hs & _ & Hl & Et & Ev & Es & Ec & _).
  rewrite E in Hex. injection Hex as <-. apply inv_end_election. eapply inv_same_ghost; [done|done|].
  apply (node_inv_same_log g i n); [done|done|done|done| |].
  - rewrite Ec. split; [lia|apply sure_0].
  - left. split; [done|]. split; [done|]. split; [by right|]. congruence.
Qed.

(** ** Elections: standing and voting *)

Lemma member_id i : i ∈ ids -> 0 < i < 2 ^ 32.
Proof. intros Hi. destruct Hmembers as [_ Hf]. rewrite Forall_forall in Hf. by apply Hf. Qed.

Lemma inv_member c g i n : Inv c g -> nodes c !! i = Some n -> i ∈ ids.
Proof. intros HI Hi. apply (inv_dom _ _ _ HI). by exists n. Qed.

(** What a node acknowledged and later leaders kept is in its log. *)
Lemma acks_kept g i n u k ld :
  node_inv g i n -> (k <= acked g i u)%nat -> g_ldr g !! u = Some ld -> carried g u k (current_term_ n) ->
  take k (log_entries n) = take k (ld_log ld).
Proof.
  intros Hn Hk Hld Hcar. destruct (decide (k = O)) as [->|Hk0]; [done|].
  destruct (ni_acks _ _ _ _ Hn u k) as (ld' & Hld' & _ & _ & Himp); [lia|].
  replace ld' with ld in * by congruence. by apply Himp.
Qed.

Lemma up_to_date_refl X : log_wf X -> up_to_date (zlen X) (Log_LastTerm X) X.
Proof. intros Hwf. right. split; [done|]. rewrite Log_LastIndex_wf by done. lia. Qed.

Lemma NoDup_fmap_filter {A B} (f : A -> B) (P : A -> Prop) `{forall x, Decision (P x)} l :
  NoDup (f <$> l) -> NoDup (f <$> filter P l).
Proof.
  induction l as [|x l IH]; [done|]. cbn [fmap list_fmap]. intros [Hx Hnd]%NoDup_cons.
  rewrite filter_cons. destruct (decide (P x)); [|by apply IH]. cbn [fmap list_fmap]. apply NoDup_cons.
  split; [|by apply IH]. intros (y & E & Hy)%list_elem_of_fmap. apply Hx, list_elem_of_fmap.
  exists y. split; [done|]. by apply list_elem_of_filter in Hy as [_ ?].
Qed.

(** The peers a node talks to. *)
Lemma other_ids g i n p : node_inv g i n -> p ∈ node_id <$> other_peers n <-> p ∈ ids /\ p <> i.
Proof.
  intros Hn. unfold other_peers. rewrite (ni_peers _ _ _ _ Hn), (ni_id _ _ _ _ Hn), !list_elem_of_fmap.
  split.
  - intros (q & -> & [? ?]%list_elem_of_filter). split; [by exists q|done].
  - intros [(q & -> & ?) ?]. exists q. by rewrite list_elem_of_filter.
Qed.

Lemma other_ids_NoDup g i n : node_inv g i n -> NoDup (i :: (node_id <$> other_peers n)).
Proof.
  intros Hn. apply NoDup_cons. split.
  - intros Hin. by apply (other_ids g i n i Hn) in Hin as [_ ?].
  - destruct Hmembers as [Hnd _]. unfold other_peers. rewrite (ni_peers _ _ _ _ Hn).
    by apply NoDup_fmap_filter.
Qed.

(** The history at [i] after it stood for election in a new term. *)
Definition stand i t X g : Ghost := add_vote i t i X (add_cand t i X g).

Lemma stand_ext i t X g :
  g_cand g !! (t, i) = None -> g_vote g !! (i, t) = None -> ext_at i g (stand i t X g).
Proof.
  intros Hc Hv. constructor.
  - eapply ext_trans; [by apply ext_add_cand|by apply ext_add_vote].
  - intros u j Hj. cbn. rewrite lookup_insert_ne; [done|]. congruence.
  - intros j u Hj. cbn. rewrite lookup_insert_ne; [done|]. congruence.
  - done.
  - done.
Qed.

Lemma node_inv_stand g i n n' :
  node_inv g i n -> i ∈ ids -> node_ok n' -> same_node n n' -> log_entries n' = log_entries n ->
  commit_index_ n' = commit_index_ n -> current_term_ n' = current_term_ n + 1 -> voted_for_ n' = i ->
  state_ n' = RaftState.kCandidate ->
  let t := current_term_ n + 1 in
  ext_at i g (stand i t (log_entries n) g) /\ node_inv (stand i t (log_entries n) g) i n'.
Proof.
  intros Hn Hi Hok' [Hid' Hcfg] Hlog Ec Et Ev Es t.
  pose proof Hn as [Hok Hid Hpe Hlen Hval Hterms Hvd Hvs Hcs Hcn Hls Hle Hak [Hc0 Hcm]].
  set (g' := stand i t (log_entries n) g).
  destruct (node_log_wf n Hok) as [Hwf Hstor].
  assert (Hnc : g_cand g !! (t, i) = None).
  { destruct (g_cand g !! (t, i)) eqn:E; [|done]. apply Hcs in E as [? _]. lia. }
  assert (Hnv : g_vote g !! (i, t) = None).
  { destruct (g_vote g !! (i, t)) as [[v VL]|] eqn:E; [|done]. apply Hvs in E as [? _]. lia. }
  assert (Hea : ext_at i g g') by (by apply stand_ext). split; [done|].
  assert (Hext : ext g g') by apply Hea.
  assert (Hks : forall u k, (0 < k <= acked g i u)%nat -> exists ld, g_ldr g !! u = Some ld /\ (k <= length (ld_log ld))%nat).
  { intros u k Hk. destruct (Hak u k Hk) as (ld & ? & _ & ? & _). by exists ld. }
  assert (Ht1 : 0 <= current_term_ n) by (destruct Hok as [_ _ [[? _] _]]; done).
  constructor; rewrite ?Hlog, ?Et, ?Ec; fold t; [done|congruence|congruence|done|by eapply valid_ext| | | | | | |congruence| |].
  - eapply Forall_impl; [exact Hterms|]. intros e He; cbn beta in *. lia.
  - intros _. exists (log_entries n). rewrite Ev. cbn. by rewrite lookup_insert_eq.
  - intros u v VL. cbn [g_vote g' stand add_vote]. intros [[[= <-] [= <- <-]]|[Hne HV]]%lookup_insert_Some.
    + constructor; [lia|done| |done|by eapply valid_ext| |].
      * pose proof (member_id i Hi). lia.
      * exists (log_entries n). split; [cbn; by rewrite lookup_insert_eq|by apply up_to_date_refl].
      * intros _ u k ld Hu Hk Hld Hcar. replace (t - 1) with (current_term_ n) in Hcar by lia.
        by eapply acks_kept.
    + apply (vote_inv_node _ _ n); [|lia|intros E; rewrite Et in E; fold t in E; congruence].
      eapply (vote_inv_ext g); [done|done|exact Hks|by apply Hvs].
  - intros u CL. cbn [g_cand g' stand add_vote add_cand]. intros [[[= <-] <-]|[Hne HC]]%lookup_insert_Some.
    + split; [lia|]. split; [by eapply valid_ext|]. split; [|done].
      eapply Forall_impl; [exact Hterms|]. intros e He; cbn beta in *. lia.
    + destruct (Hcs _ _ HC) as (? & ? & ? & ?). split; [lia|]. split; [by eapply valid_ext|done].
  - intros _. split; [|done]. cbn. by rewrite lookup_insert_eq.
  - intros u ld Hld Hldi. destruct (Hls u ld Hld Hldi) as [Hu _]. split; [lia|]. intros ->. lia.
  - intros u k Hk. destruct (Hak u k Hk) as (ld & Hld & Hu & Hlk & Himp). exists ld. split; [done|].
    split; [lia|]. split; [done|]. intros Hcar. apply Himp. eapply (carried_le _ _ _ t); [lia|exact Hcar].
  - split; [done|]. eapply sure_ext; [exact Hext|]. eapply sure_term; [exact Hcm|lia].
Qed.

Lemma step_elect i clk c g n c' :
  Inv c g -> nodes c !! i = Some n -> current_term_ n + 1 < 2 ^ 64 ->
  exec (EvElect i clk) c = Some c' -> exists g', ext g g' /\ Inv c' g'.
Proof.
  intros HI Hi Hlt Hex. pose proof (inv_nodes _ _ _ HI _ _ Hi) as Hn. pose proof (inv_member _ _ _ _ HI Hi) as Him.
  cbn [exec] in Hex. rewrite Hi in Hex. cbn [mbind option_bind] in Hex.
  destruct (guard _) as [[]|]; [|done]. cbn [mbind option_bind] in Hex.
  pose proof (member_id i Him) as Hid.
  destruct (StartElection_begin_spec clk n (ni_ok _ _ _ _ Hn) Hlt) as
    (req & n' & E & _ & Hok & Hs & Hl & Ec & _ & _ & Et & Ev & Es & Hreq).
  { rewrite (ni_id _ _ _ _ Hn). lia. }
  rewrite E in Hex. injection Hex as <-. rewrite (ni_id _ _ _ _ Hn) in Ev, Hreq.
  destruct (node_inv_stand g i n n' Hn Him Hok Hs Hl Ec Et Ev Es) as [Hea Hn'].
  set (g' := stand i (current_term_ n + 1) (log_entries n) g) in *. exists g'. split; [apply Hea|].
  apply inv_set_election.
  - eapply inv_step_at; [exact HI|exact Hi|exact Hea|exact Hn'|].
    intros t ld Hld. eapply (ldr_inv_ext members i g); [exact Hea|done|done| |exact Hld]. by apply (inv_ldrs _ _ _ HI).
  - assert (Ht0 : 0 <= current_term_ n) by (destruct (ni_ok _ _ _ _ Hn) as [_ _ [[? _] _]]; done).
    split; [|split; [|split; [done|]]].
    + subst req. split; [cbn; lia|]. split; [cbn; lia|]. split; [cbn; lia|]. exists (log_entries n).
      split; [cbn; by rewrite lookup_insert_eq|done].
    + by subst req.
    + exists []. cbn [el_rest el_votes el_req app]. split; [|split; [|split; [done|]]].
      * by apply (other_ids_NoDup g').
      * intros p Hp. by apply (other_ids g' i n') in Hp as [? _].
      * intros v ->%list_elem_of_singleton. exists (log_entries n). subst req. cbn. by rewrite lookup_insert_eq.
Qed.

Lemma step_ask i c g c' : Inv c g -> exec (EvAsk i) c = Some c' -> Inv c' g.
Proof.
  intros HI Hex. cbn [exec] in Hex. destruct (elections c !! i) as [el|] eqn:Hel; [|done].
  cbn [mbind option_bind] in Hex. destruct (head (el_rest el)) as [p|]; [|done]. injection Hex as <-.
  apply inv_send; [done|]. by apply (inv_elections _ _ _ HI) in Hel as [? _].
Qed.

Lemma index_inv_same g n n' :
  index_inv g n -> log_entries n' = log_entries n -> current_term_ n' = current_term_ n ->
  match_index_ n' = match_index_ n -> next_index_ n' = next_index_ n -> same_node n n' -> index_inv g n'.
Proof.
  intros [Hmd Hm Hnd Hx] Hl Ht Em Ex [Hid Hcfg].
  assert (Ho : other_peers n' = other_peers n) by (unfold other_peers; by rewrite Hid, Hcfg).
  constructor; rewrite ?Ho, ?Em, ?Ex, ?Ht, ?Hl; done.
Qed.

(** The first vote of a term. *)
Lemma node_inv_add_vote g i n n' t v CL :
  node_inv g i n -> i ∈ ids -> (forall u ld, g_ldr g !! u = Some ld -> ldr_inv members g u ld) ->
  node_ok n' -> same_node n n' -> log_entries n' = log_entries n -> commit_index_ n' = commit_index_ n ->
  match_index_ n' = match_index_ n -> next_index_ n' = next_index_ n ->
  current_term_ n <= t -> current_term_ n' = t -> voted_for_ n' = v -> v <> 0 ->
  state_ n' = (if current_term_ n <? t then RaftState.kFollower else state_ n) ->
  (current_term_ n < t \/ voted_for_ n = 0 \/ voted_for_ n = v) ->
  g_cand g !! (t, v) = Some CL -> up_to_date (zlen CL) (Log_LastTerm CL) (log_entries n) ->
  g_vote g !! (i, t) = None ->
  node_inv (add_vote i t v (log_entries n) g) i n'.
Proof.
  intros Hn Him Hldrs Hok' [Hid' Hcfg] Hlog Ec Em Ex Hle Et Ev Hv0 Es Hcan HCL Hup HNone.
  pose proof Hn as [Hok Hid Hpe Hlen Hval Hterms Hvd Hvs Hcs Hcn Hls Hld Hak [Hc0 Hcm]].
  set (g' := add_vote i t v (log_entries n) g). assert (Hext : ext g g') by (by apply ext_add_vote).
  assert (Hks : forall u k, (0 < k <= acked g i u)%nat -> exists ld, g_ldr g !! u = Some ld /\ (k <= length (ld_log ld))%nat).
  { intros u k Hk. destruct (Hak u k Hk) as (ld & ? & _ & ? & _). by exists ld. }
  assert (Hvt : t = current_term_ n -> voted_for_ n = 0).
  { intros ->. destruct (decide (voted_for_ n = 0)) as [|Hne]; [done|]. destruct (Hvd Hne) as [VL HV]. congruence. }
  constructor; rewrite ?Hlog, ?Et, ?Ec; [done|congruence|congruence|done|by eapply valid_ext| | | | | | | | |].
  - eapply Forall_impl; [exact Hterms|]. intros e He; cbn beta in *. lia.
  - intros _. exists (log_entries n). rewrite Ev. cbn. by rewrite lookup_insert_eq.
  - intros u w VL. cbn [g_vote g' add_vote]. intros [[[= <-] [= <- <-]]|[Hne HV]]%lookup_insert_Some.
    + constructor; [lia|done|done|by apply node_log_wf|by eapply valid_ext|by exists CL|].
      intros Hl u k ld Hu Hk Hlu Hcar. eapply acks_kept; [done|done|done|]. intros x lx l0 Hx Hlx Hl0.
      destruct (decide (x = t)) as [->|Hxt]; [|apply (Hcar x); [lia|done|done]]. exfalso.
      destruct Hl as [Hl|(l & El & Hin)]; cbn [g_ldr g' add_vote] in *; [congruence|].
      destruct (li_votes _ _ _ _ (Hldrs _ _ El) i Hin) as [? ?]. congruence.
    + apply (vote_inv_node _ _ n); [eapply (vote_inv_ext g); [done|done|done|by apply Hvs]|lia|]. congruence.
  - intros u C HC. destruct (Hcs _ _ HC) as (? & ? & ? & ?). split; [lia|]. split; [by eapply valid_ext|done].
  - intros Hc. exfalso. destruct (Z.ltb_spec (current_term_ n) t) as [|Hge]; [congruence|].
    destruct (Hcn ltac:(congruence)) as [_ Hvi]. pose proof (Hvt ltac:(lia)).
    pose proof (member_id i Him). lia.
  - intros u ld Hlu Hi. destruct (Hls u ld Hlu Hi) as [Hu Hne]. split; [lia|]. intros ->.
    destruct (Z.ltb_spec (current_term_ n) t) as [|Hge]; [congruence|]. rewrite Es. apply Hne. lia.
  - intros Hl. destruct (Z.ltb_spec (current_term_ n) t) as [|Hge]; [congruence|].
    assert (current_term_ n = t) as <- by lia. destruct (Hld ltac:(congruence)) as [Hl1 Hx]. split; [done|].
    apply (index_inv_ext g); [done|]. by eapply index_inv_same.
  - intros u k Hk. destruct (Hak u k Hk) as (ld & Hlu & Hu & Hlk & Himp). exists ld. split; [done|].
    split; [lia|]. split; [done|]. intros Hcar. apply Himp. by eapply (carried_le _ _ _ t).
  - split; [done|]. eapply sure_ext; [exact Hext|]. by eapply sure_term.
Qed.

(** A history that changed at [i], the leaders and the acknowledgements apart. *)
Lemma inv_new_vote i c g t v X n n' :
  Inv c g -> nodes c !! i = Some n -> g_vote g !! (i, t) = None -> node_inv (add_vote i t v X g) i n' ->
  Inv (set_node i n' c) (add_vote i t v X g).
Proof.
  intros HI Hi HN Hn'.
  assert (Hea : ext_at i g (add_vote i t v X g)).
  { constructor; [by apply ext_add_vote|done| |done|done].
    intros j u Hj. cbn. rewrite lookup_insert_ne; [done|]. congruence. }
  eapply inv_step_at; [exact HI|exact Hi|exact Hea|exact Hn'|].
  intros u ld Hld. eapply (ldr_inv_ext members i g); [exact Hea|done|done| |exact Hld]. by apply (inv_ldrs _ _ _ HI).
Qed.

Lemma index_same_if g n n' :
  (state_ n' = RaftState.kLeader -> state_ n = RaftState.kLeader) -> 
  (state_ n = RaftState.kLeader -> index_inv g n) ->
  log_entries n' = log_entries n -> current_term_ n' = current_term_ n ->
  match_index_ n' = match_index_ n -> next_index_ n' = next_index_ n -> same_node n n' ->
  state_ n' = RaftState.kLeader -> index_inv g n'.
Proof. intros Hl Hx ? ? ? ? ? Hs. eapply index_inv_same; [by apply Hx, Hl|done..]. Qed.

Lemma step_vote i req clk1 clk2 c g n c' :
  Inv c g -> nodes c !! i = Some n -> exec (EvVote i req clk1 clk2) c = Some c' ->
  exists g', ext g g' /\ Inv c' g'.
Proof.
  intros HI Hi Hex. pose proof (inv_nodes _ _ _ HI _ _ Hi) as Hn. pose proof (inv_member _ _ _ _ HI Hi) as Him.
  cbn [exec] in Hex. rewrite Hi in Hex. cbn [mbind option_bind] in Hex.
  destruct (bool_decide_reflect (MVoteReq i req ∈ net c)) as [Hin|]; [|done]. cbn [guard mbind option_bind] in Hex.
  pose proof (inv_net _ _ _ HI _ Hin) as (Hu & Hcu & Hc0 & CL & HCL & Hli & Hlt).
  destruct (HandleRequestVote_spec clk1 clk2 req n (ni_ok _ _ _ _ Hn) Hu Hcu) as
    (resp & n' & E & Hok & Hs & Hl & _ & Ec & Em & Ex & Et & Hrt & Es & Hcase).
  rewrite E in Hex. injection Hex as <-.
  assert (Hresp : is_u64 (rvr_term resp)) by (rewrite Hrt; destruct Hok as [_ _ [? _]]; done).
  destruct (ni_commit _ _ _ _ Hn) as [Hcn Hcm].
  assert (Hcm' : 0 <= commit_index_ n' <= 2 ^ 62 /\
    sure g (current_term_ n') (log_entries n) (Z.to_nat (commit_index_ n'))).
  { rewrite Ec. split; [done|]. eapply sure_term; [exact Hcm|lia]. }
  assert (Hkeep : rvq_term req <= current_term_ n -> voted_for_ n' = voted_for_ n -> node_inv g i n').
  { intros Hle Ev. apply (node_inv_same_log g i n); [done|done|done|done|done|]. left.
    replace (current_term_ n <? rvq_term req) with false in Es by lia.
    split; [lia|]. split; [done|]. split; [by left|]. eapply index_same_if; [| |done|lia|done..]; [congruence|].
    by apply (ni_leader _ _ _ _ Hn). }
  destruct (rvr_vote_granted resp) eqn:Eg.
  - destruct Hcase as (Etr & Ev & Hcan & Hup). rewrite Hli, Hlt in Hup.
    destruct (g_vote g !! (i, rvq_term req)) as [[v VL]|] eqn:EV.
    + pose proof (ni_votes _ _ _ _ Hn _ _ _ EV) as [Hvt Hcur Hv0 _ _ _ _].
      assert (v = rvq_candidate_id req) as -> by (specialize (Hcur ltac:(lia)); lia).
      exists g. split; [apply ext_refl|]. apply inv_send; [|split; [done|]; intros _; by exists VL].
      eapply inv_same_ghost; [done|done|]. apply Hkeep; [lia|]. rewrite Ev. symmetry. apply Hcur. lia.
    + exists (add_vote i (rvq_term req) (rvq_candidate_id req) (log_entries n) g). split; [by apply ext_add_vote|].
      apply inv_send.
      * eapply inv_new_vote; [done|done|done|].
        eapply node_inv_add_vote with (CL := CL); try done; [by apply (inv_ldrs _ _ _ HI)|lia].
      * split; [done|]. intros _. exists (log_entries n). cbn. by rewrite lookup_insert_eq.
  - exists g. split; [apply ext_refl|]. apply inv_send; [|split; [done|]; congruence].
    eapply inv_same_ghost; [done|done|].
    destruct (Z.ltb_spec (current_term_ n) (rvq_term req)) as [Hlt'|Hge]; [|by apply Hkeep].
    apply (node_inv_same_log g i n); [done|done|done|done|done|]. right. split; [lia|done].
Qed.

Lemma step_vote_reply i resp clk c g c' :
  Inv c g -> exec (EvVoteReply i resp clk) c = Some c' -> Inv c' g.
Proof.
  intros HI Hex. cbn [exec] in Hex. destruct (nodes c !! i) as [n|] eqn:Hi; [|done].
  pose proof (inv_nodes _ _ _ HI _ _ Hi) as Hn. cbn [mbind option_bind] in Hex.
  destruct (elections c !! i) as [el|] eqn:Hel; [|done]. cbn [mbind option_bind] in Hex.
  destruct (el_rest el) as [|p rest] eqn:Erest; [done|]. cbn [head mbind option_bind] in Hex.
  destruct (guard _) as [[]|] eqn:Egd; [|done]. cbn [mbind option_bind tail] in Hex.
  destruct (inv_elections _ _ _ HI _ _ Hel) as (Hreq & Hcid & Him & S & Hnd & Hsub & Hv & Hvs).
  rewrite Erest in Hnd, Hsub.
  assert (Hmsg : forall a, resp = Some a -> msg_inv members g (MVoteResp p (el_req el) a)).
  { intros a ->. destruct (bool_decide_reflect (MVoteResp p (el_req el) a ∈ net c)) as [Hin|]; [|done].
    by apply (inv_net _ _ _ HI). }
  assert (Hskip : Inv (set_node i n c) g) by (by eapply inv_same_ghost).
  assert (Hnext : election_inv members g i (mkElection (el_req el) rest (el_votes el))).
  { split; [done|]. split; [done|]. split; [done|]. exists S. cbn [el_rest el_votes el_req].
    split; [|split; [|done]].
    - eapply sublist_NoDup; [exact Hnd|]. apply sublist_skip, sublist_app; [done|]. by apply sublist_cons.
    - intros x Hx. apply Hsub. apply elem_of_app in Hx as [Hx|Hx]; apply elem_of_app; [by left|right].
      apply elem_of_cons. by right. }
  destruct (StartElection_reply_spec clk (rvq_term (el_req el)) (el_votes el) resp n (ni_ok _ _ _ _ Hn))
    as [(a & Ea & _ & _ & Hlt & E)|[E|[(a & Ea & Hle & E)|[_ E]]]]; rewrite ?E in Hex.
  - intros a Ea. by apply (Hmsg a Ea).
  - injection Hex as <-. apply inv_end_election. eapply inv_same_ghost; [done|done|].
    apply node_inv_follower; [done|by apply (Hmsg a Ea)|done].
  - injection Hex as <-. by apply inv_end_election.
  - injection Hex as <-. apply inv_set_election; [done|].
    destruct (rvr_vote_granted a) eqn:Eg; [|done]. destruct (Hmsg a Ea) as [_ Hgr].
    destruct (Hgr Eg) as [VL HVL]. rewrite Hcid in HVL.
    split; [done|]. split; [done|]. split; [done|]. exists (p :: S). cbn [el_rest el_votes el_req].
    split; [|split; [|split]].
    + rewrite <- Permutation_middle in Hnd. exact Hnd.
    + intros x Hx. apply Hsub. rewrite <- Permutation_middle. exact Hx.
    + autorewrite with zlen. lia.
    + intros v [->|[->|Hin]%elem_of_cons]%elem_of_cons; [|by exists VL|]; apply Hvs; apply elem_of_cons; [by left|by right].
  - injection Hex as <-. by apply inv_set_election.
Qed.

(** ** Events at the node's current term that move its log or what it acknowledged *)

Lemma node_inv_acked g g' i n n' :
  node_inv g i n -> ext g g' ->
  (forall t, g_vote g' !! (i, t) = g_vote g !! (i, t)) -> (forall t, g_cand g' !! (t, i) = g_cand g !! (t, i)) ->
  (forall t, t <> current_term_ n -> acked g' i t = acked g i t) ->
  (exists ld, g_ldr g' !! current_term_ n = Some ld /\ (acked g' i (current_term_ n) <= length (ld_log ld))%nat /\
     take (acked g' i (current_term_ n)) (log_entries n') = take (acked g' i (current_term_ n)) (ld_log ld)) ->
  node_ok n' -> same_node n n' -> current_term_ n' = current_term_ n -> voted_for_ n' = voted_for_ n ->
  zlen (log_entries n') <= 2 ^ 62 -> valid g' (log_entries n') ->
  Forall (fun e => le_term e <= current_term_ n) (log_entries n') ->
  (forall t k ld, t < current_term_ n -> g_ldr g !! t = Some ld -> (k <= length (ld_log ld))%nat ->
     carried g' t k (current_term_ n) -> take k (log_entries n) = take k (ld_log ld) ->
     take k (log_entries n') = take k (ld_log ld)) ->
  0 <= commit_index_ n' <= 2 ^ 62 /\ sure g' (current_term_ n) (log_entries n') (Z.to_nat (commit_index_ n')) ->
  state_ n' <> RaftState.kCandidate ->
  (forall t ld, g_ldr g' !! t = Some ld -> ld_id ld = i -> t <= current_term_ n) ->
  (state_ n' = RaftState.kLeader ->
   (exists ld, g_ldr g' !! current_term_ n = Some ld /\ ld_id ld = i /\ ld_log ld = log_entries n') /\ index_inv g' n') ->
  node_inv g' i n'.
Proof.
  intros [Hok Hid Hpe Hlen Hval Hterms Hvd Hvs Hcs Hcn Hls Hle Hak _] Hext Evote Ecand Eack (ld & Hld & Hal & Hat)
    Hok' [Hid' Hcfg] Et Ev Hlen' Hval' Hterms' Hlog Hcm Hnc Hls' Hle'.
  constructor; rewrite ?Et, ?Ev; [done|congruence|congruence|done|done|done| | | |done| |done| |done].
  - by rewrite Evote.
  - intros t v VL. rewrite Evote. intros HV. pose proof (Hvs _ _ _ HV) as Hold.
    pose proof (vi_term _ _ _ _ _ _ Hold) as Ht.
    apply (vote_inv_node _ _ n); [|lia|intros ->; rewrite Ev; by apply Hold].
    eapply vote_inv_ext; [exact Hext| | |exact Hold]; [intros u Hu; apply Eack; lia|].
    intros u k Hk. destruct (Hak u k Hk) as (l & ? & _ & ? & _). by exists l.
  - intros t CL. rewrite Ecand. intros HC. destruct (Hcs _ _ HC) as (? & ? & ? & ?).
    split; [done|]. split; [by eapply valid_ext|done].
  - intros t l Hl Hi. split; [by eapply Hls'|done].
  - intros t k Hk. destruct (decide (t = current_term_ n)) as [->|Hne].
    { exists ld. split; [done|]. split; [lia|]. split; [lia|]. intros _.
      eapply take_le; [|exact Hat]. lia. }
    rewrite Eack in Hk by done. destruct (Hak t k Hk) as (l & Hl & Ht & Hlk & Himp).
    destruct (ext_ldr _ _ Hext _ _ Hl) as (l' & Hl' & _ & _ & _ & Hp). exists l'.
    split; [done|]. split; [done|]. split; [apply prefix_length in Hp; lia|]. intros Hcar.
    rewrite (take_prefix _ _ _ Hp Hlk). apply (Hlog t k l); [lia|done|done|done|]. apply Himp. by eapply carried_ext.
Qed.

(** ** Winning an election *)

Definition crown i t X Q g : Ghost := add_ack i t (length X) (set_ldr t (mkLeadership i X X Q) g).

Lemma term_without_leader c g i n t Q :
  Inv c g -> nodes c !! i = Some n -> state_ n = RaftState.kCandidate -> current_term_ n = t ->
  quorum ids Q -> (forall v, v ∈ Q -> exists VL, g_vote g !! (v, t) = Some (i, VL)) ->
  g_ldr g !! t = None.
Proof.
  intros HI Hi Hs Ht HQ Hvotes. destruct (g_ldr g !! t) as [ld|] eqn:Hld; [exfalso|done].
  pose proof (inv_ldrs _ _ _ HI _ _ Hld) as Hl. destruct Hmembers as [Hnd _].
  destruct (quorums_meet _ _ _ Hnd HQ (li_quorum _ _ _ _ Hl)) as (v & HvQ & HvL).
  destruct (Hvotes v HvQ) as [VL HVL]. destruct (li_votes _ _ _ _ Hl v HvL) as [VL' HVL'].
  assert (Hii : ld_id ld = i) by congruence.
  pose proof (inv_nodes _ _ _ HI _ _ Hi) as Hn. destruct (ni_ldrs _ _ _ _ Hn t ld Hld Hii) as [_ Hne].
  by apply Hne.
Qed.

Lemma crown_ext i t X Q g : g_ldr g !! t = None -> ext_at i g (crown i t X Q g).
Proof.
  intros HN. constructor; [|done|done| |].
  - eapply ext_trans; [by apply ext_set_ldr_new|apply ext_add_ack].
  - intros u ld. cbn. intros [[<- <-]|[_ ?]]%lookup_insert_Some Hi; [by destruct Hi|done].
  - intros j u Hj. unfold crown. rewrite acked_add_ack, decide_False; [done|]. congruence.
Qed.

Lemma crown_leader i t X Q g : g_ldr (crown i t X Q g) !! t = Some (mkLeadership i X X Q).
Proof. cbn. by rewrite lookup_insert_eq. Qed.

Lemma fresh_term_not_acked g i n t : node_inv g i n -> g_ldr g !! t = None -> acked g i t = O.
Proof.
  intros Hn HN. destruct (acked g i t) as [|k] eqn:E; [done|].
  destruct (ni_acks _ _ _ _ Hn t 1%nat) as (ld & ? & _); [lia|congruence].
Qed.

Lemma crown_acked i t X Q g n :
  node_inv g i n -> g_ldr g !! t = None -> acked (crown i t X Q g) i t = length X.
Proof.
  intros Hn HN. unfold crown. rewrite acked_add_ack, decide_True by done.
  pose proof (fresh_term_not_acked _ _ _ _ Hn HN) as E. unfold acked in *. cbn [g_ack set_ldr]. lia.
Qed.

Lemma good_log_of g i n : node_inv g i n -> good_log (log_entries n).
Proof. intros Hn. destruct (node_log_wf n (ni_ok _ _ _ _ Hn)). split; [done|]. split; [done|]. apply Hn. Qed.

Lemma inv_crown i time c g n Q :
  Inv c g -> nodes c !! i = Some n -> state_ n = RaftState.kCandidate -> quorum ids Q ->
  (forall v, v ∈ Q -> exists VL, g_vote g !! (v, current_term_ n) = Some (i, VL)) ->
  g_ldr g !! current_term_ n = None ->
  Inv (set_node i (BecomeLeaderLocked time n) c) (crown i (current_term_ n) (log_entries n) Q g).
Proof.
  intros HI Hi Hs HQ Hvotes HNone. pose proof (inv_nodes _ _ _ HI _ _ Hi) as Hn.
  pose proof (inv_member _ _ _ _ HI Hi) as Him. pose proof (ni_len _ _ _ _ Hn) as Hlen.
  set (t := current_term_ n) in *. set (X := log_entries n). set (g' := crown i t X Q g).
  assert (Hea : ext_at i g g') by (by apply crown_ext). assert (Hext : ext g g') by apply Hea.
  assert (Hack : acked g' i t = length X) by (by eapply crown_acked).
  destruct (ni_candidate _ _ _ _ Hn Hs) as [HC Hvi].
  destruct (BecomeLeader_spec time n (ni_ok _ _ _ _ Hn)) as (Hok & Hsn & Hl & Ec & Et & Ev & Es & Hm & Hx);
    [fold X in Hlen |- *; lia|].
  set (n' := BecomeLeaderLocked time n) in *.
  assert (Hop : other_peers n' = other_peers n) by done.
  eapply inv_step_at; [exact HI|exact Hi|exact Hea| |].
  - assert (HX : g_ldr g' !! t = Some (mkLeadership i X X Q)) by apply crown_leader.
    apply (node_inv_acked g g' i n); try done; rewrite ?Hl; fold t; fold X.
    + intros u Hu. unfold g', crown. rewrite acked_add_ack, decide_False; [done|]. congruence.
    + eexists. split; [exact HX|]. cbn [ld_log]. rewrite Hack. done.
    + eapply valid_ext; [exact Hext|]. apply Hn.
    + apply Hn.
    + rewrite Ec. destruct (ni_commit _ _ _ _ Hn) as [? Hcm]. split; [done|]. by eapply sure_ext.
    + intros u ld Hu Hii. cbn in Hu. apply lookup_insert_Some in Hu as [[<- <-]|[_ Hu]]; [lia|].
      by apply (ni_ldrs _ _ _ _ Hn) in Hu as [? _].
    + intros _. split; [by eexists|]. constructor; rewrite ?Hop.
      * intros p. rewrite Hm. destruct (decide _) as [Hp|Hp]; split; intros Hq; (done || by eexists || by destruct Hq).
      * intros p m. rewrite Hm. destruct (decide _); [|done]. intros [= <-]. split; [done|]. lia.
      * intros p. rewrite Hx. destruct (decide _) as [Hp|Hp]; split; intros Hq; (done || by eexists || by destruct Hq).
      * intros p x. rewrite Hx. destruct (decide _); [|done]. intros [= <-]. rewrite Hl. fold X.
        pose proof (zlen_nonneg X). lia.
  - intros u ld Hu. cbn in Hu. apply lookup_insert_Some in Hu as [[<- <-]|[Hne Hu]].
    + constructor; cbn [ld_id ld_start ld_log ld_voters]; [exact HC|done|done| | |by apply (good_log_of g i)|done|exact Hvotes|done].
      * intros k e Hk He. apply lookup_lt_Some in He. lia.
      * eapply valid_ext; [exact Hext|]. apply Hn.
    + pose proof (inv_ldrs _ _ _ HI _ _ Hu) as [Hc Hmem Hp Ho Hval Hg Hq Hvo Ha].
      constructor; [done|done|done|done|by eapply valid_ext|done|done|done|].
      rewrite <- Ha. unfold g', crown. rewrite acked_add_ack, decide_False; [done|]. congruence.
Qed.

Lemma step_elected i time c g c' :
  Inv c g -> exec (EvElected i time) c = Some c' -> exists g', ext g g' /\ Inv c' g'.
Proof.
  intros HI Hex. cbn [exec] in Hex. destruct (nodes c !! i) as [n|] eqn:Hi; [|done].
  pose proof (inv_nodes _ _ _ HI _ _ Hi) as Hn. cbn [mbind option_bind] in Hex.
  destruct (elections c !! i) as [el|] eqn:Hel; [|done]. cbn [mbind option_bind] in Hex.
  destruct (bool_decide_reflect (el_rest el = [])) as [Erest|]; [|done]. cbn [guard mbind option_bind] in Hex.
  injection Hex as <-. unfold StartElection_finish.
  assert (Hkeep : exists g', ext g g' /\ Inv (end_election i (set_node i n c)) g').
  { exists g. split; [apply ext_refl|]. by eapply inv_end_election, inv_same_ghost. }
  destruct (bool_decide_reflect (state_ n = RaftState.kCandidate)) as [Hs|]; [|exact Hkeep].
  destruct (Z.eqb_spec (current_term_ n) (rvq_term (el_req el))) as [Ht|]; [|exact Hkeep].
  destruct (Z.leb_spec (majority n) (el_votes el)) as [Hmaj|]; [|exact Hkeep]. cbn [andb].
  destruct (inv_elections _ _ _ HI _ _ Hel) as (Hreq & Hcid & Him & S & Hnd & Hsub & Hv & Hvs).
  rewrite Erest, app_nil_r in Hnd, Hsub. rewrite <- Ht in Hvs.
  assert (HQ : quorum ids (i :: S)).
  { split; [done|]. split; [intros v [->|Hin]%elem_of_cons; [done|by apply Hsub]|].
    unfold majority in Hmaj. rewrite (ni_peers _ _ _ _ Hn), Hv in Hmaj. unfold zlen in Hmaj. cbn [length].
    rewrite length_fmap. apply Nat2Z.inj_le. rewrite Nat2Z.inj_add, Nat2Z.inj_div. lia. }
  assert (HNone : g_ldr g !! current_term_ n = None) by (by eapply term_without_leader).
  eexists. split; [|by apply inv_end_election, inv_crown]. by apply crown_ext.
Qed.

(** ** The leader's requests *)

(** A stretch of the leader's log that starts at a peer's next index makes a good request;
    in the strict invariant it has to reach as far as the commit index. *)
Lemma leader_request g i n next m :
  node_inv g i n -> state_ n = RaftState.kLeader -> 1 <= next <= m + 1 -> m <= zlen (log_entries n) ->
  (strict -> commit_index_ n <= m) ->
  exists ld, app_req_inv members g (mkAppendEntriesRequest (current_term_ n) i (next - 1)
    (term_before next (log_entries n)) (commit_index_ n)
    (drop (Z.to_nat (next - 1)) (take (Z.to_nat m) (log_entries n)))) ld.
Proof.
  intros Hn Hl Hnext Hm Hcov. destruct (ni_leader _ _ _ _ Hn Hl) as [(ld & Hld & Hid & Hlog) _]. exists ld.
  destruct (ni_commit _ _ _ _ Hn) as [Hc0 Hcm]. rewrite <- Hlog in *.
  assert (Hlen : next - 1 + zlen (drop (Z.to_nat (next - 1)) (take (Z.to_nat m) (ld_log ld))) = m).
  { unfold zlen in *. rewrite length_drop, length_take. lia. }
  constructor; cbn [aeq_term aeq_leader_id aeq_prev_log_index aeq_prev_log_term aeq_leader_commit aeq_entries];
    rewrite ?Hlen; [done|done|by destruct (ni_ok _ _ _ _ Hn) as [_ _ [? _]]|lia|lia|done| |done|done].
  intros Hp. unfold term_before. replace (next =? 1) with false by lia.
  replace (next - 1 - 1) with (next - 2) by lia.
  destruct (ld_log ld !! Z.to_nat (next - 2)) as [e|] eqn:E; [by exists e|].
  apply lookup_ge_None in E. unfold zlen in *. lia.
Qed.

(** Reading [next_index_] of a peer does not change it. *)
Lemma node_inv_indexes g i n :
  node_inv g i n -> node_inv g i (set_indexes (next_index_ n) (match_index_ n) n).
Proof.
  intros Hn. apply (node_inv_same_log g i n); [done|destruct (ni_ok _ _ _ _ Hn); by constructor|done|done|apply Hn|].
  left. do 2 (split; [done|]). split; [by left|]. intros Hl. eapply index_inv_same; [by apply (ni_leader _ _ _ _ Hn Hl)|done..].
Qed.

Lemma next_of_peer g i n p :
  node_inv g i n -> state_ n = RaftState.kLeader -> p ∈ node_id <$> other_peers n ->
  exists next, next_index_ n !! p = Some next /\ 1 <= next <= zlen (log_entries n) + 1.
Proof.
  intros Hn Hl Hp. destruct (ni_leader _ _ _ _ Hn Hl) as [_ Hx]. apply (xi_next_dom _ _ Hx) in Hp as [next Hnext].
  exists next. split; [done|]. by eapply xi_next.
Qed.

Lemma step_replicate i p c g c' : Inv c g -> exec (EvReplicate i p) c = Some c' -> Inv c' g.
Proof.
  intros HI Hex. cbn [exec] in Hex. destruct (nodes c !! i) as [n|] eqn:Hi; [|done].
  pose proof (inv_nodes _ _ _ HI _ _ Hi) as Hn. cbn [mbind option_bind] in Hex.
  destruct (bool_decide_reflect (p ∈ node_id <$> other_peers n)) as [Hp|]; [|done]. cbn [guard mbind option_bind] in Hex.
  destruct (decide (state_ n = RaftState.kLeader)) as [Hl|Hl].
  - destruct (next_of_peer g i n p Hn Hl Hp) as (next & Hnext & Hr). pose proof (ni_len _ _ _ _ Hn) as Hlen.
    rewrite (ReplicateToPeer_request_spec p n next) in Hex; [|apply Hn|done|done|done|lia].
    injection Hex as <-. destruct (rpc_sent _); [|eapply inv_same_ghost; [done|done|by apply node_inv_indexes]].
    apply inv_send; [eapply inv_same_ghost; [done|done|by apply node_inv_indexes]|].
    cbn [msg_inv aeq_leader_id]. rewrite (ni_id _ _ _ _ Hn).
    split; [by apply (other_ids g i n p Hn) in Hp as [_ ?]|].
    destruct (leader_request g i n next (zlen (log_entries n)) Hn Hl Hr) as [ld Hld]; [lia|by apply (commit_bound g i)|].
    exists ld. rewrite (take_ge (log_entries n)) in Hld by (unfold zlen; lia). exact Hld.
  - unfold ReplicateToPeer_request in Hex. rewrite bool_decide_false in Hex by done. injection Hex as <-.
    by eapply inv_same_ghost.
Qed.

Lemma step_confirm i p term c g c' :
  Inv c g -> (strict -> commits_covered c') -> exec (EvConfirm i p term) c = Some c' -> Inv c' g.
Proof.
  intros HI Hcov Hex. cbn [exec] in Hex. destruct (nodes c !! i) as [n|] eqn:Hi; [|done].
  pose proof (inv_nodes _ _ _ HI _ _ Hi) as Hn. cbn [mbind option_bind] in Hex.
  destruct (bool_decide_reflect (p ∈ node_id <$> other_peers n)) as [Hp|]; [|done]. cbn [guard mbind option_bind] in Hex.
  destruct (decide (state_ n = RaftState.kLeader /\ current_term_ n = term)) as [[Hl <-]|Hne].
  - destruct (next_of_peer g i n p Hn Hl Hp) as (next & Hnext & Hr). pose proof (ni_len _ _ _ _ Hn) as Hlen.
    rewrite (ConfirmLeadershipQuorum_request_spec p n next) in Hex; [|apply Hn|done|done|done|lia].
    injection Hex as <-. apply inv_send; [eapply inv_same_ghost; [done|done|by apply node_inv_indexes]|].
    cbn [msg_inv aeq_leader_id]. rewrite (ni_id _ _ _ _ Hn).
    split; [by apply (other_ids g i n p Hn) in Hp as [_ ?]|].
    destruct (leader_request g i n next (next - 1) Hn Hl) as [ld Hld]; [lia|lia| |].
    { intros Hst. specialize (Hcov Hst). pose proof (Hcov p _ (list_elem_of_here _ _)) as Hle. cbn in Hle.
      autorewrite with zlen in Hle. lia. }
    exists ld. rewrite drop_ge in Hld by (rewrite length_take; lia). exact Hld.
  - unfold ConfirmLeadershipQuorum_request in Hex.
    destruct (bool_decide_reflect (state_ n = RaftState.kLeader)) as [Hl|];
      [destruct (Z.eqb_spec (current_term_ n) term); [tauto|]|]; injection Hex as <-; by eapply inv_same_ghost.
Qed.

(** The clock only moves the next heartbeat. *)
Lemma step_tick i time c g c' : Inv c g -> exec (EvTick i time) c = Some c' -> Inv c' g.
Proof.
  intros HI Hex. cbn [exec] in Hex. destruct (nodes c !! i) as [n|] eqn:Hi; [|done]. injection Hex as <-.
  pose proof (inv_nodes _ _ _ HI _ _ Hi) as Hn. eapply inv_same_ghost; [done|done|].
  assert (Hset : forall x, node_inv g i (set_next_heartbeat x n)).
  { intros x. apply (node_inv_same_log g i n); [done|destruct (ni_ok _ _ _ _ Hn); by constructor|done|done|apply Hn|].
    left. do 2 (split; [done|]). split; [by left|]. intros Hl.
    eapply index_inv_same; [by apply (ni_leader _ _ _ _ Hn Hl)|done..]. }
  unfold RunLoop_tick. destruct (_ && _); [apply Hset|]. by destruct (_ && _).
Qed.

(** ** Replies to the leader *)

Lemma node_inv_ack_time g i n x : node_inv g i n -> node_inv g i (set_last_ack_time x n).
Proof.
  intros Hn. apply (node_inv_same_log g i n); [done|destruct (ni_ok _ _ _ _ Hn); by constructor|done|done|apply Hn|].
  left. do 2 (split; [done|]). split; [by left|]. intros Hl. eapply index_inv_same; [by apply (ni_leader _ _ _ _ Hn Hl)|done..].
Qed.

Lemma step_confirm_reply i p acks req resp clk c g c' :
  Inv c g -> exec (EvConfirmReply i p acks req resp clk) c = Some c' -> Inv c' g.
Proof.
  intros HI Hex. cbn [exec] in Hex. destruct (nodes c !! i) as [n|] eqn:Hi; [|done].
  pose proof (inv_nodes _ _ _ HI _ _ Hi) as Hn. cbn [mbind option_bind] in Hex.
  destruct (bool_decide_reflect (MAppResp p req resp ∈ net c)) as [Hin|]; [|done].
  destruct (aeq_leader_id req =? i); [|done]. cbn [andb guard mbind option_bind] in Hex. injection Hex as <-.
  pose proof (inv_net _ _ _ HI _ Hin) as (Hu & _). eapply inv_same_ghost; [done|done|].
  unfold ConfirmLeadershipQuorum_reply.
  destruct (Z.ltb_spec (current_term_ n) (aer_term resp)); [by apply node_inv_follower|].
  destruct (_ || _); [done|]. destruct (aer_success resp); [|done]. by apply node_inv_ack_time.
Qed.

Lemma filter_fmap_length {A B} (f : A -> B) (P : B -> Prop) `{forall x, Decision (P x)} l :
  length (filter P (f <$> l)) = length (filter (fun x => P (f x)) l).
Proof.
  induction l as [|x l IH]; [done|]. cbn [fmap list_fmap]. rewrite !filter_cons.
  destruct (decide (P (f x))); cbn [length]; [f_equal|]; exact IH.
Qed.

(** A map with a key for every member but one. *)
Lemma keys_but_one (i : Z) (m : gmap Z Z) :
  i ∈ ids -> (forall p, is_Some (m !! p) <-> p ∈ ids /\ p <> i) -> length ids = S (length (map_to_list m)).
Proof.
  intros Hi Hdom. destruct Hmembers as [Hnd _].
  assert (Hkeys : forall p, p ∈ (map_to_list m).*1 <-> p ∈ ids /\ p <> i).
  { intros p. rewrite <- Hdom, list_elem_of_fmap. split.
    - intros ([q x] & -> & Hin%elem_of_map_to_list). by exists x.
    - intros [x Hx]. exists (p, x). split; [done|]. by apply elem_of_map_to_list. }
  assert (E : ids ≡ₚ i :: (map_to_list m).*1).
  { apply NoDup_Permutation; [done| |].
    - apply NoDup_cons. split; [|apply NoDup_fst_map_to_list]. by intros [_ ?]%Hkeys.
    - intros p. rewrite elem_of_cons, Hkeys. destruct (decide (p = i)) as [->|]; naive_solver. }
  apply Permutation_length in E. cbn [length] in E. rewrite E. by rewrite length_fmap.
Qed.

(** The leader's count of its own log and the acknowledged indices is over the members. *)
Lemma leader_indices_length g i n :
  node_inv g i n -> i ∈ ids -> index_inv g n -> length (leader_indices n) = length ids.
Proof.
  intros Hn Hi Hx. rewrite (keys_but_one i (match_index_ n)) by
    (done || (intros p; rewrite (xi_match_dom _ _ Hx p); apply (other_ids g i n p Hn))).
  unfold leader_indices. cbn [length]. by rewrite length_fmap.
Qed.

(** What the leader may commit is chosen. *)
Lemma commits_chosen g i n ci ld :
  node_inv g i n -> i ∈ ids -> index_inv g n ->
  g_ldr g !! current_term_ n = Some ld -> ld_id ld = i -> ld_log ld = log_entries n -> ldr_inv members g (current_term_ n) ld ->
  commits n ci -> chosen ids g (current_term_ n) (Z.to_nat ci).
Proof.
  intros Hn Hi Hx Hld Hid Hlog Hli [(e & Hc1 & He & Hte) Hmaj].
  pose proof (lookup_lt_Some _ _ _ He) as Hlt.
  rewrite (leader_indices_length g i n) in Hmaj by done.
  set (Q := i :: (filter (fun kv : Z * Z => ci <= kv.2) (map_to_list (match_index_ n))).*1).
  exists ld, e, Q. split; [done|]. split; [lia|]. rewrite Hlog. split; [by replace (pred (Z.to_nat ci)) with (Z.to_nat (ci - 1)) by lia|].
  split; [done|].
  assert (Hin : forall p, p ∈ (filter (fun kv : Z * Z => ci <= kv.2) (map_to_list (match_index_ n))).*1 ->
    exists m, match_index_ n !! p = Some m /\ ci <= m).
  { intros p ([q m] & -> & [Hm Hq]%list_elem_of_filter)%list_elem_of_fmap. apply elem_of_map_to_list in Hq. by exists m. }
  assert (Hother : forall p m, match_index_ n !! p = Some m -> p ∈ ids /\ p <> i).
  { intros p m Hp. apply (other_ids g i n p Hn), (xi_match_dom _ _ Hx). by exists m. }
  split; [split; [|split]|].
  - apply NoDup_cons. split.
    + intros (m & Hm & _)%Hin. by apply Hother in Hm as [_ ?].
    + apply NoDup_fmap_filter, NoDup_fst_map_to_list.
  - intros p [->|(m & Hm & _)%Hin]%elem_of_cons; [done|]. by apply Hother in Hm as [? _].
  - unfold leader_indices in Hmaj. rewrite filter_cons, decide_True in Hmaj by (unfold zlen; lia).
    cbn [length] in Hmaj. rewrite filter_fmap_length in Hmaj. unfold Q. cbn [length]. by rewrite (length_fmap fst).
  - intros p [->|(m & Hm & Hge)%Hin]%elem_of_cons.
    + rewrite <- Hid, (li_ack _ _ _ _ Hli), Hlog. lia.
    + destruct (xi_match _ _ Hx p m Hm) as [_ Ha]. lia.
Qed.

(** The indices after a reply. *)
Lemma index_inv_ack g n n' p m :
  index_inv g n -> same_node n n' -> log_entries n' = log_entries n -> current_term_ n' = current_term_ n ->
  p ∈ node_id <$> other_peers n -> 0 <= m <= zlen (log_entries n) -> (Z.to_nat m <= acked g p (current_term_ n))%nat ->
  match_index_ n' = <[p := m]> (match_index_ n) -> next_index_ n' = <[p := m + 1]> (next_index_ n) -> index_inv g n'.
Proof.
  intros [Hmd Hm Hnd Hx] [Hid Hcfg] Hl Ht Hp Hr Ha Em Ex.
  assert (Ho : other_peers n' = other_peers n) by (unfold other_peers; by rewrite Hid, Hcfg).
  constructor; rewrite ?Ho, ?Em, ?Ex, ?Ht, ?Hl.
  - intros q. rewrite lookup_insert_is_Some', Hmd. split; [intros [<-|]; done|auto].
  - intros q x [[<- <-]|[_ Hq]]%lookup_insert_Some; [split; [lia|done]|by apply Hm].
  - intros q. rewrite lookup_insert_is_Some', Hnd. split; [intros [<-|]; done|auto].
  - intros q x [[<- <-]|[_ Hq]]%lookup_insert_Some; [lia|by eapply Hx].
Qed.

Lemma index_inv_next g n n' p x :
  index_inv g n -> same_node n n' -> log_entries n' = log_entries n -> current_term_ n' = current_term_ n ->
  p ∈ node_id <$> other_peers n -> 1 <= x <= zlen (log_entries n) + 1 ->
  match_index_ n' = match_index_ n -> next_index_ n' = <[p := x]> (next_index_ n) -> index_inv g n'.
Proof.
  intros [Hmd Hm Hnd Hx] [Hid Hcfg] Hl Ht Hp Hr Em Ex.
  assert (Ho : other_peers n' = other_peers n) by (unfold other_peers; by rewrite Hid, Hcfg).
  constructor; rewrite ?Ho, ?Em, ?Ex, ?Ht, ?Hl; [done|done| |].
  - intros q. rewrite lookup_insert_is_Some', Hnd. split; [intros [<-|]; done|auto].
  - intros q y [[<- <-]|[_ Hq]]%lookup_insert_Some; [lia|by eapply Hx].
Qed.

(** The last entry of a request sits where the request ends. *)
Lemma request_last g req ld back :
  app_req_inv members g req ld -> log_wf (ld_log ld) -> last (aeq_entries req) = Some back ->
  le_index back = aeq_prev_log_index req + zlen (aeq_entries req).
Proof.
  intros [_ _ _ Hp Hl He _ _ _] Hwf Hb. rewrite last_lookup in Hb. pose proof (lookup_lt_Some _ _ _ Hb).
  remember (pred (length (aeq_entries req))) as k eqn:Ek. remember (zlen (aeq_entries req)) as z eqn:Ez.
  rewrite He, lookup_drop in Hb. apply lookup_take_Some in Hb as [Hb _].
  rewrite (Hwf _ _ Hb). unfold zlen in *. lia.
Qed.

(** The commit index may move to something chosen. *)
Lemma node_inv_commit g i n n' :
  node_inv g i n -> i ∈ ids -> state_ n = RaftState.kLeader -> (forall u ld, g_ldr g !! u = Some ld -> ldr_inv members g u ld) ->
  node_ok n' -> same_node n n' -> log_entries n' = log_entries n -> current_term_ n' = current_term_ n ->
  voted_for_ n' = voted_for_ n -> state_ n' = state_ n -> index_inv g n' ->
  commit_index_ n' = commit_index_ n \/ (commit_index_ n < commit_index_ n' /\ commits n' (commit_index_ n')) ->
  node_inv g i n'.
Proof.
  intros Hn Hi Hl Hldrs Hok Hs Hlog Et Ev Es Hx Hci.
  destruct (ni_leader _ _ _ _ Hn Hl) as [(ld & Hld & Hid & Hll) _]. destruct (ni_commit _ _ _ _ Hn) as [Hc0 Hcm].
  assert (Hkeep : forall n2, node_ok n2 -> same_node n n2 -> log_entries n2 = log_entries n ->
    current_term_ n2 = current_term_ n -> voted_for_ n2 = voted_for_ n -> state_ n2 = state_ n -> index_inv g n2 ->
    0 <= commit_index_ n2 <= 2 ^ 62 /\ sure g (current_term_ n) (log_entries n) (Z.to_nat (commit_index_ n2)) ->
    node_inv g i n2).
  { intros n2 Hok2 Hs2 Hl2 Et2 Ev2 Es2 Hx2 Hc2. apply (node_inv_same_log g i n); [done..|by rewrite Et2|].
    left. split; [done|]. split; [done|]. split; [by left|done]. }
  destruct Hci as [E|[Hlt Hcs]]; [apply Hkeep; rewrite ?E; done|].
  apply Hkeep; [done..|].
  assert (Hrange : commit_index_ n' <= 2 ^ 62).
  { destruct Hcs as [(e & Hc1 & He & _) _]. apply lookup_lt_Some in He. pose proof (ni_len _ _ _ _ Hn).
    unfold zlen in *. rewrite Hlog in He. lia. }
  split; [lia|]. intros _.
  assert (Hn1 : node_inv g i (set_commit_index (commit_index_ n) n')).
  { apply Hkeep; [destruct Hok; by constructor|done|done|done|done|done| |done].
    by eapply index_inv_same. }
  assert (Hch : chosen ids g (current_term_ n) (Z.to_nat (commit_index_ n'))).
  { assert (Hld1 : g_ldr g !! current_term_ n' = Some ld) by (by rewrite Et).
    rewrite <- Et. apply (commits_chosen g i (set_commit_index (commit_index_ n) n') (commit_index_ n') ld);
      [done|done|by eapply index_inv_same|exact Hld1|done|by rewrite Hll|exact (Hldrs _ _ Hld1)|done]. }
  right. exists (current_term_ n), (Z.to_nat (commit_index_ n')), ld. split; [lia|]. split; [done|].
  split; [done|]. split; [done|]. by rewrite Hll.
Qed.

Lemma step_append_reply i p req resp clk c g c' :
  Inv c g -> exec (EvAppendReply i p req resp clk) c = Some c' -> Inv c' g.
Proof.
  intros HI Hex. cbn [exec] in Hex. destruct (nodes c !! i) as [n|] eqn:Hi; [|done].
  pose proof (inv_nodes _ _ _ HI _ _ Hi) as Hn. pose proof (inv_member _ _ _ _ HI Hi) as Him. cbn [mbind option_bind] in Hex.
  destruct (bool_decide_reflect (MAppResp p req resp ∈ net c)) as [Hin|]; [|done].
  destruct (Z.eqb_spec (aeq_leader_id req) i) as [Hlid|]; [|done]. cbn [andb guard mbind option_bind] in Hex.
  pose proof (inv_net _ _ _ HI _ Hin) as (Hu & Hpm & Hpne & [ld Hreq] & Hack). rewrite Hlid in Hpne.
  destruct (commit_bound _ _ _ Hn) as [Hcb Hcl]. pose proof (ni_len _ _ _ _ Hn) as Hlen.
  destruct (ReplicateToPeer_reply_spec clk p req resp n (ni_ok _ _ _ _ Hn) Hu Hcb) as
    (n' & E & _ & Hok & Hs & Hl & Hcase); [lia|].
  rewrite E in Hex. cbn [mbind option_bind] in Hex. injection Hex as <-. eapply inv_same_ghost; [done|done|].
  destruct Hcase as [[-> _]|[(Hlt & Et & Ev & Es & Ec)|(Hsl & Htq & Et & Ev & Es & Hcase)]]; [done| |].
  { apply (node_inv_same_log g i n); [done|done|done|done| |right; split; [lia|done]]. rewrite Ec, Et.
    destruct (ni_commit _ _ _ _ Hn) as [? Hcm]. split; [done|]. eapply sure_term; [exact Hcm|lia]. }
  destruct (ni_leader _ _ _ _ Hn Hsl) as [(ld' & Hld' & Hid' & Hll') Hx].
  assert (ld' = ld) as -> by (pose proof (ai_ldr _ _ _ _ Hreq); congruence).
  assert (Hpo : p ∈ node_id <$> other_peers n) by (by apply (other_ids g i n p Hn)).
  assert (Hkeep : index_inv g n' ->
    commit_index_ n' = commit_index_ n \/ (commit_index_ n < commit_index_ n' /\ commits n' (commit_index_ n')) ->
    node_inv g i n').
  { intros Hx' Hci. eapply (node_inv_commit g i n); try done. by apply (inv_ldrs _ _ _ HI). }
  destruct Hcase as [(Hsuc & Hidx & Hci)|(_ & Em & Ec & next & Enext & Ex)].
  - apply Hkeep; [|done]. destruct (last (aeq_entries req)) as [back|] eqn:Eb;
      [|destruct Hidx as [Em Ex]; by eapply index_inv_same].
    destruct Hidx as [Em Ex]. pose proof (inv_ldrs _ _ _ HI _ _ Hld') as Hli.
    destruct (li_good _ _ _ _ Hli) as (Hwf & _ & _). rewrite (request_last _ _ _ _ Hreq Hwf Eb) in Em, Ex.
    pose proof (ai_prev _ _ _ _ Hreq). pose proof (ai_len _ _ _ _ Hreq). pose proof (zlen_nonneg (aeq_entries req)).
    rewrite Hll' in *. unfold u64 in Ex. rewrite Z.mod_small in Ex by lia.
    eapply (index_inv_ack g n n' p); [done|done|done|done|done| | |exact Em|exact Ex]; [lia|].
    rewrite Htq. by apply Hack.
  - apply Hkeep; [|by left]. destruct (next_of_peer g i n p Hn Hsl Hpo) as (x & Hnx & Hr).
    rewrite Hnx in Enext. cbn in Enext. subst x.
    eapply (index_inv_next g n n' p); [done|done|done|done|done| |done|exact Ex].
    destruct (Z.ltb_spec 1 next); [|lia]. unfold u64. rewrite Z.mod_small; lia.
Qed.

(** ** Proposals *)

Definition extend i t ld e g : Ghost :=
  add_ack i t (length (ld_log ld ++ [e]))
    (set_ldr t (mkLeadership (ld_id ld) (ld_start ld) (ld_log ld ++ [e]) (ld_voters ld)) g).

Lemma extend_ext i t ld e g : g_ldr g !! t = Some ld -> ld_id ld = i -> ext_at i g (extend i t ld e g).
Proof.
  intros Hld Hid. constructor; [|done|done| |].
  - eapply ext_trans; [by apply ext_set_ldr_grow|apply ext_add_ack].
  - intros u l. cbn. intros [[<- <-]|[_ ?]]%lookup_insert_Some Hne; [by destruct Hne|done].
  - intros j u Hj. unfold extend. rewrite acked_add_ack, decide_False; [done|]. congruence.
Qed.

Lemma valid_snoc g X e ld :
  valid g X -> g_ldr g !! le_term e = Some ld -> ld_log ld = X ++ [e] -> valid g (X ++ [e]).
Proof.
  intros HX Hld Hlog k x Hx. apply lookup_app_Some in Hx as [Hx|[Hk Hx]].
  - destruct (HX k x Hx) as (l & Hl & E). exists l. split; [done|]. apply lookup_lt_Some in Hx.
    rewrite take_app_le by lia. exact E.
  - apply list_lookup_singleton_Some in Hx as [_ <-]. exists ld. split; [done|]. by rewrite Hlog.
Qed.

Lemma index_inv_grow g n n' :
  index_inv g n -> zlen (log_entries n) <= zlen (log_entries n') -> current_term_ n' = current_term_ n ->
  match_index_ n' = match_index_ n -> next_index_ n' = next_index_ n -> same_node n n' -> index_inv g n'.
Proof.
  intros [Hmd Hm Hnd Hx] Hl Ht Em Ex [Hid Hcfg].
  assert (Ho : other_peers n' = other_peers n) by (unfold other_peers; by rewrite Hid, Hcfg).
  constructor; rewrite ?Ho, ?Em, ?Ex, ?Ht; [done|done|done|]. intros p x Hp. apply Hx in Hp. lia.
Qed.

Lemma inv_extend i c g n r' ld e :
  Inv c g -> nodes c !! i = Some n -> state_ n = RaftState.kLeader ->
  g_ldr g !! current_term_ n = Some ld -> ld_id ld = i -> ld_log ld = log_entries n ->
  le_term e = current_term_ n -> node_ok (set_replica r' n) -> rep_entries r' = log_entries n ++ [e] ->
  zlen (log_entries n) < 2 ^ 62 ->
  Inv (set_node i (set_replica r' n) c) (extend i (current_term_ n) ld e g).
Proof.
  intros HI Hi Hl Hld Hid Hlog He Hok Hr Hlen. pose proof (inv_nodes _ _ _ HI _ _ Hi) as Hn.
  set (t := current_term_ n) in *. set (g' := extend i t ld e g). set (n' := set_replica r' n) in *.
  pose proof (inv_ldrs _ _ _ HI _ _ Hld) as Hli.
  assert (Hea : ext_at i g g') by (by apply extend_ext). assert (Hext : ext g g') by apply Hea.
  assert (Hld' : g_ldr g' !! t = Some (mkLeadership i (ld_start ld) (ld_log ld ++ [e]) (ld_voters ld)))
    by (cbn; rewrite lookup_insert_eq; by rewrite Hid).
  assert (Hack : acked g' i t = length (log_entries n ++ [e])).
  { unfold g', extend. rewrite acked_add_ack, decide_True by done. rewrite Hlog.
    pose proof (li_ack _ _ _ _ Hli) as Ha. rewrite Hid, Hlog in Ha. unfold acked in *. cbn [g_ack set_ldr].
    rewrite Ha, length_app. lia. }
  assert (Hack' : forall j u, (j, u) <> (i, t) -> acked g' j u = acked g j u).
  { intros j u Hne. unfold g', extend. rewrite acked_add_ack, decide_False; [done|]. congruence. }
  assert (Hl' : log_entries n' = log_entries n ++ [e]) by exact Hr.
  assert (Hlen' : zlen (log_entries n') <= 2 ^ 62) by (rewrite Hl', zlen_app; unfold zlen in *; cbn; lia).
  assert (Hval' : valid g' (log_entries n ++ [e])).
  { eapply valid_snoc; [eapply valid_ext; [exact Hext|apply Hn]|by rewrite He|by cbn; rewrite Hlog]. }
  eapply inv_step_at; [exact HI|exact Hi|exact Hea| |].
  - apply (node_inv_acked g g' i n); rewrite ?Hl'; fold t; try done.
    + intros u Hu. apply Hack'. congruence.
    + eexists. split; [exact Hld'|]. cbn [ld_log]. by rewrite Hack, Hlog.
    + by rewrite <- Hl'.
    + apply Forall_app. split; [apply Hn|]. apply Forall_singleton. lia.
    + intros u k l _ _ Hk _ E. rewrite take_app_le; [done|]. eapply take_eq_length; [by symmetry|done].
    + change (commit_index_ n') with (commit_index_ n). destruct (ni_commit _ _ _ _ Hn) as [Hc0 Hcm].
      split; [done|]. eapply sure_take; [by eapply sure_ext|done|]. intros _ Hk. by rewrite take_app_le.
    + change (state_ n') with (state_ n). congruence.
    + intros u l Hu Hii. cbn in Hu. apply lookup_insert_Some in Hu as [[<- _]|[_ Hu]]; [done|].
      by apply (ni_ldrs _ _ _ _ Hn) in Hu as [? _].
    + intros _. split; [eexists; split; [exact Hld'|]; by rewrite <- Hlog|].
      apply (index_inv_ext g); [done|]. eapply (index_inv_grow g n); [by apply (ni_leader _ _ _ _ Hn Hl)| |done..].
      rewrite Hl', zlen_app. pose proof (zlen_nonneg [e]). lia.
  - intros u l Hu. cbn in Hu. apply lookup_insert_Some in Hu as [[<- <-]|[Hne Hu]].
    + destruct Hli as [Hc Hmem Hp Ho Hval Hg Hq Hvo Ha].
      constructor; cbn [ld_id ld_start ld_log ld_voters]; [done|done|by apply prefix_app_r| | | |done|done|].
      * intros k x Hk Hx. apply lookup_app_Some in Hx as [Hx|[_ Hx]]; [by eapply Ho|].
        by apply list_lookup_singleton_Some in Hx as [_ <-].
      * by rewrite Hlog.
      * rewrite Hlog, <- Hl'. destruct (node_log_wf n' Hok). split; [done|]. by split.
      * by rewrite Hid, Hlog.
    + pose proof (inv_ldrs _ _ _ HI _ _ Hu) as [Hc Hmem Hp Ho Hval Hg Hq Hvo Ha].
      constructor; [done|done|done|done|by eapply valid_ext|done|done|done|].
      rewrite <- Ha. apply Hack'. congruence.
Qed.

Lemma step_propose i e c g n c' :
  Inv c g -> nodes c !! i = Some n ->
  storable (mkLogEntry (current_term_ n) 0 (le_op e) (le_key e) (le_value e)) -> zlen (log_entries n) < 2 ^ 62 ->
  exec (EvPropose i e) c = Some c' -> exists g', ext g g' /\ Inv c' g'.
Proof.
  intros HI Hi Hst Hlen Hex. cbn [exec] in Hex. rewrite Hi in Hex. cbn [mbind option_bind] in Hex.
  pose proof (inv_nodes _ _ _ HI _ _ Hi) as Hn.
  destruct (Propose_append_spec e n (ni_ok _ _ _ _ Hn) Hst) as [[_ E]|[Hl (r' & E & Hok & Hr & _)]]; [lia| |];
    rewrite E in Hex; cbn [mbind option_bind] in Hex; injection Hex as <-.
  - exists g. split; [apply ext_refl|]. by eapply inv_same_ghost.
  - destruct (ni_leader _ _ _ _ Hn Hl) as [(ld & Hld & Hid & Hlog) _].
    exists (extend i (current_term_ n) ld (proposed e n) g).
    split; [by apply extend_ext|]. by apply inv_extend.
Qed.

(** ** A follower takes entries *)

(** The follower's log after an accepted request: unchanged if it already has the
    stretch of the leader's log the request ends with, that stretch otherwise. *)
Lemma append_result c g i n req ld :
  Inv c g -> node_inv g i n -> app_req_inv members g req ld -> prev_mismatch (log_entries n) req = false ->
  let L := take (Z.to_nat (aeq_prev_log_index req + zlen (aeq_entries req))) (ld_log ld) in
  amerge (log_entries n) (aeq_entries req) (Z.to_nat (aeq_prev_log_index req)) =
    if decide (L `prefix_of` log_entries n) then log_entries n else L.
Proof.
  intros HI Hn Hreq Hmis L. destruct Hreq as [Hld Hid Ht Hp Hlen He Hpt Hc Hcm].
  pose proof (inv_ldrs _ _ _ HI _ _ Hld) as Hli. destruct (li_good _ _ _ _ Hli) as (Hwf & _ & _).
  pose proof (zlen_nonneg (aeq_entries req)) as Hes.
  assert (HLlen : length L = Z.to_nat (aeq_prev_log_index req + zlen (aeq_entries req))).
  { unfold L. rewrite length_take. unfold zlen in *. lia. }
  assert (Hmatch : matching (log_entries n) (ld_log ld)) by (apply (valid_matching g); [apply Hn|apply Hli]).
  assert (Hprev : take (Z.to_nat (aeq_prev_log_index req)) (log_entries n) =
                  take (Z.to_nat (aeq_prev_log_index req)) (ld_log ld) /\
                  (Z.to_nat (aeq_prev_log_index req) <= length (log_entries n))%nat).
  { unfold prev_mismatch in Hmis. destruct (Z.ltb_spec 0 (aeq_prev_log_index req)) as [Hp0|Hp0].
    - cbn [andb] in Hmis. destruct (node_log_wf n (ni_ok _ _ _ _ Hn)) as [Hwfn _].
      rewrite Log_Get_pos in Hmis by (done || lia).
      destruct (log_entries n !! Z.to_nat (aeq_prev_log_index req - 1)) as [x|] eqn:Ex; [|done].
      apply negb_false_iff, Z.eqb_eq in Hmis. destruct (Hpt Hp0) as (y & Ey & Hy).
      replace (Z.to_nat (aeq_prev_log_index req)) with (S (Z.to_nat (aeq_prev_log_index req - 1))) by lia.
      split; [eapply Hmatch; [done|done|congruence]|]. apply lookup_lt_Some in Ex. lia.
    - replace (Z.to_nat (aeq_prev_log_index req)) with O by lia. split; [done|lia]. }
  destruct Hprev as [Hprev Hpl].
  apply amerge_spec; [by apply log_wf_take|by symmetry| |rewrite HLlen; lia|done|].
  - rewrite Hprev. unfold L. rewrite take_take. f_equal. lia.
  - intros k x y Hx Hy Hxy. unfold L in Hy. apply lookup_take_Some in Hy as [Hy Hk].
    unfold L. rewrite take_take, Nat.min_l by lia. by eapply Hmatch.
Qed.

(** What agreed with the leader's log still does. *)
Lemma append_keeps (X Y : list LogEntry) m k :
  (m <= length Y)%nat -> take k X = take k Y -> (k <= length Y)%nat ->
  take k (if decide (take m Y `prefix_of` X) then X else take m Y) = take k Y.
Proof.
  intros Hm E Hk. destruct (decide _) as [|Hnp]; [done|]. destruct (decide (k <= m)%nat) as [Hkm|Hkm].
  - rewrite take_take. f_equal. lia.
  - destruct Hnp. exists (drop m X). rewrite <- (take_drop m X) at 1. f_equal. eapply take_le; [|exact E]. lia.
Qed.

Lemma append_has (X Y : list LogEntry) m :
  (m <= length Y)%nat -> take m (if decide (take m Y `prefix_of` X) then X else take m Y) = take m Y.
Proof.
  intros Hm. destruct (decide _) as [Hp|Hnp]; [|rewrite take_take; f_equal; lia].
  apply (take_prefix _ _ m) in Hp; [|rewrite length_take; lia]. rewrite Hp, take_take. f_equal. lia.
Qed.

(** The node at the request's term, before its log is touched. *)
Lemma at_request_term g i n req :
  node_inv g i n -> is_u64 (aeq_term req) -> current_term_ n <= aeq_term req ->
  exists n1, node_inv g i n1 /\ same_node n n1 /\ current_term_ n1 = aeq_term req /\ log_entries n1 = log_entries n /\
    voted_for_ n1 = (if current_term_ n <? aeq_term req then 0 else voted_for_ n).
Proof.
  intros Hn Ht Hle. destruct (Z.ltb_spec (current_term_ n) (aeq_term req)) as [Hlt|Hge].
  - exists (BecomeFollowerLocked (mkClock 0 0) (aeq_term req) n).
    destruct (BecomeFollower_spec (mkClock 0 0) (aeq_term req) n (ni_ok _ _ _ _ Hn) Ht) as (_ & ? & ? & _ & ? & ? & _).
    split; [by apply node_inv_follower|done].
  - exists n. split; [done|]. split; [done|]. split; [lia|done].
Qed.

Lemma node_inv_append c g i n n' req ld :
  Inv c g -> nodes c !! i = Some n -> app_req_inv members g req ld -> i <> aeq_leader_id req ->
  current_term_ n <= aeq_term req -> node_ok n' -> same_node n n' -> current_term_ n' = aeq_term req ->
  voted_for_ n' = (if current_term_ n <? aeq_term req then 0 else voted_for_ n) -> state_ n' = RaftState.kFollower ->
  prev_mismatch (log_entries n) req = false ->
  log_entries n' = amerge (log_entries n) (aeq_entries req) (Z.to_nat (aeq_prev_log_index req)) ->
  commit_index_ n' = (if commit_index_ n <? aeq_leader_commit req
    then Z.min (aeq_leader_commit req) (zlen (log_entries n')) else commit_index_ n) ->
  node_inv (add_ack i (aeq_term req) (Z.to_nat (aeq_prev_log_index req + zlen (aeq_entries req))) g) i n'.
Proof.
  intros HI Hi Hreq Hil Hle Hok Hs Et Ev Es Hmis Hl Hci. pose proof (inv_nodes _ _ _ HI _ _ Hi) as Hn.
  rewrite (append_result c g i n req ld) in Hl by done. destruct Hreq as [Hld Hid Ht Hp Hlen He Hpt Hc Hcm].
  set (t := aeq_term req) in *. set (m := Z.to_nat (aeq_prev_log_index req + zlen (aeq_entries req))) in *.
  set (X := log_entries n) in *. set (Y := ld_log ld) in *. set (g' := add_ack i t m g).
  assert (Hext : ext g g') by apply ext_add_ack. pose proof (zlen_nonneg (aeq_entries req)) as Hes.
  assert (HmY : (m <= length Y)%nat) by (unfold m, zlen in *; lia).
  assert (Hkeep : forall k, take k X = take k Y -> (k <= length Y)%nat -> take k (log_entries n') = take k Y).
  { intros k E Hk. rewrite Hl. by apply append_keeps. }
  assert (Hhas : take m (log_entries n') = take m Y) by (rewrite Hl; by apply append_has).
  pose proof (inv_ldrs _ _ _ HI _ _ Hld) as Hli. destruct (li_good _ _ _ _ Hli) as (_ & _ & HYlen).
  assert (HvY : valid g Y) by apply Hli.
  destruct (at_request_term g i n req Hn Ht Hle) as (n1 & Hn1 & Hs1 & Et1 & Hl1 & Ev1). fold t in Et1. fold X in Hl1.
  assert (HtY : Forall (fun e => le_term e <= t) Y).
  { apply Forall_lookup. intros k e Hk. by eapply ldr_terms. }
  apply (node_inv_acked g g' i n1); rewrite ?Et1, ?Hl1; try done; fold t.
  - intros u Hu. unfold g'. rewrite acked_add_ack, decide_False; [done|]. congruence.
  - exists ld. split; [done|]. unfold g'. rewrite acked_add_ack, decide_True by done. fold Y.
    destruct (decide (acked g i t = O)) as [->|Ha0]; [rewrite Nat.max_0_l; done|].
    destruct (ni_acks _ _ _ _ Hn1 t (acked g i t)) as (ld' & Hld' & _ & Hal & Himp); [lia|].
    replace ld' with ld in * by congruence. fold Y in Hal, Himp. rewrite Et1, Hl1 in Himp.
    assert (E : take (acked g i t) X = take (acked g i t) Y) by (apply Himp; intros w lw l0 Hw; lia).
    split; [lia|]. destruct (Nat.max_spec (acked g i t) m) as [[_ ->]|[_ ->]]; [done|by apply Hkeep].
  - destruct Hs as [He1 He2], Hs1 as [He3 He4]. split; congruence.
  - by rewrite Ev, Ev1.
  - rewrite Hl. destruct (decide _); [apply Hn|]. unfold zlen in *. rewrite length_take. fold Y in HYlen. lia.
  - eapply valid_ext; [exact Hext|]. rewrite Hl. destruct (decide _); [apply Hn|].
    eapply valid_prefix; [|exact HvY]. apply prefix_take.
  - rewrite Hl. destruct (decide _); [|by apply Forall_take].
    eapply Forall_impl; [apply Hn|]. intros e Hel; cbn beta in *. lia.
  - intros u k l Hu Hlu Hk Hcar E. pose proof (Hcar t ld l ltac:(lia) Hld Hlu) as Est.
    destruct (li_prefix _ _ _ _ Hli) as [es Hpre].
    assert (Hks : (k <= length (ld_start ld))%nat) by (eapply take_eq_length; [by symmetry|done]).
    assert (EY : take k Y = take k (ld_log l)) by (unfold Y; rewrite Hpre, take_app_le by done; exact Est).
    rewrite <- EY. apply Hkeep; [congruence|]. eapply take_eq_length; [by symmetry|done].
  - destruct (ni_commit _ _ _ _ Hn) as [Hc0 Hcn]. fold X in Hcn. rewrite Hci.
    destruct (Z.ltb_spec (commit_index_ n) (aeq_leader_commit req)) as [Hlt|Hge].
    + split; [pose proof (zlen_nonneg (log_entries n')); lia|]. intros Hst. destruct Hc as [Hc Hcov]. specialize (Hcov Hst).
      assert (Hml : (m <= length (log_entries n'))%nat) by (eapply take_eq_length; [by symmetry|done]).
      rewrite Z.min_l by (unfold m, zlen in *; lia).
      eapply committed_take; [eapply committed_ext; [exact Hext|by apply Hcm]|done|]. fold Y. symmetry.
      eapply take_le; [|exact Hhas]. unfold m. lia.
    + split; [done|]. intros Hst. specialize (Hcn Hst).
      pose proof (committed_in_later members Hmembers c g _ X _ t ld HI Hcn Hle Hld) as E.
      eapply committed_take; [by eapply committed_ext|done|]. rewrite E. symmetry. fold Y.
      apply Hkeep; [exact E|]. eapply take_eq_length; [exact E|]. by eapply committed_length.
  - rewrite Es. done.
  - intros u l Hu Hii. rewrite <- Et1. by apply (ni_ldrs _ _ _ _ Hn1) in Hu as [? _].
  - rewrite Es. done.
Qed.

(** A leader is not sent its own requests, so whoever serves one is no leader of that term. *)
Lemma not_leader_of g i n req ld :
  node_inv g i n -> app_req_inv members g req ld -> i <> aeq_leader_id req -> current_term_ n = aeq_term req ->
  state_ n <> RaftState.kLeader.
Proof.
  intros Hn [Hld Hid _ _ _ _ _ _ _] Hne Ht Hl. destruct (ni_leader _ _ _ _ Hn Hl) as [(ld' & Hld' & Hid' & _) _].
  rewrite Ht in Hld'. congruence.
Qed.

Lemma request_storable c g req ld : Inv c g -> app_req_inv members g req ld -> Forall storable (aeq_entries req).
Proof.
  intros HI [Hld _ _ _ _ He _ _ _]. rewrite He. destruct (li_good _ _ _ _ (inv_ldrs _ _ _ HI _ _ Hld)) as (_ & Hst & _).
  by apply Forall_drop, Forall_take.
Qed.

Lemma request_bounds c g req ld :
  Inv c g -> app_req_inv members g req ld -> aeq_leader_commit req < 2 ^ 64 /\ zlen (aeq_entries req) <= 2 ^ 62.
Proof.
  intros HI [Hld _ _ Hp Hl _ _ Hc _]. destruct (li_good _ _ _ _ (inv_ldrs _ _ _ HI _ _ Hld)) as (_ & _ & Hlen). lia.
Qed.

Lemma step_append i req clk1 clk2 c g c' :
  Inv c g -> exec (EvAppend i req clk1 clk2) c = Some c' -> exists g', ext g g' /\ Inv c' g'.
Proof.
  intros HI Hex. cbn [exec] in Hex. destruct (nodes c !! i) as [n|] eqn:Hi; [|done].
  pose proof (inv_nodes _ _ _ HI _ _ Hi) as Hn. pose proof (inv_member _ _ _ _ HI Hi) as Him. cbn [mbind option_bind] in Hex.
  destruct (bool_decide_reflect (MAppReq i req ∈ net c)) as [Hin|]; [|done]. cbn [guard mbind option_bind] in Hex.
  destruct (inv_net _ _ _ HI _ Hin) as (Hne & ld & Hreq).
  pose proof (request_storable _ _ _ _ HI Hreq) as Hst. pose proof (commit_bound _ _ _ Hn) as [Hcb _].
  pose proof (ni_len _ _ _ _ Hn) as Hlen. pose proof (request_bounds _ _ _ _ HI Hreq) as (Hb1 & Hb2).
  destruct (HandleAppendEntries_spec clk1 clk2 req n (ni_ok _ _ _ _ Hn) (ai_term _ _ _ _ Hreq) Hst
    (ai_prev _ _ _ _ Hreq)) as (resp & n' & E & _ & Hcase); [lia|lia|lia|].
  rewrite E in Hex. cbn [mbind option_bind] in Hex. injection Hex as <-.
  destruct Hcase as [(Hlt & -> & ->)|(Hle & Hok & Hs & Et & Hrt & Ev & Es & Em & Ex & Hcase)].
  { exists g. split; [apply ext_refl|]. apply inv_send; [by eapply inv_same_ghost|].
    split; [by destruct (ni_ok _ _ _ _ Hn) as [_ _ [? _]]|]. split; [done|]. split; [done|]. split; [by exists ld|done]. }
  assert (Hfol : state_ n' = RaftState.kFollower).
  { rewrite Es. destruct (Z.ltb_spec (current_term_ n) (aeq_term req)); [done|]. cbn [orb].
    case_bool_decide; [done|]. pose proof (not_leader_of g i n req ld Hn Hreq Hne ltac:(lia)). by destruct (state_ n). }
  assert (Hu : is_u64 (aer_term resp)) by (rewrite Hrt; apply (ai_term _ _ _ _ Hreq)).
  destruct Hcase as [(_ & Hsuc & Hl & Ec)|(Hmis & Hsuc & Hl & Ec)].
  - exists g. split; [apply ext_refl|]. apply inv_send.
    + eapply inv_same_ghost; [done|done|]. apply (node_inv_same_log g i n); [done|done|done|done| |].
      * rewrite Ec, Et. destruct (ni_commit _ _ _ _ Hn) as [? Hcm]. split; [done|]. by eapply sure_term.
      * rewrite Et, Ev. destruct (Z.ltb_spec (current_term_ n) (aeq_term req)); [by right|left].
        split; [lia|]. split; [done|]. split; [by right|]. congruence.
    + split; [done|]. split; [done|]. split; [done|]. split; [by exists ld|]. congruence.
  - set (m := Z.to_nat (aeq_prev_log_index req + zlen (aeq_entries req))).
    assert (Hea : ext_at i g (add_ack i (aeq_term req) m g)).
    { constructor; [apply ext_add_ack|done|done|done|]. intros j u Hj. rewrite acked_add_ack, decide_False; [done|]. congruence. }
    exists (add_ack i (aeq_term req) m g). split; [apply Hea|]. apply inv_send.
    + eapply inv_step_at; [exact HI|exact Hi|exact Hea|by eapply node_inv_append|].
      intros u l Hl'. eapply (ldr_inv_ext members i g); [exact Hea|done| | |exact Hl']; [|by apply (inv_ldrs _ _ _ HI)].
      intros w lw Hlw Hii. rewrite acked_add_ack, decide_False; [done|]. intros [= <-].
      pose proof (ai_ldr _ _ _ _ Hreq). pose proof (ai_id _ _ _ _ Hreq). congruence.
    + split; [done|]. split; [done|]. split; [done|].
      split; [eapply app_req_inv_ext; [apply Hea|exact Hreq]|]. intros _.
      rewrite acked_add_ack, decide_True by done. fold m. lia.
Qed.

End Steps.
