(* ===== verification/RaftSafety.v ===== *)
(** * Raft safety

    Runs of a cluster from its first start, with lost, delayed, reordered and repeated
    messages and with crashes, and the guarantees of the protocol on all of them. The
    conditions on runs: a process dies between two stretches under its mutex, not while the
    log or the state file is being written, and storage keeps what it synced; proposals are
    entries that the log file can hold; terms and log lengths stay away from 2^64. What is
    claimed about commit indices needs one condition more, that no request announced a
    commit index beyond what it covers ([commits_covered]): the empty requests of
    [ConfirmLeadershipQuorum] can break it, and then safety with it
    ([quorum_check_applies_stale_entry]). *)

From Stdlib Require Import Strings.String.
From S2P Require Import Prelude Common BigEndian Crc32 Os WalRecord WalWriter RaftTypes RaftLog ClusterConfig.
From S2P Require Import RaftNode RaftNodeSpec RaftCluster RaftGhost RaftInvariant RaftCompleteness RaftSteps.

Section Safety.
Context {R : Type} `{ReplicaLaws R}.
Context (members : list PeerInfo).
Implicit Types (n : RaftNode R) (c : Cluster R).

Abbreviation ids := (node_id <$> members).

(** A node that has never run before. *)
Record fresh_node (i : Z) n : Prop := {
  fn_ok : node_ok n;
  fn_id : local_node_id_ n = i;
  fn_peers : peers (config_ n) = members;
  fn_log : log_entries n = [];
  fn_term : current_term_ n = 0;
  fn_vote : voted_for_ n = 0;
  fn_state : state_ n = RaftState.kFollower;
  fn_leader : leader_id_ n = 0;
  fn_commit : commit_index_ n = 0
}.

Record initial c : Prop := {
  init_dom : forall i, is_Some (nodes c !! i) <-> i ∈ ids;
  init_nodes : forall i n, nodes c !! i = Some n -> fresh_node i n;
  init_elections : elections c = ∅;
  init_net : net c = []
}.

(** What is assumed of a run. A restart finds what a crash between two stretches under the
    mutex leaves; [exec] alone lets a node restart on any disk. *)
Definition allowed (ev : Event R) c : Prop :=
  match ev with
  | EvElect i _ => forall n, nodes c !! i = Some n -> current_term_ n + 1 < 2 ^ 64
  | EvPropose i e => forall n, nodes c !! i = Some n ->
      storable (mkLogEntry (current_term_ n) 0 (le_op e) (le_key e) (le_value e)) /\ zlen (log_entries n) < 2 ^ 62
  | EvRestart i disk _ => forall n, nodes c !! i = Some n -> rep_restarts (replica_ n) disk
  | _ => True
  end.

Inductive runs : Cluster R -> Cluster R -> Prop :=
| runs_refl c : runs c c
| runs_step c ev c1 c2 : allowed ev c -> exec ev c = Some c1 -> runs c1 c2 -> runs c c2.

(** Runs that can be checked by evaluation: no restarts. *)
Definition storableb (e : LogEntry) : bool :=
  (0 <=? le_term e) && (le_term e <? 2 ^ 64) && (0 <? zlen (le_key e)) && (zlen (le_key e) <=? kMaxFieldSize) &&
  (zlen (le_value e) <=? kMaxFieldSize) && (negb (bool_decide (le_op e = WalOp.kSet)) || negb (is_empty (le_value e))).

Definition allowedb (ev : Event R) c : bool :=
  match ev with
  | EvElect i _ => match nodes c !! i with Some n => current_term_ n + 1 <? 2 ^ 64 | None => true end
  | EvPropose i e =>
      match nodes c !! i with
      | Some n => storableb (mkLogEntry (current_term_ n) 0 (le_op e) (le_key e) (le_value e)) &&
                  (zlen (log_entries n) <? 2 ^ 62)
      | None => true
      end
  | EvRestart _ _ _ => false
  | _ => true
  end.

Fixpoint run_allowed (evs : list (Event R)) c : option (Cluster R) :=
  match evs with
  | [] => Some c
  | ev :: evs => if allowedb ev c then c ← exec ev c; run_allowed evs c else None
  end.

Lemma storableb_ok e : storableb e = true -> storable e.
Proof.
  unfold storableb. rewrite !andb_true_iff, orb_true_iff, !negb_true_iff, bool_decide_eq_false.
  intros [[[[[H1 H2] H3] H4] H5] H6]. split; [lia|]. split; [lia|]. split; [lia|]. intros Ho.
  destruct H6 as [|H6]; [done|]. by intros E; rewrite E in H6.
Qed.

Lemma allowedb_ok ev c : allowedb ev c = true -> allowed ev c.
Proof.
  destruct ev; cbn [allowedb allowed]; try done.
  - intros Hb n Hn. rewrite Hn in Hb. lia.
  - intros Hb n Hn. rewrite Hn in Hb. apply andb_true_iff in Hb as [H1 H2]. split; [by apply storableb_ok|lia].
Qed.

Lemma run_allowed_runs evs c c' : run_allowed evs c = Some c' -> runs c c'.
Proof.
  revert c. induction evs as [|ev evs IH]; intros c; cbn [run_allowed]; [intros [= <-]; constructor|].
  destruct (allowedb ev c) eqn:Ha; [|done]. destruct (exec ev c) as [c1|] eqn:E; [|done]. cbn [mbind option_bind].
  intros Hr. eapply runs_step; [by apply allowedb_ok|exact E|by apply IH].
Qed.

Definition coveredb c : bool :=
  forallb (fun m => match m with
                    | MAppReq _ req => aeq_leader_commit req <=? aeq_prev_log_index req + zlen (aeq_entries req)
                    | _ => true
                    end) (net c).

Lemma coveredb_ok c : coveredb c = true -> commits_covered c.
Proof. unfold coveredb. rewrite forallb_forall. intros Hall to req Hin%list_elem_of_In. apply Hall in Hin. lia. Qed.

(** Messages stay. *)
Lemma exec_net ev c c' : exec ev c = Some c' -> net c ⊆ net c'.
Proof.
  assert (Hsend : forall m c1, net c ⊆ net c1 -> net c ⊆ net (send m c1)).
  { intros m c1 Hs x Hx. apply elem_of_cons. right. by apply Hs. }
  intros Hex. destruct ev; cbn [exec] in Hex; simplify_option_eq; repeat (case_match; simplify_option_eq);
    first [apply Hsend; done | done].
Qed.

Lemma runs_net c c' : runs c c' -> net c ⊆ net c'.
Proof. induction 1 as [|c ev c1 c2 _ Hex _ IH]; [done|]. etrans; [by eapply exec_net|done]. Qed.

Lemma covered_before c c' : runs c c' -> commits_covered c' -> commits_covered c.
Proof. intros Hr Hc to req Hin. apply (Hc to). by eapply runs_net. Qed.

(** ** The invariant on runs *)

Definition empty_history : Ghost := mkGhost ∅ ∅ ∅ ∅.

Lemma initial_inv {St : Strength} c : initial c -> Inv members c empty_history.
Proof.
  intros [Hd Hn He Hm]. constructor; [done| |done|by rewrite Hm; intros m ?%elem_of_nil|by rewrite He].
  intros i n Hi. destruct (Hn i n Hi) as [Hok Hid Hp Hlog Ht Hv Hs _ Hc].
  constructor; rewrite ?Hlog, ?Hs, ?Hv; try done.
  - intros t k Hk. change (acked empty_history i t) with O in Hk. lia.
  - rewrite Hc. split; [done|apply sure_0].
Qed.

Lemma step_inv {St : Strength} ev c g c' :
  members_ok members -> Inv members c g -> allowed ev c -> (strict -> commits_covered c') -> exec ev c = Some c' ->
  exists g', ext g g' /\ Inv members c' g'.
Proof.
  intros Hmem HI Hal Hcov Hex.
  assert (Hsame : Inv members c' g -> exists g', ext g g' /\ Inv members c' g') by (exists g; split; [apply ext_refl|done]).
  assert (Hnode : forall i, (nodes c !! i = None -> exec ev c = None) -> exists n, nodes c !! i = Some n).
  { intros i Hnone. destruct (nodes c !! i) as [n|]; [by exists n|]. rewrite Hnone in Hex by done. done. }
  destruct ev as [i clk|i|i req clk1 clk2|i resp clk|i time|i p|i req clk1 clk2|i p req resp clk|i e|i p term|
    i p acks req resp clk|i disk clk|i time].
  - destruct (Hnode i) as [n Hi]; [by cbn; intros ->|]. eapply (step_elect members); [done|done|done|by apply Hal|done].
  - by eapply Hsame, step_ask.
  - destruct (Hnode i) as [n Hi]; [by cbn; intros ->|]. by eapply step_vote.
  - by eapply Hsame, step_vote_reply.
  - by eapply step_elected.
  - by eapply Hsame, step_replicate.
  - by eapply step_append.
  - by eapply Hsame, step_append_reply.
  - destruct (Hnode i) as [n Hi]; [by cbn; intros ->|]. destruct (Hal n Hi). by eapply step_propose.
  - by eapply Hsame, step_confirm.
  - by eapply Hsame, step_confirm_reply.
  - destruct (Hnode i) as [n Hi]; [by cbn; intros ->|]. apply Hsame. eapply step_restart; [done|done|by apply Hal|done].
  - by eapply Hsame, step_tick.
Qed.

Lemma runs_inv {St : Strength} c c' g :
  members_ok members -> Inv members c g -> runs c c' -> (strict -> commits_covered c') ->
  exists g', ext g g' /\ Inv members c' g'.
Proof.
  intros Hmem HI Hr Hcov. revert g HI. induction Hr as [c|c ev c1 c2 Hal Hex Hr IH]; intros g HI.
  - exists g. split; [apply ext_refl|done].
  - destruct (step_inv ev c g c1) as (g1 & He1 & HI1); [done|done|done| |done|].
    { intros Hst. by eapply covered_before, Hcov. }
    destruct (IH Hcov g1 HI1) as (g2 & He2 & HI2).
    exists g2. split; [by eapply ext_trans|done].
Qed.

(** What two nodes have both committed, at two moments of a history. *)
Lemma committed_same {St : Strength} c1 c2 g1 g2 i j ni nj k :
  strict -> members_ok members -> Inv members c1 g1 -> Inv members c2 g2 -> ext g1 g2 ->
  nodes c1 !! i = Some ni -> nodes c2 !! j = Some nj -> k <= commit_index_ ni -> k <= commit_index_ nj ->
  ztake k (log_entries ni) = ztake k (log_entries nj).
Proof.
  intros Hst Hmem HI1 HI2 He Hi Hj Hk1 Hk2.
  destruct (ni_commit _ _ _ _ (inv_nodes _ _ _ HI1 _ _ Hi)) as [_ Hc1]. specialize (Hc1 Hst). eapply committed_ext in Hc1; [|exact He].
  destruct (ni_commit _ _ _ _ (inv_nodes _ _ _ HI2 _ _ Hj)) as [_ Hc2]. specialize (Hc2 Hst).
  pose proof (committed_agree members Hmem _ _ _ _ _ _ _ _ HI2 Hc1 Hc2) as E.
  unfold ztake. eapply take_le; [|exact E]. lia.
Qed.

(** Two moments of a run from the first start. *)
Lemma runs_inv2 {St : Strength} c0 c1 c2 :
  members_ok members -> initial c0 -> runs c0 c1 -> runs c1 c2 -> (strict -> commits_covered c2) ->
  exists g1 g2, Inv members c1 g1 /\ Inv members c2 g2 /\ ext g1 g2.
Proof.
  intros Hmem Hinit H1 H2 Hcov. destruct (runs_inv c0 c1 _ Hmem (initial_inv _ Hinit) H1) as (g1 & _ & HI1).
  { intros Hst. by eapply covered_before, Hcov. }
  destruct (runs_inv c1 c2 _ Hmem HI1 H2 Hcov) as (g2 & He & HI2). by exists g1, g2.
Qed.

(** ** The theorems: [c1] and [c2] are two moments of one run *)

Section Run.
Context (c0 c1 c2 : Cluster R).

(** C3: Election safety. Two nodes that are leaders in the same term, at whatever moments
    of a run, are the same node. *)
Theorem election_safety i j ni nj :
  members_ok members -> initial c0 -> runs c0 c1 -> runs c1 c2 ->
  nodes c1 !! i = Some ni -> nodes c2 !! j = Some nj ->
  state_ ni = RaftState.kLeader -> state_ nj = RaftState.kLeader -> current_term_ ni = current_term_ nj -> i = j.
Proof.
  intros Hmem Hinit Hr1 Hr2 Hi Hj Hli Hlj Ht. destruct (runs_inv2 (St := every_run) c0 c1 c2 Hmem Hinit Hr1 Hr2 ltac:(done)) as (g1 & g2 & HI1 & HI2 & He).
  destruct (ni_leader _ _ _ _ (inv_nodes _ _ _ HI1 _ _ Hi) Hli) as [(l1 & Hl1 & Hid1 & _) _].
  destruct (ni_leader _ _ _ _ (inv_nodes _ _ _ HI2 _ _ Hj) Hlj) as [(l2 & Hl2 & Hid2 & _) _].
  destruct (ext_ldr _ _ He _ _ Hl1) as (l1' & Hl1' & Hid1' & _). rewrite Ht in Hl1'. congruence.
Qed.

Lemma leader_log_grows i ni nj :
  members_ok members -> initial c0 -> runs c0 c1 -> runs c1 c2 ->
  nodes c1 !! i = Some ni -> nodes c2 !! i = Some nj ->
  state_ ni = RaftState.kLeader -> state_ nj = RaftState.kLeader -> current_term_ ni = current_term_ nj ->
  log_entries ni `prefix_of` log_entries nj.
Proof.
  intros Hmem Hinit Hr1 Hr2 Hi Hj Hli Hlj Ht. destruct (runs_inv2 (St := every_run) c0 c1 c2 Hmem Hinit Hr1 Hr2 ltac:(done)) as (g1 & g2 & HI1 & HI2 & He).
  destruct (ni_leader _ _ _ _ (inv_nodes _ _ _ HI1 _ _ Hi) Hli) as [(l1 & Hl1 & _ & Hg1) _].
  destruct (ni_leader _ _ _ _ (inv_nodes _ _ _ HI2 _ _ Hj) Hlj) as [(l2 & Hl2 & _ & Hg2) _].
  destruct (ext_ldr _ _ He _ _ Hl1) as (l1' & Hl1' & _ & _ & _ & Hp). rewrite Ht in Hl1'.
  replace l1' with l2 in * by congruence. by rewrite <- Hg1, <- Hg2.
Qed.

(** Leader append-only. While a node leads a term its log only grows at the end. *)
Theorem leader_append_only i ni nj :
  members_ok members -> initial c0 -> runs c0 c1 -> runs c1 c2 ->
  nodes c1 !! i = Some ni -> nodes c2 !! i = Some nj ->
  state_ ni = RaftState.kLeader -> state_ nj = RaftState.kLeader -> current_term_ ni = current_term_ nj ->
  log_entries ni `prefix_of` log_entries nj.
Proof. exact (leader_log_grows i ni nj). Qed.

(** C17: Log matching. If two logs hold entries of the same term at the same index, they
    are equal up to that index. *)
Theorem log_matching i j ni nj k e e' :
  members_ok members -> initial c0 -> runs c0 c1 -> runs c1 c2 ->
  nodes c1 !! i = Some ni -> nodes c2 !! j = Some nj ->
  log_entries ni !! k = Some e -> log_entries nj !! k = Some e' -> le_term e = le_term e' ->
  take (S k) (log_entries ni) = take (S k) (log_entries nj).
Proof.
  intros Hmem Hinit Hr1 Hr2 Hi Hj Hei Hej Ht. destruct (runs_inv2 (St := every_run) c0 c1 c2 Hmem Hinit Hr1 Hr2 ltac:(done)) as (g1 & g2 & HI1 & HI2 & He).
  eapply (valid_matching g2); [| |done|done|done].
  - eapply valid_ext; [exact He|]. by apply (inv_nodes _ _ _ HI1 _ _ Hi).
  - by apply (inv_nodes _ _ _ HI2 _ _ Hj).
Qed.

(** C2: Leader completeness. In a run as in [state_machine_safety], with covered commit
    indexes and crashes between critical sections, what a node has committed is in the log
    of every leader of its term or a later one, then and ever after. *)
Theorem leader_completeness i j ni nj :
  members_ok members -> initial c0 -> runs c0 c1 -> runs c1 c2 -> commits_covered c2 ->
  nodes c1 !! i = Some ni -> nodes c2 !! j = Some nj ->
  state_ nj = RaftState.kLeader -> current_term_ ni <= current_term_ nj ->
  ztake (commit_index_ ni) (log_entries nj) = ztake (commit_index_ ni) (log_entries ni).
Proof.
  intros Hmem Hinit Hr1 Hr2 Hcov Hi Hj Hlj Ht. destruct (runs_inv2 (St := covered_run) c0 c1 c2 Hmem Hinit Hr1 Hr2 (fun _ => Hcov)) as (g1 & g2 & HI1 & HI2 & He).
  destruct (ni_leader _ _ _ _ (inv_nodes _ _ _ HI2 _ _ Hj) Hlj) as [(l2 & Hl2 & _ & Hg2) _].
  destruct (ni_commit _ _ _ _ (inv_nodes _ _ _ HI1 _ _ Hi)) as [_ Hcm]. specialize (Hcm I). eapply committed_ext in Hcm; [|exact He].
  unfold ztake. rewrite <- Hg2. symmetry. by eapply committed_in_later.
Qed.

(** C1: State machine safety, as far as the code has it. Take any run from the first start
    (messages lost, repeated and reordered, elections, crashes and restarts of processes
    between their critical sections on healthy disks) in which no append request announces
    a commit index beyond the entries it covers. Then any two nodes, or one node at two
    moments, agree on every entry that both have committed. The quorum check of a leader
    with a lagging follower sends requests that do not cover what they announce, and then
    the conclusion fails ([quorum_check_applies_stale_entry] of RaftTraces.v). *)
Theorem state_machine_safety i j ni nj :
  members_ok members -> initial c0 -> runs c0 c1 -> runs c1 c2 -> commits_covered c2 ->
  nodes c1 !! i = Some ni -> nodes c2 !! j = Some nj ->
  forall k, k <= commit_index_ ni -> k <= commit_index_ nj ->
    ztake k (log_entries ni) = ztake k (log_entries nj).
Proof.
  intros Hmem Hinit Hr1 Hr2 Hcov Hi Hj k Hk1 Hk2. destruct (runs_inv2 (St := covered_run) c0 c1 c2 Hmem Hinit Hr1 Hr2 (fun _ => Hcov)) as (g1 & g2 & HI1 & HI2 & He).
  by eapply (committed_same (St := covered_run) c1 c2 g1 g2 i j).
Qed.

Lemma committed_stays i ni :
  members_ok members -> initial c0 -> runs c0 c1 -> runs c1 c2 -> commits_covered c2 ->
  nodes c1 !! i = Some ni -> 0 < commit_index_ ni ->
  exists Q, quorum ids Q /\ forall v nv, v ∈ Q -> nodes c2 !! v = Some nv ->
    ztake (commit_index_ ni) (log_entries nv) = ztake (commit_index_ ni) (log_entries ni).
Proof.
  intros Hmem Hinit Hr1 Hr2 Hcov Hi Hpos. destruct (runs_inv2 (St := covered_run) c0 c1 c2 Hmem Hinit Hr1 Hr2 (fun _ => Hcov)) as (g1 & g2 & HI1 & HI2 & He).
  destruct (ni_commit _ _ _ _ (inv_nodes _ _ _ HI1 _ _ Hi)) as [_ Hc1]. specialize (Hc1 I). eapply committed_ext in Hc1; [|exact He].
  destruct Hc1 as [|(t & m & ld & _ & Hch & Hm & Hld & E)]; [lia|].
  pose proof (chosen_carried members Hmem c2 g2 t m HI2 Hch) as Hcar.
  destruct Hch as (ld' & e & Q & _ & _ & _ & _ & HQ & Hack). exists Q. split; [done|]. intros v nv Hv Hnv.
  unfold ztake. rewrite E. eapply take_le; [exact Hm|].
  eapply acks_kept; [by eapply inv_nodes|by apply Hack|done|apply Hcar].
Qed.

(** C16: Durability. In a run as in [state_machine_safety], with covered commit indexes and
    crashes between critical sections (no write of the log or the state file under way),
    what a node has committed is, from then on, in the stored logs of a majority of the
    members, whatever elections and restarts follow. *)
Theorem committed_on_majority i ni :
  members_ok members -> initial c0 -> runs c0 c1 -> runs c1 c2 -> commits_covered c2 ->
  nodes c1 !! i = Some ni -> 0 < commit_index_ ni ->
  exists Q, quorum ids Q /\ forall v nv, v ∈ Q -> nodes c2 !! v = Some nv ->
    ztake (commit_index_ ni) (log_entries nv) = ztake (commit_index_ ni) (log_entries ni).
Proof. exact (committed_stays i ni). Qed.

End Run.

(** In a reachable cluster every append request that is delivered gets an answer, and
    an answer that says success means that the receiver's log now holds the request's
    entries at their indices. *)
Theorem messages_are_served c0 c to req n clk1 clk2 :
  members_ok members -> initial c0 -> runs c0 c ->
  nodes c !! to = Some n -> MAppReq to req ∈ net c ->
  exists resp n', HandleAppendEntries clk1 clk2 req n = Some (resp, n') /\
    exec (EvAppend to req clk1 clk2) c = Some (send (MAppResp to req resp) (set_node to n' c)) /\
    (aer_success resp = true ->
     aeq_prev_log_index req + zlen (aeq_entries req) <= zlen (log_entries n') /\
     drop (Z.to_nat (aeq_prev_log_index req))
       (ztake (aeq_prev_log_index req + zlen (aeq_entries req)) (log_entries n')) = aeq_entries req).
Proof.
  intros Hmem Hinit Hr Hn Hin. destruct (runs_inv (St := every_run) c0 c _ Hmem (initial_inv _ Hinit) Hr ltac:(done)) as (g & _ & HI).
  pose proof (inv_nodes _ _ _ HI _ _ Hn) as Hni. destruct (inv_net _ _ _ HI _ Hin) as (Hne & ld & Hreq).
  pose proof (request_storable _ _ _ _ _ HI Hreq) as Hst. pose proof (commit_bound _ _ _ _ Hni) as [Hcb _].
  pose proof (ni_len _ _ _ _ Hni) as Hlen. pose proof (request_bounds _ _ _ _ _ HI Hreq) as (Hb1 & Hb2).
  destruct (HandleAppendEntries_spec clk1 clk2 req n (ni_ok _ _ _ _ Hni) (ai_term _ _ _ _ Hreq) Hst
    (ai_prev _ _ _ _ Hreq)) as (resp & n' & E & _ & Hcase); [lia|lia|lia|].
  exists resp, n'. split; [done|]. split.
  { cbn [exec]. rewrite Hn. cbn [mbind option_bind]. rewrite bool_decide_true by done. cbn [guard mbind option_bind].
    by rewrite E. }
  intros Hs. destruct Hcase as [(_ & _ & ->)|(_ & _ & _ & _ & _ & _ & _ & _ & _ & [(_ & Hf & _)|(Hmis & _ & Hl & _)])];
    [done|congruence|].
  rewrite (append_result (St := every_run) members c g to n req ld) in Hl by done. destruct Hreq as [Hld _ _ Hp Hle He _ _ _].
  pose proof (zlen_nonneg (aeq_entries req)) as Hes.
  set (m := aeq_prev_log_index req + zlen (aeq_entries req)) in *.
  assert (Hhas : take (Z.to_nat m) (log_entries n') = take (Z.to_nat m) (ld_log ld))
    by (rewrite Hl; apply append_has; unfold zlen in Hle; lia).
  split; [|unfold ztake; rewrite Hhas; by symmetry].
  assert (Z.to_nat m <= length (log_entries n'))%nat
    by (eapply take_eq_length; [by symmetry|unfold zlen in Hle; lia]). unfold zlen at 1. lia.
Qed.

End Safety.
