(* ===== verification/RaftReplica.v ===== *)
(** * A node's storage on disk

    What a [RaftNode] keeps: the log and the key-value store over the write-ahead log
    (RaftLog.v, DurableStorage.v) and the file [data_dir/raft/state.bin] with its term
    and vote ([LoadPersistedState] and [PersistStateLocked] of [src/raft/node.cpp]). On
    disks whose calls do not fail it satisfies the laws that the node's theorems use. *)

From Stdlib Require Import Strings.String.
From S2P Require Import Prelude Common BigEndian Crc32 Os WalRecord ShardedKV WalWriter DurableStorage.
From S2P Require Import RaftTypes RaftLog RaftNode.

(** ** The state file *)

(** The file and the answers to the calls to come. *)
Record StateFs := mkStateFs {
  st_file : option File;
  st_mkdir : list (option Z);
  st_open : list OpenAns;
  st_reads : list ReadAns;
  st_write : list WriteAns;
  st_fsync : list (option Z)
}.

Definition set_st_file f (s : StateFs) : StateFs :=
  mkStateFs f (st_mkdir s) (st_open s) (st_reads s) (st_write s) (st_fsync s).
Definition set_st_mkdir l (s : StateFs) : StateFs :=
  mkStateFs (st_file s) l (st_open s) (st_reads s) (st_write s) (st_fsync s).
Definition set_st_open l (s : StateFs) : StateFs :=
  mkStateFs (st_file s) (st_mkdir s) l (st_reads s) (st_write s) (st_fsync s).
Definition set_st_reads l (s : StateFs) : StateFs :=
  mkStateFs (st_file s) (st_mkdir s) (st_open s) l (st_write s) (st_fsync s).
Definition set_st_write l (s : StateFs) : StateFs :=
  mkStateFs (st_file s) (st_mkdir s) (st_open s) (st_reads s) l (st_fsync s).
Definition set_st_fsync l (s : StateFs) : StateFs :=
  mkStateFs (st_file s) (st_mkdir s) (st_open s) (st_reads s) (st_write s) l.

Definition st_next_open (s : StateFs) : OpenAns * StateFs :=
  match st_open s with [] => (OpenFd 4, s) | a :: l => (a, set_st_open l s) end.

(** [buf[i] = static_cast<uint8_t>(value)] *)
Definition poke (buf : bytes) (i value : Z) : bytes := <[Z.to_nat i := byte_of_Z value]> buf.

(** The writers into a buffer, at [p]. *)
Definition WriteU32BE_at (buf : bytes) (p value : Z) : bytes :=
  let buf := poke buf p (Z.shiftr value 24) in
  let buf := poke buf (p + 1) (Z.shiftr value 16) in
  let buf := poke buf (p + 2) (Z.shiftr value 8) in
  poke buf (p + 3) value.

Definition WriteU64BE_at (buf : bytes) (p value : Z) : bytes :=
  foldl (fun buf i => poke buf (p + i) (Z.shiftr value (56 - 8 * i))) buf [0; 1; 2; 3; 4; 5; 6; 7].

(** The loop over [read(2)]: the bytes up to [len] or the end of the file, or the error. *)
Fixpoint read_state (script : list ReadAns) (data : bytes) (len : Z) : sum Z bytes * list ReadAns :=
  if len <=? 0 then (inr [], script)
  else
    match script with
    | [] => (inr (ztake len data), [])
    | RdShort n :: script =>
        let chunk := ztake (Z.min len (Z.max 1 n)) data in
        if is_empty chunk then (inr [], script)
        else
          match read_state script (zdrop (zlen chunk) data) (len - zlen chunk) with
          | (inr rest, script) => (inr (chunk ++ rest), script)
          | (inl e, script) => (inl e, script)
          end
    | RdEintr :: script => read_state script data len
    | RdFail e :: script => (inl e, script)
    end.

Section StateFile.
Context `{Libc}.

Definition LoadPersistedState (state_path : bytes) (s : StateFs) : Status * PersistentState * StateFs :=
  let '(a, s) := st_next_open s in
  match (match a, st_file s with OpenFd _, None => OpenErr ENOENT | _, _ => a end) with
  | OpenErr e =>
      if e =? ENOENT then (Status_Ok, PersistentState_default, s)
      else (IoError (str "open " ++ state_path ++ str ": ") e, PersistentState_default, s)
  | OpenFd _ =>
      let data := match st_file s with Some f => f_data f | None => [] end in
      let '(r, script) := read_state (st_reads s) data 12 in
      let s := set_st_reads script s in
      match r with
      | inl e => (IoError (str "read " ++ state_path ++ str ": ") e, PersistentState_default, s)
      | inr buf =>
          if negb (zlen buf =? 12)
          then (Status_Error ErrorCode.kIOError (str "raft state file truncated: " ++ state_path),
                PersistentState_default, s)
          else (Status_Ok, mkPersistentState (ReadU64BE buf) (ReadU32BE (zdrop 8 buf)), s)
      end
  end.

(** [uint8_t buf[12]] with the term and the vote in it; the stack bytes it starts with
    are all overwritten. *)
Definition state_buf (ps : PersistentState) : bytes :=
  let buf := replicate 12 (byte_of_Z 0) in
  let buf := WriteU64BE_at buf 0 (current_term ps) in
  WriteU32BE_at buf 8 (voted_for ps).

(** [open] with [O_TRUNC]. *)
Definition PersistStateLocked_open (s : StateFs) : OpenAns * StateFs :=
  let '(_, script) := next_answer (st_mkdir s) in
  let s := set_st_mkdir script s in
  let '(a, s) := st_next_open s in
  match a with
  | OpenErr _ => (a, s)
  | OpenFd _ => (a, set_st_file (Some (match st_file s with Some f => truncate_file f | None => file_on_disk [] end)) s)
  end.

Definition PersistStateLocked_file (ps : PersistentState) (s : StateFs) : StateFs :=
  let '(a, s) := PersistStateLocked_open s in
  match a with
  | OpenErr _ => s
  | OpenFd _ =>
      let '(_, f, script) := write_append (st_write s) (default (file_on_disk []) (st_file s)) (state_buf ps) in
      let s := set_st_file (Some f) (set_st_write script s) in
      let '(r, script) := next_answer (st_fsync s) in
      let s := set_st_fsync script s in
      match r with
      | Some _ => s
      | None => set_st_file (fsync_file <$> st_file s) s
      end
  end.

End StateFile.

(** ** The replica *)

Section Replica.
Context `{Libc} {T : Type} `{KvOps T}.

Record Replica := mkReplica {
  rp_storage : DurableStorage T;
  rp_entries : list LogEntry;
  rp_sys : Sys;
  rp_state : StateFs
}.

Definition rp_state_path (r : Replica) : bytes := ds_data_dir (rp_storage r) ++ str "/raft/state.bin".

Definition set_rp_log entries w s (r : Replica) : Replica :=
  mkReplica (set_ds_wal w (rp_storage r)) entries s (rp_state r).
Definition set_rp_state st (r : Replica) : Replica := mkReplica (rp_storage r) (rp_entries r) (rp_sys r) st.

#[export] Instance Replica_ops : ReplicaOps Replica := {|
  rep_entries := rp_entries;
  rep_Append := fun e r =>
    '(st, e, entries, w, s) ← Log_Append e (rp_entries r) (ds_wal (rp_storage r)) (rp_sys r);
    Some (st, e, set_rp_log entries w s r);
  rep_TruncateFrom := fun i r =>
    let '(st, entries, w, s) := Log_TruncateFrom i (rp_entries r) (ds_wal (rp_storage r)) (rp_sys r) in
    (st, set_rp_log entries w s r);
  rep_last_applied_index := fun r => ds_last_applied_index (rp_storage r);
  rep_ApplyCommitted := fun rec r =>
    mkReplica (ApplyCommitted rec (rp_storage r)) (rp_entries r) (rp_sys r) (rp_state r);
  rep_PersistState := fun ps r => set_rp_state (PersistStateLocked_file ps (rp_state r)) r;
  rep_LoadPersistedState := fun r =>
    let '(st, ps, s) := LoadPersistedState (rp_state_path r) (rp_state r) in (st, ps, set_rp_state s r);
  rep_LoadLog := fun r =>
    '(st, entries, s) ← Log_Load (ds_data_dir (rp_storage r)) (rp_sys r);
    Some (st, set_rp_log entries (ds_wal (rp_storage r)) s r)
|}.

End Replica.

Arguments Replica T : clear implicits.

(** ** Runs of the log *)

Inductive LogOp :=
| LAppend (e : LogEntry)
| LTruncate (from_index : Z).

Definition log_step `{ReplicaOps R} (op : LogOp) (r : R) : option (Status * R) :=
  match op with
  | LAppend e => '(st, _, r) ← rep_Append e r; Some (st, r)
  | LTruncate i => Some (rep_TruncateFrom i r)
  end.

Fixpoint log_run `{ReplicaOps R} (ops : list LogOp) (r : R) : option (list Status * R) :=
  match ops with
  | [] => Some ([], r)
  | op :: ops => '(st, r) ← log_step op r; '(sts, r) ← log_run ops r; Some (st :: sts, r)
  end.

(** The same on a list of entries. *)
Definition spec_log (es : list LogEntry) (op : LogOp) : list LogEntry :=
  match op with
  | LAppend e => es ++ [set_le_index (zlen es + 1) e]
  | LTruncate i => ztake (i - 1) es
  end.

Definition log_op_ok (op : LogOp) : Prop :=
  match op with LAppend e => storable e | LTruncate i => 1 <= i end.

(** ** Disks whose calls do not fail *)

Record sys_healthy (s : Sys) : Prop := {
  sh_quiet : sys_quiet s;
  sh_write : writes_ok (sys_write s);
  sh_fsync : Forall (eq None) (sys_fsync s);
  sh_ftruncate : Forall (eq None) (sys_ftruncate s)
}.

Record state_healthy (s : StateFs) : Prop := {
  th_open : Forall (fun a => match a with OpenFd _ => True | OpenErr _ => False end) (st_open s);
  th_reads : reads_ok (st_reads s);
  th_write : writes_ok (st_write s);
  th_fsync : Forall (eq None) (st_fsync s);
  th_file : st_file s = None \/
    exists ps, state_fits ps /\ st_file s = Some (file_on_disk (be_bytes 8 (current_term ps) ++ be_bytes 4 (voted_for ps)))
}.

Lemma next_answer_None script a script' :
  Forall (eq None) script -> next_answer script = (a, script') -> a = None /\ Forall (eq None) script'.
Proof.
  intros Hs. unfold next_answer. destruct script as [|x l]; intros [= <- <-]; [done|].
  by apply Forall_cons in Hs as [<- ?].
Qed.

Section Healthy.
Context `{Libc}.

Lemma WriteAll_healthy s b :
  sys_healthy s -> exists f script, WriteAll s b = (Status_Ok, set_sys_wal (Some f) (set_sys_write script s)) /\
    writes_ok script.
Proof.
  intros [_ Hw _ _]. unfold WriteAll. destruct (write_append _ _ _) as [[e f] script] eqn:E.
  apply write_append_ok in E as [-> Hs]; [|done]. by exists f, script.
Qed.

Lemma healthy_write f script s :
  sys_healthy s -> writes_ok script -> sys_healthy (set_sys_wal f (set_sys_write script s)).
Proof. intros [[? ? ? ?] ? ? ?] Hs. constructor; [by constructor|done..]. Qed.

Lemma Append_healthy r w s res w' s' : sys_healthy s -> Append r w s = (res, w', s') -> sys_healthy s'.
Proof.
  intros Hs. unfold Append. destruct (negb _); [by intros [= _ _ <-]|].
  edestruct (WriteAll_healthy s) as (f & script & -> & Hw); [done|]. cbn. intros [= _ _ <-]. by apply healthy_write.
Qed.

Lemma FsyncNow_healthy w s :
  sys_healthy s -> exists w' s', FsyncNow w s = (Status_Ok, w', s') /\ sys_healthy s'.
Proof.
  intros [[? ? ? ?] ? Hf ?]. unfold FsyncNow. destruct (next_answer (sys_fsync s)) as [a script] eqn:E.
  apply next_answer_None in E as [-> Hs]; [|done]. eexists _, _. split; [done|]. constructor; [by constructor|done..].
Qed.

Lemma Sync_healthy i w s st w' s' : sys_healthy s -> Sync i w s = Some (st, w', s') -> sys_healthy s'.
Proof.
  intros Hs. unfold Sync. destruct (Sync_entry i w); [by intros [= _ _ <-]|done|]. unfold Sync_flush.
  destruct (FsyncNow_healthy (Sync_lead w) s Hs) as (w1 & s1 & -> & Hs1). rewrite Status_ok_Ok. cbn [negb].
  by intros [= _ _ <-].
Qed.

Lemma write_records_healthy rs s :
  sys_healthy s -> exists s', write_records rs s = (Status_Ok, s') /\ sys_healthy s'.
Proof.
  revert s. induction rs as [|r rs IH]; intros s Hs; cbn [write_records]; [by exists s|].
  destruct (WriteAll_healthy s (EncodeWalRecord r []) Hs) as (f & script & -> & Hw).
  rewrite Status_ok_Ok. cbn [negb]. apply IH. by apply healthy_write.
Qed.

Lemma RewriteAll_healthy rs w s :
  sys_healthy s -> WalWriter.open_status_ w = Status_Ok ->
  exists w' s', RewriteAll rs w s = (Status_Ok, w', s') /\ sys_healthy s'.
Proof.
  intros Hs Ho. unfold RewriteAll. rewrite Ho, Status_ok_Ok. cbn [negb].
  destruct (next_answer (sys_ftruncate s)) as [a l1] eqn:E1.
  apply next_answer_None in E1 as [-> Hl1]; [|apply Hs].
  cbn [sys_lseek set_sys_wal set_sys_ftruncate]. destruct (next_answer (sys_lseek s)) as [a l2] eqn:E2.
  apply next_answer_None in E2 as [-> Hl2]; [|apply Hs].
  match goal with |- context [write_records rs ?x] => destruct (write_records_healthy rs x) as (s1 & -> & Hs1) end.
  { destruct Hs as [[? ? ? ?] ? ? ?]. constructor; [by constructor|done..]. }
  rewrite Status_ok_Ok. cbn [negb]. destruct (FsyncNow_healthy w s1 Hs1) as (w2 & s2 & -> & Hs2).
  rewrite Status_ok_Ok. cbn [negb]. by eexists _, _.
Qed.

End Healthy.

(** ** The state file keeps term and vote *)

Lemma state_buf_bytes ps : state_buf ps = be_bytes 8 (current_term ps) ++ be_bytes 4 (voted_for ps).
Proof.
  assert (E : state_buf ps = WriteU32BE (WriteU64BE [] (current_term ps)) (voted_for ps)) by reflexivity.
  by rewrite E, WriteU32BE_bytes, WriteU64BE_bytes.
Qed.

Lemma read_state_ok script data len :
  reads_ok script -> 0 <= len -> exists script', read_state script data len = (inr (ztake len data), script') /\ reads_ok script'.
Proof.
  intros Hs. revert data len. induction Hs as [|a script Ha Hs IH]; intros data len Hl; cbn [read_state].
  - destruct (Z.leb_spec len 0); [replace len with 0 by lia|]; exists []; (split; [done|constructor]).
  - destruct (Z.leb_spec len 0).
    { replace len with 0 by lia. exists (a :: script). split; [done|by constructor]. }
    destruct a as [n| |e]; [|by apply IH|done].
    set (m := Z.min len (Z.max 1 n)). destruct (is_empty (ztake m data)) eqn:Ee.
    + apply is_empty_true in Ee. exists script. split; [|done].
      assert (data = []) as -> by (destruct data; [done|]; unfold ztake in Ee; by replace (Z.to_nat m) with (S (Z.to_nat (m - 1))) in Ee by lia).
      unfold ztake. by rewrite take_nil.
    + destruct (IH (zdrop (zlen (ztake m data)) data) (len - zlen (ztake m data))) as (script' & -> & Hs').
      { unfold zlen, ztake. rewrite length_take. lia. }
      exists script'. split; [|done]. do 2 f_equal. pose proof (slice_split 0 m len data ltac:(lia) ltac:(lia)) as E. unfold slice in E.
      by rewrite zdrop_0, Z.add_0_l in E.
Qed.

Definition state_bytes (ps : PersistentState) : bytes := be_bytes 8 (current_term ps) ++ be_bytes 4 (voted_for ps).

(** What a state file says; a missing one says term 0 and no vote. *)
Definition decode_state (f : option File) : PersistentState :=
  match f with
  | None => PersistentState_default
  | Some f => mkPersistentState (ReadU64BE (f_data f)) (ReadU32BE (zdrop 8 (f_data f)))
  end.

Lemma zlen_state_bytes ps : zlen (state_bytes ps) = 12.
Proof. unfold state_bytes. by rewrite zlen_app, !zlen_be_bytes. Qed.

Lemma decode_state_bytes ps : state_fits ps -> decode_state (Some (file_on_disk (state_bytes ps))) = ps.
Proof.
  intros [Ht Hv]. unfold decode_state. cbn [f_data file_on_disk]. unfold state_bytes.
  rewrite ReadU64BE_be by done. rewrite zdrop_app_exact by (by rewrite zlen_be_bytes).
  rewrite <- (app_nil_r (be_bytes 4 _)), ReadU32BE_be by done. by destruct ps.
Qed.

Section StateProofs.
Context `{Libc}.

Lemma healthy_open s a s' :
  state_healthy s -> st_next_open s = (a, s') ->
  (exists fd, a = OpenFd fd) /\ st_file s' = st_file s /\ state_healthy s'.
Proof.
  intros [Ho Hr Hw Hf Hfile]. unfold st_next_open. destruct (st_open s) as [|[fd|e] l] eqn:E.
  - intros [= <- <-]. split; [by eexists|]. split; [done|]. constructor; [by rewrite E|done..].
  - intros [= <- <-]. apply Forall_cons in Ho as [_ Ho]. split; [by eexists|]. split; [done|by constructor].
  - by apply Forall_cons in Ho as [[] _].
Qed.

Lemma PersistState_healthy ps s :
  state_healthy s -> state_fits ps ->
  state_healthy (PersistStateLocked_file ps s) /\
  st_file (PersistStateLocked_file ps s) = Some (file_on_disk (state_bytes ps)).
Proof.
  intros Hs Hps. unfold PersistStateLocked_file, PersistStateLocked_open.
  destruct (next_answer (st_mkdir s)) as [m lm].
  assert (Hs0 : state_healthy (set_st_mkdir lm s)) by (destruct Hs; by constructor).
  destruct (st_next_open (set_st_mkdir lm s)) as [a s1] eqn:E1.
  destruct (healthy_open _ _ _ Hs0 E1) as ([fd ->] & Hf1 & [Ho Hr Hw Hf _]).
  cbn [st_write st_file set_st_file default from_option id]. rewrite state_buf_bytes. fold (state_bytes ps).
  destruct (write_append _ _ _) as [[e f] script] eqn:Ew.
  pose proof (write_append_spec _ _ _ _ _ _ Ew) as (d & l & Hd & -> & He).
  apply write_append_ok in Ew as [-> Hscript]; [|done].
  assert (l = []) as -> by (by apply He). rewrite app_nil_r in Hd. subst d.
  cbn [st_fsync set_st_file set_st_write]. destruct (next_answer (st_fsync s1)) as [x lf] eqn:Ef.
  apply next_answer_None in Ef as [-> Hlf]; [|done].
  assert (Hfinal : forall f0 : File, f_data f0 = [] -> fsync_file (extend_file f0 (state_bytes ps)) = file_on_disk (state_bytes ps)).
  { intros f0 H0. unfold fsync_file, extend_file, file_on_disk. cbn. by rewrite H0. }
  cbn [st_file set_st_file set_st_fsync set_st_write fmap option_fmap option_map].
  rewrite Hfinal by (by destruct (st_file s1)). split; [|done].
  constructor; [done..|]. right. by exists ps.
Qed.

Lemma LoadPersistedState_healthy path s :
  state_healthy s -> exists s', LoadPersistedState path s = (Status_Ok, decode_state (st_file s), s') /\
    state_healthy s' /\ st_file s' = st_file s.
Proof.
  intros Hs. unfold LoadPersistedState. destruct (st_next_open s) as [a s1] eqn:E1.
  destruct (healthy_open _ _ _ Hs E1) as ([fd ->] & Hf1 & Hs1). rewrite Hf1.
  destruct (th_file _ Hs) as [E|(ps & Hps & E)]; rewrite E.
  { cbn [Z.eqb ENOENT Pos.eqb]. exists s1. split; [done|]. split; [done|congruence]. }
  cbn [f_data file_on_disk]. fold (state_bytes ps).
  destruct (read_state_ok (st_reads s1) (state_bytes ps) 12 (th_reads _ Hs1)) as (script & -> & Hr); [lia|].
  assert (Hall : ztake 12 (state_bytes ps) = state_bytes ps).
  { unfold ztake. apply take_ge. pose proof (zlen_state_bytes ps) as Hz. unfold zlen in Hz. lia. }
  rewrite Hall, zlen_state_bytes, Z.eqb_refl. cbn [negb].
  eexists. split; [done|]. split; [destruct Hs1; by constructor|]. cbn. by rewrite Hf1, E.
Qed.

End StateProofs.

(** ** The laws *)

Section ReplicaProofs.
Context `{Libc} {T : Type} `{KvLaws T}.
Implicit Types (r : Replica T).

Record rep_healthy r : Prop := {
  rh_wal : wal_state (to_record <$> rp_entries r) (zlen (rp_entries r)) (ds_wal (rp_storage r)) (rp_sys r);
  rh_storable : Forall storable (rp_entries r);
  rh_applied : 0 <= ds_last_applied_index (rp_storage r);
  rh_sys : sys_healthy (rp_sys r);
  rh_state : state_healthy (rp_state r);
  rh_kv : kv_inv (ds_kv (rp_storage r))
}.

(** A crash of the machine and a new process: the log file and the state file hold what
    survived, the store was opened again, and the calls keep succeeding. *)
Record replica_restarts r r' : Prop := {
  rr_wal : exists b s, crash_file (sys_file (rp_sys r)) b /\ sys_wal s = Some (file_on_disk b) /\ sys_quiet s /\
    DurableStorage_Open (ds_data_dir (rp_storage r)) s = Some (Value (rp_storage r'), rp_sys r');
  rr_sys : sys_healthy (rp_sys r');
  rr_state : match st_file (rp_state r) with
    | None => st_file (rp_state r') = None
    | Some f => exists b, crash_file f b /\ st_file (rp_state r') = Some (file_on_disk b)
    end;
  rr_reads : Forall (fun a => match a with OpenFd _ => True | OpenErr _ => False end) (st_open (rp_state r')) /\
    reads_ok (st_reads (rp_state r')) /\ writes_ok (st_write (rp_state r')) /\ Forall (eq None) (st_fsync (rp_state r'))
}.

Lemma zlen_fmap {A B} (f : A -> B) l : zlen (f <$> l) = zlen l.
Proof. unfold zlen. by rewrite length_fmap. Qed.

Lemma healthy_log_wf r : rep_healthy r -> log_wf (rp_entries r).
Proof. intros [Hw _ _ _ _ _]. apply log_wf_indexed, Hw. Qed.

Lemma storable_valid e i : storable e -> is_u64 i -> wal_valid (to_record (set_le_index i e)).
Proof. intros (Ht & Hk & Hv & Hs) Hi. by constructor. Qed.

Lemma replica_Append e r :
  rep_healthy r -> storable e -> zlen (rp_entries r) + 1 < 2 ^ 64 ->
  exists r', rep_Append e r = Some (Status_Ok, set_le_index (zlen (rp_entries r) + 1) e, r') /\ rep_healthy r' /\
    rp_entries r' = rp_entries r ++ [set_le_index (zlen (rp_entries r) + 1) e] /\
    ds_last_applied_index (rp_storage r') = ds_last_applied_index (rp_storage r) /\ rp_state r' = rp_state r.
Proof.
  intros [Hw Hst Ha Hs Hsf Hkv] He Hlt. cbn [rep_Append Replica_ops]. unfold Log_Append.
  set (rec := mkWalRecord (le_term e) 0 (le_op e) (le_key e) (le_value e)).
  set (rs := to_record <$> rp_entries r) in *.
  assert (Hz : zlen rs = zlen (rp_entries r)) by apply zlen_fmap. pose proof (zlen_nonneg (rp_entries r)) as Hnn.
  assert (Happ : appended rs rec = to_record (set_le_index (zlen (rp_entries r) + 1) e))
    by (unfold appended; by rewrite Hz).
  destruct (Append_ok rs (zlen (rp_entries r)) (ds_wal (rp_storage r)) (rp_sys r) rec) as (w1 & s1 & E1 & Hw1 & _ & Hfs);
    [done|rewrite Happ; apply storable_valid; [done|lia]|lia|apply Hs|].
  pose proof (Append_healthy _ _ _ _ _ _ Hs E1) as Hs1. rewrite E1, Hz.
  destruct (next_answer (sys_fsync s1)) as [a script] eqn:Ea.
  pose proof (next_answer_None _ _ _ (sh_fsync _ Hs1) Ea) as [-> _].
  destruct (Sync_succeeds _ _ _ _ (zlen (rp_entries r) + 1) script Hw1) as (w2 & s2 & E2 & Hw2 & _); [lia|done|].
  rewrite E2. pose proof (Sync_healthy _ _ _ _ _ _ Hs1 E2) as Hs2. cbn [mbind option_bind]. rewrite Status_ok_Ok. cbn [negb].
  eexists. split; [done|]. rewrite Happ in Hw2. cbn [rp_entries rp_storage rp_state set_rp_log ds_last_applied_index set_ds_wal].
  split; [|done]. constructor; cbn [rp_entries rp_storage rp_sys rp_state set_rp_log ds_wal set_ds_wal]; [| |done..].
  - rewrite fmap_app. cbn [fmap list_fmap]. fold rs.
    replace (zlen (rp_entries r ++ [set_le_index (zlen (rp_entries r) + 1) e]))
      with (zlen (rs ++ [to_record (set_le_index (zlen (rp_entries r) + 1) e)])) by (rewrite !zlen_app, Hz; done).
    exact Hw2.
  - apply Forall_app. split; [done|]. by apply Forall_singleton.
Qed.

Lemma replica_TruncateFrom i r :
  rep_healthy r -> 1 <= i ->
  exists r', rep_TruncateFrom i r = (Status_Ok, r') /\ rep_healthy r' /\
    rp_entries r' = ztake (i - 1) (rp_entries r) /\
    ds_last_applied_index (rp_storage r') = ds_last_applied_index (rp_storage r) /\ rp_state r' = rp_state r.
Proof.
  intros Hr Hi. pose proof (healthy_log_wf r Hr) as Hwf. destruct Hr as [Hw Hst Ha Hs Hsf Hkv].
  cbn [rep_TruncateFrom Replica_ops]. unfold Log_TruncateFrom. replace (i =? 0) with false by lia.
  rewrite pop_from_wf by done. set (kept := ztake (i - 1) (rp_entries r)).
  destruct (RewriteAll_healthy (to_record <$> kept) (ds_wal (rp_storage r)) (rp_sys r) Hs (ws_open _ _ _ _ Hw))
    as (w' & s' & E & Hs').
  assert (Hv : Forall wal_valid (to_record <$> kept)).
  { pose proof (ws_valid _ _ _ _ Hw) as Hv. unfold kept, ztake. rewrite fmap_take. by apply Forall_take. }
  assert (Hx : log_indexed (to_record <$> kept)) by (apply log_wf_indexed; by apply log_wf_ztake).
  destruct (RewriteAll_spec _ _ _ _ _ _ _ _ Hw Hv Hx E) as (_ & Hw' & _); [apply Status_ok_Ok|].
  rewrite E. eexists. split; [done|]. cbn. split; [|done]. constructor; cbn; [|by apply Forall_take|done..].
  rewrite zlen_fmap in Hw'. exact Hw'.
Qed.

(** On a synced file a crash loses nothing. *)
Lemma crash_synced b b' : crash_file (file_on_disk b) b' -> b' = b.
Proof.
  intros (d & e & Hin & H1' & H2'). apply list_elem_of_singleton in Hin as [= -> ->]. by apply (anti_symm prefix).
Qed.

Lemma healthy_file r : rep_healthy r -> sys_file (rp_sys r) = file_on_disk (encode_log (to_record <$> rp_entries r)).
Proof.
  intros [Hw _ _ _ _ _]. destruct (ws_file _ _ _ _ Hw) as (d & E & Hp1 & Hp2). unfold sys_file. rewrite E.
  cbn. unfold file_on_disk. f_equal. apply (anti_symm prefix); [done|].
  rewrite <- (zlen_fmap to_record (rp_entries r)) in Hp1. unfold ztake, zlen in Hp1. by rewrite Nat2Z.id, firstn_all in Hp1.
Qed.

Lemma Log_Load_healthy dir rs s :
  sys_healthy s -> sys_wal s = Some (file_on_disk (encode_log rs)) -> Forall wal_valid rs ->
  exists s', Log_Load dir s = Some (Status_Ok, of_record <$> rs, s') /\ sys_healthy s' /\ sys_wal s' = sys_wal s.
Proof.
  intros [[Hm Ho Hl Hsc] Hw Hf Ht] Hwal Hv. unfold Log_Load, open_read.
  assert (Hopen : exists fd l, next_open s = (OpenFd fd, set_sys_open l s) /\
    Forall (fun a => match a with OpenFd fd => 0 <= fd | OpenErr _ => False end) l).
  { unfold next_open. destruct (sys_open s) as [|[fd|e] l] eqn:E.
    - exists 3, []. split; [|constructor]. by destruct s; cbn in E; subst.
    - apply Forall_cons in Ho as [_ Ho]. by exists fd, l.
    - by apply Forall_cons in Ho as [[] _]. }
  destruct Hopen as (fd & l & -> & Hol). cbn [sys_wal set_sys_open]. rewrite Hwal.
  assert (Hscan : exists reads ls, take_scan (set_sys_open l s) = (reads, set_sys_scans ls (set_sys_open l s)) /\
    reads_ok reads /\ Forall reads_ok ls).
  { unfold take_scan. cbn [sys_scans set_sys_open]. destruct (sys_scans s) as [|a ls] eqn:E.
    - exists [], []. split; [|split; constructor]. by destruct s; cbn in E; subst.
    - apply Forall_cons in Hsc as [? ?]. by exists a, ls. }
  destruct Hscan as (reads & ls & -> & Hr & Hls).
  replace (f_data (sys_file (set_sys_scans ls (set_sys_open l s)))) with (encode_log rs ++ [])
    by (unfold sys_file; cbn; rewrite Hwal; cbn; by rewrite app_nil_r).
  rewrite (read_wal_log _ rs []) by first [done | by left].
  assert (Hfold : forall acc, foldl (fun entries record => entries ++ [of_record record]) acc rs = acc ++ (of_record <$> rs)).
  { clear. induction rs as [|x rs IH]; intros acc; cbn [foldl fmap list_fmap]; [by rewrite app_nil_r|].
    by rewrite IH, <- app_assoc. }
  cbn [mbind option_bind]. rewrite Hfold. eexists. split; [done|]. split; [|done]. constructor; [by constructor|done..].
Qed.

Lemma replica_restart r r' :
  rep_healthy r -> replica_restarts r r' ->
  exists r1 r2, rep_LoadPersistedState r' = (Status_Ok, decode_state (st_file (rp_state r)), r1) /\
    rep_LoadLog r1 = Some (Status_Ok, r2) /\ rep_healthy r2 /\ rp_entries r2 = rp_entries r /\
    decode_state (st_file (rp_state r2)) = decode_state (st_file (rp_state r)).
Proof.
  intros Hr [(b & s & Hcr & Hb & Hq & Ho) Hsys Hst (Hop & Hrd & Hwr & Hfs)].
  rewrite (healthy_file r Hr) in Hcr. apply crash_synced in Hcr as ->.
  pose proof (healthy_log_wf r Hr) as Hwf. destruct Hr as [Hw Hstor Ha Hs Hsf _].
  set (rs := to_record <$> rp_entries r) in *. pose proof (ws_valid _ _ _ _ Hw) as Hv.
  assert (Hfile : st_file (rp_state r') = st_file (rp_state r)).
  { destruct (th_file _ Hsf) as [E|(ps & _ & E)]; rewrite E in Hst |- *; [done|].
    destruct Hst as (sb & Hcb & ->). by apply crash_synced in Hcb as ->. }
  assert (Hsf' : state_healthy (rp_state r')).
  { constructor; [done..|]. rewrite Hfile. apply Hsf. }
  destruct (Open_spec (ds_data_dir (rp_storage r)) rs [] s) as
    (d & s2 & Ho' & Hkv & _ & Hap & Hwal & _ & _ & Hop' & Hli & Hsy & Hfl); [done|done|by apply log_wf_indexed|by left| |].
  { unfold sys_file. rewrite Hb. cbn. by rewrite app_nil_r. }
  rewrite Ho in Ho'. injection Ho' as <- <-.
  assert (Hwal' : sys_wal (rp_sys r') = Some (file_on_disk (encode_log rs))).
  { rewrite Hwal. unfold sys_file. by rewrite Hb. }
  cbn [rep_LoadPersistedState rep_LoadLog Replica_ops].
  destruct (LoadPersistedState_healthy (rp_state_path r') (rp_state r') Hsf') as (st1 & -> & Hs1 & Hf1).
  destruct (Log_Load_healthy (ds_data_dir (rp_storage r')) rs (rp_sys r') Hsys Hwal' Hv) as (s3 & E3 & Hs3 & Hwal3).
  rewrite Hfile in *. eexists _, _. split; [done|]. cbn [rp_storage rp_sys rp_entries rp_state set_rp_state].
  rewrite E3.
  assert (Hback : of_record <$> rs = rp_entries r).
  { unfold rs. rewrite <- list_fmap_compose. rewrite <- (list_fmap_id (rp_entries r)) at 2.
    apply list_fmap_ext. intros _ e _. apply of_to_record. }
  cbn [mbind option_bind]. split; [done|]. cbn. rewrite Hback. split; [|by rewrite Hf1].
  assert (Hz : zlen rs = zlen (rp_entries r)) by apply zlen_fmap.
  constructor; cbn; [|done|rewrite Hap; apply zlen_nonneg|done|done|done]. fold rs. rewrite <- Hz.
  constructor; [done|done|by apply log_wf_indexed|done|done| |done|].
  - pose proof (zlen_nonneg rs). lia.
  - exists (encode_log rs). split; [by rewrite Hwal3|]. split; [|done]. unfold ztake, zlen. by rewrite Nat2Z.id, firstn_all.
Qed.

#[export] Instance Replica_laws : ReplicaLaws (Replica T).
Proof.
  refine {| rep_ok := rep_healthy; rep_persisted := fun r => decode_state (st_file (rp_state r));
            rep_map := fun r => kv_map (ds_kv (rp_storage r)); rep_restarts := replica_restarts |}.
  - intros r Hr. split; [by apply healthy_log_wf|apply Hr].
  - intros r Hr. apply Hr.
  - intros e r Hr He Hlt. destruct (replica_Append e r Hr He Hlt) as (r' & E & Hr' & He' & Ha & Hst).
    exists r'. rewrite Hst. done.
  - intros i r Hr Hi. destruct (replica_TruncateFrom i r Hr Hi) as (r' & E & Hr' & He' & Ha & Hst).
    exists r'. rewrite Hst. done.
  - intros rec r [? ? ? ? ? ?] Hi. split; [|done]. constructor; [done..|]. by apply (apply_record_spec (ds_kv (rp_storage r))).
  - intros ps r [? ? ? ? Hsf ?] Hps. destruct (PersistState_healthy ps (rp_state r) Hsf Hps) as [Hs Hf].
    split; [by constructor|]. split; [done|]. split; [done|]. cbn. rewrite Hf. by apply decode_state_bytes.
  - intros r r' Hr Hre. exact (replica_restart r r' Hr Hre).
  - intros e r st e' r'. cbn. destruct (Log_Append _ _ _ _) as [[[[[? ?] ?] ?] ?]|]; [|done]. by intros [= _ _ <-].
  - intros i r. cbn. by destruct (Log_TruncateFrom _ _ _ _) as [[[? ?] ?] ?].
  - done.
  - intros rec r Hr. by apply (apply_record_spec (ds_kv (rp_storage r))), Hr.
Defined.

Lemma log_step_spec op r :
  rep_healthy r -> log_op_ok op -> zlen (rp_entries r) + 1 < 2 ^ 64 ->
  exists r', log_step op r = Some (Status_Ok, r') /\ rep_healthy r' /\ rp_entries r' = spec_log (rp_entries r) op /\
    zlen (rp_entries r') <= zlen (rp_entries r) + 1.
Proof.
  intros Hr Hop Hlt. destruct op as [e|i]; cbn [log_step log_op_ok spec_log] in *.
  - destruct (replica_Append e r Hr Hop Hlt) as (r' & E & Hr' & He & _). exists r'. rewrite E. split; [done|].
    split; [done|]. split; [done|]. rewrite He, zlen_app. unfold zlen. cbn. lia.
  - destruct (replica_TruncateFrom i r Hr Hop) as (r' & E & Hr' & He & _). exists r'. rewrite E. split; [done|].
    split; [done|]. split; [done|]. rewrite He. unfold ztake, zlen. rewrite length_take. lia.
Qed.

(** C27: The Raft log is a list, durably. On disks whose calls do not fail, any sequence of
    appends and truncations succeeds, does to the entries what it would do to a list, and
    after each of them the log file holds exactly those entries, synced. *)
Theorem raft_log_refines_list (ops : list LogOp) r :
  rep_healthy r -> Forall log_op_ok ops -> zlen (rp_entries r) + zlen ops < 2 ^ 64 ->
  exists r', log_run ops r = Some (replicate (length ops) Status_Ok, r') /\
    rep_entries r' = foldl spec_log (rep_entries r) ops /\
    sys_file (rp_sys r') = file_on_disk (encode_log (to_record <$> rep_entries r')).
Proof.
  intros Hr Hops. revert r Hr. induction Hops as [|op ops Hop Hops IH]; intros r Hr Hlt.
  - exists r. split; [done|]. split; [done|]. by apply healthy_file.
  - rewrite zlen_cons in Hlt. pose proof (zlen_nonneg ops).
    destruct (log_step_spec op r Hr Hop) as (r1 & E1 & Hr1 & He1 & Hl1); [lia|].
    destruct (IH r1 Hr1) as (r2 & E2 & He2 & Hf2); [lia|]. exists r2. cbn [log_run]. rewrite E1. cbn [mbind option_bind].
    rewrite E2. split; [done|]. split; [|done]. cbn [foldl]. rewrite He2. f_equal. exact He1.
Qed.

(** C28: Term, vote and log survive a crash, on a healthy disk. When every call of
    [PersistStateLocked] succeeds (it ignores failures), a new process on what a crash after
    it left loads that term and vote and exactly the log. *)
Theorem term_vote_log_survive_crash ps r r' :
  rep_healthy r -> state_fits ps -> replica_restarts (rep_PersistState ps r) r' ->
  exists r1 r2, rep_LoadPersistedState r' = (Status_Ok, ps, r1) /\ rep_LoadLog r1 = Some (Status_Ok, r2) /\
    rep_healthy r2 /\ rep_entries r2 = rep_entries r.
Proof.
  intros [Hw Hst Ha Hs Hsf Hkv] Hps Hre. destruct (PersistState_healthy ps (rp_state r) Hsf Hps) as [Hsf' Hf].
  destruct (replica_restart (rep_PersistState ps r) r') as (r1 & r2 & E1 & E2 & Hr2 & He & _); [by constructor|done|].
  exists r1, r2. cbn [rep_PersistState Replica_ops rp_state set_rp_state] in E1. rewrite Hf, decode_state_bytes in E1 by done.
  done.
Qed.

End ReplicaProofs.
