(* ===== verification/RaftTraces.v ===== *)
(** * Concrete clusters

    Three nodes on real storage (RaftReplica.v over the sharded store), run event by
    event: instances of the safety theorems, and runs that show what the code does not
    guarantee. *)

From Stdlib Require Import Strings.String.
From S2P Require Import Prelude Common BigEndian Crc32 Os WalRecord ShardedKV WalWriter DurableStorage.
From S2P Require Import RaftTypes RaftLog ClusterConfig RaftNode RaftNodeSpec RaftCluster RaftGhost.
From S2P Require Import RaftInvariant RaftCompleteness RaftSteps RaftSafety RaftReplica.

#[local] Existing Instance example_libc.
#[local] Existing Instance example_hash.

(** ** A cluster before its first start *)

Definition three_peers : list PeerInfo :=
  [mkPeerInfo 1 (str "a") 7001; mkPeerInfo 2 (str "b") 7002; mkPeerInfo 3 (str "c") 7003].

Definition three_config (i : Z) : ClusterConfig := mkClusterConfig i 1 three_peers.

Definition blank_replica : Replica ShardedKV :=
  mkReplica fresh_store [] (fresh_disk []) (mkStateFs None [] [] [] [] []).

Definition clk0 : Clock := mkClock 0 250.

Definition blank_node (peers : list PeerInfo) (i : Z) : RaftNode (Replica ShardedKV) :=
  mkRaftNode i (mkClusterConfig i 1 peers) blank_replica Status_Ok RaftState.kFollower 0 0 0 0 250 0 ∅ ∅ ∅.

(** It is what the constructor makes of an empty data directory. *)
Lemma blank_node_new peers i :
  RaftNode_new clk0 i (mkClusterConfig i 1 peers) blank_replica = Some (blank_node peers i).
Proof. reflexivity. Qed.

Definition blank_cluster (peers : list PeerInfo) : Cluster (Replica ShardedKV) :=
  mkCluster (list_to_map ((fun p => (node_id p, blank_node peers (node_id p))) <$> peers)) ∅ [].

Definition three : Cluster (Replica ShardedKV) := blank_cluster three_peers.

(** ** Building runs *)

Definition vote_req (i t last_index last_term : Z) : RequestVoteRequest := mkRequestVoteRequest t i last_index last_term.

(** Node [i] stands for term [t]; the peers that answer grant their votes. *)
Definition elect (i t last_index last_term : Z) (peers : list (Z * bool)) : list (Event (Replica ShardedKV)) :=
  let req := vote_req i t last_index last_term in
  [EvElect i clk0] ++
  concat ((fun '(p, answers) =>
    if (answers : bool)
    then [EvAsk i; EvVote p req clk0 clk0; EvVoteReply i (Some (mkRequestVoteResponse t true)) clk0]
    else [EvAsk i; EvVoteReply i None clk0]) <$> peers) ++
  [EvElected i 10000].

Definition app_req (i t prev prev_term commit : Z) (es : list LogEntry) : AppendEntriesRequest :=
  mkAppendEntriesRequest t i prev prev_term commit es.

(** Leader [i] sends [req] to [p], which answers with success. *)
Definition replicate_to (i p : Z) (req : AppendEntriesRequest) : list (Event (Replica ShardedKV)) :=
  [EvReplicate i p; EvAppend p req clk0 clk0;
   EvAppendReply i p req (mkAppendEntriesResponse (aeq_term req) true) clk0].

Definition set_entry (t i : Z) (v : String.string) : LogEntry := mkLogEntry t i WalOp.kSet (str "k") (str v).

(** What to look at in a node: its log, commit index, applied index and the value of "k". *)
Definition view (i : Z) (c : Cluster (Replica ShardedKV)) : option (list LogEntry * Z * Z * Result bytes) :=
  n ← nodes c !! i;
  Some (log_entries n, commit_index_ n, last_applied n, DurableStorage_Get (str "k") (rp_storage (replica_ n))).

Definition is_some {A} (o : option A) : bool := match o with Some _ => true | None => false end.

(** ** A run in which two nodes commit *)

Definition elected_end : Cluster (Replica ShardedKV) :=
  default three (run_allowed (elect 1 1 0 0 [(2, true); (3, true)]) three).

Definition first_append : AppendEntriesRequest := app_req 1 1 0 0 0 [set_entry 1 1 "x"].

Definition commit_run : list (Event (Replica ShardedKV)) :=
  [EvPropose 1 (set_entry 0 0 "x")] ++ replicate_to 1 2 first_append ++ replicate_to 1 2 (app_req 1 1 1 1 1 []).

Definition commit_end : Cluster (Replica ShardedKV) := default three (run_allowed commit_run elected_end).

(** Node 2 takes over in term 2, with the vote of node 3. *)
Definition takeover_end : Cluster (Replica ShardedKV) :=
  default three (run_allowed (elect 2 2 1 1 [(1, false); (3, true)]) commit_end).

Definition role (i : Z) (c : Cluster (Replica ShardedKV)) : option (RaftState * Z) :=
  n ← nodes c !! i; Some (state_ n, current_term_ n).

Lemma is_Some_default {A} (o : option A) d : is_some o = true -> o = Some (default d o).
Proof. by destruct o. Qed.

Lemma elected_runs : runs three elected_end.
Proof. eapply run_allowed_runs, is_Some_default. vm_compute. reflexivity. Qed.

Lemma commit_runs : runs elected_end commit_end.
Proof. eapply run_allowed_runs, is_Some_default. vm_compute. reflexivity. Qed.

Lemma takeover_runs : runs commit_end takeover_end.
Proof. eapply run_allowed_runs, is_Some_default. vm_compute. reflexivity. Qed.

Lemma takeover_covered : commits_covered takeover_end.
Proof. apply coveredb_ok. vm_compute. reflexivity. Qed.

Lemma commit_end_views :
  view 1 commit_end = Some ([set_entry 1 1 "x"], 1, 1, Value (str "x")) /\
  view 2 commit_end = Some ([set_entry 1 1 "x"], 1, 1, Value (str "x")) /\
  view 3 commit_end = Some ([], 0, 0, Failed KeyNotFound).
Proof. vm_compute. done. Qed.

Lemma roles :
  role 1 elected_end = Some (RaftState.kLeader, 1) /\ role 1 commit_end = Some (RaftState.kLeader, 1) /\
  role 2 takeover_end = Some (RaftState.kLeader, 2) /\
  view 2 takeover_end = Some ([set_entry 1 1 "x"], 1, 1, Value (str "x")).
Proof. vm_compute. done. Qed.

Lemma runs_trans {R} `{ReplicaLaws R} (c1 c2 c3 : Cluster R) : runs c1 c2 -> runs c2 c3 -> runs c1 c3.
Proof. induction 1; [done|]. intros. econstructor; eauto. Qed.

(** ** The cluster is a first start *)

Lemma blank_replica_healthy : rep_healthy blank_replica.
Proof.
  constructor.
  - apply (di_wal _ _ _ (fresh_store_inv [])).
  - constructor.
  - reflexivity.
  - repeat constructor.
  - repeat constructor.
  - apply (di_kv _ _ _ (fresh_store_inv [])).
Qed.

Lemma blank_cluster_initial peers :
  NoDup (node_id <$> peers) -> initial peers (blank_cluster peers).
Proof.
  intros Hnd. constructor; [| |done|done].
  - intros i. unfold blank_cluster. cbn [nodes]. split.
    + intros [n Hn]. apply elem_of_list_to_map_2, list_elem_of_fmap in Hn as (p & [= -> ->] & Hp).
      by apply list_elem_of_fmap_2.
    + intros (p & -> & Hp)%list_elem_of_fmap. exists (blank_node peers (node_id p)).
      apply elem_of_list_to_map_1.
      * rewrite <- list_fmap_compose. exact Hnd.
      * apply list_elem_of_fmap. by exists p.
  - intros i n Hn. cbn in Hn. apply elem_of_list_to_map_2, list_elem_of_fmap in Hn as (p & [= -> ->] & Hp).
    constructor; try reflexivity. constructor; [exact blank_replica_healthy|reflexivity|].
    split; cbn; lia.
Qed.

Lemma three_ok : members_ok three_peers.
Proof.
  split; [apply (bool_decide_unpack _); vm_compute; reflexivity|].
  repeat constructor.
Qed.

Lemma three_initial : initial three_peers three.
Proof. apply blank_cluster_initial, three_ok. Qed.

(** A node of a cluster, from what is seen of it. *)
Lemma view_node i c log commit applied v :
  view i c = Some (log, commit, applied, v) ->
  exists n, nodes c !! i = Some n /\ log_entries n = log /\ commit_index_ n = commit.
Proof. unfold view. destruct (nodes c !! i) as [n|]; [|done]. intros [= <- <- _ _]. by exists n. Qed.

Lemma role_node i c st t :
  role i c = Some (st, t) -> exists n, nodes c !! i = Some n /\ state_ n = st /\ current_term_ n = t.
Proof. unfold role. destruct (nodes c !! i) as [n|]; [|done]. intros [= <- <-]. by exists n. Qed.

Lemma three_to_commit : runs three commit_end.
Proof. eapply runs_trans; [exact elected_runs|exact commit_runs]. Qed.

(** ** Instances of the safety theorems *)

Lemma state_machine_safety_witness :
  exists n1 n2, nodes commit_end !! 1 = Some n1 /\ nodes takeover_end !! 2 = Some n2 /\
    commit_index_ n1 = 1 /\ commit_index_ n2 = 1 /\ ztake 1 (log_entries n1) = ztake 1 (log_entries n2).
Proof.
  destruct commit_end_views as (H1 & _ & _). destruct roles as (_ & _ & _ & H2).
  destruct (view_node _ _ _ _ _ _ H1) as (n1 & Hn1 & _ & Hc1). destruct (view_node _ _ _ _ _ _ H2) as (n2 & Hn2 & _ & Hc2).
  exists n1, n2. split; [exact Hn1|]. split; [exact Hn2|]. split; [exact Hc1|]. split; [exact Hc2|].
  apply (state_machine_safety three_peers three commit_end takeover_end 1 2 n1 n2 three_ok three_initial three_to_commit
    takeover_runs takeover_covered Hn1 Hn2 1); rewrite ?Hc1, ?Hc2; apply Z.le_refl.
Defined.

Lemma election_safety_witness :
  exists n1 n2, nodes elected_end !! 1 = Some n1 /\ nodes commit_end !! 1 = Some n2 /\
    state_ n1 = RaftState.kLeader /\ state_ n2 = RaftState.kLeader /\ current_term_ n1 = current_term_ n2 /\ 1 = 1.
Proof.
  destruct roles as (H1 & H2 & _ & _).
  destruct (role_node _ _ _ _ H1) as (n1 & Hn1 & Hs1 & Ht1). destruct (role_node _ _ _ _ H2) as (n2 & Hn2 & Hs2 & Ht2).
  exists n1, n2. split; [exact Hn1|]. split; [exact Hn2|]. split; [exact Hs1|]. split; [exact Hs2|].
  assert (Ht : current_term_ n1 = current_term_ n2) by (rewrite Ht1, Ht2; reflexivity). split; [exact Ht|].
  exact (election_safety three_peers three elected_end commit_end 1 1 n1 n2 three_ok three_initial elected_runs
    commit_runs Hn1 Hn2 Hs1 Hs2 Ht).
Defined.

Lemma leader_append_only_witness :
  exists n1 n2, nodes elected_end !! 1 = Some n1 /\ nodes commit_end !! 1 = Some n2 /\
    log_entries n1 `prefix_of` log_entries n2.
Proof.
  destruct roles as (H1 & H2 & _ & _).
  destruct (role_node _ _ _ _ H1) as (n1 & Hn1 & Hs1 & Ht1). destruct (role_node _ _ _ _ H2) as (n2 & Hn2 & Hs2 & Ht2).
  exists n1, n2. split; [exact Hn1|]. split; [exact Hn2|].
  apply (leader_append_only three_peers three elected_end commit_end 1 n1 n2 three_ok three_initial elected_runs
    commit_runs Hn1 Hn2 Hs1 Hs2). rewrite Ht1, Ht2. reflexivity.
Defined.

Lemma log_matching_witness :
  exists n1 n2, nodes commit_end !! 1 = Some n1 /\ nodes takeover_end !! 2 = Some n2 /\
    take 1 (log_entries n1) = take 1 (log_entries n2).
Proof.
  destruct commit_end_views as (H1 & _ & _). destruct roles as (_ & _ & _ & H2).
  destruct (view_node _ _ _ _ _ _ H1) as (n1 & Hn1 & Hl1 & _). destruct (view_node _ _ _ _ _ _ H2) as (n2 & Hn2 & Hl2 & _).
  exists n1, n2. split; [exact Hn1|]. split; [exact Hn2|].
  apply (log_matching three_peers three commit_end takeover_end 1 2 n1 n2 0 (set_entry 1 1 "x") (set_entry 1 1 "x")
    three_ok three_initial three_to_commit takeover_runs Hn1 Hn2); rewrite ?Hl1, ?Hl2; reflexivity.
Defined.

Lemma leader_completeness_witness :
  exists n1 n2, nodes commit_end !! 1 = Some n1 /\ nodes takeover_end !! 2 = Some n2 /\ commit_index_ n1 = 1 /\
    state_ n2 = RaftState.kLeader /\
    ztake (commit_index_ n1) (log_entries n2) = ztake (commit_index_ n1) (log_entries n1).
Proof.
  destruct commit_end_views as (H1 & _ & _). destruct roles as (_ & H2 & H3 & _).
  destruct (view_node _ _ _ _ _ _ H1) as (n1 & Hn1 & _ & Hc1). destruct (role_node _ _ _ _ H2) as (n1' & Hn1' & _ & Ht1).
  destruct (role_node _ _ _ _ H3) as (n2 & Hn2 & Hs2 & Ht2).
  assert (n1' = n1) as -> by congruence.
  exists n1, n2. split; [exact Hn1|]. split; [exact Hn2|]. split; [exact Hc1|]. split; [exact Hs2|].
  apply (leader_completeness three_peers three commit_end takeover_end 1 2 n1 n2 three_ok three_initial three_to_commit
    takeover_runs takeover_covered Hn1 Hn2 Hs2). rewrite Ht1, Ht2. lia.
Defined.

Lemma committed_on_majority_witness :
  exists n1 Q, nodes commit_end !! 1 = Some n1 /\ quorum (node_id <$> three_peers) Q /\
    forall v nv, v ∈ Q -> nodes takeover_end !! v = Some nv ->
      ztake (commit_index_ n1) (log_entries nv) = ztake (commit_index_ n1) (log_entries n1).
Proof.
  destruct commit_end_views as (H1 & _ & _).
  destruct (view_node _ _ _ _ _ _ H1) as (n1 & Hn1 & _ & Hc1). exists n1.
  destruct (committed_on_majority three_peers three commit_end takeover_end 1 n1 three_ok three_initial three_to_commit
    takeover_runs takeover_covered Hn1) as (Q & HQ & Hall); [rewrite Hc1; reflexivity|].
  exists Q. split; [exact Hn1|]. split; [exact HQ|exact Hall].
Defined.

Lemma messages_are_served_witness :
  exists n2 resp n', nodes commit_end !! 2 = Some n2 /\
    HandleAppendEntries clk0 clk0 first_append n2 = Some (resp, n') /\
    exec (EvAppend 2 first_append clk0 clk0) commit_end = Some (send (MAppResp 2 first_append resp) (set_node 2 n' commit_end)).
Proof.
  destruct commit_end_views as (_ & H2 & _). destruct (view_node _ _ _ _ _ _ H2) as (n2 & Hn2 & _).
  assert (Hin : MAppReq 2 first_append ∈ net commit_end) by (apply (bool_decide_unpack _); vm_compute; reflexivity).
  destruct (messages_are_served three_peers three commit_end 2 first_append n2 clk0 clk0 three_ok three_initial
    three_to_commit Hn2 Hin) as (resp & n' & E1 & E2 & _).
  exists n2, resp, n'. split; [exact Hn2|]. split; [exact E1|exact E2].
Defined.

Lemma raft_log_refines_list_witness :
  exists r', log_run [LAppend (set_entry 1 0 "x"); LAppend (set_entry 1 0 "y"); LTruncate 2] blank_replica =
      Some ([Status_Ok; Status_Ok; Status_Ok], r') /\
    rep_entries r' = [set_entry 1 1 "x"] /\
    sys_file (rp_sys r') = file_on_disk (encode_log (to_record <$> rep_entries r')).
Proof.
  apply (raft_log_refines_list [LAppend (set_entry 1 0 "x"); LAppend (set_entry 1 0 "y"); LTruncate 2] blank_replica).
  - exact blank_replica_healthy.
  - repeat constructor; discriminate.
  - reflexivity.
Defined.

Definition voted_disk : Replica ShardedKV :=
  mkReplica fresh_store [] (fresh_disk []) (mkStateFs (Some (file_on_disk (state_buf (mkPersistentState 4 2)))) [] [] [] [] []).

Lemma term_vote_log_survive_crash_witness :
  exists r1 r2 : Replica ShardedKV, rep_LoadPersistedState voted_disk = (Status_Ok, mkPersistentState 4 2, r1) /\
    rep_LoadLog r1 = Some (Status_Ok, r2) /\ rep_healthy r2 /\ rep_entries r2 = [].
Proof.
  apply (term_vote_log_survive_crash (T := ShardedKV) (mkPersistentState 4 2) blank_replica voted_disk).
  - exact blank_replica_healthy.
  - split; cbn; lia.
  - constructor.
    + exists [], (fresh_disk []). split; [exists [], []; split; [left|split; reflexivity]|]. split; [reflexivity|].
      split; [apply disk_sys_quiet|]. exact (fresh_store_opened []).
    + repeat constructor.
    + exists (state_buf (mkPersistentState 4 2)). split; [|reflexivity].
      exists (state_buf (mkPersistentState 4 2)), (state_buf (mkPersistentState 4 2)). split; [left|split; reflexivity].
    + repeat constructor.
Defined.

(** ** What the code does not guarantee *)

Definition end_of (evs : list (Event (Replica ShardedKV))) (c : Cluster (Replica ShardedKV)) : Cluster (Replica ShardedKV) :=
  default three (exec_all evs c).

(** Node 1 leads term 1 and appends "x", which reaches nobody. *)
Definition lone_append : list (Event (Replica ShardedKV)) :=
  elect 1 1 0 0 [(2, true); (3, true)] ++ [EvPropose 1 (set_entry 0 0 "x")].

(** Node 2 leads term 2 with the vote of node 3, and the two commit "y" at index 1. *)
Definition second_leader : list (Event (Replica ShardedKV)) :=
  elect 2 2 0 0 [(1, false); (3, true)] ++ [EvPropose 2 (set_entry 0 0 "y")] ++
  replicate_to 2 3 (app_req 2 2 0 0 0 [set_entry 2 1 "y"]).

(** The leader's request to node 1 in a quorum check, and its next heartbeat. *)
Definition quorum_check : list (Event (Replica ShardedKV)) :=
  [EvConfirm 2 1 2; EvAppend 1 (app_req 2 2 0 0 1 []) clk0 clk0].
Definition heartbeat : list (Event (Replica ShardedKV)) :=
  replicate_to 2 1 (app_req 2 2 0 0 1 [set_entry 2 1 "y"]).

(** The empty requests of [ConfirmLeadershipQuorum] break state machine safety. They carry
    the leader's commit index but no entries, and a follower with a stale suffix commits and
    applies that suffix: nodes 1 and 2 both commit index 1, with different entries and
    different values in their stores. The next heartbeat repairs node 1's log, but not its
    store. Without the quorum check the heartbeat gives node 1 "y". This run is what
    [commits_covered] excludes. *)
Theorem quorum_check_applies_stale_entry :
  view 1 (end_of (lone_append ++ second_leader ++ quorum_check) three) =
    Some ([set_entry 1 1 "x"], 1, 1, Value (str "x")) /\
  view 2 (end_of (lone_append ++ second_leader ++ quorum_check) three) =
    Some ([set_entry 2 1 "y"], 1, 1, Value (str "y")) /\
  view 1 (end_of (lone_append ++ second_leader ++ quorum_check ++ heartbeat) three) =
    Some ([set_entry 2 1 "y"], 1, 1, Value (str "x")) /\
  view 1 (end_of (lone_append ++ second_leader ++ heartbeat) three) =
    Some ([set_entry 2 1 "y"], 1, 1, Value (str "y")).
Proof. vm_compute. done. Qed.

(** The node that proposed at index 1, after what follows. *)
Definition proposer (evs : list (Event (Replica ShardedKV))) : option (bool * Status * list LogEntry) :=
  n ← nodes (end_of evs three) !! 1;
  Some (Propose_ready 1 n, Propose_answer true 1 n, log_entries n).

(** [Propose] answers success for an entry that was replaced. Node 1 waits for its
    proposal "x" at index 1; another leader's "y" is committed there instead, and the
    applied index, the only thing the wait looks at, reaches 1. *)
Theorem propose_acknowledges_replaced_entry :
  proposer lone_append = Some (false, NotLeader, [set_entry 1 1 "x"]) /\
  proposer (lone_append ++ second_leader ++ heartbeat) = Some (true, Status_Ok, [set_entry 2 1 "y"]).
Proof. vm_compute. done. Qed.

(** *** A restart *)

(** The storage of node [i] when its process starts again on its synced files. *)
Definition disk_after_crash (i : Z) (c : Cluster (Replica ShardedKV)) : option (Replica ShardedKV) :=
  n ← nodes c !! i;
  let r := replica_ n in
  match DurableStorage_Open (ds_data_dir (rp_storage r)) (disk_sys (f_durable (sys_file (rp_sys r)))) with
  | Some (Value d, s) =>
      Some (mkReplica d [] s (mkStateFs ((fun f => file_on_disk (f_durable f)) <$> st_file (rp_state r)) [] [] [] [] []))
  | _ => None
  end.

Definition lag (i : Z) (c : Cluster (Replica ShardedKV)) : option Z := lag_entries <$> nodes c !! i.

(** Node 1's storage after its lone append, and when it starts again. *)
Definition lone_replica : Replica ShardedKV :=
  from_option replica_ blank_replica (nodes (end_of lone_append three) !! 1).
Definition lone_disk : Replica ShardedKV := default blank_replica (disk_after_crash 1 (end_of lone_append three)).

(** Such a restart is one that the storage's laws speak of. *)
Lemma lone_restart : replica_restarts lone_replica lone_disk.
Proof.
  constructor.
  - exists (f_durable (sys_file (rp_sys lone_replica))), (disk_sys (f_durable (sys_file (rp_sys lone_replica)))).
    split; [|split; [reflexivity|split; [apply disk_sys_quiet|vm_compute; reflexivity]]].
    exists (f_durable (sys_file (rp_sys lone_replica))), (f_data (sys_file (rp_sys lone_replica))).
    split; [left|]. split; [reflexivity|].
    replace (f_data (sys_file (rp_sys lone_replica))) with (f_durable (sys_file (rp_sys lone_replica)))
      by (vm_compute; reflexivity). reflexivity.
  - assert (E : rp_sys lone_disk = disk_sys (f_data (sys_file (rp_sys lone_disk)))) by (vm_compute; reflexivity).
    rewrite E. constructor; [apply disk_sys_quiet|constructor..].
  - assert (E : st_file (rp_state lone_replica) = Some (file_on_disk (state_buf (mkPersistentState 1 1))) /\
      st_file (rp_state lone_disk) = Some (file_on_disk (state_buf (mkPersistentState 1 1)))) by (vm_compute; done).
    destruct E as [-> ->]. exists (state_buf (mkPersistentState 1 1)). split; [|reflexivity].
    exists (state_buf (mkPersistentState 1 1)), (state_buf (mkPersistentState 1 1)).
    split; [left|]. split; reflexivity.
  - assert (E : rp_state lone_disk = mkStateFs (st_file (rp_state lone_disk)) [] [] [] [] []) by (vm_compute; reflexivity).
    rewrite E. repeat constructor.
Qed.

(** A restarted node has applied its uncommitted entries, because recovery replays
    the whole log file. Its lag is then 2^64 - 1. When another leader replaces the
    entry, node 1 takes the new one into its log and commits it, but never applies it:
    its store keeps "x" where the rest of the cluster has "y". *)
Theorem restart_applies_uncommitted :
  let c := end_of (lone_append ++ [EvRestart 1 lone_disk clk0]) three in
  replica_restarts lone_replica lone_disk /\
  view 1 c = Some ([set_entry 1 1 "x"], 0, 1, Value (str "x")) /\ lag 1 c = Some (2 ^ 64 - 1) /\
  view 1 (end_of (second_leader ++ heartbeat) c) = Some ([set_entry 2 1 "y"], 1, 1, Value (str "x")) /\
  view 2 (end_of (second_leader ++ heartbeat) c) = Some ([set_entry 2 1 "y"], 1, 1, Value (str "y")).
Proof. cbv zeta. split; [exact lone_restart|]. vm_compute. done. Qed.

(** *** A crash while the state file is written *)

(** A state file on disk, and calls that do not fail. *)
Definition state_disk (b : bytes) : StateFs := mkStateFs (Some (file_on_disk b)) [] [] [] [] [].

(** [PersistStateLocked] truncates the state file before it writes the new term and
    vote. A crash in between can leave the file empty, and the next start fails; it can
    also still leave the old contents. *)
Theorem persist_state_not_atomic :
  let f := default (file_on_disk [])
             (st_file (PersistStateLocked_open (state_disk (state_buf (mkPersistentState 7 2)))).2) in
  let load b := LoadPersistedState (str "state.bin") (state_disk b) in
  crash_file f [] /\ crash_file f (state_buf (mkPersistentState 7 2)) /\
  (load []).1.1 = Status_Error ErrorCode.kIOError (str "raft state file truncated: state.bin") /\
  (load (state_buf (mkPersistentState 7 2))).1 = (Status_Ok, mkPersistentState 7 2).
Proof.
  cbv zeta. split; [|split; [|split]].
  - exists [], []. split; [left|]. split; apply prefix_nil.
  - exists (state_buf (mkPersistentState 7 2)), (state_buf (mkPersistentState 7 2)).
    split; [right; left|]. split; reflexivity.
  - vm_compute. reflexivity.
  - vm_compute. reflexivity.
Qed.

(** *** A cluster of one *)

Section OneNode.
Context {R : Type} `{ReplicaOps R}.
Implicit Types (n : RaftNode R) (c : Cluster R).

Definition alone n : Prop := other_peers n = [] /\ commit_index_ n = 0.

Definition keeps_alone n n' : Prop :=
  local_node_id_ n' = local_node_id_ n /\ config_ n' = config_ n /\ commit_index_ n' = commit_index_ n.

Definition no_append (m : Msg) : Prop := match m with MAppReq _ _ | MAppResp _ _ _ => False | _ => True end.

Definition all_alone c : Prop := (forall i n, nodes c !! i = Some n -> alone n) /\ Forall no_append (net c).

Lemma keeps_alone_alone n n' : keeps_alone n n' -> alone n -> alone n'.
Proof. intros (Hi & Hc & Hm) [Ho Hz]. split; [unfold other_peers; by rewrite Hi, Hc|congruence]. Qed.

Lemma all_alone_set i n n' c : all_alone c -> nodes c !! i = Some n -> keeps_alone n n' -> all_alone (set_node i n' c).
Proof.
  intros [Hn Hm] Hi Hk. split; [|done]. intros j m Hj. cbn in Hj.
  apply lookup_insert_Some in Hj as [[<- <-]|[_ Hj]]; [|by eapply Hn]. eapply keeps_alone_alone; [done|by eapply Hn].
Qed.

Lemma HandleRequestVote_keeps clk1 clk2 req n : keeps_alone n (HandleRequestVote clk1 clk2 req n).2.
Proof.
  unfold HandleRequestVote. set (n1 := if current_term_ n <? rvq_term req then _ else n).
  assert (H1 : keeps_alone n n1) by (unfold n1; by destruct (_ <? _)).
  repeat (destruct (_ <? current_term_ n1)); [exact H1|]. by destruct (_ && _).
Qed.

Lemma StartElection_reply_keeps clk term votes resp n : keeps_alone n (StartElection_reply clk term votes resp n).2.
Proof. unfold StartElection_reply. by repeat case_match. Qed.

Lemma exec_alone ev c c' : all_alone c -> exec ev c = Some c' -> all_alone c'.
Proof.
  intros Hc Hex. pose proof Hc as [Hn Hm]. rewrite Forall_forall in Hm.
  assert (Hno : forall i n p, nodes c !! i = Some n -> bool_decide (p ∈ node_id <$> other_peers n) = false).
  { intros i n p Hi. destruct (Hn i n Hi) as [-> _]. apply bool_decide_eq_false. apply not_elem_of_nil. }
  destruct ev as [i clk|i|i req clk1 clk2|i resp clk|i time|i p|i req clk1 clk2|i p req resp clk|i e|i p term|
    i p acks req resp clk|i disk clk|i time]; cbn [exec] in Hex.
  2: { destruct (elections c !! i) as [el|]; [|done]. cbn [mbind option_bind] in Hex.
       destruct (head (el_rest el)); [|done]. injection Hex as <-. split; [done|]. constructor; [done|apply Hc]. }
  all: destruct (nodes c !! i) as [n|] eqn:Hi; [|done]; cbn [mbind option_bind] in Hex.
  - destruct (guard _); [|done]. cbn [mbind option_bind] in Hex.
    injection Hex as <-. by eapply (all_alone_set i n _ c).
  - destruct (guard _); [|done]. cbn [mbind option_bind] in Hex.
    pose proof (HandleRequestVote_keeps clk1 clk2 req n) as Hk. destruct (HandleRequestVote _ _ _ _) as [resp n1].
    injection Hex as <-. destruct (all_alone_set i n n1 c Hc Hi Hk) as [Ha Hb]. split; [done|]. by constructor.
  - destruct (elections c !! i) as [el|]; [|done]. cbn [mbind option_bind] in Hex.
    destruct (head (el_rest el)); [|done]. cbn [mbind option_bind] in Hex. destruct (guard _); [|done].
    cbn [mbind option_bind] in Hex.
    pose proof (StartElection_reply_keeps clk (rvq_term (el_req el)) (el_votes el) resp n) as Hk.
    destruct (StartElection_reply _ _ _ _ _) as [[v|] n1]; injection Hex as <-; by eapply (all_alone_set i n n1 c).
  - destruct (elections c !! i) as [el|]; [|done]. cbn [mbind option_bind] in Hex. destruct (guard _); [|done].
    injection Hex as <-. eapply (all_alone_set i n _ c); [done|done|]. unfold StartElection_finish. by case_match.
  - by rewrite (Hno i n p Hi) in Hex.
  - destruct (bool_decide_reflect (MAppReq i req ∈ net c)) as [Hin|]; [|done]. by apply Hm in Hin.
  - destruct (bool_decide_reflect (MAppResp p req resp ∈ net c)) as [Hin|]; [|done]. by apply Hm in Hin.
  - destruct (Propose_append e n) as [[res n1]|] eqn:Ep; [|done]. injection Hex as <-.
    eapply (all_alone_set i n _ c); [done|done|]. unfold Propose_append in Ep. destruct (negb _); [by injection Ep as _ <-|].
    destruct (rep_Append _ _) as [[[st e'] r']|]; [|done]. cbn [mbind option_bind] in Ep.
    by destruct (negb _); injection Ep as _ <-.
  - by rewrite (Hno i n p Hi) in Hex.
  - destruct (bool_decide_reflect (MAppResp p req resp ∈ net c)) as [Hin|]; [|done]. by apply Hm in Hin.
  - destruct (RaftNode_new _ _ _ _) as [n1|] eqn:En; [|done]. injection Hex as <-.
    assert (Hk : local_node_id_ n1 = local_node_id_ n /\ config_ n1 = config_ n /\ commit_index_ n1 = 0).
    { unfold RaftNode_new in En. destruct (rep_LoadPersistedState disk) as [[st ps] r1].
      destruct (negb _); [by injection En as <-|]. destruct (rep_LoadLog _) as [[st2 r2]|]; [|done].
      cbn [mbind option_bind] in En. by destruct (negb _); injection En as <-. }
    eapply (all_alone_set i n n1 c); [done|done|]. destruct (Hn i n Hi) as [_ Hz]. unfold keeps_alone. rewrite Hz. exact Hk.
  - injection Hex as <-. eapply (all_alone_set i n _ c); [done|done|]. unfold RunLoop_tick. by repeat case_match.
Qed.

(** In a cluster whose configuration has no other member, nothing is ever committed:
    only replies from peers advance the commit index, so every proposal times out. *)
Theorem one_node_never_commits (evs : list (Event R)) c c' i n :
  (forall j m, nodes c !! j = Some m -> alone m) -> net c = [] ->
  exec_all evs c = Some c' -> nodes c' !! i = Some n -> commit_index_ n = 0.
Proof.
  intros Hc Hnet Hex Hi. assert (Ha : all_alone c) by (split; [done|by rewrite Hnet; constructor]).
  enough (all_alone c') as [Hn _] by (by eapply Hn). clear Hc Hnet Hi. revert c Ha Hex.
  induction evs as [|ev evs IH]; intros c Ha Hex; cbn [exec_all] in Hex; [by injection Hex as <-|].
  destruct (exec ev c) as [c1|] eqn:E; [|done]. cbn [mbind option_bind] in Hex. eapply IH; [|exact Hex]. by eapply exec_alone.
Qed.

End OneNode.

Definition one_peer : list PeerInfo := [mkPeerInfo 1 (str "a") 7001].
Definition one_run : list (Event (Replica ShardedKV)) := elect 1 1 0 0 [] ++ [EvPropose 1 (set_entry 0 0 "x")].
Definition one_end : Cluster (Replica ShardedKV) := default three (exec_all one_run (blank_cluster one_peer)).

Lemma one_node_never_commits_witness :
  role 1 one_end = Some (RaftState.kLeader, 1) /\
  exists n, nodes one_end !! 1 = Some n /\ log_entries n = [set_entry 1 1 "x"] /\ commit_index_ n = 0.
Proof.
  split; [vm_compute; reflexivity|].
  assert (Hv : view 1 one_end = Some ([set_entry 1 1 "x"], 0, 0, Failed KeyNotFound)) by (vm_compute; reflexivity).
  destruct (view_node _ _ _ _ _ _ Hv) as (n & Hn & Hl & _). exists n. split; [exact Hn|]. split; [exact Hl|].
  apply (one_node_never_commits one_run (blank_cluster one_peer) one_end 1 n); [|reflexivity| |exact Hn].
  - intros j m Hj. cbn in Hj. apply lookup_insert_Some in Hj as [[_ <-]|[_ Hj]]; [split; reflexivity|discriminate Hj].
  - apply is_Some_default. vm_compute. reflexivity.
Defined.
