(* ===== verification/RaftApplied.v ===== *)
(** * What a running node has applied

    While a process runs, its term and its commit index never decrease, its store has
    applied nothing beyond the commit index, and the store holds what the applied entries
    of the log make of an empty map. A restart is the exception: it applies the whole log
    file (RaftTraces.v). From this: the stores of two nodes that have not restarted are
    states of one history of the replicated map. *)

From Stdlib Require Import Strings.String.
From S2P Require Import Prelude Common BigEndian Crc32 Os WalRecord ShardedKV WalWriter DurableStorage.
From S2P Require Import RaftTypes RaftLog ClusterConfig.
From S2P Require Import RaftNode RaftNodeSpec RaftCluster RaftGhost RaftInvariant RaftCompleteness RaftSteps RaftSafety.
From S2P Require Import RaftReplica RaftTraces.

Section Moves.
Context {R : Type} `{ReplicaLaws R} {St : Strength}.
Context (members : list PeerInfo) (Hmembers : members_ok members).
Implicit Types (n : RaftNode R) (c : Cluster R).

Definition advances n n' : Prop :=
  current_term_ n <= current_term_ n' /\
  (strict ->
    commit_index_ n <= commit_index_ n' /\
    last_applied n' <= Z.max (last_applied n) (commit_index_ n') /\
    (last_applied n = commit_index_ n -> last_applied n' = commit_index_ n')).

#[export] Instance advances_preorder : PreOrder advances.
Proof.
  split; [intros n; split; [lia|intros _; lia]|]. intros n1 n2 n3 [T1 A1] [T2 A2].
  split; [lia|]. intros Hst. specialize (A1 Hst). specialize (A2 Hst). lia.
Qed.

(** The store holds what the applied entries make of an empty map. *)
Definition store_current (r : R) : Prop :=
  rep_map r = replay (to_record <$> ztake (rep_last_applied_index r) (rep_entries r)).

(** If the entries that were applied are still in the log, the store is current. *)
Definition carries n n' : Prop :=
  rep_map (replica_ n) = replay (to_record <$> ztake (last_applied n) (log_entries n')) -> store_current (replica_ n').

Lemma carries_refl n : carries n n.
Proof. intros E. exact E. Qed.

Definition moves n n' : Prop := advances n n' /\ carries n n'.

Lemma moves_same n n' :
  current_term_ n <= current_term_ n' -> commit_index_ n' = commit_index_ n -> last_applied n' = last_applied n ->
  rep_map (replica_ n') = rep_map (replica_ n) -> moves n n'.
Proof.
  intros Ht Hc Ha Hm. split; [split; [done|intros _; lia]|]. unfold carries, store_current, last_applied in *. by rewrite Hm, Ha.
Qed.

#[local] Instance moves_refl : Reflexive moves.
Proof. intros n. by apply moves_same. Qed.

Ltac same_node_state := by apply moves_same; [apply Z.le_refl|..].

Lemma moves_follower clk t n : node_ok n -> is_u64 t -> current_term_ n <= t -> moves n (BecomeFollowerLocked clk t n).
Proof.
  intros Hn Ht Hle. destruct (BecomeFollower_spec clk t n Hn Ht) as (_ & _ & _ & Ha & Ht' & _ & _ & Hc & _).
  apply moves_same; [lia|done|done|]. apply (rep_PersistState_map (R := R)).
Qed.

(** One node of a cluster is replaced. *)
Lemma moves_at i j n m m' c :
  nodes c !! i = Some n -> nodes c !! j = Some m -> moves m m' ->
  exists n', nodes (set_node j m' c) !! i = Some n' /\ moves n n'.
Proof.
  intros Hi Hj Ha. cbn [nodes set_node]. destruct (decide (j = i)) as [->|Hne].
  - rewrite lookup_insert_eq. exists m'. split; [done|]. by simplify_eq.
  - rewrite lookup_insert_ne by done. exists n. by split.
Qed.

(** ** Applying *)

Lemma ztake_succ {A} (l : list A) k x : 0 <= k -> l !! Z.to_nat k = Some x -> ztake (k + 1) l = ztake k l ++ [x].
Proof. intros Hk Hx. unfold ztake. replace (Z.to_nat (k + 1)) with (S (Z.to_nat k)) by lia. by apply take_S_r. Qed.

Lemma apply_loop_current fuel commit (r r' : R) :
  rep_ok r -> commit < 2 ^ 64 -> store_current r -> apply_loop fuel commit r = Some r' -> store_current r'.
Proof.
  revert r. induction fuel as [|fuel IH]; intros r Hok Hc Hcur; [done|]. cbn [apply_loop].
  pose proof (rep_applied_nonneg r Hok) as Hnn. destruct (rep_log_wf r Hok) as [Hwf _].
  destruct (Z.ltb_spec (rep_last_applied_index r) commit) as [Hlt|]; [|by intros [= <-]].
  assert (u64 (rep_last_applied_index r + 1) = rep_last_applied_index r + 1) as -> by (unfold u64; apply Z.mod_small; lia).
  rewrite Log_Get_pos by (done || lia). rewrite Z.add_simpl_r.
  destruct (rep_entries r !! Z.to_nat (rep_last_applied_index r)) as [e|] eqn:E; [|by intros [= <-]].
  assert (Hi : wr_index (to_record e) = rep_last_applied_index r + 1) by (cbn; rewrite (Hwf _ _ E); lia).
  destruct (rep_ApplyCommitted_law (to_record e) r Hok) as (Hok' & He' & Ha' & _); [lia|].
  apply IH; [done|done|]. unfold store_current. rewrite rep_ApplyCommitted_map, Hcur by done.
  rewrite Ha', He', Hi, (ztake_succ _ _ e) by done.
  rewrite fmap_app. symmetry. apply replay_snoc.
Qed.

Lemma Apply_current n n' :
  rep_ok (replica_ n) -> commit_index_ n < 2 ^ 64 -> ApplyCommittedEntriesLocked n = Some n' ->
  log_entries n' = log_entries n /\ (store_current (replica_ n) -> store_current (replica_ n')).
Proof.
  intros Hok Hc E. destruct (ApplyCommitted_spec n Hok Hc) as (r & E' & _ & He & _). rewrite E' in E. injection E as <-.
  split; [exact He|]. intros Hcur. unfold ApplyCommittedEntriesLocked in E'.
  destruct (apply_loop _ _ _) as [r'|] eqn:El; [|done]. cbn [mbind option_bind] in E'.
  apply (f_equal (fmap replica_)) in E'. injection E' as E'. cbn in E'. subst r'. by eapply apply_loop_current.
Qed.

Lemma Advance_carries n n' :
  node_ok n -> zlen (log_entries n) < 2 ^ 64 -> AdvanceCommitIndexLocked n = Some n' -> carries n n'.
Proof.
  intros [Hok _ _] Hlen. unfold AdvanceCommitIndexLocked. destruct (rep_log_wf _ Hok) as [Hwf _].
  set (c := nth _ _ _). destruct (c <=? commit_index_ n); [intros [= <-]; apply carries_refl|].
  destruct (Log_Get (log_entries n) c) as [e|] eqn:E; [|intros [= <-]; apply carries_refl].
  destruct (_ =? _); [|intros [= <-]; apply carries_refl]. intros Happ. unfold carries.
  assert (Hc : c < 2 ^ 64).
  { destruct (decide (1 <= c)); [|lia]. rewrite Log_Get_pos in E by (done || lia). apply lookup_lt_Some in E.
    unfold zlen in Hlen. lia. }
  destruct (Apply_current (set_commit_index c n) n' Hok Hc Happ) as [Hl Hcur]. rewrite Hl. exact Hcur.
Qed.

Lemma append_loop_map es index (r r' : R) : append_loop es index r = Some r' -> rep_map r' = rep_map r.
Proof.
  revert index r. induction es as [|e es IH]; intros index r; cbn [append_loop]; [by intros [= <-]|].
  assert (Happ : forall r1, ('(_, _, r2) ← rep_Append e r1; append_loop es (u64 (index + 1)) r2) = Some r' -> rep_map r' = rep_map r1).
  { intros r1. destruct (rep_Append e r1) as [[[st e'] r2]|] eqn:E; [|done]. cbn [mbind option_bind]. intros Hl.
    rewrite (IH _ _ Hl). by eapply rep_Append_map. }
  destruct (Log_Get _ _) as [x|]; [|apply Happ]. destruct (_ =? _); [apply IH|].
  pose proof (rep_TruncateFrom_map (u64 (index + 1)) r) as Ht. destruct (rep_TruncateFrom _ r) as [st r1].
  cbn [snd] in Ht. rewrite <- Ht. apply Happ.
Qed.

(** ** The operations *)

(** The follower once it has looked at the term: its store and log are untouched. *)
Lemma at_term_same clk1 clk2 req n :
  node_ok n -> is_u64 (aeq_term req) ->
  let n1 := ResetElectionDeadlineLocked clk2 (set_leader_id (aeq_leader_id req)
    (if current_term_ n <? aeq_term req then BecomeFollowerLocked clk1 (aeq_term req) n
     else if bool_decide (state_ n = RaftState.kCandidate) then set_state RaftState.kFollower n else n)) in
  rep_ok (replica_ n1) /\ log_entries n1 = log_entries n /\ last_applied n1 = last_applied n /\
  rep_map (replica_ n1) = rep_map (replica_ n).
Proof.
  intros Hn Ht. cbv zeta. destruct (BecomeFollower_spec clk1 (aeq_term req) n Hn Ht) as ([Hok _ _] & _ & Hl & Ha & _).
  destruct Hn as [Hok0 _ _]. destruct (_ <? _); [|by destruct (bool_decide _)].
  split; [exact Hok|]. split; [exact Hl|]. split; [exact Ha|]. apply (rep_PersistState_map (R := R)).
Qed.

Lemma HandleAppendEntries_carries clk1 clk2 req n resp n' :
  node_ok n -> is_u64 (aeq_term req) -> Forall storable (aeq_entries req) ->
  0 <= aeq_prev_log_index req -> aeq_leader_commit req < 2 ^ 64 ->
  zlen (log_entries n) + zlen (aeq_entries req) < 2 ^ 64 ->
  HandleAppendEntries clk1 clk2 req n = Some (resp, n') -> carries n n'.
Proof.
  intros Hn Ht Hst Hprev Hlc Hlen. unfold HandleAppendEntries.
  destruct (aeq_term req <? current_term_ n); [intros [= _ <-]; apply carries_refl|].
  pose proof (at_term_same clk1 clk2 req n Hn Ht) as H1. cbv zeta in H1.
  set (n1 := ResetElectionDeadlineLocked _ _) in *. destruct H1 as (Hok1 & Hl1 & Ha1 & Hm1).
  destruct (prev_mismatch (log_entries n1) req) eqn:Emis.
  { intros [= _ <-]. unfold carries, store_current, last_applied in *. by rewrite Hm1, Ha1. }
  assert (Hin : (Z.to_nat (aeq_prev_log_index req) <= length (log_entries n1))%nat).
  { unfold prev_mismatch in Emis. destruct (Z.ltb_spec 0 (aeq_prev_log_index req)) as [Hp|]; [|lia].
    cbn [andb] in Emis. destruct (rep_log_wf _ Hok1) as [Hwf _]. rewrite Log_Get_pos in Emis by (done || lia).
    destruct (log_entries n1 !! _) eqn:E; [|done]. apply lookup_lt_Some in E. lia. }
  destruct (append_loop_spec (aeq_entries req) (Z.to_nat (aeq_prev_log_index req)) (replica_ n1) Hok1 Hst Hin)
    as (r & E & Hok & _ & Ha & _); [by fold (log_entries n1); rewrite Hl1|].
  rewrite Z2Nat.id in E by lia. rewrite E. cbn [mbind option_bind]. apply append_loop_map in E.
  assert (Hcur : forall m, log_entries m = rep_entries r ->
    rep_map (replica_ n) = replay (to_record <$> ztake (last_applied n) (log_entries m)) -> store_current r).
  { intros m Hm Hmap. unfold store_current, last_applied in *. by rewrite E, Hm1, Hmap, Hm, Ha, Ha1. }
  destruct (commit_index_ (set_replica r n1) <? aeq_leader_commit req); [|intros [= _ <-]; exact (Hcur (set_replica r n1) eq_refl)].
  destruct (ApplyCommittedEntriesLocked _) as [n3|] eqn:E3; [|done]. cbn [mbind option_bind]. intros [= _ <-].
  apply Apply_current in E3 as [Hl3 Hc3]; [|exact Hok|cbn; lia]. intros Hmap. apply Hc3, (Hcur n3 Hl3 Hmap).
Qed.

Lemma HandleAppendEntries_moves c g i n req clk1 clk2 resp n' :
  Inv members c g -> nodes c !! i = Some n -> MAppReq i req ∈ net c ->
  HandleAppendEntries clk1 clk2 req n = Some (resp, n') -> moves n n'.
Proof.
  intros HI Hi Hin E. pose proof (inv_nodes _ _ _ HI _ _ Hi) as Hn. destruct (inv_net _ _ _ HI _ Hin) as (Hne & ld & Hreq).
  pose proof (request_storable _ _ _ _ _ HI Hreq) as Hst. pose proof (commit_bound _ _ _ _ Hn) as [Hcb _].
  pose proof (ni_len _ _ _ _ Hn) as Hlen. pose proof (request_bounds _ _ _ _ _ HI Hreq) as (Hb1 & Hb2).
  destruct (HandleAppendEntries_spec clk1 clk2 req n (ni_ok _ _ _ _ Hn) (ai_term _ _ _ _ Hreq) Hst
    (ai_prev _ _ _ _ Hreq)) as (resp' & m & E' & Ha & Hcase); [lia|lia|lia|].
  split; [|eapply HandleAppendEntries_carries; [apply Hn|apply Hreq|done|apply Hreq|done|lia|exact E]].
  rewrite E' in E. injection E as -> ->. unfold applies in Ha.
  split; [by destruct Hcase as [(_ & -> & _)|(Hge & _ & _ & -> & _)]|]. intros Hstr.
  enough (commit_index_ n <= commit_index_ n') by lia.
  destruct Hcase as [(_ & -> & _)|(Hge & _ & _ & _ & _ & _ & _ & _ & _ & [(_ & _ & _ & Ec)|(Hmis & _ & Hl & Ec)])];
    [lia|lia|]. rewrite Ec.
  destruct (Z.ltb_spec (commit_index_ n) (aeq_leader_commit req)) as [Hlt|]; [|lia].
  rewrite (append_result members c g i n req ld) in Hl by done.
  destruct Hreq as [_ _ _ Hp Hle _ _ [Hc Hcov] _]. specialize (Hcov Hstr). pose proof (zlen_nonneg (aeq_entries req)).
  set (k := Z.to_nat (aeq_prev_log_index req + zlen (aeq_entries req))) in *.
  assert (k <= length (log_entries n'))%nat.
  { eapply take_eq_length; [symmetry; rewrite Hl; apply append_has|]; unfold k, zlen in *; lia. }
  unfold zlen at 1. lia.
Qed.

Lemma ReplicateToPeer_reply_carries clk p req resp n n' :
  node_ok n -> is_u64 (aer_term resp) -> zlen (log_entries n) < 2 ^ 64 ->
  ReplicateToPeer_reply clk p req (Some resp) n = Some n' -> carries n n'.
Proof.
  intros Hn Hu Hlen. unfold ReplicateToPeer_reply. destruct (_ || _); [intros [= <-]; apply carries_refl|].
  destruct (Z.ltb_spec (current_term_ n) (aer_term resp)) as [Hlt|].
  { intros [= <-]. apply (moves_follower clk (aer_term resp) n Hn Hu). lia. }
  destruct (aer_success resp).
  - intros E. apply Advance_carries in E; [|destruct Hn, (last _); by constructor|by destruct (last _)].
    by destruct (last (aeq_entries req)).
  - unfold next_index_at. destruct (_ <? _); intros [= <-]; exact (carries_refl n).
Qed.

Lemma ReplicateToPeer_reply_moves c g i n p req resp clk n' :
  Inv members c g -> nodes c !! i = Some n -> MAppResp p req resp ∈ net c ->
  ReplicateToPeer_reply clk p req (Some resp) n = Some n' -> moves n n'.
Proof.
  intros HI Hi Hin E. pose proof (inv_nodes _ _ _ HI _ _ Hi) as Hn. destruct (inv_net _ _ _ HI _ Hin) as (Hu & _).
  destruct (commit_bound _ _ _ _ Hn) as [Hcb Hcl]. pose proof (ni_len _ _ _ _ Hn) as Hlen.
  destruct (ReplicateToPeer_reply_spec clk p req resp n (ni_ok _ _ _ _ Hn) Hu Hcb) as
    (m & E' & Ha & _ & _ & _ & Hcase); [lia|].
  split; [|eapply ReplicateToPeer_reply_carries; [apply Hn|done|lia|exact E]].
  rewrite E' in E. injection E as ->. unfold applies in *. apply and_comm. split; [intros Hst; specialize (Hcl Hst)|].
  all: destruct Hcase as [[-> _]|[(? & ? & _ & _ & Ec)|(_ & _ & ? & _ & _ & [(_ & _ & [Ec|[Ec _]])|(_ & _ & Ec & _)])]]; lia.
Qed.

Lemma HandleRequestVote_moves c g i n req clk1 clk2 :
  Inv members c g -> nodes c !! i = Some n -> MVoteReq i req ∈ net c ->
  moves n (snd (HandleRequestVote clk1 clk2 req n)).
Proof.
  intros HI Hi Hin. pose proof (inv_nodes _ _ _ HI _ _ Hi) as Hn.
  pose proof (inv_net _ _ _ HI _ Hin) as (Hu & Hcu & _).
  destruct (HandleRequestVote_spec clk1 clk2 req n (ni_ok _ _ _ _ Hn) Hu Hcu) as
    (resp & n' & E & _ & _ & _ & Ha & Hc & _ & _ & Ht & _). rewrite E. apply moves_same; [cbn [snd]; lia|done|done|].
  rewrite <- E. unfold HandleRequestVote. repeat case_match; cbn; rewrite ?(rep_PersistState_map (R := R)); done.
Qed.

Lemma StartElection_begin_moves c g i n clk :
  Inv members c g -> nodes c !! i = Some n -> current_term_ n + 1 < 2 ^ 64 ->
  moves n (snd (StartElection_begin clk n)).
Proof.
  intros HI Hi Hlt. pose proof (inv_nodes _ _ _ HI _ _ Hi) as Hn.
  pose proof (member_id members Hmembers i (inv_member _ _ _ _ _ HI Hi)) as Hid.
  destruct (StartElection_begin_spec clk n (ni_ok _ _ _ _ Hn) Hlt) as (req & n' & E & Ha & _ & _ & _ & Hc & _ & _ & Ht & _).
  { rewrite (ni_id _ _ _ _ Hn). lia. }
  rewrite E. apply moves_same; [cbn [snd]; lia|done|done|]. rewrite <- E. apply (rep_PersistState_map (R := R)).
Qed.

Lemma StartElection_reply_moves c g i n p el resp clk :
  Inv members c g -> nodes c !! i = Some n ->
  (forall a, resp = Some a -> MVoteResp p (el_req el) a ∈ net c) ->
  moves n (snd (StartElection_reply clk (rvq_term (el_req el)) (el_votes el) resp n)).
Proof.
  intros HI Hi Hin. pose proof (inv_nodes _ _ _ HI _ _ Hi) as Hn.
  assert (Hu : forall a, resp = Some a -> is_u64 (rvr_term a)) by (intros a Ha; by apply (inv_net _ _ _ HI _ (Hin a Ha))).
  destruct (StartElection_reply_spec clk (rvq_term (el_req el)) (el_votes el) resp n (ni_ok _ _ _ _ Hn) Hu)
    as [(a & Ea & _ & _ & Hlt & ->)|[->|[(a & _ & _ & ->)|[_ ->]]]]; [|reflexivity..].
  apply moves_follower; [apply Hn|by apply Hu|lia].
Qed.

Lemma Propose_append_moves c g i n e res n' :
  Inv members c g -> nodes c !! i = Some n ->
  storable (mkLogEntry (current_term_ n) 0 (le_op e) (le_key e) (le_value e)) -> zlen (log_entries n) < 2 ^ 62 ->
  Propose_append e n = Some (res, n') -> moves n n'.
Proof.
  intros HI Hi Hst Hlen E. pose proof (inv_nodes _ _ _ HI _ _ Hi) as Hn.
  destruct (Propose_append_spec e n (ni_ok _ _ _ _ Hn) Hst) as [[_ E']|[_ (r & E' & _ & _ & Ha)]]; [lia| |];
    pose proof E as E0; rewrite E' in E; injection E as <- <-; [reflexivity|].
  apply moves_same; [done|done|done|]. cbn. unfold Propose_append in E0. destruct (negb _); [done|].
  destruct (rep_Append _ _) as [[[st e'] r']|] eqn:Er; [|done]. apply rep_Append_map in Er. cbn [mbind option_bind] in E0.
  destruct (negb _); [done|]. injection E0 as _ Eq. by subst r'.
Qed.

Lemma ReplicateToPeer_request_moves p n : moves n (snd (ReplicateToPeer_request p n)).
Proof. unfold ReplicateToPeer_request, next_index_at. destruct (negb _); [reflexivity|]. same_node_state. Qed.

Lemma ConfirmLeadershipQuorum_request_moves term p n : moves n (snd (ConfirmLeadershipQuorum_request term p n)).
Proof. unfold ConfirmLeadershipQuorum_request, next_index_at. destruct (_ || _); [reflexivity|]. same_node_state. Qed.

Lemma ConfirmLeadershipQuorum_reply_moves clk term p acks resp n :
  node_ok n -> is_u64 (aer_term resp) -> moves n (snd (ConfirmLeadershipQuorum_reply clk term p acks (Some resp) n)).
Proof.
  intros Hn Hu. unfold ConfirmLeadershipQuorum_reply. destruct (Z.ltb_spec (current_term_ n) (aer_term resp)) as [Hlt|];
    [apply moves_follower; [done|done|lia]|].
  destruct (_ || _); [reflexivity|]. destruct (aer_success resp); [same_node_state|reflexivity].
Qed.

(** ** The events *)

(** No process of [up] dies. *)
Definition spares (up : Z -> Prop) (ev : Event R) : Prop := match ev with EvRestart j _ _ => ~ up j | _ => True end.

Lemma step_moves up ev c g c' i n :
  Inv members c g -> allowed ev c -> spares up ev -> up i -> exec ev c = Some c' -> nodes c !! i = Some n ->
  exists n', nodes c' !! i = Some n' /\ moves n n'.
Proof.
  intros HI Hal Hre Hup Hex Hi.
  destruct ev as [j clk|j|j req clk1 clk2|j resp clk|j time|j p|j req clk1 clk2|j p req resp clk|j e|j p term|
    j p acks req resp clk|j disk clk|j time]; cbn [exec] in Hex;
    [|destruct (elections c !! j) as [el|]; [|done]; cbn [mbind option_bind] in Hex;
      destruct (head (el_rest el)); [|done]; injection Hex as <-; by exists n|..];
    destruct (nodes c !! j) as [m|] eqn:Hj; try done; cbn [mbind option_bind] in Hex;
    pose proof (inv_nodes _ _ _ HI _ _ Hj) as Hm.
  - destruct (guard _) as [[]|]; [|done]. cbn [mbind option_bind] in Hex. cbn [allowed] in Hal. specialize (Hal m Hj).
    pose proof (StartElection_begin_moves c g j m clk HI Hj Hal) as Ha. destruct (StartElection_begin clk m) as [rq m2].
    injection Hex as <-. by eapply (moves_at i j).
  - destruct (bool_decide_reflect (MVoteReq j req ∈ net c)) as [Hin|]; [|done]. cbn [guard mbind option_bind] in Hex.
    pose proof (HandleRequestVote_moves c g j m req clk1 clk2 HI Hj Hin) as Ha.
    destruct (HandleRequestVote clk1 clk2 req m) as [rp m2]. injection Hex as <-. by eapply (moves_at i j).
  - destruct (elections c !! j) as [el|]; [|done]. cbn [mbind option_bind] in Hex.
    destruct (head (el_rest el)) as [p|]; [|done]. cbn [mbind option_bind] in Hex.
    destruct (guard _) as [[]|] eqn:Eg; [|done]. cbn [mbind option_bind] in Hex.
    assert (Ha : moves m (snd (StartElection_reply clk (rvq_term (el_req el)) (el_votes el) resp m))).
    { eapply (StartElection_reply_moves c g j m p); [done|done|]. intros a ->. unfold guard in Eg.
      by case_bool_decide. }
    destruct (StartElection_reply _ _ _ _ _) as [[v|] m2]; injection Hex as <-; by eapply (moves_at i j).
  - destruct (elections c !! j) as [el|]; [|done]. cbn [mbind option_bind] in Hex.
    destruct (guard _) as [[]|]; [|done]. injection Hex as <-. eapply (moves_at i j); [done|done|].
    unfold StartElection_finish. destruct (_ && _); [same_node_state|reflexivity].
  - destruct (guard _) as [[]|]; [|done]. cbn [mbind option_bind] in Hex.
    pose proof (ReplicateToPeer_request_moves p m) as Ha.
    destruct (ReplicateToPeer_request p m) as [[rq|] m2]; injection Hex as <-; [destruct (rpc_sent rq)|]; by eapply (moves_at i j).
  - destruct (bool_decide_reflect (MAppReq j req ∈ net c)) as [Hin|]; [|done]. cbn [guard mbind option_bind] in Hex.
    destruct (HandleAppendEntries clk1 clk2 req m) as [[rp m2]|] eqn:E; [|done]. injection Hex as <-.
    eapply (moves_at i j); [done|done|]. by eapply HandleAppendEntries_moves.
  - destruct (bool_decide_reflect (MAppResp p req resp ∈ net c)) as [Hin|]; [|done].
    destruct (aeq_leader_id req =? j); [|done]. cbn [andb guard mbind option_bind] in Hex.
    destruct (ReplicateToPeer_reply clk p req (Some resp) m) as [m2|] eqn:E; [|done]. injection Hex as <-.
    eapply (moves_at i j); [done|done|]. by eapply ReplicateToPeer_reply_moves.
  - destruct (Propose_append e m) as [[rs m2]|] eqn:E; [|done]. injection Hex as <-. destruct (Hal m Hj).
    eapply (moves_at i j); [done|done|]. by eapply Propose_append_moves.
  - destruct (guard _) as [[]|]; [|done]. cbn [mbind option_bind] in Hex.
    pose proof (ConfirmLeadershipQuorum_request_moves term p m) as Ha.
    destruct (ConfirmLeadershipQuorum_request term p m) as [[rq|] m2]; injection Hex as <-; by eapply (moves_at i j).
  - destruct (bool_decide_reflect (MAppResp p req resp ∈ net c)) as [Hin|]; [|done].
    destruct (aeq_leader_id req =? j); [|done]. injection Hex as <-. eapply (moves_at i j); [done|done|].
    apply ConfirmLeadershipQuorum_reply_moves; [apply Hm|]. by apply (inv_net _ _ _ HI _ Hin).
  - destruct (RaftNode_new _ _ _ _) as [m2|]; [|done]. injection Hex as <-. cbn [spares] in Hre.
    cbn [nodes end_election set_node]. rewrite lookup_insert_ne by (intros ->; done). exists n. split; [done|reflexivity].
  - injection Hex as <-. eapply (moves_at i j); [done|done|]. unfold RunLoop_tick. by repeat case_match; apply moves_same.
Qed.

(** ** Runs during which the nodes of [up] stay up *)

Inductive runs_up (up : Z -> Prop) : Cluster R -> Cluster R -> Prop :=
| runs_up_refl c : runs_up up c c
| runs_up_step c ev c1 c2 :
    allowed ev c -> spares up ev -> exec ev c = Some c1 -> runs_up up c1 c2 -> runs_up up c c2.

Lemma runs_up_runs up c c' : runs_up up c c' -> runs c c'.
Proof. induction 1; [constructor|by econstructor]. Qed.

Lemma runs_up_trans up c1 c2 c3 : runs_up up c1 c2 -> runs_up up c2 c3 -> runs_up up c1 c3.
Proof. induction 1; [done|]. intros. econstructor; eauto. Qed.

Lemma run_allowed_up up evs c c' : run_allowed evs c = Some c' -> runs_up up c c'.
Proof.
  revert c. induction evs as [|ev evs IH]; intros c; cbn [run_allowed]; [intros [= <-]; constructor|].
  destruct (allowedb ev c) eqn:Ha; [|done]. destruct (exec ev c) as [c2|] eqn:Ex; [|done]. cbn [mbind option_bind].
  intros Hr. eapply runs_up_step; [by apply allowedb_ok| |exact Ex|by apply IH]. by destruct ev.
Qed.

End Moves.

(** The rest is about runs whose append requests cover the commit index they announce. *)
#[local] Existing Instance covered_run.

Section Applied.
Context {R : Type} `{ReplicaLaws R}.
Context (members : list PeerInfo) (Hmembers : members_ok members).
Implicit Types (n : RaftNode R) (c : Cluster R).

(** What holds of a node that has not restarted since its first start. *)
Definition applied_ok n : Prop := last_applied n = commit_index_ n /\ store_current (replica_ n).

Lemma step_applied up ev c g c' i n :
  Inv members c g -> allowed ev c -> spares up ev -> up i -> exec ev c = Some c' -> commits_covered c' ->
  nodes c !! i = Some n -> exists g' n', Inv members c' g' /\ nodes c' !! i = Some n' /\ advances n n' /\ (applied_ok n -> applied_ok n').
Proof.
  intros HI Hal Hre Hup Hex Hcov Hi. destruct (step_moves members Hmembers up ev c g c' i n) as (n' & Hi' & Ha & Hc); [done..|].
  destruct (step_inv members ev c g c') as (g' & He & HI'); [done..|]. exists g', n'. do 3 (split; [done|]).
  intros [Hap Hcur]. destruct Ha as [_ Ha]. destruct (Ha I) as (Hci & _ & Hla). split; [by apply Hla|]. apply Hc.
  rewrite <- (committed_same members c c' g g' i i n n' (last_applied n)); [exact Hcur|done|done|done|done|done|done|done|lia|lia].
Qed.

Lemma runs_up_applied up i c c' g n :
  Inv members c g -> runs_up up c c' -> commits_covered c' -> up i -> nodes c !! i = Some n ->
  exists n', nodes c' !! i = Some n' /\ advances n n' /\ (applied_ok n -> applied_ok n').
Proof.
  intros HI Hr Hcov Hup. revert g n HI. induction Hr as [c|c ev c1 c2 Hal Hre Hex Hr IH]; intros g n HI Hi.
  - exists n. split; [done|]. split; [reflexivity|done].
  - destruct (step_applied up ev c g c1 i n) as (g1 & n1 & HI1 & Hn1 & Ha1 & Hk1);
      [done..|by eapply covered_before; [by eapply runs_up_runs|]|done|].
    destruct (IH Hcov g1 n1 HI1 Hn1) as (n2 & Hn2 & Ha2 & Hk2). exists n2. split; [done|]. split; [by etrans|auto].
Qed.

(** A node whose store is still empty. *)
Definition nothing_applied c : Prop :=
  forall i n, nodes c !! i = Some n -> last_applied n = 0 /\ rep_map (replica_ n) = ∅.

Lemma first_start_applied up c0 c i n :
  initial members c0 -> nothing_applied c0 -> runs_up up c0 c -> commits_covered c -> up i -> nodes c !! i = Some n ->
  exists g, Inv members c g /\ applied_ok n /\ 0 <= last_applied n.
Proof.
  intros Hinit H0' Hr Hcov Hup Hi.
  destruct (runs_inv members c0 c _ Hmembers (initial_inv members c0 Hinit) (runs_up_runs _ _ _ Hr) (fun _ => Hcov)) as (g & _ & HI).
  exists g. split; [done|]. pose proof (inv_nodes _ _ _ HI _ _ Hi) as Hn.
  split; [|apply rep_applied_nonneg, (ni_ok _ _ _ _ Hn)].
  destruct (init_dom _ _ Hinit i) as [_ Hsome]. destruct Hsome as [n0 Hi0]; [apply (inv_dom _ _ _ HI); by exists n|].
  destruct (runs_up_applied up i c0 c _ n0 (initial_inv members c0 Hinit) Hr Hcov Hup Hi0) as (n' & Hi' & _ & Hk).
  replace n with n' by congruence. apply Hk. destruct (H0' i n0 Hi0) as [Ha Hm].
  split; [rewrite Ha, (fn_commit _ _ _ (init_nodes _ _ Hinit i n0 Hi0)); done|].
  unfold store_current. rewrite Hm. unfold last_applied in Ha. by rewrite Ha.
Qed.

(** The applied entries of two nodes are the beginnings of one list. *)
Lemma one_history (l1 l2 : list LogEntry) a b :
  0 <= a <= zlen l1 -> 0 <= b <= zlen l2 -> ztake (Z.min a b) l1 = ztake (Z.min a b) l2 ->
  exists h, zlen h = Z.max a b /\ ztake a h = ztake a l1 /\ ztake b h = ztake b l2.
Proof.
  intros Ha Hb E. assert (Hz : forall (l : list LogEntry) k, 0 <= k <= zlen l -> zlen (ztake k l) = k).
  { intros l k Hk. unfold zlen, ztake in *. rewrite length_take. lia. }
  assert (Ht : forall (l : list LogEntry) k m, 0 <= k <= m -> ztake k (ztake m l) = ztake k l).
  { intros l k m Hk. unfold ztake. rewrite take_take. f_equal. lia. }
  destruct (Z.le_ge_cases a b) as [Hle|Hle].
  - exists (ztake b l2). rewrite Hz, !Ht by lia. split; [lia|]. by rewrite Z.min_l in E by lia.
  - exists (ztake a l1). rewrite Hz, !Ht by lia. split; [lia|]. by rewrite Z.min_r in E by lia.
Qed.

(** C5: Replicas agree. Take a cluster from its first start with empty stores, any run with
    lost, repeated and reordered messages whose append requests announce no commit index
    beyond what they cover, and two nodes, at two moments, that have not restarted. Each has
    applied exactly what it knows to be committed, and their stores are states of one
    history: each holds exactly what the first entries of one common list make of an empty
    map, as many as it has applied. So two nodes that have applied equally many hold the
    same map. *)
Theorem replicas_agree up c0 c1 c2 i j ni nj :
  initial members c0 -> nothing_applied c0 -> runs_up up c0 c1 -> runs_up up c1 c2 -> commits_covered c2 -> up i -> up j ->
  nodes c1 !! i = Some ni -> nodes c2 !! j = Some nj ->
  last_applied ni = commit_index_ ni /\ last_applied nj = commit_index_ nj /\
  exists history, zlen history = Z.max (last_applied ni) (last_applied nj) /\
    rep_map (replica_ ni) = replay (to_record <$> ztake (last_applied ni) history) /\
    rep_map (replica_ nj) = replay (to_record <$> ztake (last_applied nj) history).
Proof.
  intros Hinit H0' Hr1 Hr2 Hcov Hi Hj Hni Hnj.
  destruct (first_start_applied up c0 c1 i ni Hinit H0' Hr1) as (_ & _ & [Hai Hci] & Hi0);
    [by eapply covered_before; [by eapply runs_up_runs|]|done|done|].
  destruct (first_start_applied up c0 c2 j nj Hinit H0' (runs_up_trans _ _ _ _ Hr1 Hr2) Hcov Hj Hnj) as (_ & _ & [Haj Hcj] & Hj0).
  split; [done|]. split; [done|].
  destruct (runs_inv2 members c0 c1 c2 Hmembers Hinit) as (g1 & g2 & HI1 & HI2 & He);
    [by eapply runs_up_runs|by eapply runs_up_runs|done|].
  pose proof (commit_bound _ _ _ _ (inv_nodes _ _ _ HI1 _ _ Hni)) as [_ Hb1]. specialize (Hb1 I).
  pose proof (commit_bound _ _ _ _ (inv_nodes _ _ _ HI2 _ _ Hnj)) as [_ Hb2]. specialize (Hb2 I).
  destruct (one_history (log_entries ni) (log_entries nj) (last_applied ni) (last_applied nj)) as (h & Hh & H1 & H2);
    [lia|lia|eapply (committed_same members c1 c2 g1 g2 i j); try done; lia|].
  exists h. split; [done|]. by rewrite H1, H2.
Qed.

End Applied.

#[local] Existing Instance example_libc.
#[local] Existing Instance example_hash.

Lemma three_nothing_applied : nothing_applied three.
Proof.
  intros i n Hn. unfold three, blank_cluster in Hn. cbn [nodes] in Hn.
  apply elem_of_list_to_map_2, list_elem_of_fmap in Hn as (p & [= -> ->] & Hp). split; [done|].
  exact (di_map _ _ _ (fresh_store_inv [])).
Qed.

Lemma replicas_agree_witness :
  exists n1 n2, nodes commit_end !! 1 = Some n1 /\ nodes takeover_end !! 2 = Some n2 /\
    last_applied n1 = 1 /\ last_applied n2 = 1 /\ rep_map (replica_ n1) = rep_map (replica_ n2).
Proof.
  destruct (view_node 1 commit_end [set_entry 1 1 "x"] 1 1 (Value (str "x"))) as (n1 & Hn1 & _ & _); [apply commit_end_views|].
  destruct (view_node 2 takeover_end [set_entry 1 1 "x"] 1 1 (Value (str "x"))) as (n2 & Hn2 & _ & _); [apply roles|].
  assert (Ha1 : last_applied n1 = 1).
  { assert (Hv : last_applied <$> nodes commit_end !! 1 = Some 1) by (vm_compute; reflexivity).
    rewrite Hn1 in Hv. injection Hv as Hv. exact Hv. }
  assert (Ha2 : last_applied n2 = 1).
  { assert (Hv : last_applied <$> nodes takeover_end !! 2 = Some 1) by (vm_compute; reflexivity).
    rewrite Hn2 in Hv. injection Hv as Hv. exact Hv. }
  exists n1, n2. do 4 (split; [done|]).
  assert (R1 : runs_up (fun _ => True) three commit_end).
  { eapply runs_up_trans; eapply run_allowed_up, is_Some_default; vm_compute; reflexivity. }
  assert (R2 : runs_up (fun _ => True) commit_end takeover_end)
    by (eapply run_allowed_up, is_Some_default; vm_compute; reflexivity).
  destruct (replicas_agree three_peers three_ok (fun _ => True) three commit_end takeover_end 1 2 n1 n2 three_initial
    three_nothing_applied R1 R2 takeover_covered I I Hn1 Hn2) as (_ & _ & h & _ & E1 & E2).
  rewrite E1, E2, Ha1, Ha2. reflexivity.
Defined.
