(* ===== verification/Socket.v ===== *)
(** * Descriptors and sockets ([src/net/socket_utils.cpp])

    The descriptors of the process and what the kernel may answer to the socket calls;
    the owner class [Fd], [TcpListen], [TcpConnect], [GetBoundPort], [SetNonBlocking];
    a connected stream with the loops [ReadFull] and [WriteFull]. As in Os.v a script
    lists the kernel's next answers, and a call beyond its script succeeds
    ([getsockname], which has to name a port, fails instead). *)

From Stdlib Require Import Strings.String.
From S2P Require Import Prelude Common ClusterConfig.

(** ** Descriptors *)

Definition EINTR : Z := 4.
Definition EAGAIN : Z := 11. (* and EWOULDBLOCK *)

(** What [getaddrinfo] found: an error, or the addresses to try in turn. *)
Inductive AddrInfo :=
| GaiErr (rc : Z)
| GaiOk (addresses : list bytes).

(** The resolver: [passive] is [AI_PASSIVE], no node is a null pointer. *)
Class Resolver := {
  getaddrinfo : bool -> option bytes -> bytes -> AddrInfo;
  gai_strerror : Z -> bytes
}.

(** The socket family [getsockname] reports, with the port in host order. *)
Inductive SockName := InetName (port : Z) | Inet6Name (port : Z) | OtherName.

(** The process's open descriptors, the number of [close] calls on descriptors that were
    not open, and the answers to come: an [errno], or [None] for success. *)
Record Kern := mkKern {
  k_open : gset Z;
  k_bad_closes : nat;
  k_socket : list (option Z);
  k_bind : list (option Z);
  k_listen : list (option Z);
  k_connect : list (option Z);
  k_name : list (option SockName);
  k_fcntl : list (option Z);
  k_nonblocking : gset Z
}.

Definition set_open o b (k : Kern) : Kern :=
  mkKern o b (k_socket k) (k_bind k) (k_listen k) (k_connect k) (k_name k) (k_fcntl k) (k_nonblocking k).
Definition set_socket x (k : Kern) : Kern :=
  mkKern (k_open k) (k_bad_closes k) x (k_bind k) (k_listen k) (k_connect k) (k_name k) (k_fcntl k)
    (k_nonblocking k).
Definition set_bind x (k : Kern) : Kern :=
  mkKern (k_open k) (k_bad_closes k) (k_socket k) x (k_listen k) (k_connect k) (k_name k) (k_fcntl k)
    (k_nonblocking k).
Definition set_listen x (k : Kern) : Kern :=
  mkKern (k_open k) (k_bad_closes k) (k_socket k) (k_bind k) x (k_connect k) (k_name k) (k_fcntl k)
    (k_nonblocking k).
Definition set_connect x (k : Kern) : Kern :=
  mkKern (k_open k) (k_bad_closes k) (k_socket k) (k_bind k) (k_listen k) x (k_name k) (k_fcntl k)
    (k_nonblocking k).
Definition set_name x (k : Kern) : Kern :=
  mkKern (k_open k) (k_bad_closes k) (k_socket k) (k_bind k) (k_listen k) (k_connect k) x (k_fcntl k)
    (k_nonblocking k).
Definition set_fcntl x nb (k : Kern) : Kern :=
  mkKern (k_open k) (k_bad_closes k) (k_socket k) (k_bind k) (k_listen k) (k_connect k) (k_name k) x nb.

(** A new descriptor is the lowest one that is not open; it blocks. *)
Fixpoint lowest_from (fuel : nat) (fd : Z) (o : gset Z) : Z :=
  match fuel with
  | O => fd
  | S fuel => if bool_decide (fd ∈ o) then lowest_from fuel (fd + 1) o else fd
  end.

Definition lowest_free (o : gset Z) : Z := lowest_from (size o) 0 o.

Definition open_lowest (k : Kern) : Z * Kern :=
  let fd := lowest_free (k_open k) in
  let k := set_fcntl (k_fcntl k) (k_nonblocking k ∖ {[fd]}) k in
  (fd, set_open ({[fd]} ∪ k_open k) (k_bad_closes k) k).

(** [close(2)] *)
Definition sys_close (fd : Z) (k : Kern) : Kern :=
  if bool_decide (fd ∈ k_open k) then set_open (k_open k ∖ {[fd]}) (k_bad_closes k) k
  else set_open (k_open k) (S (k_bad_closes k)) k.

Definition next_ans (script : list (option Z)) : option Z * list (option Z) :=
  match script with [] => (None, []) | a :: script => (a, script) end.

(** A call that makes a descriptor ([socket], [accept], [epoll_create1], [eventfd]): the
    descriptor, or -1 and the [errno] that [a] gives. *)
Definition sys_new_fd (a : option Z) (k : Kern) : Z * Z * Kern :=
  match a with
  | Some e => (-1, e, k)
  | None => let '(fd, k) := open_lowest k in (fd, 0, k)
  end.

Definition sys_socket (k : Kern) : Z * Z * Kern :=
  let '(a, script) := next_ans (k_socket k) in sys_new_fd a (set_socket script k).

(** [bind(2)], [listen(2)], [connect(2)]: [errno], [None] on success. *)
Definition sys_bind (fd : Z) (addr : bytes) (k : Kern) : option Z * Kern :=
  let '(a, script) := next_ans (k_bind k) in (a, set_bind script k).
Definition sys_listen (fd : Z) (k : Kern) : option Z * Kern :=
  let '(a, script) := next_ans (k_listen k) in (a, set_listen script k).
Definition sys_connect (fd : Z) (addr : bytes) (k : Kern) : option Z * Kern :=
  let '(a, script) := next_ans (k_connect k) in (a, set_connect script k).

(** [getsockname(2)]: [None] is a failure. *)
Definition sys_getsockname (fd : Z) (k : Kern) : option SockName * Kern :=
  match k_name k with [] => (None, k) | a :: script => (a, set_name script k) end.

(** ** [class Fd]: the descriptor it owns, or -1 *)

Definition CloseQuietly (fd : Z) (k : Kern) : Kern := if 0 <=? fd then sys_close fd k else k.

Definition Fd_none : Z := -1.
Definition Fd_valid (fd : Z) : bool := 0 <=? fd.
Definition Fd_destroy (fd : Z) (k : Kern) : Kern := CloseQuietly fd k.
(** The new object and the one moved from. *)
Definition Fd_move (other : Z) : Z * Z := (other, -1).
Definition Fd_move_assign (this other : Z) (k : Kern) : Z * Z * Kern :=
  let k := CloseQuietly this k in (other, -1, k).
(** What is returned, and what the object holds then. *)
Definition Fd_release (fd : Z) : Z * Z := (fd, -1).
Definition Fd_reset (fd : Z) (k : Kern) : Z * Kern := (-1, CloseQuietly fd k).

(** ** Setting up connections *)

Section Setup.
Context `{Libc} `{Resolver}.

Definition SetNonBlocking (fd : Z) (non_blocking : bool) (k : Kern) : Status * Kern :=
  let '(flags, script) := next_ans (k_fcntl k) in
  match flags with
  | Some e => (IoError (str "fcntl F_GETFL: ") e, set_fcntl script (k_nonblocking k) k)
  | None =>
      let new_flags := if non_blocking then {[fd]} ∪ k_nonblocking k else k_nonblocking k ∖ {[fd]} in
      let '(rc, script) := next_ans script in
      match rc with
      | Some e => (IoError (str "fcntl F_SETFL: ") e, set_fcntl script (k_nonblocking k) k)
      | None => (Status_Ok, set_fcntl script new_flags k)
      end
  end.

Definition GaiError (rc : Z) : Status :=
  Status_Error ErrorCode.kIOError (str "getaddrinfo: " ++ gai_strerror rc).

(** The loop of [TcpListen]: [listen_fd] and [last_errno] after it. *)
Fixpoint TcpListen_loop (results : list bytes) (listen_fd last_errno : Z) (k : Kern) : Z * Z * Kern :=
  match results with
  | [] => (listen_fd, last_errno, k)
  | p :: results =>
      let '(candidate, errno, k) := sys_socket k in
      if negb (Fd_valid candidate) then TcpListen_loop results listen_fd errno (Fd_destroy candidate k)
      else
        let '(bound, k) := sys_bind candidate p k in
        match bound with
        | Some errno => TcpListen_loop results listen_fd errno (Fd_destroy candidate k)
        | None =>
            let '(listen_fd, candidate, k) := Fd_move_assign listen_fd candidate k in
            (listen_fd, last_errno, Fd_destroy candidate k)
        end
  end.

Definition TcpListen (host : bytes) (port : Z) (k : Kern) : Result Z * Kern :=
  let port_str := to_string port in
  let node := if is_empty host then None else Some host in
  match getaddrinfo true node port_str with
  | GaiErr rc => (Failed (GaiError rc), k)
  | GaiOk results =>
      let '(listen_fd, last_errno, k) := TcpListen_loop results Fd_none 0 k in
      if negb (Fd_valid listen_fd)
      then (Failed (IoError (str "bind: ") last_errno), Fd_destroy listen_fd k)
      else
        let '(listened, k) := sys_listen listen_fd k in
        match listened with
        | Some errno => (Failed (IoError (str "listen: ") errno), Fd_destroy listen_fd k)
        | None => let '(fd, listen_fd) := Fd_release listen_fd in (Value fd, Fd_destroy listen_fd k)
        end
  end.

Fixpoint TcpConnect_loop (results : list bytes) (conn_fd last_errno : Z) (k : Kern) : Z * Z * Kern :=
  match results with
  | [] => (conn_fd, last_errno, k)
  | p :: results =>
      let '(candidate, errno, k) := sys_socket k in
      if negb (Fd_valid candidate) then TcpConnect_loop results conn_fd errno (Fd_destroy candidate k)
      else
        let '(connected, k) := sys_connect candidate p k in
        match connected with
        | None =>
            let '(conn_fd, candidate, k) := Fd_move_assign conn_fd candidate k in
            (conn_fd, last_errno, Fd_destroy candidate k)
        | Some errno => TcpConnect_loop results conn_fd errno (Fd_destroy candidate k)
        end
  end.

Definition TcpConnect (host : bytes) (port : Z) (k : Kern) : Result Z * Kern :=
  let port_str := to_string port in
  match getaddrinfo false (Some host) port_str with
  | GaiErr rc => (Failed (GaiError rc), k)
  | GaiOk results =>
      let '(conn_fd, last_errno, k) := TcpConnect_loop results Fd_none 0 k in
      if negb (Fd_valid conn_fd)
      then (Failed (IoError (str "connect: ") last_errno), Fd_destroy conn_fd k)
      else let '(fd, conn_fd) := Fd_release conn_fd in (Value fd, Fd_destroy conn_fd k)
  end.

Definition GetBoundPort (fd fallback : Z) (k : Kern) : Z * Kern :=
  let '(name, k) := sys_getsockname fd k in
  match name with
  | None => (fallback, k)
  | Some (InetName port) => (port, k)
  | Some (Inet6Name port) => (port, k)
  | Some OtherName => (fallback, k)
  end.

End Setup.

(** ** A connected stream *)

(** Answers to [read] and to [write]: up to [n] bytes, at least one; or an [errno]. *)
Inductive StreamAns :=
| IoSome (n : Z)
| IoErr (errno : Z).

(** [sk_in]: what the peer sends before it closes its side, as far as it has not been
    read; [sk_out]: what the kernel has accepted from us. *)
Record Sock := mkSock {
  sk_in : bytes;
  sk_recv : list StreamAns;
  sk_out : bytes;
  sk_send : list StreamAns
}.

(** [read(2)] of up to [len] bytes: no bytes at the end of the stream, or an [errno]. *)
Definition sock_read (len : Z) (s : Sock) : (bytes + Z) * Sock :=
  match sk_recv s with
  | [] => (inl (ztake len (sk_in s)), mkSock (zdrop len (sk_in s)) [] (sk_out s) (sk_send s))
  | IoSome n :: script =>
      let n := Z.min len (Z.max 1 n) in
      (inl (ztake n (sk_in s)), mkSock (zdrop n (sk_in s)) script (sk_out s) (sk_send s))
  | IoErr e :: script => (inr e, mkSock (sk_in s) script (sk_out s) (sk_send s))
  end.

Definition next_is_error (script : list StreamAns) : bool := match script with IoErr _ :: _ => true | _ => false end.

(** The same on a blocking socket whose peer may keep the connection open after what it
    sent ([stays]): with nothing left to read the call does not return ([None]). *)
Definition sock_recv (stays : bool) (len : Z) (s : Sock) : option ((bytes + Z) * Sock) :=
  if stays && is_empty (sk_in s) && negb (next_is_error (sk_recv s)) then None else Some (sock_read len s).

(** [write(2)]: the number of bytes accepted, or an [errno]. *)
Definition sock_write (b : bytes) (s : Sock) : (Z + Z) * Sock :=
  match sk_send s with
  | [] => (inl (zlen b), mkSock (sk_in s) (sk_recv s) (sk_out s ++ b) [])
  | IoSome n :: script =>
      let n := Z.min (zlen b) (Z.max 1 n) in
      (inl n, mkSock (sk_in s) (sk_recv s) (sk_out s ++ ztake n b) script)
  | IoErr e :: script => (inr e, mkSock (sk_in s) (sk_recv s) (sk_out s) script)
  end.

Section Stream.
Context `{Libc}.

(** The loops. A turn uses up an answer of the script, or reads some bytes of the
    stream, or ends the loop, which bounds the turns. *)
Fixpoint ReadFull_loop (fuel : nat) (buf : bytes) (len : Z) (s : Sock) : option (Status * bytes * Sock) :=
  let total := zlen buf in
  if total <? len then
    match fuel with
    | O => None
    | S fuel =>
        match sock_read (len - total) s with
        | (inr errno, s) =>
            if errno =? EINTR then ReadFull_loop fuel buf len s
            else Some (IoError (str "read: ") errno, buf, s)
        | (inl chunk, s) =>
            if is_empty chunk
            then Some (Status_Error ErrorCode.kIOError (str "connection closed"), buf, s)
            else ReadFull_loop fuel (buf ++ chunk) len s
        end
    end
  else Some (Status_Ok, buf, s).

Definition ReadFull (len : Z) (s : Sock) : option (Status * bytes * Sock) :=
  ReadFull_loop (S (length (sk_recv s) + length (sk_in s))) [] len s.

Fixpoint WriteFull_loop (fuel : nat) (buf : bytes) (total : Z) (s : Sock) : option (Status * Sock) :=
  if total <? zlen buf then
    match fuel with
    | O => None
    | S fuel =>
        match sock_write (zdrop total buf) s with
        | (inr errno, s) =>
            if errno =? EINTR then WriteFull_loop fuel buf total s
            else Some (IoError (str "write: ") errno, s)
        | (inl n, s) => WriteFull_loop fuel buf (total + n) s
        end
    end
  else Some (Status_Ok, s).

Definition WriteFull (buf : bytes) (s : Sock) : option (Status * Sock) :=
  WriteFull_loop (S (length (sk_send s))) buf 0 s.

End Stream.

(** ** Lemmas on descriptors *)

Definition above (fd : Z) (o : gset Z) : gset Z := filter (fun x => fd <= x) o.

Lemma lowest_from_spec fuel fd (o : gset Z) :
  (size (above fd o) <= fuel)%nat -> lowest_from fuel fd o ∉ o /\ fd <= lowest_from fuel fd o.
Proof.
  revert fd. induction fuel as [|fuel IH]; intros fd Hf; cbn [lowest_from].
  - split; [|lia]. intros Hin.
    assert (Hx : fd ∈ above fd o) by (apply elem_of_filter; split; [lia|done]).
    assert (E : above fd o ≡ ∅) by (apply size_empty_inv; lia). set_solver.
  - destruct (bool_decide_reflect (fd ∈ o)) as [Hin|Hout]; [|by split; [|lia]].
    destruct (IH (fd + 1)) as [H1 H2]; [|split; [done|lia]].
    assert (Hsub : above (fd + 1) o ⊂ above fd o).
    { split.
      - intros x [? ?]%elem_of_filter. apply elem_of_filter. split; [lia|done].
      - intros Hall. assert (fd ∈ above (fd + 1) o) as [? _]%elem_of_filter
          by (apply Hall, elem_of_filter; split; [lia|done]). lia. }
    apply subset_size in Hsub. lia.
Qed.

Lemma lowest_free_spec o : lowest_free o ∉ o /\ 0 <= lowest_free o.
Proof.
  apply lowest_from_spec, subseteq_size. by intros x [_ ?]%elem_of_filter.
Qed.

(** The descriptors that are open, and that none was closed twice. *)
Definition same_fds (k k' : Kern) : Prop := k_open k' = k_open k /\ k_bad_closes k' = k_bad_closes k.
Definition gains_fd (fd : Z) (k k' : Kern) : Prop :=
  0 <= fd /\ fd ∉ k_open k /\ k_open k' = {[fd]} ∪ k_open k /\ k_bad_closes k' = k_bad_closes k.

Lemma same_fds_trans k1 k2 k3 : same_fds k1 k2 -> same_fds k2 k3 -> same_fds k1 k3.
Proof. intros [H1 H2] [H3 H4]. split; congruence. Qed.

Lemma gains_fd_same fd k1 k2 k3 : gains_fd fd k1 k2 -> same_fds k2 k3 -> gains_fd fd k1 k3.
Proof. intros (H1 & H2 & H3 & H4) [H5 H6]. repeat split; (done || congruence). Qed.

Lemma same_gains_fd fd k1 k2 k3 : same_fds k1 k2 -> gains_fd fd k2 k3 -> gains_fd fd k1 k3.
Proof. intros [H5 H6] (H1 & H2 & H3 & H4). repeat split; congruence. Qed.

Lemma CloseQuietly_none k : CloseQuietly (-1) k = k.
Proof. reflexivity. Qed.

(** Closing what was gained leaves what was there before. *)
Lemma CloseQuietly_gained fd k k' : gains_fd fd k k' -> same_fds k (CloseQuietly fd k').
Proof.
  intros (H1 & H2 & H3 & H4). unfold CloseQuietly, sys_close. destruct (Z.leb_spec 0 fd); [|lia].
  rewrite bool_decide_true by set_solver. split; cbn; [|done]. rewrite H3. set_solver.
Qed.

Lemma open_lowest_spec k fd k' : open_lowest k = (fd, k') -> gains_fd fd k k'.
Proof.
  unfold open_lowest. intros [= <- <-]. destruct (lowest_free_spec (k_open k)) as [H1 H2].
  repeat split; done.
Qed.

Lemma sys_new_fd_spec a k fd e k' :
  sys_new_fd a k = (fd, e, k') -> (fd = -1 /\ same_fds k k') \/ gains_fd fd k k'.
Proof.
  unfold sys_new_fd. destruct a as [x|]; [intros [= <- <- <-]; by left|].
  destruct (open_lowest k) as [fd' k1] eqn:E. intros [= <- <- <-]. right. by apply open_lowest_spec.
Qed.

Lemma sys_socket_spec k fd e k' :
  sys_socket k = (fd, e, k') -> (fd = -1 /\ same_fds k k') \/ gains_fd fd k k'.
Proof. unfold sys_socket. destruct (next_ans (k_socket k)) as [a script]. apply (sys_new_fd_spec a (set_socket script k)). Qed.

(** What the address loops leave: no descriptor, or one new one. *)
Definition loop_result (fd : Z) (k k' : Kern) : Prop := (fd = -1 /\ same_fds k k') \/ gains_fd fd k k'.

Lemma loop_result_after fd k1 k2 k3 : same_fds k1 k2 -> loop_result fd k2 k3 -> loop_result fd k1 k3.
Proof.
  intros Hs [[-> H2]|Hg]; [left; split; [done|by eapply same_fds_trans]|right; by eapply same_gains_fd].
Qed.

Lemma TcpListen_loop_spec results e k fd e' k' :
  TcpListen_loop results (-1) e k = (fd, e', k') -> loop_result fd k k'.
Proof.
  revert e k. induction results as [|p results IH]; intros e k; cbn [TcpListen_loop];
    [intros [= <- <- <-]; left; by split|].
  destruct (sys_socket k) as [[c err] k1] eqn:Es. apply sys_socket_spec in Es as [[-> Hs]|Hg].
  - cbn. intros E. apply IH in E. by eapply loop_result_after.
  - pose proof Hg as (Hpos & _). unfold Fd_valid. destruct (Z.leb_spec 0 c); [|lia]. cbn [negb].
    unfold sys_bind. destruct (next_ans (k_bind k1)) as [[be|] script].
    + pose proof (CloseQuietly_gained c k (set_bind script k1) Hg) as Hc.
      intros E. apply IH in E. by eapply loop_result_after.
    + cbn. intros [= <- <- <-]. right. exact Hg.
Qed.

Lemma TcpConnect_loop_spec results e k fd e' k' :
  TcpConnect_loop results (-1) e k = (fd, e', k') -> loop_result fd k k'.
Proof.
  revert e k. induction results as [|p results IH]; intros e k; cbn [TcpConnect_loop];
    [intros [= <- <- <-]; left; by split|].
  destruct (sys_socket k) as [[c err] k1] eqn:Es. apply sys_socket_spec in Es as [[-> Hs]|Hg].
  - cbn. intros E. apply IH in E. by eapply loop_result_after.
  - pose proof Hg as (Hpos & _). unfold Fd_valid. destruct (Z.leb_spec 0 c); [|lia]. cbn [negb].
    unfold sys_connect. destruct (next_ans (k_connect k1)) as [[be|] script].
    + pose proof (CloseQuietly_gained c k (set_connect script k1) Hg) as Hc.
      intros E. apply IH in E. by eapply loop_result_after.
    + cbn. intros [= <- <- <-]. right. exact Hg.
Qed.

Section SetupProofs.
Context `{Libc} `{Resolver}.

(** A call that returns a descriptor opened exactly that one; a failed call left the
    table as it was. *)
Definition owns_result (r : Result Z) (k k' : Kern) : Prop :=
  match r with
  | Value fd => gains_fd fd k k'
  | Failed st => code st = ErrorCode.kIOError /\ same_fds k k'
  end.

Lemma TcpListen_spec host port k r k' : TcpListen host port k = (r, k') -> owns_result r k k'.
Proof.
  unfold TcpListen. destruct (getaddrinfo _ _ _) as [rc|results]; [by intros [= <- <-]|].
  destruct (TcpListen_loop results Fd_none 0 k) as [[fd e] k1] eqn:E.
  apply TcpListen_loop_spec in E as [[-> Hs]|Hg]; [by intros [= <- <-]|].
  pose proof Hg as (Hpos & _). unfold Fd_valid. destruct (Z.leb_spec 0 fd); [|lia]. cbn [negb].
  unfold sys_listen. destruct (next_ans (k_listen k1)) as [[err|] script].
  - intros [= <- <-]. split; [done|]. exact (CloseQuietly_gained fd k (set_listen script k1) Hg).
  - intros [= <- <-]. exact Hg.
Qed.

Lemma TcpConnect_spec host port k r k' : TcpConnect host port k = (r, k') -> owns_result r k k'.
Proof.
  unfold TcpConnect. destruct (getaddrinfo _ _ _) as [rc|results]; [by intros [= <- <-]|].
  destruct (TcpConnect_loop results Fd_none 0 k) as [[fd e] k1] eqn:E.
  apply TcpConnect_loop_spec in E as [[-> Hs]|Hg]; [by intros [= <- <-]|].
  pose proof Hg as (Hpos & _). unfold Fd_valid. destruct (Z.leb_spec 0 fd); [|lia]. cbn [negb].
  by intros [= <- <-].
Qed.

End SetupProofs.

(** ** Lemmas on streams *)

(** Only interruptions. *)
Definition calm (script : list StreamAns) : Prop :=
  Forall (fun a => match a with IoErr e => e = EINTR | IoSome _ => True end) script.

#[global] Instance calm_dec script : Decision (calm script).
Proof. apply Forall_dec. intros [n|e]; cbn; apply _. Defined.

Lemma zdrop_none {A} (l : list A) n : 0 <= n -> zlen l <= n -> zdrop n l = [].
Proof. intros. by apply zdrop_all. Qed.

(** Splits off the conjuncts that are immediate. *)
Ltac do_conj := repeat (apply conj; [done|]).

Section StreamProofs.
Context `{Libc}.
Implicit Types s : Sock.

Lemma WriteFull_loop_done fuel buf total s :
  zlen buf <= total -> WriteFull_loop fuel buf total s = Some (Status_Ok, s).
Proof. intros Ht. destruct fuel; cbn; by destruct (Z.ltb_spec total (zlen buf)); [lia|]. Qed.

(** [WriteFull] always returns. The kernel has accepted a prefix of the buffer, all of it
    exactly when the status is ok, which it is when writes are only interrupted. *)
Lemma WriteFull_loop_spec fuel buf total s :
  0 <= total <= zlen buf -> (length (sk_send s) < fuel)%nat ->
  exists st s' sent left_, WriteFull_loop fuel buf total s = Some (st, s') /\
    zdrop total buf = sent ++ left_ /\
    sk_out s' = sk_out s ++ sent /\ sk_in s' = sk_in s /\ sk_recv s' = sk_recv s /\
    (Status_ok st = true <-> left_ = []) /\ (calm (sk_send s) -> left_ = [] /\ calm (sk_send s')).
Proof.
  revert total s. induction fuel as [|fuel IH]; intros total s Ht Hf; [lia|]. cbn [WriteFull_loop].
  destruct (Z.ltb_spec total (zlen buf)) as [Hlt|Hge].
  2: { exists Status_Ok, s, [], []. rewrite !app_nil_r. split; [done|]. split; [apply zdrop_none; lia|].
       do_conj. done. }
  unfold sock_write. destruct (sk_send s) as [|[n|e] script] eqn:Es.
  - rewrite WriteFull_loop_done by (rewrite zlen_zdrop; lia).
    eexists Status_Ok, _, (zdrop total buf), []. rewrite app_nil_r. split; [done|]. cbn. do_conj. done.
  - set (m := Z.min (zlen (zdrop total buf)) (Z.max 1 n)).
    assert (Hm : 0 <= m <= zlen (zdrop total buf)) by (pose proof (zlen_nonneg (zdrop total buf)); unfold m; lia).
    assert (zlen (zdrop total buf) = zlen buf - total) by (apply zlen_zdrop; lia).
    destruct (IH (total + m) (mkSock (sk_in s) (sk_recv s) (sk_out s ++ ztake m (zdrop total buf)) script))
      as (st & s' & sent & left_ & -> & Hd & Ho & Hi & Hr & Hok & Hc); [lia|cbn in *; lia|].
    cbn [sk_out sk_in sk_recv sk_send] in *.
    exists st, s', (ztake m (zdrop total buf) ++ sent), left_.
    rewrite <- !app_assoc, <- Hd, <- zdrop_zdrop, ztake_zdrop by lia.
    split; [done|]. split; [done|]. split; [by rewrite Ho, <- app_assoc|]. split; [done|]. split; [done|].
    split; [done|]. intros [_ Hcalm]%Forall_cons. by apply Hc.
  - destruct (Z.eqb_spec e EINTR) as [->|Hne].
    + destruct (IH total (mkSock (sk_in s) (sk_recv s) (sk_out s) script))
        as (st & s' & sent & left_ & -> & Hd & Ho & Hi & Hr & Hok & Hc); [lia|cbn in *; lia|].
      exists st, s', sent, left_. do_conj. intros [_ Hcalm]%Forall_cons. by apply Hc.
    + exists (IoError (str "write: ") e), (mkSock (sk_in s) (sk_recv s) (sk_out s) script), [], (zdrop total buf).
      rewrite app_nil_r. do_conj. split.
      * split; [done|]. intros E. apply (f_equal zlen) in E. rewrite zlen_zdrop, zlen_nil in E by lia. lia.
      * by intros [? _]%Forall_cons.
Qed.

Lemma WriteFull_spec buf s :
  exists st s' sent left_, WriteFull buf s = Some (st, s') /\ buf = sent ++ left_ /\
    sk_out s' = sk_out s ++ sent /\ sk_in s' = sk_in s /\ sk_recv s' = sk_recv s /\
    (Status_ok st = true <-> left_ = []) /\ (calm (sk_send s) -> left_ = [] /\ calm (sk_send s')).
Proof. apply (WriteFull_loop_spec _ buf 0 s); [pose proof (zlen_nonneg buf); lia|lia]. Qed.

(** What one [read] takes from the stream. *)
Lemma sock_read_spec len s r s' :
  0 < len -> sock_read len s = (r, s') ->
  sk_out s' = sk_out s /\ sk_send s' = sk_send s /\
  match r with
  | inl chunk => sk_in s = chunk ++ sk_in s' /\ zlen chunk <= len /\ (chunk = [] -> sk_in s = [])
  | inr e => sk_in s' = sk_in s /\ exists script, sk_recv s = IoErr e :: script
  end /\ sk_recv s' = tail (sk_recv s).
Proof.
  intros Hlen. unfold sock_read.
  assert (Hz : forall n, 0 < n -> ztake n (sk_in s) = [] -> sk_in s = []).
  { intros n Hn E. destruct (sk_in s) as [|b l]; [done|]. unfold ztake in E.
    destruct (Z.to_nat n) eqn:En; [lia|]. done. }
  assert (Hl : forall n, 0 < n -> zlen (ztake n (sk_in s)) <= n).
  { intros n Hn. unfold zlen, ztake. rewrite length_take. lia. }
  destruct (sk_recv s) as [|[n|e] script]; intros [= <- <-]; cbn [sk_in sk_out sk_send sk_recv tail].
  - do_conj. split; [|done]. rewrite ztake_zdrop. split; [done|]. split; [by apply Hl|by apply Hz].
  - do_conj. split; [|done]. rewrite ztake_zdrop. split; [done|].
    assert (Hm : 0 < Z.min len (Z.max 1 n) <= len) by lia. specialize (Hl _ (proj1 Hm)). split; [lia|]. exact (Hz _ (proj1 Hm)).
  - do_conj. split; [|done]. split; [done|]. by exists script.
Qed.

Lemma sock_recv_read stays len s r : sock_recv stays len s = Some r -> sock_read len s = r.
Proof. unfold sock_recv. destruct (_ && _); [done|]. by intros [= ->]. Qed.

(** A read waits for ever only when there is nothing to read. *)
Lemma sock_recv_waits stays len s : sock_recv stays len s = None -> stays = true /\ sk_in s = [].
Proof.
  unfold sock_recv. destruct stays; [|done]. destruct (is_empty (sk_in s)) eqn:E; [|done]. intros _. split; [done|].
  by apply is_empty_true.
Qed.

(** [ReadFull] always returns: with the first [len] bytes of the stream, or with an error
    and fewer. It succeeds when the stream has [len] bytes and reads are only interrupted. *)
Lemma ReadFull_loop_spec fuel buf len s :
  (length (sk_recv s) + length (sk_in s) < fuel)%nat ->
  zlen buf <= len ->
  exists st got s', ReadFull_loop fuel buf len s = Some (st, buf ++ got, s') /\
    sk_in s = got ++ sk_in s' /\ sk_out s' = sk_out s /\ sk_send s' = sk_send s /\
    (Status_ok st = true <-> zlen buf + zlen got = len) /\ zlen buf + zlen got <= len /\
    (calm (sk_recv s) -> len <= zlen buf + zlen (sk_in s) -> Status_ok st = true).
Proof.
  revert buf s. induction fuel as [|fuel IH]; intros buf s Hf Hb; [lia|]. cbn [ReadFull_loop].
  destruct (Z.ltb_spec (zlen buf) len) as [Hlt|Hge].
  2: { exists Status_Ok, [], s. rewrite app_nil_r, zlen_nil. do_conj. split; [|split; [lia|done]].
       split; [lia|done]. }
  destruct (sock_read (len - zlen buf) s) as [[chunk|e] s1] eqn:Er;
    apply sock_read_spec in Er as (Ho & Hs & Hcase & Hrecv); try lia.
  - destruct Hcase as (Hin & Hle & Hnil). destruct (is_empty chunk) eqn:Ec.
    + apply is_empty_true in Ec as ->. pose proof (Hnil eq_refl) as Hnil'.
      exists (Status_Error ErrorCode.kIOError (str "connection closed")), [], s1. rewrite app_nil_r, zlen_nil, Hnil'.
      split; [done|]. split; [by rewrite Hnil' in Hin|]. split; [done|]. split; [done|].
      split; [split; [done|lia]|]. split; [lia|]. rewrite zlen_nil. lia.
    + apply is_empty_false in Ec.
      destruct (IH (buf ++ chunk) s1) as (st & got & s' & -> & Hin' & Ho' & Hs' & Hok & Hlen & Hcalm).
      { rewrite Hrecv. rewrite Hin, length_app in Hf. unfold zlen in Ec. destruct (sk_recv s); cbn [tail length] in *; lia. }
      { rewrite zlen_app. lia. }
      rewrite zlen_app in Hok, Hlen, Hcalm.
      exists st, (chunk ++ got), s'. rewrite zlen_app, app_assoc. split; [done|].
      split; [by rewrite <- app_assoc, <- Hin'|]. split; [congruence|]. split; [congruence|].
      split; [rewrite Hok; lia|]. split; [lia|].
      intros Hc Hl. apply Hcalm; [rewrite Hrecv; destruct (sk_recv s); [done|by apply Forall_cons in Hc as [_ ?]]|].
      rewrite Hin, zlen_app in Hl. lia.
  - destruct Hcase as (Hin & script & El). destruct (Z.eqb_spec e EINTR) as [->|Hne].
    + destruct (IH buf s1) as (st & got & s' & -> & Hin' & Ho' & Hs' & Hok & Hlen & Hcalm).
      { rewrite Hrecv, El. rewrite El in Hf. rewrite Hin. cbn [tail length] in *. lia. }
      { done. }
      exists st, got, s'. rewrite <- Hin. split; [done|]. split; [done|]. split; [congruence|]. split; [congruence|].
      split; [done|]. split; [done|]. intros Hc. apply Hcalm. rewrite Hrecv, El. rewrite El in Hc.
      by apply Forall_cons in Hc as [_ ?].
    + exists (IoError (str "read: ") e), [], s1. rewrite app_nil_r, zlen_nil. split; [done|]. split; [by rewrite Hin|].
      split; [done|]. split; [done|]. split; [split; [done|lia]|]. split; [lia|].
      rewrite El. by intros [? _]%Forall_cons.
Qed.

Lemma ReadFull_spec len s :
  0 <= len ->
  exists st got s', ReadFull len s = Some (st, got, s') /\
    sk_in s = got ++ sk_in s' /\ sk_out s' = sk_out s /\ sk_send s' = sk_send s /\
    (Status_ok st = true <-> zlen got = len) /\ zlen got <= len /\
    (calm (sk_recv s) -> len <= zlen (sk_in s) -> Status_ok st = true).
Proof. intros Hlen. apply (ReadFull_loop_spec _ [] len s); [lia|done]. Qed.

End StreamProofs.
