(* ===== verification/Handler.v ===== *)
(** * The request handler ([src/server/handler.cpp])

    Client and cluster requests onto the durable store and the Raft node. The handler
    holds a reference to the store and a pointer to the node, which shares the store; both
    act on one world of type [W], so what one does the other sees. Every call may also
    let other threads act before it, which an instance of the interfaces decides. A call
    that never returns is [None]. *)

From Stdlib Require Import Strings.String.
From S2P Require Import Prelude Common BigEndian Codec Crc32 Os WalRecord RaftTypes RpcCodec.
From S2P Require Import ShardedKV WalWriter DurableStorage.

(** ** The interfaces of the store and of the node *)

Record StorageOps (W : Type) := mkStorageOps {
  st_Set : bytes -> bytes -> W -> option (Status * W);
  st_Get : bytes -> W -> option (Result bytes * W);
  st_Delete : bytes -> W -> option (Status * W)
}.

Record RaftOps (W : Type) := mkRaftOps {
  rf_state : W -> option (RaftState * W);
  rf_leader_id : W -> option (Z * W);
  rf_Propose : LogEntry -> W -> option (Status * W);
  rf_ConfirmLeadershipQuorum : W -> option (bool * W);
  rf_HandleRequestVote : RequestVoteRequest -> W -> option (RequestVoteResponse * W);
  rf_HandleAppendEntries : AppendEntriesRequest -> W -> option (AppendEntriesResponse * W);
  rf_reserve : Z -> bool (* whether [vector::reserve] finds room for this many entries *)
}.

Arguments st_Set {W}. Arguments st_Get {W}. Arguments st_Delete {W}.
Arguments rf_state {W}. Arguments rf_leader_id {W}. Arguments rf_Propose {W}.
Arguments rf_ConfirmLeadershipQuorum {W}. Arguments rf_HandleRequestVote {W}.
Arguments rf_HandleAppendEntries {W}. Arguments rf_reserve {W}.

Definition ToResponseStatus (code : ErrorCode) : ResponseStatus :=
  match code with
  | ErrorCode.kOk => ResponseStatus.kOk
  | ErrorCode.kNotFound => ResponseStatus.kNotFound
  | ErrorCode.kInvalidArgument => ResponseStatus.kBadRequest
  | ErrorCode.kIOError | ErrorCode.kInternal => ResponseStatus.kInternalError
  end.

Section Handler.
Context {W : Type}.

(** [raft_] is a pointer: [None] is [nullptr]. *)
Record RequestHandler := mkRequestHandler {
  storage_ : StorageOps W;
  raft_ : option (RaftOps W);
  allow_stale_reads_ : bool
}.

Implicit Types (h : RequestHandler) (w : W).

Definition IsLeader h w : option (bool * W) :=
  match raft_ h with
  | None => Some (true, w)
  | Some raft => '(st, w) ← rf_state raft w; Some (bool_decide (st = RaftState.kLeader), w)
  end.

Definition respond (req : ClientRequest) (status : ResponseStatus) : ClientResponse :=
  mkClientResponse (creq_request_id req) status [] 0.

(** [resp.status = kWrongLeader; resp.leader_hint = raft_->leader_id();] *)
Definition wrong_leader (raft : RaftOps W) (req : ClientRequest) w : option (ClientResponse * W) :=
  '(leader, w) ← rf_leader_id raft w;
  Some (mkClientResponse (creq_request_id req) ResponseStatus.kWrongLeader [] leader, w).

(** The branches of [kSet] and [kDelete] with a node. *)
Definition propose (raft : RaftOps W) (req : ClientRequest) (entry : LogEntry) w
    : option (ClientResponse * W) :=
  '(status, w) ← rf_Propose raft entry w;
  if Status_ok status then Some (respond req ResponseStatus.kOk, w)
  else if bool_decide (code status = ErrorCode.kInvalidArgument) then wrong_leader raft req w
  else Some (respond req ResponseStatus.kInternalError, w).

(** The linearizable read's check: does it refuse the request? *)
Definition read_refused h (raft : RaftOps W) w : option (bool * W) :=
  if allow_stale_reads_ h then Some (false, w)
  else
    '(leader, w) ← IsLeader h w;
    if negb leader then Some (true, w)
    else '(confirmed, w) ← rf_ConfirmLeadershipQuorum raft w; Some (negb confirmed, w).

(** [storage_.Get] and what is made of its result. *)
Definition read h (req : ClientRequest) w : option (ClientResponse * W) :=
  '(result, w) ← st_Get (storage_ h) (creq_key req) w;
  match result with
  | Value v => Some (mkClientResponse (creq_request_id req) ResponseStatus.kOk v 0, w)
  | Failed st => Some (respond req (ToResponseStatus (code st)), w)
  end.

Definition Handle h (req : ClientRequest) w : option (ClientResponse * W) :=
  let is_write := bool_decide (creq_opcode req = Opcode.kSet) || bool_decide (creq_opcode req = Opcode.kDelete) in
  '(leader, w) ← (if is_write then IsLeader h w else Some (true, w));
  match raft_ h with
  | Some raft =>
      if negb leader then wrong_leader raft req w
      else
        match creq_opcode req with
        | Opcode.kSet => propose raft req (mkLogEntry 0 0 WalOp.kSet (creq_key req) (creq_value req)) w
        | Opcode.kGet =>
            '(refused, w) ← read_refused h raft w;
            if (refused : bool) then wrong_leader raft req w else read h req w
        | Opcode.kDelete => propose raft req (mkLogEntry 0 0 WalOp.kDelete (creq_key req) []) w
        | Opcode.kRaw _ => Some (respond req ResponseStatus.kBadRequest, w)
        end
  | None =>
      match creq_opcode req with
      | Opcode.kSet =>
          '(status, w) ← st_Set (storage_ h) (creq_key req) (creq_value req) w;
          Some (respond req (ToResponseStatus (code status)), w)
      | Opcode.kGet => read h req w
      | Opcode.kDelete =>
          '(status, w) ← st_Delete (storage_ h) (creq_key req) w;
          Some (respond req (ToResponseStatus (code status)), w)
      | Opcode.kRaw _ => Some (respond req ResponseStatus.kBadRequest, w)
      end
  end.

Definition cluster_respond (req : ClusterRequest) (status : ResponseStatus) (body : bytes) : ClusterResponse :=
  mkClusterResponse (clreq_request_id req) status body.

(** An exception of a decoder is not caught anywhere: [None]. *)
Definition HandleCluster h (req : ClusterRequest) w : option (ClusterResponse * W) :=
  let bad := Some (cluster_respond req ResponseStatus.kBadRequest [], w) in
  match clreq_opcode req with
  | ClusterOpcode.kPing => Some (cluster_respond req ResponseStatus.kOk (str "pong"), w)
  | ClusterOpcode.kRequestVote =>
      match raft_ h with
      | None => bad
      | Some raft =>
          match DecodeRequestVoteRequest (clreq_body req) RequestVoteRequest_default with
          | Throws _ => None
          | Returns (status, rv_req) =>
              if negb (Status_ok status) then bad
              else
                '(resp, w) ← rf_HandleRequestVote raft rv_req w;
                Some (cluster_respond req ResponseStatus.kOk (EncodeRequestVoteResponse resp), w)
          end
      end
  | ClusterOpcode.kAppendEntries =>
      match raft_ h with
      | None => bad
      | Some raft =>
          match DecodeAppendEntriesRequest (rf_reserve raft) (clreq_body req) AppendEntriesRequest_default with
          | Throws _ => None
          | Returns (status, ae_req) =>
              if negb (Status_ok status) then bad
              else
                '(resp, w) ← rf_HandleAppendEntries raft ae_req w;
                Some (cluster_respond req ResponseStatus.kOk (EncodeAppendEntriesResponse resp), w)
          end
      end
  | ClusterOpcode.kPong => bad
  end.

End Handler.

Arguments RequestHandler W : clear implicits.

(** ** A server without a cluster: the durable store alone *)

Section Standalone.
Context `{Libc} {T : Type} `{KvOps T}.

(** The store and its operating system. *)
Definition Standalone : Type := DurableStorage T * Sys.

Definition standalone_storage : StorageOps Standalone := {|
  st_Set key value '(d, s) := '(st, d, s) ← DurableStorage_Set key value d s; Some (st, (d, s));
  st_Get key '(d, s) := Some (DurableStorage_Get key d, (d, s));
  st_Delete key '(d, s) := '(st, d, s) ← DurableStorage_Delete key d s; Some (st, (d, s))
|}.

Definition standalone (allow_stale_reads : bool) : RequestHandler Standalone :=
  mkRequestHandler standalone_storage None allow_stale_reads.

End Standalone.

(** ** What a client sees of one map *)

Definition spec_Handle (req : ClientRequest) (m : kvmap) : ClientResponse * kvmap :=
  let key := creq_key req in
  match creq_opcode req with
  | Opcode.kSet =>
      if is_empty key || is_empty (creq_value req) then (respond req ResponseStatus.kBadRequest, m)
      else (respond req ResponseStatus.kOk, <[key := creq_value req]> m)
  | Opcode.kGet =>
      if is_empty key then (respond req ResponseStatus.kBadRequest, m)
      else
        match m !! key with
        | Some v => (mkClientResponse (creq_request_id req) ResponseStatus.kOk v 0, m)
        | None => (respond req ResponseStatus.kNotFound, m)
        end
  | Opcode.kDelete =>
      if is_empty key then (respond req ResponseStatus.kBadRequest, m)
      else
        match m !! key with
        | Some _ => (respond req ResponseStatus.kOk, delete key m)
        | None => (respond req ResponseStatus.kNotFound, m)
        end
  | Opcode.kRaw _ => (respond req ResponseStatus.kBadRequest, m)
  end.

(** Sizes that the log can hold, which every request that was parsed has. *)
Definition request_fits (req : ClientRequest) : Prop :=
  zlen (creq_key req) <= kMaxFieldSize /\ zlen (creq_value req) <= kMaxFieldSize.

Lemma encodable_request_fits req : encodable (MClientRequest req) -> request_fits req.
Proof.
  intros [Hs _]. cbn [payload_of] in Hs. rewrite zlen_payload_ClientRequest in Hs. unfold request_fits.
  unfold kMaxPayloadSize, kMaxFieldSize in *. pose proof (zlen_nonneg (creq_key req)).
  pose proof (zlen_nonneg (creq_value req)). lia.
Qed.

Section StandaloneProofs.
Context `{Libc} {T : Type} `{KvLaws T}.

(** One request on a healthy disk: the specified response, and the log grows by at most
    one record. *)
Lemma Handle_standalone allow req rs (d : DurableStorage T) s :
  ds_inv rs d s -> request_fits req -> zlen rs + 1 < 2 ^ 64 -> disk_ok s ->
  exists d' s' rs', Handle (standalone allow) req (d, s) = Some ((spec_Handle req (replay rs)).1, (d', s')) /\
    ds_inv rs' d' s' /\ replay rs' = (spec_Handle req (replay rs)).2 /\ zlen rs <= zlen rs' <= zlen rs + 1 /\ disk_ok s'.
Proof.
  intros Hd [Hk Hv] Hlt Hok. destruct req as [id op key value]. cbn [creq_key creq_value] in *.
  unfold Handle, spec_Handle, IsLeader, read. cbn [raft_ standalone creq_opcode creq_key creq_value creq_request_id storage_].
  assert (Hif : forall (b : bool) (w : DurableStorage T * Sys), (if b then Some (true, w) else Some (true, w)) = Some (true, w))
    by (by intros []). rewrite Hif. clear Hif. cbn [mbind option_bind].
  assert (Hstep : forall dop, op_fits dop -> exists d' s' rs', ds_step dop d s = Some ((spec_dstep dop (replay rs)).1, d', s') /\
    ds_inv rs' d' s' /\ replay rs' = (spec_dstep dop (replay rs)).2 /\ zlen rs <= zlen rs' <= zlen rs + 1 /\ disk_ok s').
  { intros dop Hfit. by apply ds_step_ok. }
  destruct op as [| | |v].
  - destruct (Hstep (DSet key value)) as (d' & s' & rs' & E & Hd' & Hr & [Hl Hl'] & Hok'); [done|]. cbn [ds_step] in E.
    cbn. destruct (DurableStorage_Set key value d s) as [[[st d1] s1]|]; [|done].
    cbn in E |- *. injection E as E -> ->. exists d', s', rs'. cbn [spec_dstep] in *.
    destruct (is_empty key), (is_empty value); cbn in *; injection E as ->; by split_and!.
  - destruct (Hstep (DGet key)) as (d' & s' & rs' & E & Hd' & Hr & [Hl Hl'] & Hok'); [done|]. cbn [ds_step] in E.
    injection E as E <- <-. exists d, s, rs'. cbn [spec_dstep fst snd] in *. unfold spec_Get in E. cbn.
    rewrite E. destruct (is_empty key); [by split_and!|]. by destruct (replay rs !! key); split_and!.
  - destruct (Hstep (DDelete key)) as (d' & s' & rs' & E & Hd' & Hr & [Hl Hl'] & Hok'); [done|]. cbn [ds_step] in E.
    cbn. destruct (DurableStorage_Delete key d s) as [[[st d1] s1]|]; [|done].
    cbn in E |- *. injection E as E -> ->. exists d', s', rs'. cbn [spec_dstep] in *. unfold spec_Delete in *.
    destruct (is_empty key); cbn in *; [injection E as ->; by split_and!|].
    destruct (replay rs !! key); cbn in *; injection E as ->; by split_and!.
  - exists d, s, rs. cbn. split_and!; (done || lia).
Qed.

(** Whatever the request, the handler returns, and can be called again. *)
Definition standalone_live (w : DurableStorage T * Sys) : Prop := store_live w.1 w.2.

Lemma Handle_standalone_live allow req (w : DurableStorage T * Sys) :
  standalone_live w -> exists resp w', Handle (standalone allow) req w = Some (resp, w') /\ standalone_live w'.
Proof.
  destruct w as [d s]. intros Hl. destruct req as [id op key value].
  unfold Handle, IsLeader, read. cbn [raft_ standalone creq_opcode creq_key creq_value creq_request_id storage_].
  assert (Hif : forall (b : bool) (w : DurableStorage T * Sys), (if b then Some (true, w) else Some (true, w)) = Some (true, w))
    by (by intros []). rewrite Hif. clear Hif. cbn [mbind option_bind]. destruct op as [| | |v].
  - destruct (ds_step_live (DSet key value) d s Hl) as (a & d' & s' & E & Hl'). cbn [ds_step] in E.
    cbn. destruct (DurableStorage_Set key value d s) as [[[st d1] s1]|]; [|done]. cbn in E |- *. injection E as _ -> ->.
    by eexists _, _.
  - cbn. destruct (DurableStorage_Get key d); by eexists _, _.
  - destruct (ds_step_live (DDelete key) d s Hl) as (a & d' & s' & E & Hl'). cbn [ds_step] in E.
    cbn. destruct (DurableStorage_Delete key d s) as [[[st d1] s1]|]; [|done]. cbn in E |- *. injection E as _ -> ->.
    by eexists _, _.
  - by eexists _, _.
Qed.

Lemma HandleCluster_standalone allow req (w : DurableStorage T * Sys) :
  exists resp, HandleCluster (standalone allow) req w = Some (resp, w).
Proof. destruct req as [id op body]. destruct op; by eexists. Qed.

End StandaloneProofs.

(** ** The types of the answers *)

Section Typed.
Context {W : Type}.
Implicit Types (h : RequestHandler W) (w : W).

(** In the worlds of [good] the node's answers to typed requests fit the fields that carry
    them, and the calls that a client's request makes stay in [good]. *)
Record raft_typed (good : W -> Prop) (raft : RaftOps W) : Prop := {
  rt_leader : forall w id w', good w -> rf_leader_id raft w = Some (id, w') -> is_u32 id;
  rt_vote : forall q w r w', good w -> vote_request_fits q -> rf_HandleRequestVote raft q w = Some (r, w') -> is_u64 (rvr_term r);
  rt_append : forall q w r w', good w -> append_request_fits q -> rf_HandleAppendEntries raft q w = Some (r, w') -> is_u64 (aer_term r);
  rt_state : forall w x w', good w -> rf_state raft w = Some (x, w') -> good w';
  rt_Propose : forall e w st w', good w -> rf_Propose raft e w = Some (st, w') -> good w';
  rt_Confirm : forall w b w', good w -> rf_ConfirmLeadershipQuorum raft w = Some (b, w') -> good w'
}.

Definition handler_typed (good : W -> Prop) h : Prop :=
  match raft_ h with Some raft => raft_typed good raft | None => True end.

(** What a response to [req] may carry. *)
Record client_answer h (req : ClientRequest) (resp : ClientResponse) : Prop := {
  ca_id : cresp_request_id resp = creq_request_id req;
  ca_hint : is_u32 (cresp_leader_hint resp);
  ca_value : cresp_value resp <> [] -> creq_opcode req = Opcode.kGet /\ cresp_status resp = ResponseStatus.kOk;
  ca_hinted : cresp_leader_hint resp <> 0 -> cresp_status resp = ResponseStatus.kWrongLeader;
  ca_wrong : cresp_status resp = ResponseStatus.kWrongLeader -> is_Some (raft_ h)
}.

Lemma respond_answer h req status :
  status <> ResponseStatus.kWrongLeader -> client_answer h req (respond req status).
Proof. intros Hs. constructor; cbn; (done || lia). Qed.

Lemma wrong_leader_answer good h raft req w resp w' :
  raft_typed good raft -> raft_ h = Some raft -> good w -> wrong_leader raft req w = Some (resp, w') -> client_answer h req resp.
Proof.
  intros Ht Hr Hg. unfold wrong_leader. destruct (rf_leader_id raft w) as [[id w1]|] eqn:E; [|done].
  intros [= <- <-]. constructor; cbn; try done. by eapply rt_leader.
Qed.

Lemma ToResponseStatus_local c : ToResponseStatus c <> ResponseStatus.kWrongLeader.
Proof. by destruct c. Qed.

Lemma read_answer h req w resp w' :
  creq_opcode req = Opcode.kGet -> read h req w = Some (resp, w') -> client_answer h req resp.
Proof.
  intros Ho. unfold read. destruct (st_Get _ _ w) as [[[v|st] w1]|]; [| |done]; intros [= <- <-].
  - constructor; cbn; (done || lia).
  - apply respond_answer, ToResponseStatus_local.
Qed.

Lemma propose_answer good h raft req e w resp w' :
  raft_typed good raft -> raft_ h = Some raft -> good w -> propose raft req e w = Some (resp, w') -> client_answer h req resp.
Proof.
  intros Ht Hr Hg. unfold propose. destruct (rf_Propose raft e w) as [[st w1]|] eqn:E; [|done]. cbn [mbind option_bind].
  destruct (Status_ok st); [intros [= <- <-]; by apply respond_answer|].
  case_bool_decide; [apply (wrong_leader_answer good); [done|done|by eapply rt_Propose]|]. intros [= <- <-]. by apply respond_answer.
Qed.

Lemma IsLeader_good good h raft w b w' :
  raft_typed good raft -> raft_ h = Some raft -> good w -> IsLeader h w = Some (b, w') -> good w'.
Proof.
  intros Ht Hr Hg. unfold IsLeader. rewrite Hr. destruct (rf_state raft w) as [[x w1]|] eqn:E; [|done].
  intros [= _ <-]. by eapply rt_state.
Qed.

Lemma read_refused_good good h raft w b w' :
  raft_typed good raft -> raft_ h = Some raft -> good w -> read_refused h raft w = Some (b, w') -> good w'.
Proof.
  intros Ht Hr Hg. unfold read_refused. destruct (allow_stale_reads_ h); [by intros [= _ <-]|].
  destruct (IsLeader h w) as [[l w1]|] eqn:El; [|done]. cbn [mbind option_bind].
  pose proof (IsLeader_good good h raft w l w1 Ht Hr Hg El) as Hg1. destruct (negb l); [by intros [= _ <-]|].
  destruct (rf_ConfirmLeadershipQuorum raft w1) as [[c w2]|] eqn:Ec; [|done]. intros [= _ <-]. by eapply rt_Confirm.
Qed.

Lemma Handle_answer good h req w resp w' :
  handler_typed good h -> good w -> Handle h req w = Some (resp, w') -> client_answer h req resp.
Proof.
  unfold handler_typed, Handle. intros Ht Hg.
  destruct (if _ || _ then _ else _) as [[leader w1]|] eqn:El; [|done]. cbn [mbind option_bind].
  destruct (raft_ h) as [raft|] eqn:Er.
  - assert (Hg1 : good w1) by (destruct (_ || _); [by eapply IsLeader_good|by injection El as _ <-]).
    destruct (negb leader); [by apply (wrong_leader_answer good)|].
    destruct (creq_opcode req) eqn:Eo; [by apply (propose_answer good)| |by apply (propose_answer good)|
      intros [= <- <-]; by apply respond_answer].
    destruct (read_refused h raft w1) as [[[] w2]|] eqn:Ef; [|by apply read_answer|done].
    apply (wrong_leader_answer good); [done|done|by eapply read_refused_good].
  - destruct (creq_opcode req) eqn:Eo.
    + destruct (st_Set _ _ _ w1) as [[st w2]|]; [|done]. intros [= <- <-]. apply respond_answer, ToResponseStatus_local.
    + by apply read_answer.
    + destruct (st_Delete _ _ w1) as [[st w2]|]; [|done]. intros [= <- <-]. apply respond_answer, ToResponseStatus_local.
    + intros [= <- <-]. by apply respond_answer.
Qed.

(** Bodies of answers to cluster requests are short. *)
Record cluster_answer (req : ClusterRequest) (resp : ClusterResponse) : Prop := {
  ka_id : clresp_request_id resp = clreq_request_id req;
  ka_body : zlen (clresp_body resp) <= 9
}.

Lemma HandleCluster_answer h req w resp w' :
  HandleCluster h req w = Some (resp, w') -> cluster_answer req resp.
Proof.
  unfold HandleCluster. intros E.
  assert (Hbad : forall r x, Some (cluster_respond req ResponseStatus.kBadRequest [], w) = Some (r, x) -> cluster_answer req r)
    by (intros r x [= <- <-]; by constructor).
  destruct (clreq_opcode req); [injection E as <- <-; by constructor|by eapply Hbad| |];
    (destruct (raft_ h) as [raft|]; [|by eapply Hbad]).
  - destruct (DecodeRequestVoteRequest _ _) as [[st q]|]; [|done]. destruct (negb _); [by eapply Hbad|].
    destruct (rf_HandleRequestVote raft q w) as [[r w1]|]; [|done]. injection E as <- <-. constructor; [done|].
    cbn [clresp_body cluster_respond]. unfold EncodeRequestVoteResponse, WriteU8. autorewrite with nkv_write zlen. lia.
  - destruct (DecodeAppendEntriesRequest _ _ _) as [[st q]|]; [|done]. destruct (negb _); [by eapply Hbad|].
    destruct (rf_HandleAppendEntries raft q w) as [[r w1]|]; [|done]. injection E as <- <-. constructor; [done|].
    cbn [clresp_body cluster_respond]. unfold EncodeAppendEntriesResponse, WriteU8. autorewrite with nkv_write zlen. lia.
Qed.

Lemma cluster_answer_encodable req resp :
  cluster_answer req resp -> is_u64 (clreq_request_id req) ->
  fields_fit (MClusterResponse resp) /\ encodable (MClusterResponse resp).
Proof.
  intros [Hid Hb] Hr. split; [cbn; by rewrite Hid|]. split; [|done]. cbn [payload_of].
  rewrite zlen_payload_ClusterResponse. unfold kMaxPayloadSize. lia.
Qed.

(** A response to a client is encodable unless its value is larger than a frame allows. *)
Lemma client_answer_encodable h req resp :
  client_answer h req resp -> is_u64 (creq_request_id req) -> zlen (cresp_value resp) + 18 <= kMaxPayloadSize ->
  fields_fit (MClientResponse resp) /\ encodable (MClientResponse resp).
Proof.
  intros [Hid Hh _ _ _] Hr Hv. split; [cbn; by rewrite Hid|]. split; [|done]. cbn [payload_of].
  rewrite zlen_payload_ClientResponse. lia.
Qed.

(** C29: every answer is a response to its request that the protocol can carry. The
    response has the request's id; only a GET that succeeded carries a value, only
    a refusal for another leader carries a hint, and only a node of a cluster refuses so.
    All fields fit their widths. Every cluster response can be encoded; a client response
    can unless its value alone is too large for a frame. The node's own fields are assumed
    to have their C++ widths ([node_raft_typed] of RaftTyped.v proves it of the Raft node). *)
Theorem handled_requests_typed good h :
  handler_typed good h ->
  (forall req w resp w', good w -> is_u64 (creq_request_id req) -> Handle h req w = Some (resp, w') ->
     client_answer h req resp /\
     (zlen (cresp_value resp) + 18 <= kMaxPayloadSize -> fields_fit (MClientResponse resp) /\ encodable (MClientResponse resp))) /\
  (forall req w resp w', is_u64 (clreq_request_id req) -> HandleCluster h req w = Some (resp, w') ->
     cluster_answer req resp /\ fields_fit (MClusterResponse resp) /\ encodable (MClusterResponse resp)).
Proof.
  intros Ht. split; [intros req w resp w' Hg Hid E|intros req w resp w' Hid E].
  - apply (Handle_answer good) in E; [|done|done]. split; [done|]. intros Hv. by eapply client_answer_encodable.
  - apply HandleCluster_answer in E. split; [done|]. by eapply cluster_answer_encodable.
Qed.

End Typed.

(** A follower that knows its leader, with an empty store. *)
Definition example_follower : RequestHandler unit :=
  mkRequestHandler {|
      st_Set key value w := Some (Status_Ok, w);
      st_Get key w := Some (Failed (Status_Error ErrorCode.kNotFound []), w);
      st_Delete key w := Some (Status_Ok, w) |}
    (Some {|
      rf_state w := Some (RaftState.kFollower, w);
      rf_leader_id w := Some (2, w);
      rf_Propose entry w := Some (Status_Error ErrorCode.kInvalidArgument [], w);
      rf_ConfirmLeadershipQuorum w := Some (false, w);
      rf_HandleRequestVote q w := Some (mkRequestVoteResponse 7 true, w);
      rf_HandleAppendEntries q w := Some (mkAppendEntriesResponse 7 true, w);
      rf_reserve n := true |}) false.
