(* ===== verification/RaftService.v ===== *)
(** * The request handler on a Raft node

    The interface that Handler.v uses, implemented by one node of a cluster: the calls of
    [Propose], [ConfirmLeadershipQuorum] and of the RPC handlers from beginning to end,
    with what the other threads and the other processes do between the stretches under the
    node's mutex given by a script of turns. Theorems: what a write acknowledged to a
    client guarantees, and what a GET confirmed by a quorum does not. *)

From Stdlib Require Import Strings.String.
From S2P Require Import Prelude Common BigEndian Codec Crc32 Os WalRecord ShardedKV WalWriter DurableStorage.
From S2P Require Import RaftTypes RaftLog ClusterConfig RaftNode RaftNodeSpec RaftCluster RaftGhost.
From S2P Require Import RaftInvariant RaftCompleteness RaftSteps RaftSafety RaftReplica RaftTraces RaftApplied Handler.

(** ** The world of a node *)

Section Service.
Context {R : Type} `{ReplicaOps R}.

(** One turn of the others, the clock after it, and the answer to the append request or the
    vote request under way that has arrived by then ([None]: the RPC failed). *)
Record Turn := mkTurn {
  tn_events : list (Event R);
  tn_clk : Clock;
  tn_reply : option AppendEntriesResponse;
  tn_vote : option RequestVoteResponse
}.

Record World := mkWorld {
  wd_cluster : Cluster R;
  wd_turns : list Turn
}.

(** [run] says which sequences of events the others may take. *)
Context (run : list (Event R) -> Cluster R -> option (Cluster R)) (i : Z).
Implicit Types (w : World) (n : RaftNode R).

(** When the script is used up the call does not return. *)
Definition turn w : option (Turn * World) :=
  t ← head (wd_turns w);
  c ← run (tn_events t) (wd_cluster w);
  Some (t, mkWorld c (tail (wd_turns w))).

Definition the_node w : option (RaftNode R) := nodes (wd_cluster w) !! i.
Definition put n w : World := mkWorld (set_node i n (wd_cluster w)) (wd_turns w).
Definition sent m w : World := mkWorld (send m (wd_cluster w)) (wd_turns w).

(** An accessor: a stretch under the mutex that changes nothing. *)
Definition observe {A} (f : RaftNode R -> A) w : option (A * World) :=
  '(_, w) ← turn w; n ← the_node w; Some (f n, w).

(** The messages sent since the network held [before] of them. *)
Definition sent_since (before : nat) w : list Msg :=
  take (length (net (wd_cluster w)) - before) (net (wd_cluster w)).

(** [SendRpc] opens a connection of its own, so the answer, if one arrives, is one that the
    peer gave to this request after it was sent. *)
Definition answered (p : Z) (req : AppendEntriesRequest) (before : nat) (t : Turn) w : option unit :=
  match tn_reply t with
  | None => Some ()
  | Some resp => guard (bool_decide (MAppResp p req resp ∈ sent_since before w))
  end.

Definition ReplicateToPeer (p : Z) w : option World :=
  '(_, w) ← turn w;
  n ← the_node w;
  match ReplicateToPeer_request p n with
  | (None, n) => Some (put n w)
  | (Some req, n) =>
      if rpc_sent req then
        let w := sent (MAppReq p req) (put n w) in
        '(t, w') ← turn w;
        answered p req (length (net (wd_cluster w))) t w';;
        n ← the_node w';
        n ← ReplicateToPeer_reply (tn_clk t) p req (tn_reply t) n;
        Some (put n w')
      else Some (put n w)
  end.

Fixpoint replicate_all (ps : list Z) w : option World :=
  match ps with
  | [] => Some w
  | p :: ps => w ← ReplicateToPeer p w; replicate_all ps w
  end.

Definition Propose (entry : LogEntry) w : option (Status * World) :=
  '(_, w) ← turn w;
  n ← the_node w;
  '(result, n) ← Propose_append entry n;
  let w := put n w in
  match result with
  | Failed status => Some (status, w)
  | Value index =>
      w ← replicate_all (node_id <$> other_peers n) w;
      '(_, w) ← turn w;
      n ← the_node w;
      Some (Propose_answer (Propose_ready index n) index n, w)
  end.

(** The loop over the peers, and the comparison after it. *)
Fixpoint confirm_peers (majority term : Z) (ps : list Z) (acks : Z) w : option (bool * World) :=
  match ps with
  | [] => Some (majority <=? acks, w)
  | p :: ps =>
      '(_, w) ← turn w;
      n ← the_node w;
      match ConfirmLeadershipQuorum_request term p n with
      | (None, n) => Some (false, put n w)
      | (Some req, n) =>
          let w := sent (MAppReq p req) (put n w) in
          '(t, w') ← turn w;
          answered p req (length (net (wd_cluster w))) t w';;
          n ← the_node w';
          match ConfirmLeadershipQuorum_reply (tn_clk t) term p acks (tn_reply t) n with
          | (None, n) => Some (false, put n w')
          | (Some acks, n) => confirm_peers majority term ps acks (put n w')
          end
      end
  end.

Definition ConfirmLeadershipQuorum w : option (bool * World) :=
  '(t, w) ← turn w;
  n ← the_node w;
  match ConfirmLeadershipQuorum_begin (now (tn_clk t)) n with
  | ConfirmReturn b => Some (b, w)
  | ConfirmAsk term => confirm_peers (majority n) term (node_id <$> other_peers n) 1 w
  end.

(** The RPC handlers, called with what came over a connection. *)
Definition serve_vote (req : RequestVoteRequest) w : option (RequestVoteResponse * World) :=
  '(t, w) ← turn w;
  n ← the_node w;
  let '(resp, n) := HandleRequestVote (tn_clk t) (tn_clk t) req n in
  Some (resp, put n w).

Definition serve_append (req : AppendEntriesRequest) w : option (AppendEntriesResponse * World) :=
  '(t, w) ← turn w;
  n ← the_node w;
  '(resp, n) ← HandleAppendEntries (tn_clk t) (tn_clk t) req n;
  Some (resp, put n w).

Definition node_raft (reserve : Z -> bool) : RaftOps World := {|
  rf_state := observe state_;
  rf_leader_id := observe leader_id_;
  rf_Propose := Propose;
  rf_ConfirmLeadershipQuorum := ConfirmLeadershipQuorum;
  rf_HandleRequestVote := serve_vote;
  rf_HandleAppendEntries := serve_append;
  rf_reserve := reserve
|}.

(** The store that the node and the handler share. *)
Definition on_store {A} (f : R -> option (A * R)) w : option (A * World) :=
  '(_, w) ← turn w;
  n ← the_node w;
  '(a, r) ← f (replica_ n);
  Some (a, put (set_replica r n) w).

Definition node_storage (st : StorageOps R) : StorageOps World := {|
  st_Set := fun k v => on_store (st_Set st k v);
  st_Get := fun k => on_store (st_Get st k);
  st_Delete := fun k => on_store (st_Delete st k)
|}.

Definition node_handler (st : StorageOps R) (reserve : Z -> bool) (allow_stale_reads : bool)
    : RequestHandler World :=
  mkRequestHandler (node_storage st) (Some (node_raft reserve)) allow_stale_reads.

End Service.

Arguments Turn R : clear implicits.
Arguments World R : clear implicits.

Lemma answered_sent {R} `{ReplicaOps R} p req before (t : Turn R) w resp :
  answered p req before t w = Some () -> tn_reply t = Some resp ->
  MAppResp p req resp ∈ sent_since before w /\ MAppResp p req resp ∈ net (wd_cluster w).
Proof.
  unfold answered. intros Ha Hr. rewrite Hr in Ha. unfold guard in Ha. case_bool_decide as Hin; [|done].
  split; [done|]. unfold sent_since in Hin. apply (subseteq_take _ _ _ Hin).
Qed.

(** ** Acknowledged writes *)

Section Acknowledged.
Context {R : Type} `{ReplicaLaws R}.
Context (members : list PeerInfo) (run : list (Event R) -> Cluster R -> option (Cluster R)) (i : Z).
Implicit Types (w : World R) (n : RaftNode R) (c : Cluster R).

Abbreviation ids := (node_id <$> members).

(** Far from the bounds of indices and terms. *)
Definition in_bounds n : Prop := zlen (log_entries n) < 2 ^ 62 /\ current_term_ n + 1 < 2 ^ 64.

(** The others do what the safety theorems allow, and node [i] stays up and in bounds. *)
Definition schedules : Prop :=
  forall evs c c', run evs c = Some c' -> runs_up (eq i) c c' /\ forall n, nodes c' !! i = Some n -> in_bounds n.

Context (Hmembers : members_ok members) (Hrun : schedules) (c0 : Cluster R) (Hinit : initial members c0).

Definition reached w : Prop := runs c0 (wd_cluster w).
Definition stays w w' : Prop := runs_up (eq i) (wd_cluster w) (wd_cluster w').

Lemma stays_trans w1 w2 w3 : stays w1 w2 -> stays w2 w3 -> stays w1 w3.
Proof. apply runs_up_trans. Qed.

Lemma stays_step ev w w' :
  allowed ev (wd_cluster w) -> spares (eq i) ev -> exec ev (wd_cluster w) = Some (wd_cluster w') -> stays w w'.
Proof. intros. econstructor; [done|done|done|constructor]. Qed.

Lemma reached_stays w w' : reached w -> stays w w' -> reached w'.
Proof. intros Hr Hs. eapply runs_trans; [exact Hr|by eapply runs_up_runs]. Qed.

Lemma reached_inv {St : Strength} w :
  reached w -> (strict -> commits_covered (wd_cluster w)) -> exists g, Inv members (wd_cluster w) g.
Proof.
  intros Hr Hcov. destruct (runs_inv members c0 _ _ Hmembers (initial_inv members c0 Hinit) Hr Hcov) as (g & _ & HI). by exists g.
Qed.

Lemma reached_any w : reached w -> exists g, Inv (St := every_run) members (wd_cluster w) g.
Proof. intros Hr. by apply reached_inv. Qed.

Lemma reached_covered w :
  reached w -> commits_covered (wd_cluster w) -> exists g, Inv (St := covered_run) members (wd_cluster w) g.
Proof. intros Hr Hcov. by apply reached_inv. Qed.

Lemma stays_covered w w' : stays w w' -> commits_covered (wd_cluster w') -> commits_covered (wd_cluster w).
Proof. intros Hs. by apply covered_before, runs_up_runs with (eq i). Qed.

Lemma turn_stays w t w' : turn run w = Some (t, w') -> stays w w'.
Proof.
  unfold turn. destruct (head (wd_turns w)) as [t'|]; [|done]. cbn [mbind option_bind].
  destruct (run (tn_events t') (wd_cluster w)) as [c'|] eqn:E; [|done]. cbn [mbind option_bind]. intros [= _ <-].
  by apply (Hrun _ _ _ E).
Qed.

Lemma turn_in_bounds w t w' n : turn run w = Some (t, w') -> the_node i w' = Some n -> in_bounds n.
Proof.
  unfold turn. destruct (head (wd_turns w)) as [t'|]; [|done]. cbn [mbind option_bind].
  destruct (run (tn_events t') (wd_cluster w)) as [c'|] eqn:E; [|done]. cbn [mbind option_bind]. intros [= _ <-].
  apply (Hrun _ _ _ E).
Qed.

(** A node put back unchanged. *)
Lemma put_same n w : the_node i w = Some n -> stays w (put i n w).
Proof.
  intros Hn. unfold stays, put. destruct w as [[ns els nt] ts]. unfold the_node, set_node in *.
  cbn [wd_cluster nodes elections net] in *. rewrite insert_id by done. constructor.
Qed.

Lemma ReplicateToPeer_stays p w w' :
  reached w -> p ∈ ids -> p <> i -> ReplicateToPeer run i p w = Some w' -> stays w w'.
Proof.
  intros Hr Hp Hpi. unfold ReplicateToPeer. destruct (turn run w) as [[t1 w1]|] eqn:E1; [|done]. cbn [mbind option_bind].
  apply turn_stays in E1. destruct (the_node i w1) as [n1|] eqn:Hn1; [|done]. cbn [mbind option_bind].
  destruct (reached_any w1) as (g1 & HI1); [by eapply reached_stays|].
  pose proof (inv_nodes _ _ _ HI1 _ _ Hn1) as Hni1.
  assert (Hex : exec (EvReplicate i p) (wd_cluster w1) =
    match ReplicateToPeer_request p n1 with
    | (Some req, n) =>
        Some (if rpc_sent req then send (MAppReq p req) (set_node i n (wd_cluster w1)) else set_node i n (wd_cluster w1))
    | (None, n) => Some (set_node i n (wd_cluster w1))
    end).
  { cbn [exec]. unfold the_node in Hn1. rewrite Hn1. cbn [mbind option_bind].
    rewrite bool_decide_true by (by apply (other_ids members g1 i n1 p Hni1)). done. }
  destruct (ReplicateToPeer_request p n1) as [[req|] n2] eqn:Eq.
  2: { intros [= <-]. eapply stays_trans; [exact E1|]. by apply (stays_step (EvReplicate i p)). }
  destruct (rpc_sent req).
  2: { intros [= <-]. eapply stays_trans; [exact E1|]. by apply (stays_step (EvReplicate i p)). }
  assert (Hid : aeq_leader_id req = i).
  { unfold ReplicateToPeer_request in Eq. destruct (negb _); [done|]. unfold next_index_at, prev_of in Eq.
    injection Eq as <- _. apply Hni1. }
  assert (E2 : stays w1 (sent (MAppReq p req) (put i n2 w1))) by (by apply (stays_step (EvReplicate i p))).
  destruct (turn run (sent _ _)) as [[t2 w2]|] eqn:E3; [|done]. cbn [mbind option_bind]. apply turn_stays in E3.
  destruct (answered p req _ t2 w2) as [[]|] eqn:Ea; [|done]. cbn [mbind option_bind].
  destruct (the_node i w2) as [n3|] eqn:Hn3; [|done]. cbn [mbind option_bind].
  destruct (ReplicateToPeer_reply _ _ _ _ _) as [n4|] eqn:Er; [|done]. cbn [mbind option_bind]. intros [= <-].
  eapply stays_trans; [exact E1|]. eapply stays_trans; [exact E2|]. eapply stays_trans; [exact E3|].
  destruct (tn_reply t2) as [resp|] eqn:Et2; [|cbn in Er; injection Er as <-; by apply put_same].
  destruct (answered_sent _ _ _ _ _ _ Ea Et2) as [_ Hin].
  apply (stays_step (EvAppendReply i p req resp (tn_clk t2))); [done|done|]. cbn [exec].
  unfold the_node in Hn3. rewrite Hn3. cbn [mbind option_bind]. rewrite bool_decide_true by done.
  rewrite Hid, Z.eqb_refl. cbn [andb guard mbind option_bind]. by rewrite Er.
Qed.

Lemma replicate_all_stays ps w w' :
  reached w -> (forall p, p ∈ ps -> p ∈ ids /\ p <> i) -> replicate_all run i ps w = Some w' -> stays w w'.
Proof.
  revert w. induction ps as [|p ps IH]; intros w Hr Hps; cbn [replicate_all]; [intros [= <-]; constructor|].
  destruct (ReplicateToPeer run i p w) as [w1|] eqn:E; [|done]. cbn [mbind option_bind]. intros Hall.
  destruct (Hps p) as [Hp Hpi]; [apply elem_of_cons; by left|].
  pose proof (ReplicateToPeer_stays p w w1 Hr Hp Hpi E) as Hs. eapply stays_trans; [exact Hs|].
  apply IH; [by eapply reached_stays| |done]. intros q Hq. apply Hps, elem_of_cons. by right.
Qed.

(** [Propose] that answered success: where it put the entry, and that the node stayed up. *)
Lemma Propose_ok e w st w' :
  reached w ->
  storable (mkLogEntry 0 0 (le_op e) (le_key e) (le_value e)) ->
  Propose run i e w = Some (st, w') -> Status_ok st = true ->
  exists w1 n1 w2 n2 n', stays w w1 /\ the_node i w1 = Some n1 /\ state_ n1 = RaftState.kLeader /\
    stays w1 w2 /\ the_node i w2 = Some n2 /\ state_ n2 = RaftState.kLeader /\ current_term_ n2 = current_term_ n1 /\
    log_entries n2 = log_entries n1 ++ [proposed e n1] /\ stays w2 w' /\ the_node i w' = Some n' /\
    zlen (log_entries n2) <= last_applied n'.
Proof.
  intros Hr Hst. unfold Propose. destruct (turn run w) as [[t1 w1]|] eqn:E1; [|done]. cbn [mbind option_bind].
  pose proof (fun n => turn_in_bounds _ _ _ n E1) as Hlen.
  apply turn_stays in E1. destruct (the_node i w1) as [n1|] eqn:Hn1; [|done]. cbn [mbind option_bind].
  destruct (Hlen n1 eq_refl) as [Hlen1 _]. destruct (reached_any w1) as (g1 & HI1); [by eapply reached_stays|].
  pose proof (inv_nodes _ _ _ HI1 _ _ Hn1) as Hni1.
  assert (Hst1 : storable (mkLogEntry (current_term_ n1) 0 (le_op e) (le_key e) (le_value e))).
  { destruct Hst as (_ & Hst). split; [|exact Hst]. by destruct (ni_ok _ _ _ _ Hni1) as [_ _ [? _]]. }
  destruct (Propose_append_spec e n1 (ni_ok _ _ _ _ Hni1) Hst1) as [[_ E]|[Hl (r & E & Hok & He & Ha)]]; [lia| |];
    rewrite E; cbn [mbind option_bind]; [by intros [= <- <-]|].
  set (n2 := set_replica r n1) in *. assert (E2 : stays w1 (put i n2 w1)).
  { apply (stays_step (EvPropose i e)); [|done|].
    - intros n Hn. unfold the_node in Hn1. replace n with n1 by congruence. done.
    - cbn [exec]. unfold the_node in Hn1. rewrite Hn1. cbn [mbind option_bind]. by rewrite E. }
  assert (Hn2 : the_node i (put i n2 w1) = Some n2) by (unfold the_node, put; cbn; apply lookup_insert_eq).
  assert (Hr2 : reached (put i n2 w1)) by (eapply reached_stays; [by eapply reached_stays|exact E2]).
  destruct (replicate_all _ _ _ _) as [w3|] eqn:E3; [|done]. cbn [mbind option_bind].
  apply replicate_all_stays in E3; [|done|intros p Hp; by apply (other_ids members g1 i n1 p Hni1)].
  destruct (turn run w3) as [[t4 w4]|] eqn:E4; [|done]. cbn [mbind option_bind]. apply turn_stays in E4.
  destruct (the_node i w4) as [n4|] eqn:Hn4; [|done]. cbn [mbind option_bind]. intros [= <- <-] Hans.
  exists w1, n1, (put i n2 w1), n2, n4. split; [done|]. split; [done|]. split; [done|]. split; [done|]. split; [done|].
  split; [done|]. split; [done|]. split; [exact He|]. split; [by eapply stays_trans|]. split; [done|].
  assert (Hl2 : log_entries n2 = log_entries n1 ++ [proposed e n1]) by exact He. rewrite Hl2. autorewrite with zlen.
  unfold Propose_answer, last_applied in *. destruct (negb _); [done|].
  destruct (Z.ltb_spec (rep_last_applied_index (replica_ n4)) (zlen (log_entries n1) + 1)); [done|]. lia.
Qed.

Lemma stays_advances w w' n :
  reached w -> stays w w' -> commits_covered (wd_cluster w') -> the_node i w = Some n ->
  exists n', the_node i w' = Some n' /\ advances (St := covered_run) n n'.
Proof.
  intros Hr Hs Hcov Hn. destruct (reached_covered w Hr) as (g & HI); [by eapply stays_covered|].
  destruct (runs_up_applied members Hmembers (eq i) i _ _ g n HI Hs Hcov eq_refl Hn) as (m & Hm & Ha & _). by exists m.
Qed.

(** While the node leads one term, a successful [Propose] has committed its entry. *)
Lemma Propose_commits e w st w' n n' :
  reached w -> storable (mkLogEntry 0 0 (le_op e) (le_key e) (le_value e)) ->
  Propose run i e w = Some (st, w') -> Status_ok st = true -> commits_covered (wd_cluster w') ->
  the_node i w = Some n -> last_applied n <= commit_index_ n ->
  the_node i w' = Some n' -> state_ n' = RaftState.kLeader -> current_term_ n' <= current_term_ n ->
  reached w' /\ exists index, 1 <= index <= commit_index_ n' /\
    log_entries n' !! Z.to_nat (index - 1) = Some (mkLogEntry (current_term_ n') index (le_op e) (le_key e) (le_value e)).
Proof.
  intros Hr Hst HP Hok Hcov Hn Hap Hn' Hl' Ht'.
  destruct (Propose_ok e w st w' Hr Hst HP Hok) as
    (w1 & n1 & w2 & n2 & m & S1 & Hn1 & Hl1 & S2 & Hn2 & Hl2 & Ht2 & Hlog & S3 & Hm & Hidx).
  assert (m = n') as -> by (unfold the_node in *; congruence).
  assert (Hr1 : reached w1) by (by eapply reached_stays). assert (Hr2 : reached w2) by (by eapply reached_stays).
  assert (Hr' : reached w') by (by eapply reached_stays). split; [exact Hr'|].
  pose proof (stays_covered _ _ S3 Hcov) as Hcov2. pose proof (stays_covered _ _ S2 Hcov2) as Hcov1.
  destruct (stays_advances w w1 n Hr S1 Hcov1 Hn) as (n1' & Hn1' & T1 & A1).
  destruct (stays_advances w1 w2 n1 Hr1 S2 Hcov2 Hn1) as (n2' & Hn2' & T2 & A2).
  destruct (stays_advances w2 w' n2 Hr2 S3 Hcov Hn2) as (n3' & Hn3' & T3 & A3). simplify_eq.
  specialize (A1 I). specialize (A2 I). specialize (A3 I).
  assert (Hpre : log_entries n2 `prefix_of` log_entries n').
  { eapply (leader_log_grows members c0 (wd_cluster w2) (wd_cluster w') i); try done; [by eapply runs_up_runs|lia]. }
  exists (zlen (log_entries n2)). rewrite Hlog in *. autorewrite with zlen in *. pose proof (zlen_nonneg (log_entries n1)).
  split; [lia|]. eapply prefix_lookup_Some; [|exact Hpre].
  replace (Z.to_nat (zlen (log_entries n1) + 1 - 1)) with (length (log_entries n1)) by (unfold zlen; lia).
  rewrite lookup_app_r, Nat.sub_diag by lia. cbn. unfold proposed. do 2 f_equal. lia.
Qed.

End Acknowledged.

(** The entry a request asks to be written. *)
Definition write_of (req : ClientRequest) : option LogEntry :=
  match creq_opcode req with
  | Opcode.kSet => Some (mkLogEntry 0 0 WalOp.kSet (creq_key req) (creq_value req))
  | Opcode.kDelete => Some (mkLogEntry 0 0 WalOp.kDelete (creq_key req) [])
  | _ => None
  end.

Lemma storable_unset e : storable e -> storable (mkLogEntry 0 0 (le_op e) (le_key e) (le_value e)).
Proof. intros [_ Hst]. split; [cbn; lia|exact Hst]. Qed.

(** A write on a node goes through [Propose]. *)
Lemma Handle_write {R} `{ReplicaOps R} run i st reserve stale req e (w w' : World R) resp :
  write_of req = Some e -> Handle (node_handler run i st reserve stale) req w = Some (resp, w') ->
  cresp_status resp = ResponseStatus.kOk ->
  exists t w1 status, turn run w = Some (t, w1) /\ Propose run i e w1 = Some (status, w') /\ Status_ok status = true.
Proof.
  intros He HH Hok.
  assert (Hprop : exists t w1, turn run w = Some (t, w1) /\
    (propose (node_raft run i reserve) req e w1 = Some (resp, w') \/
     wrong_leader (node_raft run i reserve) req w1 = Some (resp, w'))).
  { unfold Handle, write_of in *. destruct (creq_opcode req); try done; injection He as <-; cbn in HH;
      unfold observe in HH; destruct (turn run w) as [[t w1]|] eqn:Et; try done; cbn in HH;
      destruct (the_node i w1) as [n|]; try done; cbn in HH; exists t, w1; (split; [done|]);
      destruct (bool_decide (state_ n = RaftState.kLeader)); [by left|by right|by left|by right]. }
  assert (Hwl : forall v, wrong_leader (node_raft run i reserve) req v = Some (resp, w') -> False).
  { intros v. unfold wrong_leader. destruct (rf_leader_id _ v) as [[l v']|]; [|done]. cbn. intros [= <- _]. done. }
  destruct Hprop as (t & w1 & Et & [Hp|Hw]); [|by apply Hwl in Hw]. exists t, w1.
  unfold propose in Hp. cbn [rf_Propose node_raft] in Hp.
  destruct (Propose run i e w1) as [[status w2]|] eqn:EP; [|done]. cbn [mbind option_bind] in Hp.
  destruct (Status_ok status) eqn:Es; [injection Hp as <- <-; by exists status|].
  destruct (bool_decide _); [by apply Hwl in Hp|]. injection Hp as <- _. done.
Qed.

(** Acknowledged writes are committed, in a run whose append requests announce no commit
    index beyond what they cover. When the handler on a node answers kOk to a SET or DELETE
    and the node, up all the time and without applied entries beyond its commit index, still
    leads the term it led before, the entry is committed at some index of its log; and
    whatever happens afterwards, crashes between critical sections included, a majority of
    the members has the entry at that index of its stored log. *)
Theorem acknowledged_write_committed {R} `{ReplicaLaws R} (members : list PeerInfo) run i st reserve stale
    (c0 : Cluster R) req e (w w' : World R) resp n n' :
  members_ok members -> schedules run i -> initial members c0 -> runs c0 (wd_cluster w) ->
  write_of req = Some e -> storable e ->
  Handle (node_handler run i st reserve stale) req w = Some (resp, w') -> cresp_status resp = ResponseStatus.kOk ->
  commits_covered (wd_cluster w') -> the_node i w = Some n -> last_applied n <= commit_index_ n ->
  the_node i w' = Some n' -> state_ n' = RaftState.kLeader -> current_term_ n' = current_term_ n ->
  exists index entry, 1 <= index <= commit_index_ n' /\
    entry = mkLogEntry (current_term_ n) index (le_op e) (le_key e) (le_value e) /\
    log_entries n' !! Z.to_nat (index - 1) = Some entry /\
    forall c, runs (wd_cluster w') c -> commits_covered c -> exists Q, quorum (node_id <$> members) Q /\
      forall v nv, v ∈ Q -> nodes c !! v = Some nv -> log_entries nv !! Z.to_nat (index - 1) = Some entry.
Proof.
  intros Hmem Hrun Hinit Hr He Hst HH Hok Hcov Hn Hap Hn' Hl' Ht'.
  destruct (Handle_write run i st reserve stale req e w w' resp He HH Hok) as (t & w1 & status & Et & EP & Es).
  apply (turn_stays run i Hrun) in Et.
  destruct (Propose_ok members run i Hmem Hrun c0 Hinit e w1 status w') as (w1' & _ & w2 & _ & _ & S1 & _ & _ & S2 & _ & _ & _ & _ & S3 & _);
    [by eapply reached_stays|by apply storable_unset|done|done|].
  assert (Hcov1 : commits_covered (wd_cluster w1)) by (do 3 (eapply stays_covered; [done|]); done).
  destruct (stays_advances members i Hmem c0 Hinit w w1 n Hr Et Hcov1 Hn) as (n1 & Hn1 & T1 & A1). specialize (A1 I).
  assert (Hr1 : reached c0 w1) by (by eapply reached_stays).
  destruct (Propose_commits members run i Hmem Hrun c0 Hinit e w1 status w' n1 n') as (Hr' & index & Hidx & Hent);
    [done|by apply storable_unset|done|done|done|done|lia|done|done|lia|].
  exists index. eexists. split; [exact Hidx|]. split; [done|]. rewrite <- Ht'.
  split; [exact Hent|]. intros c Hc Hcovc.
  destruct (committed_stays members c0 (wd_cluster w') c i n' Hmem Hinit Hr' Hc Hcovc Hn') as (Q & HQ & Hall); [lia|].
  exists Q. split; [done|]. intros v nv Hv Hnv. rewrite <- Hent. specialize (Hall v nv Hv Hnv).
  unfold ztake in Hall. eapply take_prefix_lookup; [exact Hall|lia].
Qed.

(** The store of a replica, as the handler uses it. *)
Section ReplicaStore.
Context `{Libc} {T : Type} `{KvOps T}.

Definition with_storage {A} (r : Replica T) (a : A) (d : DurableStorage T) (s : Sys) : A * Replica T :=
  (a, mkReplica d (rp_entries r) s (rp_state r)).

Definition replica_store : StorageOps (Replica T) := {|
  st_Set := fun k v r => '(st, d, s) ← DurableStorage_Set k v (rp_storage r) (rp_sys r); Some (with_storage r st d s);
  st_Get := fun k r => Some (DurableStorage_Get k (rp_storage r), r);
  st_Delete := fun k r => '(st, d, s) ← DurableStorage_Delete k (rp_storage r) (rp_sys r); Some (with_storage r st d s)
|}.

End ReplicaStore.

(** ** A handler on the cluster of RaftTraces.v *)

#[local] Existing Instance example_libc.
#[local] Existing Instance example_hash.

(** The events that the safety theorems allow, no restart among them. *)
Definition bounded_run {R} `{ReplicaOps R} (i : Z) (evs : list (Event R)) (c : Cluster R) : option (Cluster R) :=
  c ← run_allowed evs c;
  match nodes c !! i with
  | Some n => if (zlen (log_entries n) <? 2 ^ 62) && (current_term_ n + 1 <? 2 ^ 64) then Some c else None
  | None => Some c
  end.

Lemma bounded_run_schedules {R} `{ReplicaLaws R} i : schedules (R := R) (bounded_run i) i.
Proof.
  intros evs c c'. unfold bounded_run. destruct (run_allowed evs c) as [c1|] eqn:E; [|done]. cbn [mbind option_bind].
  intros Hc. assert (c1 = c' /\ forall n, nodes c' !! i = Some n -> in_bounds n) as [-> Hlen].
  { destruct (nodes c1 !! i) as [n|] eqn:En; [destruct (_ && _) eqn:Eb; [|done]|];
      injection Hc as <-; (split; [done|]); intros m Hm; [|congruence].
    replace m with n by congruence. unfold in_bounds. lia. }
  split; [by eapply run_allowed_up|done].
Qed.

(** Linearizable reads: [allow_stale_reads] is false. *)
Definition handler_of (i : Z) : RequestHandler (World (Replica ShardedKV)) :=
  node_handler (bounded_run i) i replica_store (fun _ => true) false.

Definition pause : Turn (Replica ShardedKV) := mkTurn [] clk0 None None.

(** The peer serves the request and its answer of success arrives. *)
Definition served_turn (p : Z) (req : AppendEntriesRequest) : Turn (Replica ShardedKV) :=
  mkTurn [EvAppend p req clk0 clk0] clk0 (Some (mkAppendEntriesResponse (aeq_term req) true)) None.

Definition set_k (v : String.string) : ClientRequest := mkClientRequest 7 Opcode.kSet (str "k") (str v).
Definition get_k : ClientRequest := mkClientRequest 8 Opcode.kGet (str "k") [].

(** Node 1 leads; node 2 and node 3 both take the entry of SET "k" "x". *)
Definition write_turns : list (Turn (Replica ShardedKV)) :=
  [pause; pause; pause; served_turn 2 first_append; pause; served_turn 3 (app_req 1 1 0 0 1 [set_entry 1 1 "x"]); pause].

Definition before_write : World (Replica ShardedKV) := mkWorld elected_end write_turns.

Definition after_write : World (Replica ShardedKV) :=
  default before_write (snd <$> Handle (handler_of 1) (set_k "x") before_write).

Lemma write_acknowledged :
  Handle (handler_of 1) (set_k "x") before_write =
    Some (mkClientResponse 7 ResponseStatus.kOk [] 0, after_write).
Proof. vm_compute. reflexivity. Qed.

Example acknowledged_write_example :
  exists n', the_node 1 after_write = Some n' /\
  exists index entry, 1 <= index <= commit_index_ n' /\
    entry = mkLogEntry 1 index WalOp.kSet (str "k") (str "x") /\
    log_entries n' !! Z.to_nat (index - 1) = Some entry /\
    forall c, runs (wd_cluster after_write) c -> commits_covered c -> exists Q, quorum (node_id <$> three_peers) Q /\
      forall v nv, v ∈ Q -> nodes c !! v = Some nv -> log_entries nv !! Z.to_nat (index - 1) = Some entry.
Proof.
  destruct (role_node 1 elected_end RaftState.kLeader 1) as (n & Hn & Hs & Ht); [vm_compute; reflexivity|].
  destruct (role_node 1 (wd_cluster after_write) RaftState.kLeader 1) as (n' & Hn' & Hs' & Ht'); [vm_compute; reflexivity|].
  assert (Ha : last_applied n <= commit_index_ n).
  { assert (Hv : (n ← nodes elected_end !! 1; Some (last_applied n <=? commit_index_ n)) = Some true)
      by (vm_compute; reflexivity).
    rewrite Hn in Hv. injection Hv as Hv. by apply Z.leb_le. }
  assert (Hst : storable (mkLogEntry 0 0 WalOp.kSet (str "k") (str "x"))) by (apply storableb_ok; reflexivity).
  assert (Htt : current_term_ n' = current_term_ n) by (rewrite Ht, Ht'; reflexivity).
  assert (Hcov : commits_covered (wd_cluster after_write)) by (apply coveredb_ok; vm_compute; reflexivity).
  exists n'. split; [exact Hn'|].
  pose proof (acknowledged_write_committed three_peers (bounded_run 1) 1 replica_store (fun _ => true) false three (set_k "x")
    (mkLogEntry 0 0 WalOp.kSet (str "k") (str "x")) before_write after_write
    (mkClientResponse 7 ResponseStatus.kOk [] 0) n n' three_ok (bounded_run_schedules 1) three_initial elected_runs
    eq_refl Hst write_acknowledged eq_refl Hcov Hn Ha Hn' Hs' Htt) as Hall.
  rewrite Ht in Hall. exact Hall.
Qed.

(** ** Reads that a quorum confirmed *)

(** Node 2 has the entry, but has not heard that it is committed. It wins the election of
    term 2 with the vote of node 3. *)
Definition new_leader_end : Cluster (Replica ShardedKV) :=
  default three (run_allowed (elect 2 2 1 1 [(1, false); (3, true)]) (wd_cluster after_write)).

(** A GET at node 2: node 1 does not answer the quorum check, node 3 does. *)
Definition read_turns : list (Turn (Replica ShardedKV)) :=
  [pause; pause; pause; pause; pause; served_turn 3 (app_req 2 2 1 1 0 []); pause].

(** A linearizable read can miss an acknowledged write. Node 1 answers kOk to a SET;
    then node 2, which stored the entry but does not know it committed, is elected. Its
    quorum check succeeds and it answers kNotFound: a new leader serves reads before it
    has committed an entry of its own term. *)
Theorem new_leader_reads_stale :
  Handle (handler_of 1) (set_k "x") before_write = Some (mkClientResponse 7 ResponseStatus.kOk [] 0, after_write) /\
  run_allowed (elect 2 2 1 1 [(1, false); (3, true)]) (wd_cluster after_write) = Some new_leader_end /\
  fst <$> Handle (handler_of 2) get_k (mkWorld new_leader_end read_turns) =
    Some (mkClientResponse 8 ResponseStatus.kNotFound [] 0) /\
  (view 2 new_leader_end = Some ([set_entry 1 1 "x"], 0, 0, Failed KeyNotFound)) /\
  (view 1 new_leader_end = Some ([set_entry 1 1 "x"], 1, 1, Value (str "x"))).
Proof. vm_compute. done. Qed.

(** Node 2 answers a heartbeat of node 1, is elected in term 2 and takes SET "k" "y", which
    node 3 stores. The answer to the heartbeat is still on its way. *)
Definition heartbeat : AppendEntriesRequest := app_req 1 1 1 1 1 [].

Definition deposing : list (Event (Replica ShardedKV)) :=
  [EvReplicate 1 2; EvAppend 2 heartbeat clk0 clk0] ++ elect 2 2 1 1 [(1, false); (3, true)].

Definition deposed_end : Cluster (Replica ShardedKV) := default three (run_allowed deposing (wd_cluster after_write)).

Definition overwriting : World (Replica ShardedKV) :=
  mkWorld deposed_end
    [pause; pause; pause; pause; pause; served_turn 3 (app_req 2 2 1 1 1 [set_entry 2 2 "y"]); pause].

Definition overwritten : World (Replica ShardedKV) :=
  default overwriting (snd <$> Handle (handler_of 2) (set_k "y") overwriting).

(** Now the answer arrives at node 1, which has not heard of term 2, and a GET after it. *)
Definition later : Clock := mkClock 20000 250.

Definition late_turns : list (Turn (Replica ShardedKV)) :=
  [mkTurn [EvAppendReply 1 2 heartbeat (mkAppendEntriesResponse 1 true) later] later None None; mkTurn [] later None None; pause].

(** Skipping the quorum round is not safe. The time of an acknowledgement is when it
    arrives, not when the peer gave it: an answer that was delayed makes a deposed leader
    serve the old value of a key after the new leader acknowledged another. *)
Theorem delayed_ack_reads_stale :
  fst <$> Handle (handler_of 2) (set_k "y") overwriting = Some (mkClientResponse 7 ResponseStatus.kOk [] 0) /\
  fst <$> Handle (handler_of 1) get_k (mkWorld (wd_cluster overwritten) late_turns) =
    Some (mkClientResponse 8 ResponseStatus.kOk (str "x") 0) /\
  view 2 (wd_cluster overwritten) = Some ([set_entry 1 1 "x"; set_entry 2 2 "y"], 2, 2, Value (str "y")).
Proof. vm_compute. done. Qed.
