(* ===== verification/RaftReads.v ===== *)
(** * Linearizable reads

    When the full round of [ConfirmLeadershipQuorum] succeeds on a leader that has
    committed an entry of its own term, a GET served after it reflects everything that any
    leader had committed before the GET arrived. Both conditions are needed: RaftService.v
    shows stale reads without the first ([delayed_ack_reads_stale], the round skipped) and
    without the second ([new_leader_reads_stale]). *)

From Stdlib Require Import Strings.String.
From S2P Require Import Prelude Common BigEndian Codec Crc32 Os WalRecord ShardedKV WalWriter DurableStorage.
From S2P Require Import RaftTypes RaftLog ClusterConfig RaftNode RaftNodeSpec RaftCluster RaftGhost.
From S2P Require Import RaftInvariant RaftCompleteness RaftSteps RaftSafety RaftReplica RaftTraces RaftApplied Handler.
From S2P Require Import RaftService.

#[local] Existing Instance every_run.

(** ** Terms and answers along a run *)

Section Terms.
Context {R : Type} `{ReplicaLaws R}.
Context (members : list PeerInfo) (Hmembers : members_ok members).
Implicit Types (n : RaftNode R) (c : Cluster R).

(** No event, not even a restart, takes a node back to an earlier term. *)
Lemma step_term ev c g c' p n :
  Inv members c g -> allowed ev c -> exec ev c = Some c' -> nodes c !! p = Some n ->
  exists n', nodes c' !! p = Some n' /\ current_term_ n <= current_term_ n'.
Proof.
  intros HI Hal Hex Hp. assert (Hcase : spares (eq p) ev \/ exists disk clk, ev = EvRestart p disk clk).
  { destruct ev; try (by left). destruct (decide (p = i)) as [<-|]; [right; by do 2 eexists|by left]. }
  destruct Hcase as [Hsp|(disk & clk & ->)].
  - destruct (step_moves members Hmembers (eq p) ev c g c' p n) as (n' & Hn' & (Ht & _) & _); [done..|]. by exists n'.
  - cbn [exec] in Hex. rewrite Hp in Hex. cbn [mbind option_bind] in Hex.
    destruct (restart_spec clk n disk) as (n' & E & _ & _ & _ & _ & Ht & _);
      [apply (inv_nodes _ _ _ HI _ _ Hp)|by apply (Hal n Hp)|].
    rewrite E in Hex. injection Hex as <-. exists n'. cbn. rewrite lookup_insert_eq. split; [done|lia].
Qed.

Lemma runs_term c g c' p n :
  Inv members c g -> runs c c' -> nodes c !! p = Some n ->
  exists n', nodes c' !! p = Some n' /\ current_term_ n <= current_term_ n'.
Proof.
  intros HI Hr. revert g n HI. induction Hr as [c|c ev c1 c2 Hal Hex _ IH]; intros g n HI Hp; [by exists n|].
  destruct (step_term ev c g c1 p n) as (n1 & Hn1 & Ht1); [done..|].
  destruct (step_inv members ev c g c1) as (g1 & _ & HI1); [done..|].
  destruct (IH g1 n1 HI1 Hn1) as (n2 & Hn2 & Ht2). exists n2. split; [done|lia].
Qed.

(** A peer that answers an append request with success is not beyond its term. *)
Definition accepts c (m : Msg) : Prop :=
  match m with
  | MAppResp p req resp =>
      aer_success resp = true -> exists n, nodes c !! p = Some n /\ current_term_ n <= aeq_term req
  | _ => True
  end.

Lemma step_net ev c c' :
  exec ev c = Some c' -> exists new, net c' = new ++ net c /\ Forall (accepts c) new.
Proof.
  intros Hex.
  assert (Hnone : net c' = net c -> exists new, net c' = new ++ net c /\ Forall (accepts c) new) by (intros E; by exists []).
  assert (Hone : forall m, net c' = m :: net c -> accepts c m -> exists new, net c' = new ++ net c /\ Forall (accepts c) new).
  { intros m E Hm. exists [m]. split; [done|by constructor]. }
  destruct ev as [i clk|i|i req clk1 clk2|i resp clk|i time|i p|i req clk1 clk2|i p req resp clk|i e|i p term|
    i p acks req resp clk|i disk clk|i time]; cbn [exec] in Hex.
  2: { destruct (elections c !! i) as [el|]; [|done]. cbn [mbind option_bind] in Hex.
       destruct (head (el_rest el)) as [p|]; [|done]. injection Hex as <-. by eapply Hone. }
  all: destruct (nodes c !! i) as [n|] eqn:Hi; [|done]; cbn [mbind option_bind] in Hex.
  - destruct (guard _); [|done]. cbn in Hex. injection Hex as <-. by apply Hnone.
  - destruct (guard _); [|done]. cbn in Hex. destruct (HandleRequestVote clk1 clk2 req n). injection Hex as <-. by eapply Hone.
  - destruct (elections c !! i) as [el|]; [|done]. cbn [mbind option_bind] in Hex.
    destruct (head (el_rest el)) as [p|]; [|done]. cbn [mbind option_bind] in Hex. destruct (guard _); [|done].
    cbn [mbind option_bind] in Hex. destruct (StartElection_reply _ _ _ _ _) as [[v|] m]; injection Hex as <-; by apply Hnone.
  - destruct (elections c !! i) as [el|]; [|done]. cbn [mbind option_bind] in Hex. destruct (guard _); [|done].
    injection Hex as <-. by apply Hnone.
  - destruct (guard _); [|done]. cbn [mbind option_bind] in Hex.
    destruct (ReplicateToPeer_request p n) as [[rq|] m]; injection Hex as <-;
      [destruct (rpc_sent rq); [by eapply Hone|by apply Hnone]|by apply Hnone].
  - destruct (guard _); [|done]. cbn [mbind option_bind] in Hex.
    destruct (HandleAppendEntries clk1 clk2 req n) as [[rp m]|] eqn:E; [|done]. injection Hex as <-.
    eapply Hone; [done|]. cbn. intros Hs. exists n. split; [done|]. unfold HandleAppendEntries in E.
    destruct (Z.ltb_spec (aeq_term req) (current_term_ n)); [|done]. by injection E as <- _.
  - destruct (guard _); [|done]. cbn [mbind option_bind] in Hex. destruct (ReplicateToPeer_reply _ _ _ _ _); [|done].
    injection Hex as <-. by apply Hnone.
  - destruct (Propose_append e n) as [[rs m]|]; [|done]. injection Hex as <-. by apply Hnone.
  - destruct (guard _); [|done]. cbn [mbind option_bind] in Hex.
    destruct (ConfirmLeadershipQuorum_request term p n) as [[rq|] m]; injection Hex as <-; [by eapply Hone|by apply Hnone].
  - destruct (guard _); [|done]. injection Hex as <-. by apply Hnone.
  - destruct (RaftNode_new _ _ _ _); [|done]. injection Hex as <-. by apply Hnone.
  - injection Hex as <-. by apply Hnone.
Qed.

Lemma runs_accepts c g c' :
  Inv members c g -> runs c c' -> exists new, net c' = new ++ net c /\ Forall (accepts c) new.
Proof.
  intros HI Hr. revert g HI. induction Hr as [c|c ev c1 c2 Hal Hex _ IH]; intros g HI; [by exists []|].
  destruct (step_net ev c c1 Hex) as (new1 & E1 & H1). destruct (step_inv members ev c g c1) as (g1 & _ & HI1); [done..|].
  destruct (IH g1 HI1) as (new2 & E2 & H2). exists (new2 ++ new1). rewrite E2, E1, app_assoc. split; [done|].
  apply Forall_app. split; [|done]. eapply Forall_impl; [exact H2|]. intros [| | |p req resp]; cbn; try done.
  intros Hacc Hs. destruct (Hacc Hs) as (n1 & Hn1 & Ht1).
  destruct (proj2 (inv_dom _ _ _ HI p) (inv_member _ _ _ _ _ HI1 Hn1)) as [n Hn].
  destruct (step_term ev c g c1 p n) as (n1' & Hn1' & Ht); [done..|]. exists n. split; [done|].
  assert (n1' = n1) as -> by congruence. lia.
Qed.

End Terms.

(** ** The round of the quorum check *)

Section Round.
Context {R : Type} `{ReplicaLaws R}.
Context (members : list PeerInfo) (run : list (Event R) -> Cluster R -> option (Cluster R)) (i : Z).
Implicit Types (w : World R) (n : RaftNode R) (c : Cluster R).

Abbreviation ids := (node_id <$> members).

Context (Hmembers : members_ok members) (Hrun : schedules run i) (c0 : Cluster R) (Hinit : initial members c0).

(** The request to a peer, sent. *)
Lemma confirm_request_stays term p w n req n' :
  reached c0 w -> the_node i w = Some n -> p ∈ ids -> p <> i ->
  ConfirmLeadershipQuorum_request term p n = (Some req, n') ->
  stays i w (sent (MAppReq p req) (put i n' w)) /\ aeq_term req = term /\ aeq_leader_id req = i.
Proof.
  intros Hr Hn Hp Hpi Eq. destruct (reached_any members Hmembers c0 Hinit w Hr) as (g & HI).
  pose proof (inv_nodes _ _ _ HI _ _ Hn) as Hni. pose proof (proj2 (other_ids members g i n p Hni) (conj Hp Hpi)) as Hop.
  split.
  - apply (stays_step i (EvConfirm i p term)); [done|done|]. cbn [exec]. unfold the_node in Hn. rewrite Hn.
    cbn [mbind option_bind]. rewrite bool_decide_true by done. cbn [guard mbind option_bind]. by rewrite Eq.
  - unfold ConfirmLeadershipQuorum_request in Eq. destruct (_ || _); [done|]. unfold next_index_at, prev_of in Eq.
    injection Eq as <- _. split; [done|apply Hni].
Qed.

(** The answer, taken. *)
Lemma confirm_reply_stays clk term p acks w n req resp :
  the_node i w = Some n -> aeq_term req = term -> aeq_leader_id req = i ->
  (forall a, resp = Some a -> MAppResp p req a ∈ net (wd_cluster w)) ->
  stays i w (put i (ConfirmLeadershipQuorum_reply clk term p acks resp n).2 w).
Proof.
  intros Hn Ht Hid Hin. destruct resp as [a|]; [|by apply put_same].
  apply (stays_step i (EvConfirmReply i p acks req a clk)); [done|done|]. cbn [exec]. unfold the_node in Hn. rewrite Hn.
  cbn [mbind option_bind]. rewrite bool_decide_true by (by apply Hin). by rewrite Hid, Z.eqb_refl, Ht.
Qed.

(** What a peer's success says about its term when the round began. *)
Lemma answer_term p req before (t : Turn R) w1 w2 resp :
  reached c0 w1 -> stays i w1 w2 -> before = length (net (wd_cluster w1)) ->
  answered p req before t w2 = Some () -> tn_reply t = Some resp -> aer_success resp = true ->
  exists n, nodes (wd_cluster w1) !! p = Some n /\ current_term_ n <= aeq_term req.
Proof.
  intros Hr Hs -> Ha Ht Hsuc. destruct (reached_any members Hmembers c0 Hinit w1 Hr) as (g & HI).
  destruct (runs_accepts members Hmembers _ g _ HI (runs_up_runs _ _ _ Hs)) as (new & E & Hnew).
  destruct (answered_sent _ _ _ _ _ _ Ha Ht) as [Hin _]. unfold sent_since in Hin. rewrite E, length_app in Hin.
  rewrite take_app_length' in Hin by lia. by apply (proj1 (Forall_forall _ _) Hnew _ Hin).
Qed.

Lemma reached_term w w' p n' :
  reached c0 w -> stays i w w' -> nodes (wd_cluster w') !! p = Some n' ->
  exists n, nodes (wd_cluster w) !! p = Some n /\ current_term_ n <= current_term_ n'.
Proof.
  intros Hr Hs Hp. destruct (reached_any members Hmembers c0 Hinit w Hr) as (g & HI).
  destruct (reached_any members Hmembers c0 Hinit w' (reached_stays _ _ _ _ Hr Hs)) as (g' & HI').
  destruct (proj2 (inv_dom _ _ _ HI p) (inv_member _ _ _ _ _ HI' Hp)) as [n Hn].
  destruct (runs_term members Hmembers _ g _ p n HI (runs_up_runs _ _ _ Hs) Hn) as (n'' & Hn'' & Ht).
  exists n. split; [done|]. assert (n'' = n') as -> by congruence. done.
Qed.

Definition term_at_most w (term v : Z) : Prop :=
  exists n, nodes (wd_cluster w) !! v = Some n /\ current_term_ n <= term.

Lemma term_at_most_before w w' term v : reached c0 w -> stays i w w' -> term_at_most w' term v -> term_at_most w term v.
Proof. intros Hr Hs (n' & Hn' & Ht). destruct (reached_term w w' v n' Hr Hs Hn') as (n & Hn & Hle). exists n. split; [done|lia]. Qed.

(** The acknowledgements that were counted come from peers whose terms, when the round
    began, were not beyond the leader's. *)
Lemma confirm_peers_quorum maj term ps acks w w' :
  reached c0 w -> (forall p, p ∈ ps -> p ∈ ids /\ p <> i) -> confirm_peers run i maj term ps acks w = Some (true, w') ->
  stays i w w' /\ exists Q, sublist Q ps /\ maj <= acks + zlen Q /\ Forall (term_at_most w term) Q.
Proof.
  revert acks w. induction ps as [|p ps IH]; intros acks w Hr Hps; cbn [confirm_peers].
  { intros [= Hm <-]. split; [constructor|]. exists []. split; [constructor|]. split; [|constructor].
    apply Z.leb_le in Hm. change (zlen (@nil Z)) with 0. lia. }
  destruct (Hps p) as [Hp Hpi]; [apply elem_of_cons; by left|].
  destruct (turn run w) as [[t1 w1]|] eqn:E1; [|done]. cbn [mbind option_bind]. apply (turn_stays run i Hrun) in E1 as S1.
  assert (Hr1 : reached c0 w1) by (by eapply reached_stays).
  destruct (the_node i w1) as [n1|] eqn:Hn1; [|done]. cbn [mbind option_bind].
  destruct (ConfirmLeadershipQuorum_request term p n1) as [[req|] n2] eqn:Eq; [|done].
  destruct (confirm_request_stays term p w1 n1 req n2 Hr1 Hn1 Hp Hpi Eq) as (S2 & Hterm & Hid).
  cbv zeta. set (ws := sent (MAppReq p req) (put i n2 w1)) in *.
  assert (Hrs : reached c0 ws) by (by eapply reached_stays).
  destruct (turn run ws) as [[t2 w2]|] eqn:E2; [|done]. cbn [mbind option_bind]. apply (turn_stays run i Hrun) in E2 as S3.
  destruct (answered p req _ t2 w2) as [[]|] eqn:Ea; [|done]. cbn [mbind option_bind].
  destruct (the_node i w2) as [n3|] eqn:Hn3; [|done]. cbn [mbind option_bind].
  pose proof (confirm_reply_stays (tn_clk t2) term p acks w2 n3 req (tn_reply t2) Hn3 Hterm Hid) as S4.
  destruct (ConfirmLeadershipQuorum_reply (tn_clk t2) term p acks (tn_reply t2) n3) as [[acks'|] n4] eqn:Er; [|done].
  cbn [snd] in S4. assert (Swp : stays i w (put i n4 w2)).
  { eapply stays_trans; [exact S1|]. eapply stays_trans; [exact S2|]. eapply stays_trans; [exact S3|]. apply S4.
    intros a Ha. by eapply answered_sent. }
  intros Hrest. apply IH in Hrest as [S5 (Q & HQ & Hmaj & Hall)];
    [|exact (reached_stays _ _ _ _ Hr Swp)|intros q Hq; apply Hps, elem_of_cons; by right].
  split; [by eapply stays_trans|].
  assert (HallQ : Forall (term_at_most w term) Q).
  { eapply Forall_impl; [exact Hall|]. intros v Hv. by eapply term_at_most_before. }
  assert (Hcase : acks' = acks \/ acks' = acks + 1 /\ exists resp, tn_reply t2 = Some resp /\ aer_success resp = true).
  { unfold ConfirmLeadershipQuorum_reply in Er. destruct (tn_reply t2) as [resp|]; [|left; congruence].
    destruct (_ <? _); [done|]. destruct (_ || _); [done|].
    destruct (aer_success resp) eqn:Es; injection Er as <- _; [right; eauto|by left]. }
  destruct Hcase as [->|(-> & resp & Hresp & Hsuc)]; [exists Q; split; [by constructor|done]|].
  exists (p :: Q). split; [by apply sublist_skip|]. autorewrite with zlen. split; [lia|]. constructor; [|done].
  apply (term_at_most_before w ws); [done|exact (stays_trans _ _ _ _ S1 S2)|].
  destruct (answer_term p req _ t2 ws w2 resp Hrs S3 eq_refl Ea Hresp Hsuc) as (n & Hn & Ht). exists n. split; [done|lia].
Qed.

(** ** What a confirmed leader knows *)

(** The leader has committed an entry of its own term. *)
Definition established n : Prop :=
  0 < commit_index_ n /\
  exists e, log_entries n !! Z.to_nat (commit_index_ n - 1) = Some e /\ le_term e = current_term_ n.

(** It knows everything that leaders of earlier terms had committed. *)
Lemma established_covers c1 c2 g1 g2 j k nj n :
  Inv (St := covered_run) members c1 g1 -> Inv (St := covered_run) members c2 g2 -> ext g1 g2 -> nodes c1 !! j = Some nj -> nodes c2 !! k = Some n ->
  state_ n = RaftState.kLeader -> established n -> current_term_ nj < current_term_ n ->
  commit_index_ nj <= commit_index_ n.
Proof.
  intros HI1 HI2 He Hj Hk Hl (Hpos & e & Hent & Het) Hlt.
  destruct (ni_commit _ _ _ _ (inv_nodes _ _ _ HI1 _ _ Hj)) as [Hcj Hcm]. specialize (Hcm I). eapply committed_ext in Hcm; [|exact He].
  destruct Hcm as [|(t & m & ld & Ht & Hch & Hm & Hld & _)]; [lia|].
  destruct (ni_leader _ _ _ _ (inv_nodes _ _ _ HI2 _ _ Hk) Hl) as [(lw & Hlw & _ & Hlog) _].
  pose proof (chosen_carried members Hmembers c2 g2 t m HI2 Hch (current_term_ n) (current_term_ n) lw ld
    ltac:(lia) Hlw Hld) as E.
  assert (m <= length (ld_start lw))%nat by (eapply take_eq_length; [by symmetry|by eapply chosen_length]).
  rewrite <- Hlog in Hent. destruct (ldr_terms _ _ _ _ _ _ _ HI2 Hlw Hent) as [_ Hown]. specialize (Hown Het). lia.
Qed.

(** No leader of a later term had been elected when the round began. *)
Lemma no_later_leader c1 w j nj n Q :
  runs c0 c1 -> runs c1 (wd_cluster w) -> nodes c1 !! j = Some nj -> state_ nj = RaftState.kLeader ->
  quorum ids Q -> Forall (term_at_most w (current_term_ n)) Q -> current_term_ nj <= current_term_ n.
Proof.
  intros Hr1 Hr2 Hj Hl HQ Hall. destruct (Z.le_gt_cases (current_term_ nj) (current_term_ n)) as [|Hgt]; [done|exfalso].
  destruct (runs_inv (St := every_run) members c0 c1 _ Hmembers (initial_inv members c0 Hinit) Hr1 ltac:(done)) as (g1 & _ & HI1).
  destruct (ni_leader _ _ _ _ (inv_nodes _ _ _ HI1 _ _ Hj) Hl) as [(ld & Hld & _ & _) _].
  pose proof (inv_ldrs _ _ _ HI1 _ _ Hld) as Hli. destruct Hmembers as [Hnd _].
  destruct (quorums_meet ids Q (ld_voters ld) Hnd HQ (li_quorum _ _ _ _ Hli)) as (v & Hv & Hvo).
  destruct (li_votes _ _ _ _ Hli v Hvo) as [VL HVL].
  destruct (li_quorum _ _ _ _ Hli) as (_ & Hsub & _).
  destruct (proj2 (inv_dom _ _ _ HI1 v) (Hsub v Hvo)) as [nv Hnv].
  pose proof (vi_term _ _ _ _ _ _ (ni_votes _ _ _ _ (inv_nodes _ _ _ HI1 _ _ Hnv) _ _ _ HVL)) as Ht.
  destruct (runs_term members Hmembers c1 g1 _ v nv HI1 Hr2 Hnv) as (nv' & Hnv' & Hle).
  apply (proj1 (Forall_forall _ _) Hall) in Hv as (nv'' & Hnv'' & Hle'). assert (nv'' = nv') as -> by congruence. lia.
Qed.

Lemma confirm_begin_ask time n term :
  HasRecentMajorityContactLocked time n = false -> ConfirmLeadershipQuorum_begin time n = ConfirmAsk term ->
  state_ n = RaftState.kLeader /\ term = current_term_ n.
Proof.
  unfold ConfirmLeadershipQuorum_begin. intros ->. case_bool_decide; cbn [negb]; [|done]. by intros [= <-].
Qed.

(** The full round: it ends with a quorum, and the leader's commit index was already no
    smaller than that of any leader so far. *)
Lemma confirm_covers c1 w t w2 w3 j nj n :
  runs_up (eq i) c0 c1 -> runs_up (eq i) c1 (wd_cluster w) -> nodes c1 !! j = Some nj -> state_ nj = RaftState.kLeader ->
  turn run w = Some (t, w2) -> the_node i w2 = Some n -> HasRecentMajorityContactLocked (now (tn_clk t)) n = false ->
  established n -> ConfirmLeadershipQuorum run i w = Some (true, w3) -> commits_covered (wd_cluster w3) ->
  stays i w2 w3 /\ commit_index_ nj <= commit_index_ n.
Proof.
  intros Hr1 Hr2 Hj Hlj Et Hn Hrec Hest HC Hcov. unfold ConfirmLeadershipQuorum in HC. rewrite Et in HC.
  cbn [mbind option_bind] in HC. rewrite Hn in HC. cbn [mbind option_bind] in HC. apply (turn_stays run i Hrun) in Et as S1.
  destruct (ConfirmLeadershipQuorum_begin _ n) as [b|term] eqn:Eb.
  { unfold ConfirmLeadershipQuorum_begin in Eb. rewrite Hrec in Eb. destruct (negb _); [|done].
    injection Eb as <-. done. }
  destruct (confirm_begin_ask _ _ _ Hrec Eb) as [Hl ->].
  assert (Hr12 : runs_up (eq i) c1 (wd_cluster w2)) by (by eapply runs_up_trans).
  assert (Hrw2 : reached c0 w2) by (eapply runs_up_runs; by eapply runs_up_trans).
  destruct (reached_any members Hmembers c0 Hinit w2 Hrw2) as (g & HI). pose proof (inv_nodes _ _ _ HI _ _ Hn) as Hni.
  apply confirm_peers_quorum in HC as [S2 (Q & HQ & Hmaj & Hall)];
    [|done|intros p Hp; by apply (other_ids members g i n p Hni)].
  split; [done|]. pose proof (stays_covered i _ _ S2 Hcov) as Hcov2.
  assert (Hquorum : quorum ids (i :: Q)).
  { split; [|split].
    - eapply sublist_NoDup; [apply (other_ids_NoDup members Hmembers g i n Hni)|by apply sublist_skip].
    - intros v [->|Hv]%elem_of_cons; [by eapply inv_member|].
      assert (v ∈ node_id <$> other_peers n) by (by eapply elem_of_submseteq, sublist_submseteq).
      by apply (other_ids members g i n v Hni).
    - unfold majority in Hmaj. rewrite (ni_peers _ _ _ _ Hni) in Hmaj. cbn [length]. rewrite length_fmap.
      unfold zlen in Hmaj. pose proof (Nat2Z.inj_div (length members) 2). lia. }
  assert (Hle : current_term_ nj <= current_term_ n).
  { eapply (no_later_leader c1 w2 j nj n (i :: Q)); [by eapply runs_up_runs|by eapply runs_up_runs|done|done|done|].
    constructor; [|done]. exists n. by split. }
  destruct (runs_inv2 (St := covered_run) members c0 c1 (wd_cluster w2) Hmembers Hinit) as (g1 & g2 & HI1 & HI2 & He);
    [by eapply runs_up_runs|by eapply runs_up_runs|done|].
  destruct (Z.le_lteq (current_term_ nj) (current_term_ n)) as [Hcase _]. destruct (Hcase Hle) as [Hlt|Heq].
  - by eapply (established_covers c1 (wd_cluster w2) g1 g2 j i).
  - destruct (ni_leader _ _ _ _ (inv_nodes _ _ _ HI1 _ _ Hj) Hlj) as [(l1 & Hl1 & Hid1 & _) _].
    destruct (ni_leader _ _ _ _ (inv_nodes _ _ _ HI2 _ _ Hn) Hl) as [(l2 & Hl2 & Hid2 & _) _].
    destruct (ext_ldr _ _ He _ _ Hl1) as (l1' & Hl1' & Hid1' & _). rewrite Heq in Hl1'.
    assert (j = i) as -> by congruence.
    destruct (runs_up_applied members Hmembers (eq i) i c1 _ g1 nj HI1 Hr12 Hcov2 eq_refl Hj) as (m & Hm & (_ & Hc) & _).
    unfold the_node in Hn. assert (m = n) as -> by congruence. by apply (Hc I).
Qed.

End Round.

(** ** GET *)

Lemma covered_net {R} (c c' : Cluster R) : net c = net c' -> commits_covered c = commits_covered c'.
Proof. unfold commits_covered. by intros ->. Qed.

(** The node's store, read. *)
Definition reads_map {R} `{ReplicaLaws R} (st : StorageOps R) : Prop :=
  forall key r, rep_ok r -> st_Get st key r = Some (spec_Get key (rep_map r), r).

(** What the handler makes of the result of a read. *)
Definition get_response (req : ClientRequest) (result : Result bytes) : ClientResponse :=
  match result with
  | Value v => mkClientResponse (creq_request_id req) ResponseStatus.kOk v 0
  | Failed st => respond req (ToResponseStatus (code st))
  end.

(** A GET that is not refused: the check for a leader, the quorum check, the read. *)
Lemma Handle_get {R} `{ReplicaOps R} run i st reserve req (w w' : World R) resp :
  creq_opcode req = Opcode.kGet -> Handle (node_handler run i st reserve false) req w = Some (resp, w') ->
  cresp_status resp <> ResponseStatus.kWrongLeader ->
  exists t w1 w3, turn run w = Some (t, w1) /\ ConfirmLeadershipQuorum run i w1 = Some (true, w3) /\
    read (node_handler run i st reserve false) req w3 = Some (resp, w').
Proof.
  intros Ho HH Hst.
  assert (Hwl : forall v, wrong_leader (node_raft run i reserve) req v = Some (resp, w') -> False).
  { intros v. unfold wrong_leader. destruct (rf_leader_id _ v) as [[l v']|]; [|done]. cbn. intros [= <- _]. by apply Hst. }
  unfold Handle in HH. rewrite Ho, !(bool_decide_false (Opcode.kGet = _)) in HH by done.
  unfold read_refused, IsLeader, node_handler in HH.
  cbn [orb mbind option_bind raft_ negb allow_stale_reads_ rf_state rf_ConfirmLeadershipQuorum node_raft] in HH.
  unfold observe at 1 in HH. destruct (turn run w) as [[t w1]|] eqn:Et; [|done]. cbn [mbind option_bind] in HH.
  destruct (the_node i w1) as [n|]; [|done]. cbn [mbind option_bind] in HH.
  destruct (bool_decide (state_ n = RaftState.kLeader)); cbn [negb mbind option_bind] in HH; [|by apply Hwl in HH].
  destruct (ConfirmLeadershipQuorum run i w1) as [[b w3]|] eqn:EC; [|done]. cbn [mbind option_bind] in HH.
  destruct b; cbn [negb] in HH; [|by apply Hwl in HH]. by exists t, w1, w3.
Qed.

Lemma read_store {R} `{ReplicaLaws R} run i st reserve stale req (w w' : World R) resp :
  reads_map st -> read (node_handler run i st reserve stale) req w = Some (resp, w') ->
  exists t w1 n, turn run w = Some (t, w1) /\ the_node i w1 = Some n /\ net (wd_cluster w') = net (wd_cluster w1) /\
    (rep_ok (replica_ n) -> the_node i w' = Some n /\ resp = get_response req (spec_Get (creq_key req) (rep_map (replica_ n)))).
Proof.
  intros Hst HR. unfold read in HR. cbn in HR. unfold on_store in HR.
  destruct (turn run w) as [[t w1]|] eqn:Et; [|done]. cbn [mbind option_bind] in HR.
  destruct (the_node i w1) as [n|] eqn:Hn; [|done]. cbn [mbind option_bind] in HR. exists t, w1, n.
  split; [done|]. split; [done|].
  destruct (st_Get st (creq_key req) (replica_ n)) as [[res r]|] eqn:Eg; [|done]. cbn [mbind option_bind] in HR.
  split; [by destruct res; injection HR as _ <-|]. intros Hok. rewrite Hst in Eg by done. injection Eg as <- <-.
  assert (Hput : the_node i (put i (set_replica (replica_ n) n) w1) = Some n).
  { unfold the_node, put. cbn. rewrite lookup_insert_eq. by destruct n. }
  unfold get_response. destruct (spec_Get _ _); injection HR as <- <-; done.
Qed.

(** C9: Linearizable reads. Take a run whose append requests announce no commit index beyond
    what they cover, a node that has not restarted, and a GET that it does not refuse.
    Suppose that the quorum check asks the peers, and that the node has committed an entry of
    the term it leads. Then the answer is that of a map which holds the entries of the node's
    log up to some index, and that index is no smaller than what any leader, of whatever
    term, had committed at any moment before the GET arrived: nothing that was acknowledged
    before is missing, and the entries are the same. *)
Theorem confirmed_read_current {R} `{ReplicaLaws R} (members : list PeerInfo) run i st reserve
    (c0 c1 : Cluster R) req (w w1 w2 w' : World R) t1 t2 resp j nj n :
  members_ok members -> schedules run i -> initial members c0 -> nothing_applied c0 -> reads_map st ->
  runs_up (eq i) c0 c1 -> runs_up (eq i) c1 (wd_cluster w) ->
  nodes c1 !! j = Some nj -> state_ nj = RaftState.kLeader ->
  creq_opcode req = Opcode.kGet -> Handle (node_handler run i st reserve false) req w = Some (resp, w') ->
  cresp_status resp <> ResponseStatus.kWrongLeader ->
  turn run w = Some (t1, w1) -> turn run w1 = Some (t2, w2) -> the_node i w2 = Some n ->
  HasRecentMajorityContactLocked (now (tn_clk t2)) n = false -> established n -> commits_covered (wd_cluster w') ->
  exists n' k, the_node i w' = Some n' /\ commit_index_ nj <= k <= zlen (log_entries n') /\
    ztake (commit_index_ nj) (log_entries n') = ztake (commit_index_ nj) (log_entries nj) /\
    resp = get_response req (spec_Get (creq_key req) (replay (to_record <$> ztake k (log_entries n')))).
Proof.
  intros Hmem Hrun Hinit Hno Hst Hr1 Hr2 Hj Hlj Ho HH Hwl E1 E2 Hn Hrec Hest Hcov'.
  destruct (Handle_get run i st reserve req w w' resp Ho HH Hwl) as (t & w1' & w3 & E1' & EC & ER).
  rewrite E1 in E1'. injection E1' as <- <-. apply (turn_stays run i Hrun) in E1 as S1.
  apply (turn_stays run i Hrun) in E2 as S2.
  destruct (read_store run i st reserve false req w3 w' resp Hst ER) as (t4 & w4 & n' & E4 & Hn' & Enet & Hread).
  apply (turn_stays run i Hrun) in E4 as S4. rewrite (covered_net _ _ Enet) in Hcov'.
  destruct (confirm_covers members run i Hmem Hrun c0 Hinit c1 w1 t2 w2 w3 j nj n) as [S3 Hcov];
    [done|by eapply runs_up_trans|done..|by eapply stays_covered|].
  assert (R14 : runs_up (eq i) c1 (wd_cluster w4)).
  { eapply runs_up_trans; [exact Hr2|]. eapply runs_up_trans; [exact S1|]. eapply runs_up_trans; [exact S2|].
    by eapply runs_up_trans. }
  destruct (first_start_applied members Hmem (eq i) c0 (wd_cluster w4) i n' Hinit Hno) as (g & HI & [Hap Hcur] & _);
    [by eapply runs_up_trans|done|done|done|].
  pose proof (inv_nodes _ _ _ HI _ _ Hn') as Hni. destruct (Hread (nk_rep _ (ni_ok _ _ _ _ Hni))) as [Hw' ->].
  destruct (runs_inv2 (St := covered_run) members c0 c1 (wd_cluster w4) Hmem Hinit) as (g1 & g2 & HI1 & HI2 & He);
    [by eapply runs_up_runs|by eapply runs_up_runs|done|].
  assert (Hle : commit_index_ n <= commit_index_ n').
  { destruct (stays_advances members i Hmem c0 Hinit w2 w4 n) as (m & Hm & _ & Ha); [|by eapply stays_trans|done|done|].
    - eapply runs_up_runs, runs_up_trans; [exact Hr1|]. eapply runs_up_trans; [exact Hr2|]. by eapply runs_up_trans.
    - assert (m = n') as -> by congruence. by apply (Ha I). }
  exists n', (last_applied n'). split; [done|]. destruct (commit_bound _ _ _ _ Hni) as [_ Hb]. specialize (Hb I).
  split; [lia|].
  split; [symmetry; eapply (committed_same (St := covered_run) members c1 (wd_cluster w4) g1 g2 j i); try done; lia|]. by rewrite Hcur.
Qed.

(** ** A GET on the cluster of RaftTraces.v *)

#[local] Existing Instance example_libc.
#[local] Existing Instance example_hash.

Lemma replica_store_reads : reads_map replica_store.
Proof. intros key r Hr. cbn [st_Get replica_store]. unfold DurableStorage_Get. by rewrite kv_Get_map by apply Hr. Qed.

(** Node 1 leads term 1 and both followers have its entry; some time later a GET arrives. *)
Definition replicated : list (Event (Replica ShardedKV)) :=
  commit_run ++ replicate_to 1 3 (app_req 1 1 0 0 1 [set_entry 1 1 "x"]).

Definition replicated_end : Cluster (Replica ShardedKV) := default three (run_allowed replicated elected_end).

Definition much_later : Turn (Replica ShardedKV) := mkTurn [] later None None.

Definition before_read : World (Replica ShardedKV) :=
  mkWorld replicated_end
    [pause; much_later; pause; served_turn 2 (app_req 1 1 1 1 1 []); pause; served_turn 3 (app_req 1 1 1 1 1 []); pause].

Definition after_turn (w : World (Replica ShardedKV)) : World (Replica ShardedKV) := default w (snd <$> turn (bounded_run 1) w).

Definition after_read : World (Replica ShardedKV) :=
  default before_read (snd <$> Handle (node_handler (bounded_run 1) 1 replica_store (fun _ => true) false) get_k before_read).

Definition check_begins (w : World (Replica ShardedKV)) : option (RaftState * Z * bool * option Z) :=
  n ← the_node 1 w;
  Some (state_ n, commit_index_ n, HasRecentMajorityContactLocked (now later) n, le_term <$> log_entries n !! O).

Lemma confirmed_read_current_witness :
  exists n' k, the_node 1 after_read = Some n' /\ 1 <= k <= zlen (log_entries n') /\
    mkClientResponse 8 ResponseStatus.kOk (str "x") 0 =
      get_response get_k (spec_Get (str "k") (replay (to_record <$> ztake k (log_entries n')))).
Proof.
  destruct (role_node 1 replicated_end RaftState.kLeader 1) as (nj & Hnj & Hsj & Htj); [vm_compute; reflexivity|].
  assert (Hcj : commit_index_ nj = 1).
  { assert (Hv : commit_index_ <$> nodes replicated_end !! 1 = Some 1) by (vm_compute; reflexivity).
    rewrite Hnj in Hv. injection Hv as Hv. exact Hv. }
  set (w1 := after_turn before_read). set (w2 := after_turn w1).
  destruct (role_node 1 (wd_cluster w2) RaftState.kLeader 1) as (n & Hn & Hs & Ht); [vm_compute; reflexivity|].
  assert (Hv : check_begins w2 = Some (RaftState.kLeader, 1, false, Some 1)) by (vm_compute; reflexivity).
  unfold check_begins, the_node in Hv. rewrite Hn in Hv. injection Hv as _ Hc Hrec Hent.
  assert (Hest : established n).
  { split; [rewrite Hc; reflexivity|]. rewrite Hc, Ht.
    apply fmap_Some in Hent as (e & E & He). exists e. split; [exact E|symmetry; exact He]. }
  assert (R1 : runs_up (eq 1) three replicated_end).
  { eapply runs_up_trans; eapply run_allowed_up, is_Some_default; vm_compute; reflexivity. }
  destruct (confirmed_read_current three_peers (bounded_run 1) 1 replica_store (fun _ => true) three replicated_end get_k
    before_read w1 w2 after_read pause much_later (mkClientResponse 8 ResponseStatus.kOk (str "x") 0) 1 nj n
    three_ok (bounded_run_schedules 1) three_initial three_nothing_applied replica_store_reads R1 (runs_up_refl _ _) Hnj Hsj eq_refl
    ltac:(vm_compute; reflexivity) ltac:(discriminate) ltac:(vm_compute; reflexivity) ltac:(vm_compute; reflexivity) Hn Hrec Hest
    (coveredb_ok (wd_cluster after_read) ltac:(vm_compute; reflexivity)))
    as (n' & k & Hn' & Hk & _ & Hresp).
  exists n', k. rewrite Hcj in Hk. split; [exact Hn'|]. split; [exact Hk|exact Hresp].
Defined.
