(* ===== verification/RaftLoop.v ===== *)
(** * The background thread of a Raft node

    [StartElection] and [RunLoop] from beginning to end, with what the other threads and
    the other processes do in between given by the script of turns of RaftService.v, and
    the thread's life: [Start], [Stop] and the destructor. Theorem: whatever a node does
    as a program (the loop, a client's request, a peer's RPC), however the others
    interleave with it, is a sequence of the events of RaftCluster.v, so that the safety
    theorems hold of whole calls. *)

From Stdlib Require Import Strings.String.
From S2P Require Import Prelude Common BigEndian Codec Crc32 Os WalRecord ShardedKV WalWriter DurableStorage.
From S2P Require Import RaftTypes RaftLog ClusterConfig RaftNode RaftNodeSpec RaftCluster RaftGhost.
From S2P Require Import RaftInvariant RaftCompleteness RaftSteps RaftSafety RaftReplica RaftTraces RaftApplied Handler.
From S2P Require Import RaftService RaftReads.

(** ** The loop *)

Section Loop.
Context {R : Type} `{ReplicaOps R}.
Context (run : list (Event R) -> Cluster R -> option (Cluster R)) (i : Z).
Implicit Types (w : World R) (n : RaftNode R).

(** The local variables of the election under way, kept and dropped. *)
Definition noted el w : World R := mkWorld (set_election i el (wd_cluster w)) (wd_turns w).
Definition ended w : World R := mkWorld (end_election i (wd_cluster w)) (wd_turns w).

(** The answer to the vote request under way, if one arrived. *)
Definition voted (p : Z) (req : RequestVoteRequest) (before : nat) (t : Turn R) w : option unit :=
  match tn_vote t with
  | None => Some ()
  | Some resp => guard (bool_decide (MVoteResp p req resp ∈ sent_since before w))
  end.

(** The loop over the peers, and the count after it. *)
Fixpoint ask_peers (req : RequestVoteRequest) (ps : list Z) (votes : Z) w : option (World R) :=
  match ps with
  | [] =>
      '(t, w) ← turn run w;
      n ← the_node i w;
      Some (ended (put i (StartElection_finish (now (tn_clk t)) (rvq_term req) votes n) w))
  | p :: ps =>
      let w := sent (MVoteReq p req) w in
      '(t, w') ← turn run w;
      voted p req (length (net (wd_cluster w))) t w';;
      n ← the_node i w';
      match StartElection_reply (tn_clk t) (rvq_term req) votes (tn_vote t) n with
      | (None, n) => Some (ended (put i n w'))
      | (Some votes, n) => ask_peers req ps votes (noted (mkElection req ps votes) (put i n w'))
      end
  end.

Definition StartElection w : option (World R) :=
  '(t, w) ← turn run w;
  n ← the_node i w;
  let '(req, n) := StartElection_begin (tn_clk t) n in
  let peers := node_id <$> other_peers n in
  ask_peers req peers 1 (noted (mkElection req peers 1) (put i n w)).

(** What follows the stretch under the mutex. *)
Definition loop_action (a : LoopAction) w : option (World R) :=
  match a with
  | SendHeartbeats => n ← the_node i w; replicate_all run i (node_id <$> other_peers n) w
  | Elect => StartElection w
  | Idle => Some w
  end.

(** The body of the loop, after the second look at [stop_]. *)
Definition RunLoop_body w : option (World R) :=
  '(t, w) ← turn run w;
  n ← the_node i w;
  let '(a, n) := RunLoop_tick (now (tn_clk t)) n in
  loop_action a (put i n w).

(** The loop, given what the loads of [stop_] return: whether it has returned, and the
    world. When the loads are used up it is still running. *)
Fixpoint RunLoop (loads : list bool) w : option (bool * World R) :=
  match loads with
  | [] | [false] => Some (false, w)
  | true :: _ | false :: true :: _ => Some (true, w)
  | false :: false :: loads => w ← RunLoop_body w; RunLoop loads w
  end.

End Loop.

(** ** The life of the thread *)

Record NodeThread := mkNodeThread {
  th_open_status : Status;
  th_stop : bool;
  th_started : bool;
  th_run_thread : bool;  (* joinable *)
  spawned : nat  (* how many threads were ever started *)
}.

Definition NodeThread_new (open_status : Status) : NodeThread := mkNodeThread open_status false false false O.

Definition Start (t : NodeThread) : NodeThread :=
  if negb (Status_ok (th_open_status t)) then t
  else if th_started t then t
  else mkNodeThread (th_open_status t) (th_stop t) true true (S (spawned t)).

(** [join] returns when [RunLoop] has. *)
Definition Stop (t : NodeThread) : NodeThread :=
  mkNodeThread (th_open_status t) true (th_started t) false (spawned t).

Definition RaftNode_destroy (t : NodeThread) : NodeThread := Stop t.

Inductive LifeCall := CallStart | CallStop.

Definition life (calls : list LifeCall) (t : NodeThread) : NodeThread :=
  fold_left (fun t c => match c with CallStart => Start t | CallStop => Stop t end) calls t.

(** ** Whole calls *)

(** What can call into a node: its own loop, a client, and the peers, whose requests were
    sent by somebody. The answer to a peer goes into the network. *)
Inductive Call :=
| CallLoop (loads : list bool)
| CallClient (req : ClientRequest)
| CallVote (req : RequestVoteRequest)
| CallAppend (req : AppendEntriesRequest).

Definition call {R} `{ReplicaOps R} run i (st : StorageOps R) reserve stale (cl : Call) (w : World R) : option (World R) :=
  match cl with
  | CallLoop loads => snd <$> RunLoop run i loads w
  | CallClient req => snd <$> Handle (node_handler run i st reserve stale) req w
  | CallVote req =>
      guard (bool_decide (MVoteReq i req ∈ net (wd_cluster w)));;
      '(resp, w) ← serve_vote run i req w;
      Some (sent (MVoteResp i req resp) w)
  | CallAppend req =>
      guard (bool_decide (MAppReq i req ∈ net (wd_cluster w)));;
      '(resp, w) ← serve_append run i req w;
      Some (sent (MAppResp i req resp) w)
  end.

Section Calls.
Context {R : Type} `{ReplicaLaws R}.
Context (members : list PeerInfo) (run : list (Event R) -> Cluster R -> option (Cluster R)) (i : Z).
Context (Hmembers : members_ok members) (Hrun : schedules run i) (c0 : Cluster R) (Hinit : initial members c0).
Implicit Types (w : World R) (n : RaftNode R) (c : Cluster R).

Abbreviation ids := (node_id <$> members).

(** Elections are begun by the loop alone: while it runs, the others leave its local
    variables alone. *)
Definition one_loop : Prop := forall evs c c', run evs c = Some c' -> elections c' !! i = elections c !! i.

Lemma turn_elections w t w' : one_loop -> turn run w = Some (t, w') -> elections (wd_cluster w') !! i = elections (wd_cluster w) !! i.
Proof.
  intros Hone. unfold turn. destruct (head (wd_turns w)) as [t'|]; [|done]. cbn [mbind option_bind].
  destruct (run (tn_events t') (wd_cluster w)) as [c'|] eqn:E; [|done]. intros [= _ <-]. by apply Hone in E.
Qed.

Lemma turn_keeps w t w' :
  one_loop -> turn run w = Some (t, w') ->
  stays i w w' /\ elections (wd_cluster w') !! i = elections (wd_cluster w) !! i /\
  (forall n, the_node i w' = Some n -> in_bounds n).
Proof.
  intros Hone E. split; [by eapply turn_stays; [exact Hrun|exact E]|]. split; [by eapply turn_elections|].
  intros n Hn. eapply turn_in_bounds; [exact Hrun|exact E|done].
Qed.

(** One stretch of the node's code, as an event. *)
Lemma ask_peers_stays req ps votes w w' :
  one_loop -> elections (wd_cluster w) !! i = Some (mkElection req ps votes) ->
  ask_peers run i req ps votes w = Some w' ->
  stays i w w' /\ elections (wd_cluster w') !! i = None.
Proof.
  intros Hone. revert votes w. induction ps as [|p ps IH]; intros votes w Hel; cbn [ask_peers].
  - destruct (turn run w) as [[t w1]|] eqn:E1; [|done]. cbn [mbind option_bind].
    apply turn_keeps in E1 as (S1 & He1 & _); [|done]. rewrite Hel in He1.
    destruct (the_node i w1) as [n|] eqn:Hn; [|done]. cbn [mbind option_bind]. intros [= <-].
    split; [|apply lookup_delete_eq]. eapply stays_trans; [exact S1|].
    apply (stays_step i (EvElected i (now (tn_clk t)))); [done|done|]. unfold the_node in Hn.
    cbn [exec]. rewrite Hn, He1. done.
  - assert (S0 : stays i w (sent (MVoteReq p req) w)).
    { apply (stays_step i (EvAsk i)); [done|done|]. cbn [exec]. by rewrite Hel. }
    destruct (turn run (sent _ w)) as [[t w1]|] eqn:E1; [|done]. cbn [mbind option_bind].
    apply turn_keeps in E1 as (S1 & He1 & _); [|done]. cbn [sent wd_cluster send elections] in He1. rewrite Hel in He1.
    destruct (voted p req _ t w1) as [[]|] eqn:Ev; [|done]. cbn [mbind option_bind].
    destruct (the_node i w1) as [n|] eqn:Hn; [|done]. cbn [mbind option_bind].
    assert (Hin : match tn_vote t with Some resp => bool_decide (MVoteResp p req resp ∈ net (wd_cluster w1)) | None => true end = true).
    { unfold voted in Ev. destruct (tn_vote t) as [resp|]; [|done]. apply bool_decide_true.
      unfold guard in Ev. case_bool_decide as Hs; [|done]. unfold sent_since in Hs. apply (subseteq_take _ _ _ Hs). }
    assert (Hex : exec (EvVoteReply i (tn_vote t) (tn_clk t)) (wd_cluster w1) =
      match StartElection_reply (tn_clk t) (rvq_term req) votes (tn_vote t) n with
      | (None, n) => Some (end_election i (set_node i n (wd_cluster w1)))
      | (Some votes, n) => Some (set_election i (mkElection req ps votes) (set_node i n (wd_cluster w1)))
      end).
    { cbn [exec]. unfold the_node in Hn. rewrite Hn, He1. cbn [mbind option_bind el_rest el_req el_votes head hd_error tail].
      by rewrite Hin. }
    destruct (StartElection_reply _ _ _ _ _) as [[v|] n2].
    + intros Hrest. apply IH in Hrest as [S3 Hend]; [|apply lookup_insert_eq]. split; [|done].
      eapply stays_trans; [exact S0|]. eapply stays_trans; [exact S1|]. eapply stays_trans; [|exact S3].
      by apply (stays_step i (EvVoteReply i (tn_vote t) (tn_clk t))).
    + intros [= <-]. split; [|apply lookup_delete_eq]. eapply stays_trans; [exact S0|]. eapply stays_trans; [exact S1|].
      by apply (stays_step i (EvVoteReply i (tn_vote t) (tn_clk t))).
Qed.

Lemma StartElection_stays w w' :
  one_loop -> elections (wd_cluster w) !! i = None -> StartElection run i w = Some w' ->
  stays i w w' /\ elections (wd_cluster w') !! i = None.
Proof.
  intros Hone Hel. unfold StartElection. destruct (turn run w) as [[t w1]|] eqn:E1; [|done]. cbn [mbind option_bind].
  apply turn_keeps in E1 as (S1 & He1 & Hb); [|done]. rewrite Hel in He1.
  destruct (the_node i w1) as [n|] eqn:Hn; [|done]. cbn [mbind option_bind].
  destruct (StartElection_begin (tn_clk t) n) as [req n2] eqn:Eb. cbv zeta. intros Hask.
  apply ask_peers_stays in Hask as [S3 Hend]; [|done|apply lookup_insert_eq]. split; [|done].
  eapply stays_trans; [exact S1|]. eapply stays_trans; [|exact S3]. unfold the_node in Hn.
  apply (stays_step i (EvElect i (tn_clk t))); [|done|].
  - intros m Hm. assert (m = n) as -> by congruence. by apply Hb.
  - cbn [exec]. rewrite Hn, He1. cbn [mbind option_bind]. rewrite bool_decide_true by done. cbn [guard mbind option_bind]. by rewrite Eb.
Qed.

Lemma replicate_all_elections ps w w' :
  one_loop -> replicate_all run i ps w = Some w' -> elections (wd_cluster w') !! i = elections (wd_cluster w) !! i.
Proof.
  intros Hone. revert w. induction ps as [|p ps IH]; intros w; cbn [replicate_all]; [by intros [= <-]|].
  destruct (ReplicateToPeer run i p w) as [w1|] eqn:E; [|done]. cbn [mbind option_bind]. intros Hall.
  rewrite (IH _ Hall). unfold ReplicateToPeer in E.
  destruct (turn run w) as [[t1 w2]|] eqn:E1; [|done]. cbn [mbind option_bind] in E.
  destruct (the_node i w2) as [n2|]; [|done]. cbn [mbind option_bind] in E. rewrite <- (turn_elections _ _ _ Hone E1).
  destruct (ReplicateToPeer_request p n2) as [[req|] n3]; [|by injection E as <-].
  destruct (rpc_sent req); [|by injection E as <-].
  destruct (turn run (sent _ _)) as [[t2 w3]|] eqn:E2; [|done]. cbn [mbind option_bind] in E.
  destruct (answered _ _ _ _ _); [|done]. cbn [mbind option_bind] in E. destruct (the_node i w3) as [n4|]; [|done].
  cbn [mbind option_bind] in E. destruct (ReplicateToPeer_reply _ _ _ _ _); [|done]. injection E as <-.
  exact (turn_elections _ _ _ Hone E2).
Qed.

Lemma RunLoop_body_stays w w' :
  one_loop -> reached c0 w -> elections (wd_cluster w) !! i = None -> RunLoop_body run i w = Some w' ->
  stays i w w' /\ elections (wd_cluster w') !! i = None.
Proof.
  intros Hone Hr Hel. unfold RunLoop_body. destruct (turn run w) as [[t w1]|] eqn:E1; [|done]. cbn [mbind option_bind].
  apply turn_keeps in E1 as (S1 & He1 & _); [|done]. rewrite Hel in He1.
  destruct (the_node i w1) as [n|] eqn:Hn; [|done]. cbn [mbind option_bind].
  assert (S2 : stays i w1 (put i (RunLoop_tick (now (tn_clk t)) n).2 w1)).
  { apply (stays_step i (EvTick i (now (tn_clk t)))); [done|done|]. cbn [exec]. unfold the_node in Hn. by rewrite Hn. }
  destruct (RunLoop_tick (now (tn_clk t)) n) as [a n2]. cbn [snd] in S2.
  pose proof (stays_trans _ _ _ _ S1 S2) as S12. pose proof (reached_stays _ _ _ _ Hr S12) as Hr2.
  destruct a; cbn [loop_action].
  - destruct (the_node i (put i n2 w1)) as [n3|] eqn:Hn3; [|done]. cbn [mbind option_bind]. intros Hall.
    destruct (reached_any members Hmembers c0 Hinit _ Hr2) as (g & HI). pose proof (inv_nodes _ _ _ HI _ _ Hn3) as Hni.
    assert (Hps : forall p, p ∈ node_id <$> other_peers n3 -> p ∈ ids /\ p <> i) by (intros p; apply (other_ids members g i n3 p Hni)).
    split; [|by rewrite (replicate_all_elections _ _ _ Hone Hall)].
    exact (stays_trans _ _ _ _ S12 (replicate_all_stays members run i Hmembers Hrun c0 Hinit _ _ _ Hr2 Hps Hall)).
  - intros HE. apply StartElection_stays in HE as [S3 Hend]; [|done|exact He1]. split; [exact (stays_trans _ _ _ _ S12 S3)|done].
  - intros [= <-]. by split.
Qed.

Lemma RunLoop_stays loads w b w' :
  one_loop -> reached c0 w -> elections (wd_cluster w) !! i = None -> RunLoop run i loads w = Some (b, w') -> stays i w w'.
Proof.
  intros Hone. revert loads w. fix IH 1. intros [|[] [|[] loads]] w Hr Hel; cbn [RunLoop]; try (clear IH; intros [= _ <-]; constructor).
  destruct (RunLoop_body run i w) as [w1|] eqn:E; [|done]. cbn [mbind option_bind].
  apply RunLoop_body_stays in E as [S1 Hel1]; [|done..]. intros Hrest.
  exact (stays_trans _ _ _ _ S1 (IH loads w1 (reached_stays _ _ _ _ Hr S1) Hel1 Hrest)).
Qed.

(** ** Client requests *)

Lemma Propose_stays e w st w' :
  reached c0 w -> storable (mkLogEntry 0 0 (le_op e) (le_key e) (le_value e)) ->
  Propose run i e w = Some (st, w') -> stays i w w'.
Proof.
  intros Hr Hst. unfold Propose. destruct (turn run w) as [[t1 w1]|] eqn:E1; [|done]. cbn [mbind option_bind].
  pose proof (fun n => turn_in_bounds run i Hrun _ _ _ n E1) as Hb. apply (turn_stays run i Hrun) in E1.
  pose proof (reached_stays _ _ _ _ Hr E1) as Hr1.
  destruct (the_node i w1) as [n1|] eqn:Hn1; [|done]. cbn [mbind option_bind].
  destruct (Propose_append e n1) as [[result n2]|] eqn:EP; [|done]. cbn [mbind option_bind].
  destruct (reached_any members Hmembers c0 Hinit w1 Hr1) as (g1 & HI1). pose proof (inv_nodes _ _ _ HI1 _ _ Hn1) as Hni1.
  assert (E2 : stays i w1 (put i n2 w1)).
  { apply (stays_step i (EvPropose i e)); [|done|].
    - intros n Hn. unfold the_node in Hn1. replace n with n1 by congruence. destruct Hst as [_ Hst].
      destruct (Hb n1 eq_refl) as [Hlen _]. split; [|done]. split; [|exact Hst].
      by destruct (ni_ok _ _ _ _ Hni1) as [_ _ [? _]].
    - cbn [exec]. unfold the_node in Hn1. rewrite Hn1. cbn [mbind option_bind]. by rewrite EP. }
  pose proof (stays_trans _ _ _ _ E1 E2) as E12. destruct result as [index|status]; [|by intros [= _ <-]].
  pose proof (reached_stays _ _ _ _ Hr E12) as Hr2.
  destruct (replicate_all _ _ _ _) as [w3|] eqn:E3; [|done]. cbn [mbind option_bind].
  destruct (turn run w3) as [[t4 w4]|] eqn:E4; [|done]. cbn [mbind option_bind].
  destruct (the_node i w4) as [n4|]; [|done]. intros [= _ <-]. apply (turn_stays run i Hrun) in E4.
  eapply stays_trans; [exact E12|]. eapply stays_trans; [|exact E4].
  eapply (replicate_all_stays members run i Hmembers Hrun c0 Hinit); [exact Hr2| |exact E3].
  destruct (reached_any members Hmembers c0 Hinit _ Hr2) as (g2 & HI2). intros p.
  apply (other_ids (St := every_run) members g2 i n2 p), (inv_nodes _ _ _ HI2). apply lookup_insert_eq.
Qed.

Lemma confirm_peers_stays maj term ps acks w b w' :
  reached c0 w -> (forall p, p ∈ ps -> p ∈ ids /\ p <> i) -> confirm_peers run i maj term ps acks w = Some (b, w') ->
  stays i w w'.
Proof.
  revert acks w. induction ps as [|p ps IH]; intros acks w Hr Hps; cbn [confirm_peers]; [intros [= _ <-]; constructor|].
  destruct (Hps p) as [Hp Hpi]; [apply elem_of_cons; by left|].
  destruct (turn run w) as [[t1 w1]|] eqn:E1; [|done]. cbn [mbind option_bind].
  apply (turn_stays run i Hrun) in E1 as S1.
  assert (Hr1 : reached c0 w1) by (by eapply reached_stays).
  destruct (the_node i w1) as [n1|] eqn:Hn1; [|done]. cbn [mbind option_bind].
  destruct (ConfirmLeadershipQuorum_request term p n1) as [[req|] n2] eqn:Eq.
  2: { intros [= _ <-]. assert (n2 = n1) as -> by (unfold ConfirmLeadershipQuorum_request, next_index_at, prev_of in Eq; by case_match; injection Eq).
       eapply stays_trans; [exact S1|by apply put_same]. }
  destruct (confirm_request_stays members i Hmembers c0 Hinit term p w1 n1 req n2 Hr1 Hn1 Hp Hpi Eq) as (S2 & Hterm & Hid).
  cbv zeta. set (ws := sent (MAppReq p req) (put i n2 w1)) in *.
  destruct (turn run ws) as [[t2 w2]|] eqn:E2; [|done]. cbn [mbind option_bind].
  apply (turn_stays run i Hrun) in E2 as S3.
  destruct (answered p req _ t2 w2) as [[]|] eqn:Ea; [|done]. cbn [mbind option_bind].
  destruct (the_node i w2) as [n3|] eqn:Hn3; [|done]. cbn [mbind option_bind].
  pose proof (confirm_reply_stays i (tn_clk t2) term p acks w2 n3 req (tn_reply t2) Hn3 Hterm Hid) as S4.
  destruct (ConfirmLeadershipQuorum_reply (tn_clk t2) term p acks (tn_reply t2) n3) as [acks' n4] eqn:Er.
  cbn [snd] in S4. assert (Swp : stays i w (put i n4 w2)).
  { eapply stays_trans; [exact S1|]. eapply stays_trans; [exact S2|]. eapply stays_trans; [exact S3|]. apply S4.
    intros a Ha. by eapply answered_sent. }
  destruct acks' as [acks'|]; [|by intros [= _ <-]]. intros Hrest. eapply stays_trans; [exact Swp|].
  eapply IH; [exact (reached_stays _ _ _ _ Hr Swp)|intros q Hq; apply Hps, elem_of_cons; by right|exact Hrest].
Qed.

Lemma ConfirmLeadershipQuorum_stays w b w' : reached c0 w -> ConfirmLeadershipQuorum run i w = Some (b, w') -> stays i w w'.
Proof.
  intros Hr. unfold ConfirmLeadershipQuorum. destruct (turn run w) as [[t w1]|] eqn:E1; [|done]. cbn [mbind option_bind].
  apply (turn_stays run i Hrun) in E1. pose proof (reached_stays _ _ _ _ Hr E1) as Hr1.
  destruct (the_node i w1) as [n|] eqn:Hn; [|done]. cbn [mbind option_bind].
  destruct (ConfirmLeadershipQuorum_begin _ n) as [b'|term]; [by intros [= _ <-]|]. intros HC.
  destruct (reached_any members Hmembers c0 Hinit _ Hr1) as (g & HI). pose proof (inv_nodes _ _ _ HI _ _ Hn) as Hni.
  eapply stays_trans; [exact E1|]. eapply confirm_peers_stays; [exact Hr1| |exact HC].
  intros p. apply (other_ids members g i n p Hni).
Qed.

Context (st : StorageOps R) (reserve : Z -> bool) (stale : bool) (Hreads : reads_map st).

Abbreviation handler := (node_handler run i st reserve stale).
Abbreviation raft := (node_raft run i reserve).

Lemma observe_stays {A} (f : RaftNode R -> A) w a w' : observe run i f w = Some (a, w') -> stays i w w'.
Proof.
  unfold observe. destruct (turn run w) as [[t w1]|] eqn:E1; [|done]. cbn [mbind option_bind].
  destruct (the_node i w1); [|done]. intros [= _ <-]. by apply (turn_stays run i Hrun) in E1.
Qed.

Lemma wrong_leader_stays req w resp w' : wrong_leader raft req w = Some (resp, w') -> stays i w w'.
Proof.
  unfold wrong_leader. cbn [rf_leader_id node_raft]. destruct (observe _ _ _ _) as [[l w1]|] eqn:E; [|done].
  intros [= _ <-]. by eapply observe_stays.
Qed.

Lemma IsLeader_stays w b w' : IsLeader handler w = Some (b, w') -> stays i w w'.
Proof.
  unfold IsLeader. cbn [raft_ node_handler rf_state node_raft]. destruct (observe _ _ _ _) as [[l w1]|] eqn:E; [|done].
  intros [= _ <-]. by eapply observe_stays.
Qed.

Lemma propose_stays req e w resp w' :
  reached c0 w -> storable (mkLogEntry 0 0 (le_op e) (le_key e) (le_value e)) ->
  propose raft req e w = Some (resp, w') -> stays i w w'.
Proof.
  intros Hr Hst. unfold propose. cbn [rf_Propose node_raft].
  destruct (Propose run i e w) as [[status w1]|] eqn:E; [|done]. cbn [mbind option_bind].
  apply Propose_stays in E; [|done..]. destruct (Status_ok status); [by intros [= _ <-]|].
  destruct (bool_decide _); [|by intros [= _ <-]]. intros Hw%wrong_leader_stays. exact (stays_trans _ _ _ _ E Hw).
Qed.

Lemma read_refused_stays w b w' : reached c0 w -> read_refused handler raft w = Some (b, w') -> stays i w w'.
Proof.
  intros Hr. unfold read_refused. cbn [allow_stale_reads_ node_handler]. destruct stale; [intros [= _ <-]; constructor|].
  destruct (IsLeader _ w) as [[l w1]|] eqn:E; [|done]. cbn [mbind option_bind]. apply IsLeader_stays in E.
  destruct l; cbn [negb]; [|by intros [= _ <-]]. cbn [rf_ConfirmLeadershipQuorum node_raft].
  destruct (ConfirmLeadershipQuorum run i w1) as [[c w2]|] eqn:EC; [|done]. intros [= _ <-].
  apply ConfirmLeadershipQuorum_stays in EC; [|exact (reached_stays _ _ _ _ Hr E)]. exact (stays_trans _ _ _ _ E EC).
Qed.

Lemma read_stays req w resp w' : reached c0 w -> read handler req w = Some (resp, w') -> stays i w w'.
Proof.
  intros Hr HR. unfold read in HR. cbn [storage_ node_handler st_Get node_storage] in HR. unfold on_store in HR.
  destruct (turn run w) as [[t w1]|] eqn:E; [|done]. cbn [mbind option_bind] in HR. apply (turn_stays run i Hrun) in E.
  destruct (the_node i w1) as [n|] eqn:Hn; [|done]. cbn [mbind option_bind] in HR.
  destruct (reached_any members Hmembers c0 Hinit w1) as (g & HI); [exact (reached_stays _ _ _ _ Hr E)|].
  rewrite Hreads in HR by apply (ni_ok _ _ _ _ (inv_nodes _ _ _ HI _ _ Hn)). cbn [mbind option_bind] in HR.
  assert (S2 : stays i w1 (put i (set_replica (replica_ n) n) w1)) by (apply put_same; rewrite Hn; by destruct n).
  destruct (spec_Get _ _); injection HR as _ <-; exact (stays_trans _ _ _ _ E S2).
Qed.

Lemma Handle_stays req w resp w' :
  reached c0 w -> (forall e, write_of req = Some e -> storable e) ->
  Handle handler req w = Some (resp, w') -> stays i w w'.
Proof.
  intros Hr Hst. unfold Handle. set (is_write := _ || _).
  destruct (if is_write then _ else _) as [[leader w1]|] eqn:E1; [|done]. cbn [mbind option_bind raft_ node_handler].
  assert (S1 : stays i w w1).
  { destruct is_write; [by eapply IsLeader_stays|]. injection E1 as _ <-. constructor. }
  pose proof (reached_stays _ _ _ _ Hr S1) as Hr1. destruct leader; cbn [negb].
  2: { intros Hw%wrong_leader_stays. exact (stays_trans _ _ _ _ S1 Hw). }
  unfold write_of in Hst. destruct (creq_opcode req).
  - intros Hw%propose_stays; [exact (stays_trans _ _ _ _ S1 Hw)|done|by apply Hst].
  - destruct (read_refused _ _ w1) as [[b w2]|] eqn:E2; [|done]. cbn [mbind option_bind].
    apply read_refused_stays in E2; [|done]. pose proof (stays_trans _ _ _ _ S1 E2) as S12.
    destruct b; [intros Hw%wrong_leader_stays|intros Hw%read_stays; [|exact (reached_stays _ _ _ _ Hr S12)]];
      exact (stays_trans _ _ _ _ S12 Hw).
  - intros Hw%propose_stays; [exact (stays_trans _ _ _ _ S1 Hw)|done|by apply Hst].
  - by intros [= _ <-].
Qed.

(** A write, under any schedule. *)
Lemma Handle_write_stays req e w resp w' :
  reached c0 w -> write_of req = Some e -> storable e -> Handle handler req w = Some (resp, w') -> stays i w w'.
Proof.
  intros Hr He Hst. unfold Handle, write_of in *.
  assert (Hcase : forall w1 b, IsLeader handler w = Some (b, w1) ->
    (if negb b then wrong_leader raft req w1 else propose raft req e w1) = Some (resp, w') -> stays i w w').
  { intros w1 b E%IsLeader_stays. pose proof (reached_stays _ _ _ _ Hr E) as Hr1.
    assert (Hst0 : storable (mkLogEntry 0 0 (le_op e) (le_key e) (le_value e)))
      by (destruct Hst as [_ Hst]; split; [cbn; lia|exact Hst]).
    destruct b; cbn [negb]; [intros Hw%propose_stays|intros Hw%wrong_leader_stays]; try done;
      exact (stays_trans _ _ _ _ E Hw). }
  destruct (creq_opcode req) eqn:Eo; try done; injection He as <-;
    [rewrite (bool_decide_true (Opcode.kSet = Opcode.kSet)) by done|
     rewrite (bool_decide_true (Opcode.kDelete = Opcode.kDelete)), orb_true_r by done]; cbn [orb];
    (destruct (IsLeader handler w) as [[b w1]|] eqn:E; [|done]); cbn [mbind option_bind raft_ node_handler];
    intros HH; apply (Hcase w1 b eq_refl); by destruct b.
Qed.

(** ** RPCs *)

(** A turn of the others forgets no message. *)
Lemma turn_net w t w' m : turn run w = Some (t, w') -> m ∈ net (wd_cluster w) -> m ∈ net (wd_cluster w').
Proof.
  intros E Hm. apply (turn_stays run i Hrun) in E. by apply (runs_net _ _ (runs_up_runs _ _ _ E)).
Qed.

Lemma serve_vote_stays req w resp w' :
  reached c0 w -> MVoteReq i req ∈ net (wd_cluster w) -> serve_vote run i req w = Some (resp, w') ->
  stays i w (sent (MVoteResp i req resp) w').
Proof.
  intros Hr Hm. unfold serve_vote. destruct (turn run w) as [[t w1]|] eqn:E; [|done]. cbn [mbind option_bind].
  pose proof (turn_net _ _ _ _ E Hm) as Hm1. apply (turn_stays run i Hrun) in E.
  destruct (the_node i w1) as [n|] eqn:Hn; [|done]. cbn [mbind option_bind].
  destruct (HandleRequestVote _ _ req n) as [r n2] eqn:Eh. intros [= <- <-]. eapply stays_trans; [exact E|].
  apply (stays_step i (EvVote i req (tn_clk t) (tn_clk t))); [done|done|]. cbn [exec]. unfold the_node in Hn. rewrite Hn.
  cbn [mbind option_bind]. rewrite bool_decide_true by done. cbn [guard mbind option_bind]. by rewrite Eh.
Qed.

Lemma serve_append_stays req w resp w' :
  reached c0 w -> MAppReq i req ∈ net (wd_cluster w) -> serve_append run i req w = Some (resp, w') ->
  stays i w (sent (MAppResp i req resp) w').
Proof.
  intros Hr Hm. unfold serve_append. destruct (turn run w) as [[t w1]|] eqn:E; [|done]. cbn [mbind option_bind].
  pose proof (turn_net _ _ _ _ E Hm) as Hm1. apply (turn_stays run i Hrun) in E.
  destruct (the_node i w1) as [n|] eqn:Hn; [|done]. cbn [mbind option_bind].
  destruct (HandleAppendEntries _ _ req n) as [[r n2]|] eqn:Eh; [|done]. intros [= <- <-]. eapply stays_trans; [exact E|].
  apply (stays_step i (EvAppend i req (tn_clk t) (tn_clk t))); [done|done|]. cbn [exec]. unfold the_node in Hn. rewrite Hn.
  cbn [mbind option_bind]. rewrite bool_decide_true by done. cbn [guard mbind option_bind]. by rewrite Eh.
Qed.

End Calls.

(** What a call needs: the loop is the node's only one and no election is under way; a
    write can be stored. *)
Definition call_ready {R} (run : list (Event R) -> Cluster R -> option (Cluster R)) i (cl : Call) (w : World R) : Prop :=
  match cl with
  | CallLoop _ => one_loop run i /\ elections (wd_cluster w) !! i = None
  | CallClient req => forall e, write_of req = Some e -> storable e
  | CallVote _ | CallAppend _ => True
  end.

(** C4: The program refines the protocol. Whatever a node runs from beginning to end (any
    number of turns of its background loop with the elections and heartbeats in them, a
    client's request whose write can be stored, a vote or append request of a peer), however
    the other threads and processes interleave with it, takes the cluster through a sequence
    of the events of the protocol. So, when no append request so far announces a commit index
    beyond what it covers, what any node had committed when the call began agrees with what
    any node has committed when it ends. *)
Theorem calls_refine_events {R} `{ReplicaLaws R} (members : list PeerInfo) run i st reserve stale
    (c0 : Cluster R) cl (w w' : World R) :
  members_ok members -> schedules run i -> initial members c0 -> reads_map st ->
  runs c0 (wd_cluster w) -> call_ready run i cl w -> call run i st reserve stale cl w = Some w' ->
  runs_up (eq i) (wd_cluster w) (wd_cluster w') /\
  forall j nj k nk x, commits_covered (wd_cluster w') ->
    nodes (wd_cluster w) !! j = Some nj -> nodes (wd_cluster w') !! k = Some nk ->
    x <= commit_index_ nj -> x <= commit_index_ nk -> ztake x (log_entries nj) = ztake x (log_entries nk).
Proof.
  intros Hmem Hrun Hinit Hst Hr Hready Hcall. assert (Hs : stays i w w').
  { destruct cl as [loads|req|req|req]; cbn [call call_ready] in *.
    - apply fmap_Some in Hcall as ([b w1] & E & ->). destruct Hready as [Hone Hel].
      exact (RunLoop_stays members run i Hmem Hrun c0 Hinit loads w b w1 Hone Hr Hel E).
    - apply fmap_Some in Hcall as ([resp w1] & E & ->). by eapply Handle_stays.
    - unfold guard in Hcall. case_bool_decide as Hm; [|done]. cbn [mbind option_bind] in Hcall.
      destruct (serve_vote run i req w) as [[resp w1]|] eqn:E; [|done]. injection Hcall as <-.
      by eapply serve_vote_stays.
    - unfold guard in Hcall. case_bool_decide as Hm; [|done]. cbn [mbind option_bind] in Hcall.
      destruct (serve_append run i req w) as [[resp w1]|] eqn:E; [|done]. injection Hcall as <-.
      by eapply serve_append_stays. }
  split; [exact Hs|]. intros j nj k nk x Hcov Hj Hk Hxj Hxk.
  destruct (runs_inv2 (St := covered_run) members c0 (wd_cluster w) (wd_cluster w') Hmem Hinit) as (g1 & g2 & HI1 & HI2 & He);
    [done|by eapply runs_up_runs|done|]. by eapply (committed_same (St := covered_run) members (wd_cluster w) (wd_cluster w') g1 g2 j k).
Qed.

(** ** An election and a round of heartbeats on the cluster of RaftTraces.v *)

#[local] Existing Instance example_libc.
#[local] Existing Instance example_hash.

#[export] Instance Election_eq_dec : EqDecision Election.
Proof. solve_decision. Defined.

Definition loop_run {R} `{ReplicaOps R} (i : Z) (evs : list (Event R)) (c : Cluster R) : option (Cluster R) :=
  c' ← bounded_run i evs c; if bool_decide (elections c' !! i = elections c !! i) then Some c' else None.

Lemma loop_run_ok {R} `{ReplicaLaws R} i : schedules (R := R) (loop_run i) i /\ one_loop (R := R) (loop_run i) i.
Proof.
  assert (Hcase : forall evs c c', loop_run i evs c = Some c' ->
    bounded_run (R := R) i evs c = Some c' /\ elections c' !! i = elections c !! i).
  { intros evs c c'. unfold loop_run. destruct (bounded_run i evs c) as [c1|]; [|done]. cbn [mbind option_bind].
    case_bool_decide; [|done]. by intros [= <-]. }
  split; intros evs c c' [Hc He]%Hcase; [by eapply bounded_run_schedules|done].
Qed.

Definition voted_turn (p : Z) : Turn (Replica ShardedKV) :=
  mkTurn [EvVote p (vote_req 1 1 0 0) clk0 clk0] later None (Some (mkRequestVoteResponse 1 true)).

Definition heartbeat_turns (p : Z) : list (Turn (Replica ShardedKV)) := [pause; served_turn p (app_req 1 1 0 0 0 [])].

(** The deadline of node 1 has passed: it stands and wins; then it sends heartbeats. *)
Definition before_loop : World (Replica ShardedKV) :=
  mkWorld three ([much_later; much_later; voted_turn 2; voted_turn 3; much_later;
                  mkTurn [] (mkClock 30000 250) None None] ++ heartbeat_turns 2 ++ heartbeat_turns 3).

Definition first_loop : Call := CallLoop [false; false; false; false; false; true].

Definition after_loop : World (Replica ShardedKV) :=
  default before_loop (call (loop_run 1) 1 replica_store (fun _ => true) false first_loop before_loop).

Lemma calls_refine_events_witness :
  role 1 (wd_cluster after_loop) = Some (RaftState.kLeader, 1) /\ wd_turns after_loop = [] /\
  runs_up (eq 1) three (wd_cluster after_loop).
Proof.
  split; [vm_compute; reflexivity|]. split; [vm_compute; reflexivity|].
  apply (calls_refine_events three_peers (loop_run 1) 1 replica_store (fun _ => true) false three first_loop before_loop
    after_loop three_ok (proj1 (loop_run_ok 1)) three_initial replica_store_reads (runs_refl _)).
  - split; [apply loop_run_ok|reflexivity].
  - vm_compute. reflexivity.
Defined.

(** ** The thread's life *)

(** The loop returns as soon as it reads [stop_] set. *)
Theorem RunLoop_returns {R} `{ReplicaOps R} run i loads (w w' : World R) b :
  true ∈ loads -> RunLoop run i loads w = Some (b, w') -> b = true.
Proof.
  revert loads w. fix IH 1. intros [|[] [|[] loads]] w Hin; cbn [RunLoop]; try (clear IH; by intros [= <- _]).
  - by apply elem_of_nil in Hin.
  - by apply list_elem_of_singleton in Hin.
  - destruct (RunLoop_body run i w) as [w1|]; [|done]. cbn [mbind option_bind]. apply IH.
    by repeat apply elem_of_cons in Hin as [?|Hin].
Qed.

(** Whatever the sequence of [Start] and [Stop], one thread at most is ever started, none
    when the node did not open, and after the destructor none is left to be joined. *)
Theorem node_thread_life open calls :
  let t := life calls (NodeThread_new open) in
  (spawned t <= 1)%nat /\ (th_run_thread t = true -> th_started t = true /\ spawned t = 1%nat) /\
  (Status_ok open = false -> spawned t = O) /\
  th_run_thread (RaftNode_destroy t) = false /\ th_stop (RaftNode_destroy t) = true.
Proof.
  assert (Hinv : forall t, th_open_status t = open /\ (spawned t = if th_started t then 1%nat else O) /\
    (th_run_thread t = true -> th_started t = true) /\ (Status_ok open = false -> th_started t = false) ->
    let t' := life calls t in
    th_open_status t' = open /\ (spawned t' = if th_started t' then 1%nat else O) /\
    (th_run_thread t' = true -> th_started t' = true) /\ (Status_ok open = false -> th_started t' = false)).
  { induction calls as [|[|] calls IH]; intros t Ht; [done| |]; apply IH; destruct Ht as (Ho & Hs & Hj & Hf); cbn; [|done].
    unfold Start. rewrite Ho. destruct (Status_ok open) eqn:E; cbn [negb]; [|done].
    destruct (th_started t) eqn:Et; cbn; [by rewrite Et|]. by rewrite Hs. }
  cbn zeta. destruct (Hinv (NodeThread_new open)) as (_ & Hs & Hj & Hf); [done|].
  destruct (life calls _) as [o s st j sp]. cbn in *. split; [destruct st; lia|].
  split; [intros Hr; rewrite (Hj Hr) in *; done|]. split; [intros Hc; rewrite (Hf Hc) in Hs; done|done].
Qed.
