(* ===== verification/RaftProgress.v ===== *)
(** * Progress of a Raft cluster

    The safety theorems say what can never happen; here is what always can. From every
    reachable state of a cluster, whatever crashes, elections and lost messages led to it,
    any majority of the members can elect one of them, bring the others in step with its
    log and have a client's write committed and acknowledged, by the program's own calls:
    turns of [RunLoop] and one [Handle]. *)

From Stdlib Require Import Strings.String.
From stdpp Require Import sorting.
From S2P Require Import Prelude Common BigEndian Codec Crc32 Os WalRecord ShardedKV WalWriter DurableStorage.
From S2P Require Import RaftTypes RaftLog ClusterConfig RaftNode RaftNodeSpec RaftCluster RaftGhost.
From S2P Require Import RaftInvariant RaftCompleteness RaftSteps RaftSafety RaftReplica RaftTraces RaftApplied Handler.
From S2P Require Import RaftService RaftReads RaftLoop.

(** ** Commitment: the leader commits what a majority has *)

Lemma filter_none {A} (P : A -> Prop) `{forall x, Decision (P x)} l : Forall (fun x => ~ P x) l -> filter P l = [].
Proof. induction 1 as [|x l Hx _ IH]; [done|]. by rewrite filter_cons, decide_False. Qed.

(** When [m] members of a list are at least [c], so is the one [m] places from the end of
    its sorted form. *)
Lemma sorted_reaches (l : list Z) m c :
  (1 <= m <= length l)%nat -> (m <= length (filter (fun x : Z => (c <= x)%Z) l))%nat ->
  c <= nth (length l - m) (sort_indices l) 0.
Proof.
  intros Hm Hcount. set (s := sort_indices l).
  assert (Hperm : s ≡ₚ l) by apply merge_sort_Permutation.
  assert (Hsorted : StronglySorted Z.le s) by (apply Sorted_StronglySorted; [apply _|apply (Sorted_merge_sort Z.le)]).
  assert (Hlen : length s = length l) by (by apply Permutation_length).
  assert (Hf : filter (fun x => c <= x) s ≡ₚ filter (fun x => c <= x) l) by (by apply filter_Permutation).
  rewrite <- (Permutation_length Hf) in Hcount. destruct (Z.le_gt_cases c (nth (length l - m) s 0)) as [|Hlt]; [done|].
  exfalso. destruct (lookup_lt_is_Some_2 s (length l - m)) as [y Hy]; [lia|].
  rewrite (nth_lookup_Some _ _ _ _ Hy) in Hlt. rewrite <- (take_drop_middle s _ y Hy), filter_app in Hcount.
  assert (Hnone : filter (fun x => c <= x) (take (length l - m) s) = []).
  { apply filter_none, Forall_forall. intros x Hx.
    rewrite <- (take_drop_middle s _ y Hy) in Hsorted.
    pose proof (StronglySorted_app_1_elem_of Z.le _ _ x y Hsorted Hx ltac:(apply elem_of_cons; by left)). lia. }
  rewrite Hnone, filter_cons, decide_False in Hcount by lia. cbn [app] in Hcount.
  pose proof (length_filter (fun x => c <= x) (drop (S (length l - m)) s)) as Hle.
  rewrite length_drop in Hle. lia.
Qed.

Section Commit.
Context {R : Type} `{ReplicaLaws R}.
Implicit Types n : RaftNode R.

(** A majority of the counted indices is the end of the log, whose last entry is of this
    term: the whole log is committed. *)
Lemma AdvanceCommit_reaches n n' e :
  node_ok n -> Forall (fun x => x <= zlen (log_entries n)) (leader_indices n) ->
  (length (leader_indices n) / 2 + 1 <= length (filter (fun x : Z => (zlen (log_entries n) <= x)%Z) (leader_indices n)))%nat ->
  last (log_entries n) = Some e -> le_term e = current_term_ n ->
  AdvanceCommitIndexLocked n = Some n' -> zlen (log_entries n) <= commit_index_ n'.
Proof.
  intros Hn Hall Hcount He Ht. unfold AdvanceCommitIndexLocked. destruct (node_log_wf n Hn) as [Hwf _].
  rewrite Log_LastIndex_wf by done. fold (leader_indices n).
  assert (Hperm : sort_indices (leader_indices n) ≡ₚ leader_indices n) by apply merge_sort_Permutation.
  rewrite (Permutation_length Hperm). set (m := (length (leader_indices n) / 2 + 1)%nat) in *.
  assert (Hm : (1 <= m <= length (leader_indices n))%nat) by (apply half_bound; cbn [leader_indices length]; lia).
  pose proof (sorted_reaches _ m _ Hm Hcount) as Hge.
  set (c := nth (length (leader_indices n) - m) (sort_indices (leader_indices n)) 0) in *.
  destruct (Z.leb_spec c (commit_index_ n)) as [|Hgt]; [intros [= <-]; lia|].
  assert (Hc : c = zlen (log_entries n)).
  { apply Z.le_antisymm; [|exact Hge]. rewrite Forall_forall in Hall. apply Hall. rewrite <- Hperm. apply list_elem_of_In, nth_In.
    rewrite (Permutation_length Hperm). lia. }
  assert (Hlast : Log_Get (log_entries n) c = Some e).
  { rewrite last_lookup in He. pose proof (lookup_lt_Some _ _ _ He) as Hlt.
    rewrite Hc, Log_Get_pos by (done || (unfold zlen; lia)). rewrite <- He. f_equal. unfold zlen. lia. }
  rewrite Hlast, Ht, Z.eqb_refl. unfold ApplyCommittedEntriesLocked.
  destruct (apply_loop _ _ _); [|done]. cbn [mbind option_bind]. intros [= <-]. exact Hge.
Qed.

(** The members known to have the whole log are counted. *)
Lemma acked_count n (D : list Z) (c : Z) :
  NoDup D -> (forall p, p ∈ D -> match_index_ n !! p = Some c) -> c <= zlen (log_entries n) ->
  (S (length D) <= length (filter (fun x : Z => (c <= x)%Z) (leader_indices n)))%nat.
Proof.
  intros Hnd HD Hc. unfold leader_indices. rewrite filter_cons, decide_True by done. cbn [length]. apply le_n_S.
  rewrite filter_fmap_length, <- (length_fmap fst). apply submseteq_length, NoDup_submseteq; [done|].
  intros p Hp. apply list_elem_of_fmap. exists (p, c). split; [done|]. apply list_elem_of_filter. split; [cbn; lia|].
  by apply elem_of_map_to_list, HD.
Qed.

End Commit.

(** ** Rounds of replication *)

Section Progress.
Context {R : Type} `{ReplicaLaws R} (members : list PeerInfo) (i : Z).
Context (Hmembers : members_ok members) (Hi : i ∈ node_id <$> members).
Implicit Types (w : World R) (n : RaftNode R) (c : Cluster R) (L : list LogEntry).

Abbreviation ids := (node_id <$> members).
Abbreviation run := run_allowed.

#[local] Arguments ReplicateToPeer_reply : simpl never.
#[local] Arguments rpc_sent : simpl never.

(** What [RandomElectionTimeout] returns. *)
Definition RandomElectionTimeout (clk : Clock) : Prop :=
  kElectionTimeoutMin <= random_timeout clk <= kElectionTimeoutMax.

(** Nothing happens but that members of [Q] serve requests. *)
Definition serves (Q : list Z) (t : Turn R) : Prop :=
  RandomElectionTimeout (tn_clk t) /\
  Forall (fun ev => match ev with
    | EvVote p _ clk1 clk2 | EvAppend p _ clk1 clk2 => p ∈ Q /\ RandomElectionTimeout clk1 /\ RandomElectionTimeout clk2
    | _ => False
    end) (tn_events t).

(** The clock does not go back between [time] and [time']. *)
Fixpoint passes (time : Z) (ts : list (Turn R)) (time' : Z) : Prop :=
  match ts with
  | [] => time <= time'
  | t :: ts => time <= now (tn_clk t) /\ passes (now (tn_clk t)) ts time'
  end.

Lemma passes_app t1 ts1 t2 ts2 t3 : passes t1 ts1 t2 -> passes t2 ts2 t3 -> passes t1 (ts1 ++ ts2) t3.
Proof.
  revert t1. induction ts1 as [|t ts1 IH]; intros t1; cbn [passes app].
  - destruct ts2 as [|t ts2]; cbn [passes]; [lia|]. intros Hle [? ?]. split; [lia|done].
  - intros [Hle H1] H2. split; [done|by apply IH].
Qed.

(** The entries fit into one frame: no append request with a suffix of them is refused. *)
Definition fits (es : list LogEntry) : Prop := 53 + entries_size es <= kMaxPayloadSize.

(** What every node of a cluster satisfies that covered runs reach. *)
Record healthy n : Prop := {
  hl_ok : node_ok n;
  hl_commit : 0 <= commit_index_ n <= zlen (log_entries n);
  hl_len : zlen (log_entries n) <= 2 ^ 62
}.

(** Node [i] leads term [t] with log [L]. *)
Record leads L (t : Z) n : Prop := {
  lead_healthy : healthy n;
  lead_id : local_node_id_ n = i;
  lead_peers : peers (config_ n) = members;
  lead_state : state_ n = RaftState.kLeader;
  lead_term : current_term_ n = t;
  lead_log : log_entries n = L;
  lead_match_dom : forall p, is_Some (match_index_ n !! p) <-> p ∈ ids /\ p <> i;
  lead_match : forall p x, match_index_ n !! p = Some x -> x <= zlen L;
  lead_next_dom : forall p, is_Some (next_index_ n !! p) <-> p ∈ ids /\ p <> i;
  lead_next : forall p x, next_index_ n !! p = Some x -> 1 <= x <= zlen L + 1;
  lead_fits : fits L
}.

Lemma healthy_len n : healthy n -> zlen (log_entries n) + 1 < 2 ^ 64.
Proof. intros [_ _ Hl]. lia. Qed.

Lemma set_indexes_same n : set_indexes (next_index_ n) (match_index_ n) n = n.
Proof. by destruct n. Qed.

(** *** At one instant *)

Section Instant.
Context (time : Z).

Definition clock : Clock := mkClock time kElectionTimeoutMin.

(** Nothing happens and no answer arrives; a peer serves the request and its answer arrives. *)
Definition quiet : Turn R := mkTurn [] clock None None.
Definition append_turn p req resp : Turn R := mkTurn [EvAppend p req clock clock] clock (Some resp) None.
Definition vote_turn p req resp : Turn R := mkTurn [EvVote p req clock clock] clock None (Some resp).

Definition serves_now (Q : list Z) (t : Turn R) : Prop := serves Q t /\ now (tn_clk t) = time.

Lemma clock_random : RandomElectionTimeout clock.
Proof. split; by vm_compute. Qed.

Lemma quiet_serves Q : serves_now Q quiet.
Proof. split; [split; [apply clock_random|constructor]|done]. Qed.

Lemma append_serves Q p req resp : p ∈ Q -> serves_now Q (append_turn p req resp).
Proof. intros Hp. split; [|done]. split; [apply clock_random|]. repeat constructor; try apply clock_random. done. Qed.

Lemma vote_serves Q p req resp : p ∈ Q -> serves_now Q (vote_turn p req resp).
Proof. intros Hp. split; [|done]. split; [apply clock_random|]. repeat constructor; try apply clock_random. done. Qed.

Lemma append_pair_serves p req resp : Forall (serves_now [p]) [quiet; append_turn p req resp].
Proof.
  apply Forall_cons. split; [apply quiet_serves|]. apply Forall_singleton, append_serves. by apply list_elem_of_singleton.
Qed.

Lemma serves_mono Q Q' ts : Q ⊆ Q' -> Forall (serves Q) ts -> Forall (serves Q') ts.
Proof.
  intros HQ Hts. eapply Forall_impl; [exact Hts|]. intros t [Hr Ht]. split; [done|]. eapply Forall_impl; [exact Ht|].
  intros ev. destruct ev; try done; intros [? ?]; (split; [by apply HQ|done]).
Qed.

Lemma serves_now_mono Q Q' ts : Q ⊆ Q' -> Forall (serves_now Q) ts -> Forall (serves_now Q') ts.
Proof.
  intros HQ Hts. apply Forall_and in Hts as [H1 H2]. apply Forall_and. split; [by eapply serves_mono|done].
Qed.

Lemma passes_now Q before ts : before <= time -> Forall (serves_now Q) ts -> passes before ts time.
Proof.
  intros Hle Hts. revert before Hle. induction Hts as [|t ts [_ Ht] _ IH]; intros before Hle; cbn [passes]; [done|].
  rewrite Ht. split; [done|]. by apply IH.
Qed.

(** The request to a peer, from the node's own fields. *)
Definition request L (t commit next : Z) : AppendEntriesRequest :=
  mkAppendEntriesRequest t i (next - 1) (term_before next L) commit (zdrop (next - 1) L).

Lemma leads_request L t n p next :
  leads L t n -> next_index_ n !! p = Some next ->
  ReplicateToPeer_request p n = (Some (request L t (commit_index_ n) next), n).
Proof.
  intros Hl Hnext. pose proof (healthy_len n (lead_healthy _ _ _ Hl)).
  rewrite (ReplicateToPeer_request_spec p n next) by
    (try apply Hl; try done; rewrite (lead_log _ _ _ Hl); by apply (lead_next _ _ _ Hl p)).
  rewrite set_indexes_same. unfold request. by rewrite (lead_id _ _ _ Hl), (lead_term _ _ _ Hl), (lead_log _ _ _ Hl).
Qed.

Lemma request_sent L t commit next : fits L -> rpc_sent (request L t commit next) = true.
Proof.
  intros Hf. rewrite rpc_sent_size. apply Z.leb_le. unfold fits in Hf. cbn [aeq_entries request].
  pose proof (entries_size_drop (Z.to_nat (next - 1)) L). unfold zdrop. lia.
Qed.

(** Nobody answers: nothing changes. *)
Lemma silent_peer L t c n p :
  nodes c !! i = Some n -> leads L t n -> p ∈ ids -> p <> i ->
  exists c', nodes c' = nodes c /\
    forall rest, ReplicateToPeer run i p (mkWorld c (quiet :: quiet :: rest)) = Some (mkWorld c' rest).
Proof.
  intros Hn Hl Hp Hpi. destruct (proj2 (lead_next_dom _ _ _ Hl p)) as [next Hnext]; [done|].
  exists (set_node i n (send (MAppReq p (request L t (commit_index_ n) next)) (set_node i n c))).
  split; [cbn; by rewrite insert_insert_eq, insert_id|]. intros rest. unfold ReplicateToPeer, turn, the_node. cbn.
  rewrite Hn. cbn. rewrite (leads_request L t n p next Hl Hnext), (request_sent L t _ next (lead_fits _ _ _ Hl)). cbn. by rewrite lookup_insert_eq.
Qed.

(** The message sent last is one sent since. *)
Lemma sent_last m c k ts : (k <= length (net c))%nat -> m ∈ sent_since k (mkWorld (send m c) ts).
Proof.
  intros Hk. unfold sent_since. cbn [wd_cluster net send length].
  replace (S (length (net c)) - k)%nat with (S (length (net c) - k)) by lia. apply elem_of_cons. by left.
Qed.

(** The peer serves the request. *)
Lemma served_turn_ok c n p np req resp np' n' :
  nodes c !! i = Some n -> p <> i -> nodes c !! p = Some np ->
  ReplicateToPeer_request p n = (Some req, n) -> rpc_sent req = true ->
  HandleAppendEntries clock clock req np = Some (resp, np') ->
  ReplicateToPeer_reply clock p req (Some resp) n = Some n' ->
  exists c', nodes c' = <[i := n']> (<[p := np']> (nodes c)) /\
    forall rest, ReplicateToPeer run i p (mkWorld c (quiet :: append_turn p req resp :: rest)) = Some (mkWorld c' rest).
Proof.
  intros Hn Hpi Hnp Hreq Hsent Hh Hr.
  exists (set_node i n' (send (MAppResp p req resp) (set_node p np' (send (MAppReq p req) (set_node i n c))))). split.
  - cbn. rewrite (insert_insert_ne (nodes c) p i) by done. by rewrite insert_insert_eq.
  - intros rest. unfold ReplicateToPeer, turn, the_node. cbn. rewrite Hn. cbn. rewrite Hreq, Hsent. cbn.
    rewrite lookup_insert_ne, Hnp by done. cbn. rewrite bool_decide_true by (apply elem_of_cons; by left). cbn.
    rewrite Hh. cbn. unfold answered. cbn. rewrite bool_decide_true by
      exact (sent_last _ (set_node p np' (send (MAppReq p req) (set_node i n c))) _ rest (le_n _)). cbn.
    rewrite lookup_insert_ne, lookup_insert_eq by done. cbn. by rewrite Hr.
Qed.

(** A leader stays one when a reply moves the indices of a peer and its commit index. *)
Lemma leads_after L t n n' p x :
  leads L t n -> node_ok n' -> same_node n n' -> log_entries n' = log_entries n ->
  current_term_ n' = current_term_ n -> state_ n' = state_ n ->
  (commit_index_ n' = commit_index_ n \/ (commit_index_ n < commit_index_ n' /\ commits n' (commit_index_ n'))) ->
  p ∈ ids -> p <> i -> (match_index_ n' = match_index_ n \/ match_index_ n' = <[p := zlen L]> (match_index_ n)) ->
  next_index_ n' = <[p := x]> (next_index_ n) -> 1 <= x <= zlen L + 1 -> leads L t n'.
Proof.
  intros [[Hok Hc Hlen] Hid Hpe Hst Ht Hlog Hmd Hm Hnd Hnx Hf] Hok' [Hsi Hsc] Hlog' Ht' Hst' Hc' Hp Hpi Hm' Hn' Hx.
  assert (Hdom : forall (m : gmap Z Z) v, (forall q, is_Some (m !! q) <-> q ∈ ids /\ q <> i) ->
    forall q, is_Some (<[p := v]> m !! q) <-> q ∈ ids /\ q <> i).
  { intros m v Hd q. rewrite lookup_insert_is_Some, Hd. destruct (decide (p = q)) as [->|]; naive_solver. }
  constructor; [|congruence|congruence|congruence|congruence|congruence| | | | |done].
  - constructor; [done| |by rewrite Hlog']. rewrite Hlog'. destruct Hc' as [->|[Hlt [(e & H1 & He%lookup_lt_Some & _) _]]]; [done|].
    rewrite Hlog' in He. unfold zlen. lia.
  - destruct Hm' as [->| ->]; [done|by apply Hdom].
  - intros q y. destruct Hm' as [->| ->]; [apply Hm|]. intros [[_ <-]|[_ Hq]]%lookup_insert_Some; [lia|by eapply Hm].
  - rewrite Hn'. by apply Hdom.
  - intros q y. rewrite Hn'. intros [[_ <-]|[_ Hq]]%lookup_insert_Some; [lia|by eapply Hnx].
Qed.

(** The follower's answer to a request of the leader. *)
Lemma request_served L t n p next np :
  leads L t n -> next_index_ n !! p = Some next -> healthy np ->
  exists resp np', HandleAppendEntries clock clock (request L t (commit_index_ n) next) np = Some (resp, np') /\
    ((t < current_term_ np /\ np' = np /\ resp = mkAppendEntriesResponse (current_term_ np) false) \/
     (current_term_ np <= t /\ node_ok np' /\ current_term_ np' = t /\ aer_term resp = t /\
      ((prev_mismatch (log_entries np) (request L 0 0 next) = true /\ aer_success resp = false /\
        log_entries np' = log_entries np /\ commit_index_ np' = commit_index_ np) \/
       (prev_mismatch (log_entries np) (request L 0 0 next) = false /\ aer_success resp = true)))).
Proof.
  intros Hl Hnext [Hok Hc Hlen]. pose proof (lead_healthy _ _ _ Hl) as [Hokn Hcn Hlenn].
  pose proof (lead_next _ _ _ Hl p next Hnext) as Hr. rewrite (lead_log _ _ _ Hl) in *.
  destruct (HandleAppendEntries_spec clock clock (request L t (commit_index_ n) next) np)
    as (resp & np' & E & _ & Hcase).
  - done.
  - rewrite <- (lead_term _ _ _ Hl). by destruct Hokn as [_ _ [? _]].
  - apply Forall_drop. rewrite <- (lead_log _ _ _ Hl). by apply node_log_wf.
  - cbn. lia.
  - cbn. lia.
  - lia.
  - cbn. rewrite zlen_zdrop by lia. lia.
  - exists resp, np'. split; [exact E|]. destruct Hcase as [?|(Hle & Hok' & _ & Ht' & Hrt & _ & _ & _ & _ & Hlog)]; [by left|right].
    do 4 (split; [done|]). destruct Hlog as [(? & ? & ? & ?)|(? & ? & _)]; [by left|by right].
Qed.

(** The peer's log holds the entry before [next]. *)
Definition in_step L (next : Z) np : Prop := prev_mismatch (log_entries np) (request L 0 0 next) = false.

#[export] Instance in_step_dec L next np : Decision (in_step L next np).
Proof. unfold in_step. apply _. Defined.

Lemma in_step_first L np : in_step L 1 np.
Proof. done. Qed.

(** A peer that is out of step refuses, and the leader goes one entry back. *)
Lemma rejected_peer L t c n p np next :
  nodes c !! i = Some n -> leads L t n -> p ∈ ids -> p <> i -> nodes c !! p = Some np -> healthy np ->
  current_term_ np <= t -> next_index_ n !! p = Some next -> ~ in_step L next np ->
  exists ts c' n' np', Forall (serves_now [p]) ts /\ nodes c' = <[i := n']> (<[p := np']> (nodes c)) /\
    (forall rest, ReplicateToPeer run i p (mkWorld c (ts ++ rest)) = Some (mkWorld c' rest)) /\
    leads L t n' /\ 1 < next /\ next_index_ n' = <[p := next - 1]> (next_index_ n) /\
    healthy np' /\ log_entries np' = log_entries np /\ current_term_ np' = t.
Proof.
  intros Hn Hl Hp Hpi Hnp Hh Ht Hnext Hstep. apply not_false_is_true in Hstep.
  pose proof (lead_next _ _ _ Hl p next Hnext) as Hr. pose proof (lead_healthy _ _ _ Hl) as [Hok Hc Hlen].
  rewrite (lead_log _ _ _ Hl) in Hc, Hlen.
  assert (Hnext1 : 1 < next). { destruct (decide (next = 1)) as [->|]; [by rewrite in_step_first in Hstep|lia]. }
  destruct (request_served L t n p next np Hl Hnext Hh) as (resp & np' & E & [(? & _)|(_ & Hok' & Ht' & Hrt & [Hlog|[? _]])]);
    [lia| |congruence].
  destruct Hlog as (_ & Hs & Hlog & Hci).
  destruct (ReplicateToPeer_reply_spec clock p (request L t (commit_index_ n) next) resp n) as
    (n' & Er & _ & Hokn & Hsame & Hlogn & [(_ & Hno)|[(Hlt & _)|(_ & _ & Htn & _ & Hstn & [(? & _)|(_ & Hm & Hcn & x & Hx & Hnx)])]]).
  - exact Hok.
  - rewrite Hrt. rewrite <- (lead_term _ _ _ Hl). by destruct Hok as [_ _ [? _]].
  - lia.
  - rewrite (lead_log _ _ _ Hl). lia.
  - exfalso. apply Hno. split; [apply Hl|]. apply (lead_term _ _ _ Hl).
  - rewrite Hrt, (lead_term _ _ _ Hl) in Hlt. lia.
  - congruence.
  - rewrite Hnext in Hx. cbn in Hx. subst x. replace (1 <? next) with true in Hnx by lia.
    replace (u64 (next - 1)) with (next - 1) in Hnx by (unfold u64; rewrite Z.mod_small; lia).
    destruct (served_turn_ok c n p np _ resp np' n' Hn Hpi Hnp (leads_request L t n p next Hl Hnext)
      (request_sent L t _ next (lead_fits _ _ _ Hl)) E Er) as (c' & Hc' & Ew).
    exists [quiet; append_turn p (request L t (commit_index_ n) next) resp], c', n', np'.
    split; [apply append_pair_serves|]. split; [done|]. split; [done|]. split; [|split; [done|]; split; [done|]].
    + eapply (leads_after L t n n' p); try done; [by left|by left|lia].
    + split; [|done]. destruct Hh as [_ ? ?]. constructor; rewrite ?Hlog, ?Hci; done.
Qed.

(** A peer of a later term deposes the leader. *)
Lemma deposing_peer L t c n p np :
  nodes c !! i = Some n -> leads L t n -> p ∈ ids -> p <> i -> nodes c !! p = Some np -> healthy np ->
  t < current_term_ np ->
  exists ts c' n', Forall (serves_now [p]) ts /\ nodes c' = <[i := n']> (nodes c) /\
    (forall rest, ReplicateToPeer run i p (mkWorld c (ts ++ rest)) = Some (mkWorld c' rest)) /\
    healthy n' /\ same_node n n' /\ state_ n' = RaftState.kFollower /\ log_entries n' = L /\
    current_term_ n' = current_term_ np.
Proof.
  intros Hn Hl Hp Hpi Hnp Hh Ht. destruct (proj2 (lead_next_dom _ _ _ Hl p)) as [next Hnext]; [done|].
  pose proof (lead_healthy _ _ _ Hl) as [Hok Hc Hlen].
  destruct (request_served L t n p next np Hl Hnext Hh) as (resp & np' & E & [(_ & -> & ->)|(? & _)]); [|lia].
  assert (Hu : is_u64 (current_term_ np)) by (by destruct Hh as [[_ _ [? _]] _ _]).
  destruct (BecomeFollower_spec clock (current_term_ np) n Hok Hu) as (Hok' & Hs' & Hlog' & _ & Ht' & _ & Hst' & Hc' & _).
  assert (Er : ReplicateToPeer_reply clock p (request L t (commit_index_ n) next)
    (Some (mkAppendEntriesResponse (current_term_ np) false)) n = Some (BecomeFollowerLocked clock (current_term_ np) n)).
  { unfold ReplicateToPeer_reply. rewrite bool_decide_true by apply Hl. cbn [aeq_term request aer_term].
    rewrite (lead_term _ _ _ Hl), Z.eqb_refl. cbn [negb orb]. by replace (t <? current_term_ np) with true by lia. }
  destruct (served_turn_ok c n p np _ _ np _ Hn Hpi Hnp (leads_request L t n p next Hl Hnext)
      (request_sent L t _ next (lead_fits _ _ _ Hl)) E Er) as (c' & Hnodes & Ew).
  eexists [quiet; append_turn p _ _], c', _. split; [apply append_pair_serves|].
  split; [by rewrite (insert_id (nodes c) p np) in Hnodes by done|]. split; [exact Ew|].
  split; [constructor; [done| |]; rewrite Hlog', ?Hc'; done|]. split; [done|]. split; [done|].
  split; [by rewrite Hlog'; apply Hl|done].
Qed.

(** A reply of success on which a majority has the whole log, its last entry of this term. *)
Lemma reply_commits clk p req resp n n' e :
  node_ok n -> 0 <= commit_index_ n < 2 ^ 64 -> zlen (log_entries n) < 2 ^ 64 ->
  state_ n = RaftState.kLeader -> current_term_ n = aeq_term req -> aer_term resp <= current_term_ n ->
  aer_success resp = true ->
  ReplicateToPeer_reply clk p req (Some resp) n = Some n' ->
  Forall (fun x => x <= zlen (log_entries n)) (leader_indices n') ->
  (length (leader_indices n') / 2 + 1 <= length (filter (fun x : Z => (zlen (log_entries n) <= x)%Z) (leader_indices n')))%nat ->
  last (log_entries n) = Some e -> le_term e = current_term_ n -> zlen (log_entries n) <= commit_index_ n'.
Proof.
  intros Hok Hc Hlen Hst Ht Hrt Hs. unfold ReplicateToPeer_reply. rewrite bool_decide_true by done.
  rewrite Ht, Z.eqb_refl. cbn [negb orb]. rewrite <- Ht. replace (current_term_ n <? aer_term resp) with false by lia.
  rewrite Hs. match goal with |- AdvanceCommitIndexLocked ?x = _ -> _ => set (n1 := x) end.
  assert (H1 : node_ok n1 /\ log_entries n1 = log_entries n /\ current_term_ n1 = current_term_ n /\ commit_index_ n1 = commit_index_ n).
  { destruct Hok as [? ? ?]. unfold n1. destruct (last (aeq_entries req)); (split; [by constructor|]); done. }
  clearbody n1. destruct H1 as (Hok1 & Hlog1 & Ht1 & Hc1). intros E Hall Hcount He Hte.
  destruct (AdvanceCommit_spec n1 Hok1) as (n2 & E2 & _ & _ & _ & Hlog2 & _ & _ & _ & Hm2 & _);
    [by rewrite Hc1|by rewrite Hlog1|]. assert (n2 = n') as -> by congruence.
  assert (Hli : leader_indices n' = leader_indices n1) by (unfold leader_indices; by rewrite Hlog2, Hm2).
  rewrite Hli, <- Hlog1 in *. rewrite <- Ht1 in Hte. by eapply AdvanceCommit_reaches.
Qed.

(** A peer that is in step takes everything it lacks. *)
Lemma accepting_peer L t c n p np next :
  nodes c !! i = Some n -> leads L t n -> p ∈ ids -> p <> i -> nodes c !! p = Some np -> healthy np ->
  current_term_ np <= t -> next_index_ n !! p = Some next -> next <= zlen L -> in_step L next np ->
  exists ts c' n' np', Forall (serves_now [p]) ts /\ nodes c' = <[i := n']> (<[p := np']> (nodes c)) /\
    (forall rest, ReplicateToPeer run i p (mkWorld c (ts ++ rest)) = Some (mkWorld c' rest)) /\
    leads L t n' /\ applies n n' /\ commit_index_ n <= commit_index_ n' /\
    match_index_ n' = <[p := zlen L]> (match_index_ n) /\ next_index_ n' = <[p := zlen L + 1]> (next_index_ n) /\
    forall e, last L = Some e -> le_term e = t ->
      (length (leader_indices n') / 2 + 1 <= length (filter (fun x : Z => (zlen L <= x)%Z) (leader_indices n')))%nat ->
      zlen L <= commit_index_ n'.
Proof.
  intros Hn Hl Hp Hpi Hnp Hh Ht Hnext Hle Hstep. unfold in_step in Hstep.
  pose proof (lead_next _ _ _ Hl p next Hnext) as Hr. pose proof (lead_healthy _ _ _ Hl) as [Hok Hc Hlen].
  pose proof (lead_term _ _ _ Hl) as Htn. pose proof (lead_log _ _ _ Hl) as HL. rewrite HL in Hc, Hlen.
  destruct (request_served L t n p next np Hl Hnext Hh) as (resp & np' & E & [(? & _)|(_ & _ & _ & Hrt & [(? & _)|[_ Hs]])]);
    [lia|congruence|].
  assert (Hback : exists back, last (zdrop (next - 1) L) = Some back /\ le_index back = zlen L).
  { destruct (node_log_wf n Hok) as [Hwf _]. rewrite HL in Hwf.
    destruct (lookup_lt_is_Some_2 L (pred (length L))) as [back Hb]; [unfold zlen in *; lia|].
    exists back. split; [unfold zdrop; rewrite last_lookup, lookup_drop, length_drop, <- Hb; f_equal; unfold zlen in *; lia|]. apply Hwf in Hb. unfold zlen in *. lia. }
  destruct Hback as (back & Hback & Hidx).
  destruct (ReplicateToPeer_reply_spec clock p (request L t (commit_index_ n) next) resp n) as
    (n' & Er & Ha & Hokn & Hsame & Hlogn & [(_ & Hno)|[(Hlt & _)|(_ & _ & Htn' & _ & Hstn & [(_ & Hidxs & Hcn)|(? & _)])]]).
  - exact Hok.
  - rewrite Hrt, <- Htn. by destruct Hok as [_ _ [? _]].
  - lia.
  - rewrite HL. lia.
  - exfalso. apply Hno. split; [apply Hl|done].
  - lia.
  - cbn [aeq_entries request] in Hidxs. rewrite Hback, Hidx in Hidxs. destruct Hidxs as [Hm Hnx].
    replace (u64 (zlen L + 1)) with (zlen L + 1) in Hnx by (unfold u64; rewrite Z.mod_small; lia).
    assert (Hl' : leads L t n') by (eapply (leads_after L t n n' p); try done; [by right|lia]).
    destruct (served_turn_ok c n p np _ resp np' n' Hn Hpi Hnp (leads_request L t n p next Hl Hnext)
      (request_sent L t _ next (lead_fits _ _ _ Hl)) E Er) as (c' & Hc' & Ew).
    exists [quiet; append_turn p (request L t (commit_index_ n) next) resp], c', n', np'.
    split; [apply append_pair_serves|]. do 4 (split; [done|]). split; [lia|]. do 2 (split; [done|]). intros e He Hte Hcount. rewrite <- HL in *.
    eapply (reply_commits clock p _ resp n n' e); try done; try lia; try apply Hl.
    apply Forall_cons. split; [by rewrite Hlogn|]. apply Forall_fmap, Forall_forall. intros [q x] Hq%elem_of_map_to_list.
    cbn. by apply (lead_match _ _ _ Hl' q).
  - congruence.
Qed.

(** ** A write on a leader *)

Lemma leads_indices_length L t n : leads L t n -> length (leader_indices n) = length ids.
Proof.
  intros Hl. rewrite (keys_but_one members Hmembers i (match_index_ n)) by (done || apply Hl).
  unfold leader_indices. cbn [length]. by rewrite length_fmap.
Qed.

(** A peer that will take the next request. *)
Definition ready L t n c (p : Z) : Prop :=
  exists np next, nodes c !! p = Some np /\ healthy np /\ current_term_ np <= t /\
    next_index_ n !! p = Some next /\ in_step L next np.

(** The whole log is committed and applied. *)
Definition applied_all L n : Prop := commit_index_ n = zlen L /\ zlen L <= last_applied n.

(** In the loop over the peers: [ps] are still to be asked and [D] have the whole log. *)
Record replicating L t (Q ps D : list Z) c n : Prop := {
  rp_node : nodes c !! i = Some n;
  rp_leads : leads L t n;
  rp_ps : NoDup ps /\ forall p, p ∈ ps -> p ∈ ids /\ p <> i;
  rp_next : forall p, p ∈ ps -> exists next, next_index_ n !! p = Some next /\ next <= zlen L;
  rp_ready : forall p, p ∈ ps -> p ∈ Q -> ready L t n c p;
  rp_done : NoDup D /\ forall p, p ∈ D -> p ∉ ps /\ match_index_ n !! p = Some (zlen L);
  rp_applied : commit_index_ n < zlen L \/ applied_all L n;
  rp_majority : (length ids / 2 + 1 <= S (length D))%nat -> applied_all L n
}.

(** One more peer has the log: the rest of the state. *)
Lemma replicating_accept L t Q p ps D c n c' n' np' e :
  replicating L t Q (p :: ps) D c n -> last L = Some e -> le_term e = t ->
  nodes c' = <[i := n']> (<[p := np']> (nodes c)) -> leads L t n' -> applies n n' -> commit_index_ n <= commit_index_ n' ->
  match_index_ n' = <[p := zlen L]> (match_index_ n) -> next_index_ n' = <[p := zlen L + 1]> (next_index_ n) ->
  (forall e, last L = Some e -> le_term e = t ->
    (length (leader_indices n') / 2 + 1 <= length (filter (fun x : Z => (zlen L <= x)%Z) (leader_indices n')))%nat ->
    zlen L <= commit_index_ n') ->
  replicating L t Q ps (p :: D) c' n'.
Proof.
  intros [Hn Hl [Hnd Hps] Hnext Hready [HndD HD] Ha Hmaj] He Hte Hc' Hl' Hap Hmono Hm Hnx Hcommit.
  apply NoDup_cons in Hnd as [Hpps Hnd].
  assert (Hp : p ∈ p :: ps) by (apply elem_of_cons; by left). destruct (Hps p Hp) as [_ Hpi].
  assert (Hin : forall q, q ∈ ps -> q ∈ p :: ps /\ q <> p /\ q <> i).
  { intros q Hq. assert (Hq' : q ∈ p :: ps) by (apply elem_of_cons; by right). split; [done|].
    split; [by intros ->|by apply Hps]. }
  assert (HD' : forall q, q ∈ p :: D -> q ∉ ps /\ match_index_ n' !! q = Some (zlen L)).
  { intros q [->|Hq]%elem_of_cons; rewrite Hm; [by rewrite lookup_insert_eq|]. destruct (HD q Hq) as [Hq1 Hq2].
    apply not_elem_of_cons in Hq1 as [Hq1 Hq3]. split; [done|]. by rewrite lookup_insert_ne. }
  assert (HndD' : NoDup (p :: D)) by (apply NoDup_cons; split; [intros [Hno _]%HD; by apply Hno|done]).
  assert (Hci : commit_index_ n' <= zlen L).
  { destruct (lead_healthy _ _ _ Hl') as [_ Hci _]. rewrite (lead_log _ _ _ Hl') in Hci. lia. }
  constructor; [by rewrite Hc', lookup_insert_eq|done|split; [done|intros q Hq; apply Hps, (Hin q Hq)]| | |done| |].
  - intros q Hq. destruct (Hin q Hq) as (Hq1 & Hq2 & _). rewrite Hnx, lookup_insert_ne by done. by apply Hnext.
  - intros q Hq HqQ. destruct (Hin q Hq) as (Hq1 & Hq2 & Hq3). destruct (Hready q Hq1 HqQ) as (nq & next & Hnq & Hready').
    exists nq, next. rewrite Hc', Hnx, !lookup_insert_ne by done. done.
  - unfold applied_all in *. destruct Hap as [[-> ->]|Hap]; [done|]. lia.
  - intros Hmaj'. unfold applied_all in *. destruct Ha as [Hlt|Hall]; [|destruct Hap as [[-> _]|Hap]; lia].
    assert (zlen L <= commit_index_ n').
    { apply (Hcommit e He Hte). rewrite (leads_indices_length L t n' Hl'). etrans; [exact Hmaj'|].
      apply acked_count; [done|intros q Hq; by apply HD'|]. by rewrite (lead_log _ _ _ Hl'). }
    destruct Hap as [[_ Hap]|Hap]; lia.
Qed.

(** One more peer does not answer. *)
Lemma replicating_silent L t Q p ps D c n c' :
  replicating L t Q (p :: ps) D c n -> nodes c' = nodes c -> replicating L t Q ps D c' n.
Proof.
  intros [Hn Hl [Hnd Hps] Hnext Hready [HndD HD] Ha Hmaj] Hc. apply NoDup_cons in Hnd as [Hpps Hnd].
  assert (Hin : forall q, q ∈ ps -> q ∈ p :: ps) by (intros q Hq; apply elem_of_cons; by right).
  constructor; [by rewrite Hc|done|naive_solver|naive_solver| | |done|done].
  - intros q Hq HqQ. destruct (Hready q (Hin q Hq) HqQ) as (nq & next & Hr). exists nq, next. by rewrite Hc.
  - split; [done|]. intros q Hq. destruct (HD q Hq) as [Hq1 Hq2]. rewrite not_elem_of_cons in Hq1. naive_solver.
Qed.

(** The peers of [Q] answer: with a majority everything is committed and applied. *)
Lemma replicate_commits L t Q e ps : last L = Some e -> le_term e = t -> forall D c n,
  replicating L t Q ps D c n ->
  exists ts c' n', Forall (serves_now Q) ts /\
    (forall rest, replicate_all run i ps (mkWorld c (ts ++ rest)) = Some (mkWorld c' rest)) /\
    nodes c' !! i = Some n' /\ leads L t n' /\
    ((length ids / 2 + 1 <= S (length D + length (filter (fun p => p ∈ Q) ps)))%nat -> applied_all L n').
Proof.
  intros He Hte. induction ps as [|p ps IH]; intros D c n Hrep.
  { exists [], c, n. split; [constructor|]. split; [done|]. split; [apply Hrep|]. split; [apply Hrep|].
    cbn [filter length]. rewrite Nat.add_0_r. apply Hrep. }
  pose proof (rp_node _ _ _ _ _ _ _ Hrep) as Hn. pose proof (rp_leads _ _ _ _ _ _ _ Hrep) as Hl.
  assert (Hp : p ∈ p :: ps) by (apply elem_of_cons; by left).
  destruct (rp_ps _ _ _ _ _ _ _ Hrep) as [_ Hps]. destruct (Hps p Hp) as [Hpi Hpne].
  rewrite filter_cons. destruct (decide (p ∈ Q)) as [HpQ|HpQ].
  - destruct (rp_ready _ _ _ _ _ _ _ Hrep p Hp HpQ) as (np & next & Hnp & Hh & Htp & Hnx & Hstep).
    destruct (rp_next _ _ _ _ _ _ _ Hrep p Hp) as (next' & Hnx' & Hle). replace next' with next in * by congruence.
    destruct (accepting_peer L t c n p np next Hn Hl Hpi Hpne Hnp Hh Htp Hnx Hle Hstep)
      as (ts1 & c1 & n1 & np1 & Hts1 & Hc1 & E1 & Hl1 & Hap1 & Hmo1 & Hm1 & Hnx1 & Hcom1).
    destruct (IH (p :: D) c1 n1) as (ts2 & c2 & n2 & Hts2 & E2 & Hn2 & Hl2 & Hap2); [by eapply replicating_accept|].
    exists (ts1 ++ ts2), c2, n2. split; [apply Forall_app; split; [|done]; eapply serves_now_mono; [|exact Hts1]; set_solver|].
    split; [intros rest; cbn [replicate_all]; rewrite <- app_assoc, E1; apply E2|]. split; [done|]. split; [done|].
    intros Hmaj. apply Hap2. cbn [length] in *. lia.
  - destruct (silent_peer L t c n p Hn Hl Hpi Hpne) as (c1 & Hc1 & E1).
    destruct (IH D c1 n) as (ts2 & c2 & n2 & Hts2 & E2 & Hn2 & Hl2 & Hap2); [by eapply replicating_silent|].
    exists (quiet :: quiet :: ts2), c2, n2. split; [by repeat (apply Forall_cons; split; [apply quiet_serves|])|].
    split; [intros rest; cbn [replicate_all]; cbn [app]; rewrite E1; apply E2|]. done.
Qed.

(** A new entry at the end of the log changes nothing for the peers. *)
Lemma in_step_app L x next np : 1 <= next <= zlen L + 1 -> in_step L next np -> in_step (L ++ [x]) next np.
Proof.
  intros Hr. unfold in_step, prev_mismatch. cbn [aeq_prev_log_index aeq_prev_log_term request].
  replace (term_before next (L ++ [x])) with (term_before next L); [done|]. unfold term_before.
  destruct (Z.eqb_spec next 1); [done|]. by rewrite lookup_app_l by (unfold zlen in *; lia).
Qed.

Lemma fits_prefix L L' : fits (L ++ L') -> fits L.
Proof. unfold fits. rewrite entries_size_app. pose proof (entries_size_nonneg L'). lia. Qed.

(** Terms and indices take no room that other terms and indices do not. *)
Lemma fits_entry L e e' : le_key e' = le_key e -> le_value e' = le_value e -> fits (L ++ [e]) -> fits (L ++ [e']).
Proof.
  intros Hk Hv. unfold fits. rewrite !entries_size_app. unfold entries_size at 2 4. cbn [fmap list_fmap concat].
  rewrite !app_nil_r, !zlen_encode_entry, Hk, Hv. done.
Qed.

Lemma leads_propose L t n r x :
  leads L t n -> zlen L < 2 ^ 62 -> fits (L ++ [x]) -> node_ok (set_replica r n) -> rep_entries r = L ++ [x] ->
  leads (L ++ [x]) t (set_replica r n).
Proof.
  intros [[Hok Hc Hlen] Hid Hpe Hst Ht Hlog Hmd Hm Hnd Hnx _] Hlt Hf Hok' He. rewrite Hlog in Hc, Hlen.
  assert (HL : zlen (L ++ [x]) = zlen L + 1) by (by autorewrite with zlen).
  constructor; try done.
  - constructor; [done| |]; change (log_entries (set_replica r n)) with (rep_entries r); rewrite He, HL; cbn; lia.
  - intros p y Hp. apply Hm in Hp. lia.
  - intros p y Hp. apply Hnx in Hp. lia.
Qed.

(** The peers that the loops of node [i] are over. *)
Lemma others_spec n :
  local_node_id_ n = i -> peers (config_ n) = members ->
  NoDup (node_id <$> other_peers n) /\ forall p, p ∈ node_id <$> other_peers n <-> p ∈ ids /\ p <> i.
Proof.
  intros Hid Hpe. destruct Hmembers as [Hnd _]. unfold other_peers. rewrite Hpe, Hid.
  split; [by apply NoDup_fmap_filter|]. intros p. rewrite !list_elem_of_fmap. split.
  - intros (q & -> & [Hq Hin]%list_elem_of_filter). split; [|done]. by exists q.
  - intros [(q & -> & Hq) Hp]. exists q. split; [done|]. by apply list_elem_of_filter.
Qed.

Lemma quorum_others Q n :
  local_node_id_ n = i -> peers (config_ n) = members -> quorum ids Q -> i ∈ Q ->
  (length Q <= S (length (filter (fun p => p ∈ Q) (node_id <$> other_peers n))))%nat.
Proof.
  intros Hid Hpe (Hnd & Hsub & _) HiQ. destruct (others_spec n Hid Hpe) as [_ Ho].
  enough (Q ⊆+ i :: filter (fun p => p ∈ Q) (node_id <$> other_peers n)) as Hs by (by apply submseteq_length in Hs).
  apply NoDup_submseteq; [done|]. intros q Hq. apply elem_of_cons. destruct (decide (q = i)) as [|Hqi]; [by left|right].
  apply list_elem_of_filter. split; [done|]. apply Ho. split; [by apply Hsub|done].
Qed.

(** The beginning of the loop over the peers, after the entry was appended. *)
Lemma replicating_begin L t Q c n r x :
  nodes c !! i = Some n -> leads L t n -> zlen L < 2 ^ 62 -> fits (L ++ [x]) -> (2 <= length ids)%nat ->
  (forall q, q ∈ Q -> q <> i -> ready L t n c q) ->
  node_ok (set_replica r n) -> rep_entries r = L ++ [x] ->
  replicating (L ++ [x]) t Q (node_id <$> other_peers n) [] (set_node i (set_replica r n) c) (set_replica r n).
Proof.
  intros Hn Hl Hlt Hf Htwo Hready Hok He. pose proof (leads_propose L t n r x Hl Hlt Hf Hok He) as Hl'.
  destruct (others_spec n (lead_id _ _ _ Hl) (lead_peers _ _ _ Hl)) as [Hnd Ho].
  assert (Hps : forall p, p ∈ node_id <$> other_peers n -> p ∈ ids /\ p <> i) by (intros p Hp; by apply Ho).
  constructor; [cbn; by rewrite lookup_insert_eq|done|done| | |split; [constructor|by intros p ?%elem_of_nil]| |].
  - intros p Hp. destruct (proj2 (lead_next_dom _ _ _ Hl p) (Hps p Hp)) as [next Hnext]. exists next. split; [done|].
    pose proof (lead_next _ _ _ Hl p next Hnext). autorewrite with zlen. lia.
  - intros p Hp HpQ. destruct (Hps p Hp) as [_ Hpi]. destruct (Hready p HpQ Hpi) as (np & next & Hnp & Hh & Ht & Hnext & Hs).
    exists np, next. cbn. rewrite lookup_insert_ne by done. do 4 (split; [done|]).
    apply in_step_app; [by apply (lead_next _ _ _ Hl p)|done].
  - left. destruct (lead_healthy _ _ _ Hl) as [_ Hc _]. rewrite (lead_log _ _ _ Hl) in Hc. autorewrite with zlen. cbn. lia.
  - cbn [length]. pose proof (Nat.Div0.div_le_mono 2 (length ids) 2 Htwo) as Hd. cbn in Hd. cbn. lia.
Qed.

Lemma leader_proposes L t Q c n e :
  nodes c !! i = Some n -> leads L t n -> zlen L < 2 ^ 62 -> fits (L ++ [e]) -> (2 <= length ids)%nat ->
  quorum ids Q -> i ∈ Q -> (forall q, q ∈ Q -> q <> i -> ready L t n c q) -> storable e ->
  exists ts c' n', Forall (serves_now Q) ts /\
    (forall rest, Propose run i e (mkWorld c (ts ++ rest)) = Some (Status_Ok, mkWorld c' rest)) /\
    nodes c' !! i = Some n' /\
    exists L', L' = L ++ [mkLogEntry t (zlen L + 1) (le_op e) (le_key e) (le_value e)] /\ leads L' t n' /\ applied_all L' n'.
Proof.
  intros Hn Hl Hlt Hf Htwo HQ HiQ Hready Hst. pose proof (lead_healthy _ _ _ Hl) as [Hok _ Hlen].
  destruct (Propose_append_spec e n Hok) as [[Hno _]|[_ (r & EP & Hok' & He & _)]].
  - destruct Hst as [_ Hst]. split; [by destruct Hok as [_ _ [? _]]|exact Hst].
  - lia.
  - by destruct Hno; apply Hl.
  - unfold proposed in He. rewrite (lead_log _ _ _ Hl), (lead_term _ _ _ Hl) in *.
    set (x := mkLogEntry t (zlen L + 1) (le_op e) (le_key e) (le_value e)) in *.
    destruct (replicate_commits (L ++ [x]) t Q x (node_id <$> other_peers n) (last_snoc _ _) eq_refl []
      (set_node i (set_replica r n) c) (set_replica r n)) as (ts & c' & n' & Hts & E & Hn' & Hl' & Hap);
      [apply replicating_begin; try done; by apply (fits_entry L e x)|].
    assert (Ha : applied_all (L ++ [x]) n').
    { apply Hap. cbn [length plus].
      etrans; [apply HQ|]. by apply quorum_others; try apply Hl. }
    exists (quiet :: ts ++ [quiet]), c', n'. split.
    { apply Forall_cons. split; [apply quiet_serves|]. apply Forall_app. split; [done|]. apply Forall_singleton, quiet_serves. }
    split; [|split; [done|by exists (L ++ [x])]]. intros rest. unfold Propose, turn, the_node. cbn [app wd_turns head mbind option_bind tn_events quiet].
    cbn. rewrite Hn. cbn. rewrite EP. cbn. rewrite <- app_assoc. unfold put. cbn [wd_cluster wd_turns].
    change (other_peers (set_replica r n)) with (other_peers n). rewrite E. cbn. rewrite Hn'. cbn.
    unfold Propose_answer, Propose_ready. change (rep_last_applied_index (replica_ n')) with (last_applied n').
    destruct Ha as [_ Ha]. autorewrite with zlen in Ha. replace (zlen L + 1 <=? last_applied n') with true by lia. by replace (last_applied n' <? zlen L + 1) with false by lia.
Qed.

Lemma leader_writes L t Q c n st reserve stale req e :
  nodes c !! i = Some n -> leads L t n -> zlen L < 2 ^ 62 -> fits (L ++ [e]) -> (2 <= length ids)%nat ->
  quorum ids Q -> i ∈ Q -> (forall q, q ∈ Q -> q <> i -> ready L t n c q) -> write_of req = Some e -> storable e ->
  exists ts c' n', Forall (serves_now Q) ts /\
    (forall rest, Handle (node_handler run i st reserve stale) req (mkWorld c (ts ++ rest)) =
       Some (respond req ResponseStatus.kOk, mkWorld c' rest)) /\
    nodes c' !! i = Some n' /\
    exists L', L' = L ++ [mkLogEntry t (zlen L + 1) (le_op e) (le_key e) (le_value e)] /\ leads L' t n' /\ applied_all L' n'.
Proof.
  intros Hn Hl Hlt Hf Htwo HQ HiQ Hready Hw Hst.
  destruct (leader_proposes L t Q c n e Hn Hl Hlt Hf Htwo HQ HiQ Hready Hst) as (ts & c' & n' & Hts & E & Hn' & Hl').
  exists (quiet :: ts), c', n'. split; [apply Forall_cons; split; [apply quiet_serves|done]|]. split; [|done].
  intros rest. unfold Handle, write_of in *. cbn [app].
  assert (Ho : observe run i state_ (mkWorld c (quiet :: ts ++ rest)) = Some (RaftState.kLeader, mkWorld c (ts ++ rest))).
  { unfold observe, turn, the_node. cbn. rewrite Hn. cbn. by rewrite (lead_state _ _ _ Hl). }
  destruct (creq_opcode req); try done; injection Hw as <-; cbn -[observe Propose]; rewrite Ho; cbn -[Propose orb];
    (replace (_ || _) with true by reflexivity); cbn -[Propose]; change (bool_decide (RaftState.kLeader = _)) with true;
    cbn -[Propose]; by rewrite E.
Qed.

(** ** Elections *)

(** Node [i], not a leader, in term [t] with log [L]. *)
Record standing L (t : Z) n : Prop := {
  sd_healthy : healthy n;
  sd_id : local_node_id_ n = i;
  sd_peers : peers (config_ n) = members;
  sd_state : state_ n <> RaftState.kLeader;
  sd_term : current_term_ n = t;
  sd_log : log_entries n = L;
  sd_fits : fits L
}.

(** A member that would vote for a candidate of a later term with log [L]. *)
Definition voter L (t : Z) c (p : Z) : Prop :=
  exists np, nodes c !! p = Some np /\ healthy np /\ current_term_ np < t /\
    up_to_date (zlen L) (Log_LastTerm L) (log_entries np).

Definition ballot L (t : Z) : RequestVoteRequest := mkRequestVoteRequest t i (zlen L) (Log_LastTerm L).

Lemma id_u32 : is_u32 i.
Proof. destruct Hmembers as [_ Hb]. rewrite Forall_forall in Hb. specialize (Hb i Hi). split; lia. Qed.

Lemma vote_granted L t c p :
  is_u64 t -> voter L t c p ->
  exists np np', nodes c !! p = Some np /\
    HandleRequestVote clock clock (ballot L t) np = (mkRequestVoteResponse t true, np') /\
    healthy np' /\ current_term_ np' = t.
Proof.
  intros Ht (np & Hnp & [Hok Hc Hlen] & Hlt & Hup). exists np.
  destruct (HandleRequestVote_spec clock clock (ballot L t) np Hok Ht id_u32)
    as (resp & np' & E & Hok' & _ & Hlog & _ & Hci & _ & _ & Htm & Hrt & _).
  assert (Hg : rvr_vote_granted resp = true).
  { apply (f_equal fst) in E. cbn [fst] in E. rewrite <- E. unfold HandleRequestVote. cbn [ballot rvq_term].
    replace (current_term_ np <? t) with true by lia.
    destruct (BecomeFollower_spec clock t np Hok Ht) as (_ & _ & Hl & _ & -> & -> & _). rewrite Hl, Z.ltb_irrefl.
    cbn [Z.eqb orb andb rvq_last_log_term rvq_last_log_index ballot].
    destruct Hup as [Hup|[Hup1 Hup2]].
    - by replace (Log_LastTerm (log_entries np) <? Log_LastTerm L) with true by lia.
    - rewrite Hup1, Z.eqb_refl. replace (Log_LastIndex (log_entries np) <=? zlen L) with true by lia. by rewrite orb_true_r. }
  cbn [rvq_term ballot] in Htm. rewrite Z.max_r in Htm by lia. exists np'. split; [done|].
  split; [rewrite E; f_equal; destruct resp; cbn in *; congruence|]. split; [|done].
  constructor; [done| |]; rewrite Hlog, ?Hci; done.
Qed.

(** One turn of the loop over the peers: the peer votes, or does not answer. *)
Lemma ask_granted L t p ps votes c n :
  is_u64 t -> nodes c !! i = Some n -> state_ n = RaftState.kCandidate -> current_term_ n = t -> p <> i -> voter L t c p ->
  exists tn c1 np', serves_now [p] tn /\ nodes c1 = <[p := np']> (nodes c) /\ healthy np' /\ current_term_ np' = t /\
    forall ts, ask_peers run i (ballot L t) (p :: ps) votes (mkWorld c (tn :: ts)) =
      ask_peers run i (ballot L t) ps (votes + 1) (mkWorld c1 ts).
Proof.
  intros Ht Hn Hs Htn Hpi Hv. destruct (vote_granted L t c p Ht Hv) as (np & np' & Hnp & E & Hh' & Ht').
  exists (vote_turn p (ballot L t) (mkRequestVoteResponse t true)),
    (set_election i (mkElection (ballot L t) ps (votes + 1)) (set_node i n
      (send (MVoteResp p (ballot L t) (mkRequestVoteResponse t true)) (set_node p np' (send (MVoteReq p (ballot L t)) c))))), np'.
  split; [apply vote_serves; by apply list_elem_of_singleton|]. split; [cbn; apply insert_id; by rewrite lookup_insert_ne|]. do 2 (split; [done|]).
  intros ts. cbn [ask_peers]. unfold turn, the_node. cbn. rewrite Hnp. cbn.
  rewrite bool_decide_true by (apply elem_of_cons; by left). cbn -[HandleRequestVote]. rewrite E. cbn. unfold voted. cbn.
  rewrite bool_decide_true by
    exact (sent_last _ (set_node p np' (send (MVoteReq p (ballot L t)) c)) _ ts (le_n _)). cbn.
  rewrite lookup_insert_ne, Hn by done. cbn. rewrite bool_decide_true by done. rewrite Htn, Z.eqb_refl. cbn.
  by rewrite Z.ltb_irrefl.
Qed.

Lemma ask_silent L t p ps votes c n :
  nodes c !! i = Some n ->
  exists c1, nodes c1 = nodes c /\ forall ts,
    ask_peers run i (ballot L t) (p :: ps) votes (mkWorld c (quiet :: ts)) = ask_peers run i (ballot L t) ps votes (mkWorld c1 ts).
Proof.
  intros Hn. exists (set_election i (mkElection (ballot L t) ps votes) (set_node i n (send (MVoteReq p (ballot L t)) c))).
  split; [cbn; by apply insert_id|]. intros ts. cbn [ask_peers]. unfold turn, the_node. cbn. by rewrite Hn.
Qed.

(** The loop over the peers: the members of [Q] vote, the others do not answer. *)
Lemma peers_vote L t Q ps : is_u64 t -> forall votes c n,
  nodes c !! i = Some n -> state_ n = RaftState.kCandidate -> current_term_ n = t ->
  NoDup ps -> i ∉ ps -> (forall p, p ∈ ps -> p ∈ Q -> voter L t c p) ->
  exists ts c', Forall (serves_now Q) ts /\
    (forall rest, ask_peers run i (ballot L t) ps votes (mkWorld c (ts ++ rest)) = Some (mkWorld c' rest)) /\
    nodes c' !! i = Some (StartElection_finish time t (votes + zlen (filter (fun p => p ∈ Q) ps)) n) /\
    (forall p, p ∈ ps -> p ∈ Q -> exists np', nodes c' !! p = Some np' /\ healthy np' /\ current_term_ np' = t) /\
    (forall p, p <> i -> ~ (p ∈ ps /\ p ∈ Q) -> nodes c' !! p = nodes c !! p).
Proof.
  intros Ht. induction ps as [|p ps IH]; intros votes c n Hn Hs Htn Hnd Hips Hv.
  { exists [quiet], (end_election i (set_node i (StartElection_finish time t votes n) c)).
    split; [apply Forall_singleton, quiet_serves|]. split; [intros rest; unfold ask_peers, turn, the_node; cbn; by rewrite Hn|].
    split; [cbn [nodes end_election set_node]; rewrite lookup_insert_eq; change (zlen (filter _ [])) with 0; by rewrite Z.add_0_r|].
    split; [by intros p ?%elem_of_nil|]. intros p Hp _. cbn. by rewrite lookup_insert_ne. }
  apply NoDup_cons in Hnd as [Hp Hnd]. apply not_elem_of_cons in Hips as [Hpi Hips].
  assert (Hmem : p ∈ p :: ps) by (apply elem_of_cons; by left).
  assert (Htl : forall q, q ∈ ps -> q ∈ p :: ps /\ q <> p).
  { intros q Hq. split; [apply elem_of_cons; by right|by intros ->]. }
  rewrite filter_cons. destruct (decide (p ∈ Q)) as [HpQ|HpQ].
  - destruct (ask_granted L t p ps votes c n) as (tn & c1 & np' & Htn1 & Hc1 & Hh' & Ht' & E); try done; [by apply Hv|].
    destruct (IH (votes + 1) c1 n) as (ts & c' & Hts & Ew & Hni & Hin & Hout); try done.
    + by rewrite Hc1, lookup_insert_ne.
    + intros q Hq HqQ. destruct (Htl q Hq) as [Hq1 Hq2]. destruct (Hv q Hq1 HqQ) as (nq & Hnq & Hrest).
      exists nq. split; [|done]. by rewrite Hc1, lookup_insert_ne by done.
    + exists (tn :: ts), c'. split; [|split; [intros rest; cbn [app]; rewrite E; apply Ew|split; [|split]]].
      * apply Forall_cons. split; [|done]. eapply Forall_inv, (serves_now_mono [p] Q [tn]); [set_solver|by apply Forall_singleton].
      * rewrite Hni. do 2 f_equal. autorewrite with zlen. lia.
      * intros q [->|Hq]%elem_of_cons HqQ; [|by apply Hin]. exists np'. split; [|done].
        rewrite Hout by (naive_solver). by rewrite Hc1, lookup_insert_eq.
      * intros q Hqi Hq. rewrite Hout; [|done|by intros [? ?]; apply Hq; split; [apply Htl|]].
        rewrite Hc1, lookup_insert_ne; [done|]. by intros ->; apply Hq.
  - destruct (ask_silent L t p ps votes c n Hn) as (c1 & Hc1 & E).
    destruct (IH votes c1 n) as (ts & c' & Hts & Ew & Hni & Hin & Hout); try done.
    + by rewrite Hc1.
    + intros q Hq HqQ. destruct (Htl q Hq) as [Hq1 Hq2]. destruct (Hv q Hq1 HqQ) as (nq & Hrest). exists nq. by rewrite Hc1.
    + exists (quiet :: ts), c'. split; [apply Forall_cons; split; [apply quiet_serves|done]|].
      split; [intros rest; cbn [app]; rewrite E; apply Ew|]. split; [done|]. split.
      * intros q [->|Hq]%elem_of_cons HqQ; [done|by apply Hin].
      * intros q Hqi Hq. rewrite Hout; [by rewrite Hc1|done|]. intros [? ?]. apply Hq. split; [by apply Htl|done].
Qed.

(** ** Rounds that some do not answer *)

Lemma replicate_all_app ps qs c c1 ts1 rest :
  replicate_all run i ps (mkWorld c (ts1 ++ rest)) = Some (mkWorld c1 rest) ->
  replicate_all run i (ps ++ qs) (mkWorld c (ts1 ++ rest)) = replicate_all run i qs (mkWorld c1 rest).
Proof.
  generalize (mkWorld c (ts1 ++ rest)) as w. induction ps as [|p ps IH]; intros w; cbn [replicate_all app].
  - by intros [= ->].
  - destruct (ReplicateToPeer run i p w) as [w1|]; [|done]. apply IH.
Qed.

(** Nobody of [ps] answers. *)
Lemma silent_peers L t ps n : leads L t n -> (forall p, p ∈ ps -> p ∈ ids /\ p <> i) -> forall c, nodes c !! i = Some n ->
  exists ts c', Forall (serves_now []) ts /\ nodes c' = nodes c /\
    forall rest, replicate_all run i ps (mkWorld c (ts ++ rest)) = Some (mkWorld c' rest).
Proof.
  intros Hl. induction ps as [|p ps IH]; intros Hps c Hn; [by exists [], c; repeat constructor|].
  destruct (Hps p) as [Hp Hpi]; [apply elem_of_cons; by left|].
  destruct (silent_peer L t c n p Hn Hl Hp Hpi) as (c1 & Hc1 & E1).
  destruct (IH) with (c := c1) as (ts & c' & Hts & Hc' & E'); [intros q Hq; apply Hps, elem_of_cons; by right|by rewrite Hc1|].
  exists (quiet :: quiet :: ts), c'. split; [by do 2 (apply Forall_cons; split; [apply quiet_serves|])|].
  split; [congruence|]. intros rest. cbn [replicate_all app]. rewrite E1. apply E'.
Qed.

(** After it was deposed the node sends nothing. *)
Lemma deposed_peers ps n : state_ n <> RaftState.kLeader -> forall c, nodes c !! i = Some n ->
  exists ts c', Forall (serves_now []) ts /\ nodes c' = nodes c /\
    forall rest, replicate_all run i ps (mkWorld c (ts ++ rest)) = Some (mkWorld c' rest).
Proof.
  intros Hs. induction ps as [|p ps IH]; intros c Hn; [by exists [], c; repeat constructor|].
  assert (Hc : nodes (set_node i n c) = nodes c) by (cbn; by apply insert_id).
  destruct (IH (set_node i n c)) as (ts & c' & Hts & Hc' & E'); [by rewrite Hc|].
  exists (quiet :: ts), c'. split; [by apply Forall_cons; split; [apply quiet_serves|]|].
  split; [congruence|]. intros rest. cbn [replicate_all app]. rewrite <- E'. unfold ReplicateToPeer, turn, the_node. cbn.
  rewrite Hn. cbn. unfold ReplicateToPeer_request. by rewrite bool_decide_false by done.
Qed.

End Instant.

(** ** Turns of the background loop *)

(** What the loop reads from [stop_] in [k] turns. *)
Definition loads (k : nat) : list bool := replicate (k + k) false.

(** [k] turns of the loop of node [i], from one moment to another, in which members of [Q]
    serve its requests. *)
Definition loops Q (k : nat) (t0 : Z) c (t1 : Z) c' : Prop :=
  exists ts, Forall (serves Q) ts /\ passes t0 ts t1 /\
    forall rest, RunLoop run i (loads k) (mkWorld c (ts ++ rest)) = Some (false, mkWorld c' rest).

Lemma loops_refl Q time c : loops Q 0 time c time c.
Proof. exists []. split; [constructor|]. split; [cbn; lia|done]. Qed.

Lemma loops_turn Q t0 t1 c c' ts :
  t0 <= t1 -> Forall (serves_now t1 Q) ts ->
  (forall rest, RunLoop_body run i (mkWorld c (ts ++ rest)) = Some (mkWorld c' rest)) -> loops Q 1 t0 c t1 c'.
Proof.
  intros Hle Hts E. exists ts. split; [eapply Forall_impl; [exact Hts|]; by intros t [? _]|].
  split; [by eapply passes_now|]. intros rest. cbn. by rewrite E.
Qed.

Lemma RunLoop_app j k w w1 :
  RunLoop run i (loads j) w = Some (false, w1) -> RunLoop run i (loads (j + k)) w = RunLoop run i (loads k) w1.
Proof.
  revert w. induction j as [|j IH]; intros w; [by intros [= ->]|]. unfold loads. cbn [plus].
  rewrite !Nat.add_succ_r. cbn [replicate RunLoop]. destruct (RunLoop_body run i w); [|done]. apply IH.
Qed.

Lemma loops_trans Q j k t0 t1 t2 c c1 c2 : loops Q j t0 c t1 c1 -> loops Q k t1 c1 t2 c2 -> loops Q (j + k) t0 c t2 c2.
Proof.
  intros (ts1 & Hts1 & Hp1 & E1) (ts2 & Hts2 & Hp2 & E2). exists (ts1 ++ ts2). split; [by apply Forall_app|].
  split; [by eapply passes_app|]. intros rest. rewrite <- app_assoc. erewrite RunLoop_app by apply E1. apply E2.
Qed.

Lemma loops_mono Q Q' k t0 c t1 c' : Q ⊆ Q' -> loops Q k t0 c t1 c' -> loops Q' k t0 c t1 c'.
Proof. intros HQ (ts & Hts & E). exists ts. split; [by eapply serves_mono|done]. Qed.

(** A turn of the loop at the election deadline: an election in which the members of [Q] vote. *)
Lemma election_turn L t Q t0 c n :
  nodes c !! i = Some n -> standing L t n -> t + 1 < 2 ^ 64 -> Q ⊆ ids -> (forall p, p ∈ Q -> p <> i -> voter L (t + 1) c p) ->
  exists t1 c' n1, loops Q 1 t0 c t1 c' /\ standing L (t + 1) n1 /\ state_ n1 = RaftState.kCandidate /\
    nodes c' !! i = Some (StartElection_finish t1 (t + 1) (1 + zlen (filter (fun p => p ∈ Q) (node_id <$> other_peers n1))) n1) /\
    (forall p, p ∈ Q -> p <> i -> exists np', nodes c' !! p = Some np' /\ healthy np' /\ current_term_ np' = t + 1) /\
    (forall p, p <> i -> p ∉ Q -> nodes c' !! p = nodes c !! p).
Proof.
  intros Hn [[Hok Hc Hlen] Hid Hpe Hst Ht Hlog Hf] Hlt HQ Hv.
  set (t1 := Z.max t0 (election_deadline_ n)). destruct (StartElection_begin_spec (clock t1) n Hok) as
    (req & n1 & E & _ & Hok1 & [Hid1 Hcf1] & Hlog1 & Hc1 & _ & _ & Ht1 & _ & Hs1 & Hreq); [by rewrite Ht|rewrite Hid; apply id_u32|].
  rewrite Ht, Hid, Hlog in Hreq. fold (ballot L (t + 1)) in Hreq. subst req.
  assert (Hsd : standing L (t + 1) n1).
  { constructor; try congruence. constructor; [done| |]; rewrite Hlog1, ?Hc1; done. }
  destruct (others_spec n1 (sd_id _ _ _ Hsd) (sd_peers _ _ _ Hsd)) as [Hnd Ho].
  set (ps := node_id <$> other_peers n1) in *. set (c1 := set_election i (mkElection (ballot L (t + 1)) ps 1) (set_node i n1 c)).
  assert (Ht64 : is_u64 (t + 1)) by (destruct Hok1 as [_ _ [Hu _]]; cbn in Hu; by rewrite Ht1, Ht in Hu).
  destruct (peers_vote t1 L (t + 1) Q ps Ht64 1 c1 n1) as (ts & c' & Hts & Ew & Hni & Hin & Hout).
  - cbn. by rewrite lookup_insert_eq.
  - done.
  - congruence.
  - done.
  - rewrite Ho. naive_solver.
  - intros p Hp HpQ. apply Ho in Hp as [_ Hpi]. destruct (Hv p HpQ Hpi) as (np & Hnp & Hrest). exists np.
    split; [|done]. cbn. by rewrite lookup_insert_ne.
  - exists t1, c', n1. split; [|split; [done|split; [done|split; [done|split]]]].
    + apply (loops_turn Q t0 t1 c c' (quiet t1 :: quiet t1 :: ts)); [lia| |intros rest].
      { by do 2 (apply Forall_cons; split; [apply quiet_serves|]). }
      unfold RunLoop_body, turn, the_node. cbn. rewrite Hn. cbn. unfold RunLoop_tick. rewrite bool_decide_false by done.
      cbn [negb andb]. replace (election_deadline_ n <=? t1) with true by lia. cbn -[ask_peers StartElection_begin]. unfold StartElection, turn, the_node.
      cbn -[ask_peers StartElection_begin]. rewrite lookup_insert_eq. cbn -[ask_peers StartElection_begin].
      rewrite E. specialize (Ew rest). unfold c1 in Ew. rewrite <- Ew. unfold noted, put. cbn [wd_cluster wd_turns].
      unfold set_node. cbn [nodes elections net]. by rewrite insert_insert_eq.
    + intros p HpQ Hpi. apply Hin; [|done]. apply Ho. split; [by apply HQ|done].
    + intros p Hpi HpQ. rewrite Hout by naive_solver. cbn. by rewrite lookup_insert_ne.
Qed.

Lemma majority_members n : peers (config_ n) = members -> majority n = Z.of_nat (length ids / 2 + 1).
Proof. intros Hpe. unfold majority, zlen. rewrite Hpe, length_fmap, Nat2Z.inj_add, Nat2Z.inj_div. done. Qed.

(** Nobody answers: the node is a candidate of the next term. *)
Lemma lost_election L t t0 c n :
  nodes c !! i = Some n -> standing L t n -> t + 1 < 2 ^ 64 -> (2 <= length ids)%nat ->
  exists t1 c' n', loops [] 1 t0 c t1 c' /\ nodes c' !! i = Some n' /\ standing L (t + 1) n' /\
    forall p, p <> i -> nodes c' !! p = nodes c !! p.
Proof.
  intros Hn Hsd Ht Htwo. destruct (election_turn L t [] t0 c n Hn Hsd Ht) as (t1 & c' & n1 & Hloop & Hsd1 & Hs1 & Hn1 & _ & Hout);
    [set_solver|by intros p ?%elem_of_nil|].
  exists t1, c', n1. split; [done|]. split; [|split; [done|intros p Hp; apply Hout; [done|apply not_elem_of_nil]]].
  rewrite Hn1, filter_none by (apply Forall_forall; intros p _; apply not_elem_of_nil). unfold StartElection_finish.
  rewrite (majority_members n1 (sd_peers _ _ _ Hsd1)).
  pose proof (Nat.Div0.div_le_mono 2 (length ids) 2 Htwo) as Hd. change (2 / 2)%nat with 1%nat in Hd.
  change (zlen []) with 0. assert (Hno : (Z.of_nat (length ids / 2 + 1) <=? 1 + 0) = false) by (apply Z.leb_gt; lia).
  by rewrite Hno, andb_false_r.
Qed.

(** Elections that nobody answers raise the term. *)
Lemma raise_term L T d : (2 <= length ids)%nat -> T < 2 ^ 64 -> forall t0 c n,
  nodes c !! i = Some n -> standing L (T - Z.of_nat d) n ->
  exists k t1 c' n', loops [] k t0 c t1 c' /\ nodes c' !! i = Some n' /\ standing L T n' /\
    forall p, p <> i -> nodes c' !! p = nodes c !! p.
Proof.
  intros Htwo HT. induction d as [|d IH]; intros t0 c n Hn Hsd.
  { exists 0%nat, t0, c, n. rewrite Z.sub_0_r in Hsd. split; [apply loops_refl|]. done. }
  destruct (lost_election L _ t0 c n Hn Hsd) as (t1 & c1 & n1 & Hl1 & Hn1 & Hsd1 & Hs1); [lia|done|].
  replace (T - Z.of_nat (S d) + 1) with (T - Z.of_nat d) in Hsd1 by lia.
  destruct (IH t1 c1 n1 Hn1 Hsd1) as (k & t2 & c2 & n2 & Hl2 & Hn2 & Hsd2 & Hs2). exists (1 + k)%nat, t2, c2, n2.
  split; [by eapply loops_trans|]. split; [done|]. split; [done|]. intros p Hp. rewrite Hs2 by done. by apply Hs1.
Qed.

(** A quorum votes: the node leads. *)
Lemma won_election L t Q t0 c n :
  nodes c !! i = Some n -> standing L t n -> t + 1 < 2 ^ 64 -> quorum ids Q -> i ∈ Q ->
  (forall p, p ∈ Q -> p <> i -> voter L (t + 1) c p) ->
  exists t1 c' n', loops Q 1 t0 c t1 c' /\ nodes c' !! i = Some n' /\ leads L (t + 1) n' /\
    forall p, p ∈ Q -> p <> i -> exists np', nodes c' !! p = Some np' /\ healthy np' /\ current_term_ np' = t + 1.
Proof.
  intros Hn Hsd Ht HQ HiQ Hv. pose proof HQ as (_ & Hsub & Hmaj).
  destruct (election_turn L t Q t0 c n Hn Hsd Ht Hsub Hv) as (t1 & c' & n1 & Hloop & Hsd1 & Hs1 & Hn1 & Hin & _).
  pose proof (quorum_others Q n1 (sd_id _ _ _ Hsd1) (sd_peers _ _ _ Hsd1) HQ HiQ) as Hlen.
  unfold StartElection_finish in Hn1. rewrite bool_decide_true in Hn1 by done.
  rewrite (sd_term _ _ _ Hsd1), Z.eqb_refl, (majority_members n1 (sd_peers _ _ _ Hsd1)) in Hn1.
  assert (Hyes : (Z.of_nat (length ids / 2 + 1) <=?
    1 + zlen (filter (fun p => p ∈ Q) (node_id <$> other_peers n1))) = true) by (apply Z.leb_le; unfold zlen; lia).
  rewrite Hyes in Hn1. cbn [andb] in Hn1.
  destruct Hsd1 as [[Hok1 Hc1 Hl1] Hid1 Hpe1 _ Ht1 Hlog1 Hf1].
  destruct (BecomeLeader_spec t1 n1 Hok1) as (Hok & [Hid Hcf] & Hlog & Hc & Htm & _ & Hst & Hm & Hnx); [lia|].
  destruct (others_spec n1 Hid1 Hpe1) as [_ Ho].
  eexists t1, c', _. split; [done|]. split; [exact Hn1|]. split; [|done].
  constructor; [constructor; [done| |]; rewrite Hlog, ?Hc; done|congruence|congruence|done|congruence|congruence| | | | |done].
  - intros p. rewrite Hm, <- Ho. by destruct (decide _); split; try done; intros [? ?].
  - intros p x. rewrite Hm. destruct (decide _); [|done]. intros [= <-]. apply zlen_nonneg.
  - intros p. rewrite Hnx, <- Ho. by destruct (decide _); split; try done; intros [? ?].
  - intros p x. rewrite Hnx. destruct (decide _); [|done]. rewrite Hlog1. intros [= <-].
    pose proof (zlen_nonneg L). lia.
Qed.

(** ** Heartbeats *)

Lemma leads_heartbeat L t n x : leads L t n -> leads L t (set_next_heartbeat x n).
Proof.
  intros [[[? ? ?] ? ?] ? ? ? ? ? ? ? ? ? ?]. constructor; try done.
Qed.

(** A turn of the loop at the time of the next heartbeat is a round over the peers. *)
Lemma heartbeat_turn L t Q t0 t1 c n c' ts :
  nodes c !! i = Some n -> leads L t n -> t0 <= t1 -> next_heartbeat_ n <= t1 -> Forall (serves_now t1 Q) ts ->
  (forall rest, replicate_all run i (node_id <$> other_peers n)
     (mkWorld (set_node i (set_next_heartbeat (t1 + kHeartbeatInterval) n) c) (ts ++ rest)) = Some (mkWorld c' rest)) ->
  loops Q 1 t0 c t1 c'.
Proof.
  intros Hn Hl Hle Hdue Hts E. apply (loops_turn Q t0 t1 c c' (quiet t1 :: ts)); [done| |intros rest].
  { by apply Forall_cons; split; [apply quiet_serves|]. }
  unfold RunLoop_body, turn, the_node. cbn. rewrite Hn. cbn. unfold RunLoop_tick.
  rewrite bool_decide_true by apply Hl. cbn [andb negb now clock]. replace (next_heartbeat_ n <=? t1) with true by lia. cbn -[replicate_all].
  unfold the_node. cbn -[replicate_all]. rewrite lookup_insert_eq. cbn -[replicate_all]. apply E.
Qed.

(** A round in which only [p] answers: the peers before it, [p], and the peers after it. *)
Lemma answered_round L t t0 c n p :
  nodes c !! i = Some n -> leads L t n -> p ∈ ids -> p <> i ->
  exists t1 n0 c1 ps2, leads L t n0 /\ next_index_ n0 = next_index_ n /\ same_node n n0 /\ nodes c1 = <[i := n0]> (nodes c) /\
    (forall q, q ∈ ps2 -> q ∈ ids /\ q <> i) /\
    forall ts2 c2 ts3 c3, Forall (serves_now t1 [p]) ts2 -> Forall (serves_now t1 []) ts3 ->
      (forall rest, ReplicateToPeer run i p (mkWorld c1 (ts2 ++ rest)) = Some (mkWorld c2 rest)) ->
      (forall rest, replicate_all run i ps2 (mkWorld c2 (ts3 ++ rest)) = Some (mkWorld c3 rest)) -> loops [p] 1 t0 c t1 c3.
Proof.
  intros Hn Hl Hp Hpi. destruct (others_spec n (lead_id _ _ _ Hl) (lead_peers _ _ _ Hl)) as [_ Ho].
  set (t1 := Z.max t0 (next_heartbeat_ n)). set (n0 := set_next_heartbeat (t1 + kHeartbeatInterval) n).
  assert (Hl0 : leads L t n0) by (by apply leads_heartbeat).
  destruct (list_elem_of_split (node_id <$> other_peers n) p) as (ps1 & ps2 & Hps); [by apply Ho|].
  destruct (silent_peers t1 L t ps1 n0 Hl0) with (c := set_node i n0 c) as (ts1 & c1 & Hts1 & Hc1 & E1).
  { intros q Hq. apply Ho. rewrite Hps. apply elem_of_app. by left. }
  { cbn. by rewrite lookup_insert_eq. }
  exists t1, n0, c1, ps2. split; [done|]. split; [done|]. split; [done|]. split; [done|].
  split; [intros q Hq; apply Ho; rewrite Hps; apply elem_of_app; right; apply elem_of_cons; by right|].
  intros ts2 c2 ts3 c3 Hts2 Hts3 E2 E3. apply (heartbeat_turn L t [p] t0 t1 c n c3 (ts1 ++ ts2 ++ ts3)); [done|done|lia|lia| |].
  { apply Forall_app. split; [eapply serves_now_mono; [|done]; set_solver|].
    apply Forall_app. split; [done|]. eapply serves_now_mono; [|done]. set_solver. }
  intros rest. rewrite <- !app_assoc, Hps. fold n0. erewrite replicate_all_app by apply E1. cbn [replicate_all].
  rewrite E2. apply E3.
Qed.

(** A round in which a peer that is out of step refuses. *)
Lemma reject_round L t t0 c n p np next :
  nodes c !! i = Some n -> leads L t n -> p ∈ ids -> p <> i -> nodes c !! p = Some np -> healthy np ->
  current_term_ np <= t -> next_index_ n !! p = Some next -> ~ in_step L next np ->
  exists t1 c' n' np', loops [p] 1 t0 c t1 c' /\ nodes c' !! i = Some n' /\ nodes c' !! p = Some np' /\
    (forall q, q <> i -> q <> p -> nodes c' !! q = nodes c !! q) /\
    leads L t n' /\ 1 < next /\ next_index_ n' = <[p := next - 1]> (next_index_ n) /\
    healthy np' /\ current_term_ np' = t.
Proof.
  intros Hn Hl Hp Hpi Hnp Hh Ht Hnx Hstep.
  destruct (answered_round L t t0 c n p Hn Hl Hp Hpi) as (t1 & n0 & c1 & ps2 & Hl0 & Hnx0 & _ & Hc1 & Hps2 & Hloop).
  destruct (rejected_peer t1 L t c1 n0 p np next) as (ts & c2 & n' & np' & Hts & Hc2 & E2 & Hl' & Hlt & Hnx' & Hh' & _ & Ht');
    try done; [by rewrite Hc1, lookup_insert_eq|by rewrite Hc1, lookup_insert_ne|by rewrite Hnx0|].
  assert (Hn' : nodes c2 !! i = Some n') by (by rewrite Hc2, lookup_insert_eq).
  destruct (silent_peers t1 L t ps2 n' Hl' Hps2 c2 Hn') as (ts3 & c3 & Hts3 & Hc3 & E3).
  exists t1, c3, n', np'. split; [by eapply Hloop|]. rewrite Hc3, Hc2, lookup_insert_eq. split; [done|].
  split; [by rewrite lookup_insert_ne, lookup_insert_eq|]. rewrite Hnx0 in Hnx'.
  split; [|done]. intros q Hqi Hqp. by rewrite Hc1, !lookup_insert_ne by done.
Qed.

(** A round in which a peer of a later term answers. *)
Lemma depose_round L t t0 c n p np :
  nodes c !! i = Some n -> leads L t n -> p ∈ ids -> p <> i -> nodes c !! p = Some np -> healthy np ->
  t < current_term_ np ->
  exists t1 c' n', loops [p] 1 t0 c t1 c' /\ nodes c' !! i = Some n' /\ (forall q, q <> i -> nodes c' !! q = nodes c !! q) /\
    standing L (current_term_ np) n'.
Proof.
  intros Hn Hl Hp Hpi Hnp Hh Ht.
  destruct (answered_round L t t0 c n p Hn Hl Hp Hpi) as (t1 & n0 & c1 & ps2 & Hl0 & _ & _ & Hc1 & _ & Hloop).
  destruct (deposing_peer t1 L t c1 n0 p np) as (ts & c2 & n' & Hts & Hc2 & E2 & Hh' & [Hid Hcf] & Hs' & Hlog' & Ht');
    try done; [by rewrite Hc1, lookup_insert_eq|by rewrite Hc1, lookup_insert_ne|].
  assert (Hn' : nodes c2 !! i = Some n') by (by rewrite Hc2, lookup_insert_eq).
  destruct (deposed_peers t1 ps2 n') with (c := c2) as (ts3 & c3 & Hts3 & Hc3 & E3); [by rewrite Hs'|done|].
  exists t1, c3, n'. split; [by eapply Hloop|]. rewrite Hc3. split; [done|]. split.
  - intros q Hq. by rewrite Hc2, Hc1, !lookup_insert_ne by done.
  - destruct Hl0. constructor; (congruence || done).
Qed.

(** Rounds until a peer is in step: the leader goes back one entry each time. *)
Lemma repair_peer L t p d : p ∈ ids -> p <> i -> forall t0 c n np next,
  nodes c !! i = Some n -> leads L t n -> nodes c !! p = Some np -> healthy np -> current_term_ np <= t ->
  next_index_ n !! p = Some next -> next = 1 + Z.of_nat d ->
  exists k t1 c' n', loops [p] k t0 c t1 c' /\ nodes c' !! i = Some n' /\ leads L t n' /\ ready L t n' c' p /\
    forall q, q <> i -> q <> p -> nodes c' !! q = nodes c !! q /\ next_index_ n' !! q = next_index_ n !! q.
Proof.
  intros Hp Hpi. induction d as [|d IH]; intros t0 c n np next Hn Hl Hnp Hh Ht Hnx Hd;
    (destruct (decide (in_step L next np)) as [Hs|Hs];
     [exists 0%nat, t0, c, n; split; [apply loops_refl|]; split; [done|]; split; [done|]; split; [by exists np, next|done]|]).
  { destruct Hs. subst next. apply in_step_first. }
  destruct (reject_round L t t0 c n p np next) as (t1 & c1 & n1 & np1 & Hl1 & Hn1 & Hnp1 & Hs1 & Hld1 & _ & Hnx1 & Hh1 & Ht1); try done.
  destruct (IH t1 c1 n1 np1 (next - 1)) as (k & t2 & c2 & n2 & Hl2 & Hn2 & Hld2 & Hr2 & Hs2); try done.
  - lia.
  - by rewrite Hnx1, lookup_insert_eq.
  - lia.
  - exists (1 + k)%nat, t2, c2, n2. split; [by eapply loops_trans|]. do 3 (split; [done|]). intros q Hqi Hqp.
    destruct (Hs2 q Hqi Hqp) as [-> ->]. rewrite Hnx1, lookup_insert_ne by done. split; [by apply Hs1|done].
Qed.

(** Until all of them are. *)
Lemma repair_peers L t ps : NoDup ps -> (forall p, p ∈ ps -> p ∈ ids /\ p <> i) -> forall t0 c n,
  nodes c !! i = Some n -> leads L t n ->
  (forall p, p ∈ ps -> exists np, nodes c !! p = Some np /\ healthy np /\ current_term_ np <= t) ->
  exists k t1 c' n', loops ps k t0 c t1 c' /\ nodes c' !! i = Some n' /\ leads L t n' /\ (forall p, p ∈ ps -> ready L t n' c' p) /\
    forall q, q <> i -> q ∉ ps -> nodes c' !! q = nodes c !! q /\ next_index_ n' !! q = next_index_ n !! q.
Proof.
  intros Hnd. induction Hnd as [|p ps Hpps Hnd IH]; intros Hps t0 c n Hn Hl Hup.
  { exists 0%nat, t0, c, n. split; [apply loops_refl|]. do 2 (split; [done|]). split; [by intros p ?%elem_of_nil|done]. }
  assert (Hmem : p ∈ p :: ps) by (apply elem_of_cons; by left). destruct (Hps p Hmem) as [Hp Hpi].
  assert (Htl : forall q, q ∈ ps -> q ∈ p :: ps) by (intros q Hq; apply elem_of_cons; by right).
  destruct (Hup p Hmem) as (np & Hnp & Hh & Ht). destruct (proj2 (lead_next_dom _ _ _ Hl p)) as [next Hnx]; [done|].
  pose proof (lead_next _ _ _ Hl p next Hnx) as Hr.
  destruct (repair_peer L t p (Z.to_nat (next - 1)) Hp Hpi t0 c n np next) as (k1 & t1 & c1 & n1 & Hl1 & Hn1 & Hld1 & Hr1 & Hs1);
    try done; [lia|].
  destruct (IH (fun q Hq => Hps q (Htl q Hq)) t1 c1 n1 Hn1 Hld1) as (k2 & t2 & c2 & n2 & Hl2 & Hn2 & Hld2 & Hr2 & Hs2).
  { intros q Hq. destruct (Hup q (Htl q Hq)) as (nq & Hnq & Hrest). exists nq. split; [|done].
    rewrite (proj1 (Hs1 q (proj2 (Hps q (Htl q Hq))) ltac:(by intros ->))). done. }
  exists (k1 + k2)%nat, t2, c2, n2. split; [|split; [done|split; [done|split]]].
  - apply (loops_trans _ k1 k2 t0 t1 t2 c c1 c2); [apply (loops_mono [p]); [|done]|apply (loops_mono ps); [|done]].
    + by intros q ->%list_elem_of_singleton.
    + exact Htl.
  - intros q [->|Hq]%elem_of_cons; [|by apply Hr2]. destruct Hr1 as (nq & nx & H1 & H2 & H3 & H4 & H5). exists nq, nx.
    destruct (Hs2 p Hpi Hpps) as [-> ->]. done.
  - intros q Hqi Hq. apply not_elem_of_cons in Hq as [Hqp Hq]. destruct (Hs2 q Hqi Hq) as [-> ->]. by apply Hs1.
Qed.

(** ** Recovery *)

(** Turns of the loop and then the request: the write is acknowledged, committed and applied. *)
Definition write_served Q t0 c st reserve stale (req : ClientRequest) (e : LogEntry) : Prop :=
  exists k turns t1 w1 w' n' index, Forall (serves Q) turns /\ passes t0 turns t1 /\
    RunLoop run i (loads k) (mkWorld c turns) = Some (false, w1) /\
    Handle (node_handler run i st reserve stale) req w1 = Some (respond req ResponseStatus.kOk, w') /\
    the_node i w' = Some n' /\ state_ n' = RaftState.kLeader /\
    log_entries n' !! Z.to_nat (index - 1) =
      Some (mkLogEntry (current_term_ n') index (le_op e) (le_key e) (le_value e)) /\
    1 <= index <= commit_index_ n' /\ index <= last_applied n'.

Lemma write_served_later Q k t0 t1 c c1 st reserve stale req e :
  loops Q k t0 c t1 c1 -> write_served Q t1 c1 st reserve stale req e -> write_served Q t0 c st reserve stale req e.
Proof.
  intros (ts & Hts & Hp & E) (k1 & turns & t2 & w1 & w' & n' & index & Hturns & Hp1 & E1 & Hrest).
  exists (k + k1)%nat, (ts ++ turns), t2, w1, w', n', index. split; [by apply Forall_app|].
  split; [by eapply passes_app|]. split; [|exact Hrest].
  erewrite RunLoop_app by apply E. exact E1.
Qed.

(** The members of [Q] are up and in no later term than [t]. *)
Definition up_in (Q : list Z) (t : Z) c : Prop :=
  forall q, q ∈ Q -> q <> i -> exists nq, nodes c !! q = Some nq /\ healthy nq /\ current_term_ nq <= t.

Context (Q : list Z) (HQ : quorum ids Q) (HiQ : i ∈ Q) (Htwo : (2 <= length ids)%nat).
Context (st : StorageOps R) (reserve : Z -> bool) (stale : bool) (req : ClientRequest) (e : LogEntry).
Context (Hw : write_of req = Some e) (Hst : storable e).

Lemma leader_recovers L t t0 c n :
  nodes c !! i = Some n -> leads L t n -> zlen L < 2 ^ 62 -> fits (L ++ [e]) -> up_in Q t c -> write_served Q t0 c st reserve stale req e.
Proof.
  intros Hn Hl Hlen Hf Hup. pose proof HQ as (Hnd & Hsub & _).
  assert (Hps : forall p, p ∈ filter (fun q => q <> i) Q -> p ∈ Q /\ p <> i) by (by intros p [? ?]%list_elem_of_filter).
  destruct (repair_peers L t (filter (fun q => q <> i) Q)) with (t0 := t0) (c := c) (n := n)
    as (k & t1 & c1 & n1 & Hloop & Hn1 & Hl1 & Hr1 & _).
  - by apply NoDup_filter.
  - intros p Hp. destruct (Hps p Hp) as [HpQ Hpi]. split; [by apply Hsub|done].
  - done.
  - done.
  - intros p Hp. destruct (Hps p Hp). by apply Hup.
  - apply (write_served_later Q k t0 t1 c c1); [apply (loops_mono (filter (fun q => q <> i) Q)); [|done]; intros p Hp; by apply Hps|].
    destruct (leader_writes t1 L t Q c1 n1 st reserve stale req e) as (ts & c2 & n2 & Hts & E & Hn2 & L' & -> & Hl2 & Hci & Ha);
      try done; [intros q Hq Hqi; apply Hr1; by apply list_elem_of_filter|].
    exists 0%nat, ts, t1, (mkWorld c1 ts), (mkWorld c2 []), n2, (zlen L + 1). autorewrite with zlen in Hci, Ha.
    pose proof (zlen_nonneg L). split; [eapply Forall_impl; [exact Hts|]; by intros x [? _]|].
    split; [by apply (passes_now t1 Q)|]. split; [done|]. split; [rewrite <- (app_nil_r ts) at 1; apply E|].
    split; [done|]. split; [apply Hl2|]. split; [|lia]. rewrite (lead_log _ _ _ Hl2), (lead_term _ _ _ Hl2).
    rewrite lookup_app_r by (unfold zlen; lia). by replace (Z.to_nat (zlen L + 1 - 1) - length L)%nat with 0%nat by (unfold zlen; lia).
Qed.

(** A member with the most complete log of [Q] wins. *)
Lemma candidate_recovers L T t0 c n :
  nodes c !! i = Some n -> standing L T n -> T + 1 < 2 ^ 64 -> zlen L < 2 ^ 62 -> fits (L ++ [e]) -> up_in Q T c ->
  (forall q nq, q ∈ Q -> nodes c !! q = Some nq -> up_to_date (zlen L) (Log_LastTerm L) (log_entries nq)) ->
  write_served Q t0 c st reserve stale req e.
Proof.
  intros Hn Hsd HT Hlen Hf Hup Hbest.
  destruct (won_election L T Q t0 c n) as (t1 & c1 & n1 & Hloop & Hn1 & Hl1 & Hin); try done.
  { intros p Hp Hpi. destruct (Hup p Hp Hpi) as (np & Hnp & Hh & Ht). exists np. split; [done|]. split; [done|].
    split; [lia|by apply (Hbest p)]. }
  eapply write_served_later; [exact Hloop|]. apply (leader_recovers L (T + 1) t1 c1 n1); try done.
  intros q Hq Hqi. destruct (Hin q Hq Hqi) as (nq & Hnq & Hh & Ht). exists nq. split; [done|]. split; [done|lia].
Qed.

Lemma up_in_same t c c' : (forall p, p <> i -> nodes c' !! p = nodes c !! p) -> up_in Q t c -> up_in Q t c'.
Proof. intros Hs Hup q Hq Hqi. rewrite Hs by done. by apply Hup. Qed.

(** Whatever it is doing now: [T] is the latest term in [Q]. *)
Lemma member_recovers L t T t0 c n :
  nodes c !! i = Some n -> leads L t n \/ standing L t n -> t <= T -> T + 1 < 2 ^ 64 -> zlen L < 2 ^ 62 -> fits (L ++ [e]) -> up_in Q T c ->
  (forall q nq, q ∈ Q -> nodes c !! q = Some nq -> up_to_date (zlen L) (Log_LastTerm L) (log_entries nq)) ->
  (t < T -> exists p np, p ∈ Q /\ p <> i /\ nodes c !! p = Some np /\ current_term_ np = T) ->
  write_served Q t0 c st reserve stale req e.
Proof.
  intros Hn Hrole Ht HT Hlen Hf Hup Hbest Hlast.
  assert (Hstand : forall t1 c1 n1 k, loops Q k t0 c t1 c1 -> nodes c1 !! i = Some n1 -> standing L T n1 ->
    (forall p, p <> i -> nodes c1 !! p = nodes c !! p) -> write_served Q t0 c st reserve stale req e).
  { intros t1 c1 n1 k Hloop Hn1 Hsd Hs. eapply write_served_later; [exact Hloop|].
    apply (candidate_recovers L T t1 c1 n1); try done; [by eapply up_in_same|]. intros q nq Hq Hnq.
    destruct (decide (q = i)) as [->|Hqi]; [|rewrite Hs in Hnq by done; by apply (Hbest q)].
    replace nq with n1 by congruence. pose proof (sd_log _ _ _ Hsd) as Hlog. rewrite Hlog. right. split; [done|].
    rewrite Log_LastIndex_wf; [lia|]. rewrite <- Hlog. apply node_log_wf, Hsd. }
  destruct Hrole as [Hl|Hsd].
  - destruct (Z.eq_dec t T) as [->|Hne]; [by apply (leader_recovers L T t0 c n)|].
    destruct Hlast as (p & np & Hp & Hpi & Hnp & HTp); [lia|].
    destruct (Hup p Hp Hpi) as (np' & Hnp' & Hh & _). replace np' with np in * by congruence.
    destruct (depose_round L t t0 c n p np) as (t1 & c1 & n1 & Hloop & Hn1 & Hs & Hsd); try done; [by apply HQ|lia|].
    rewrite HTp in Hsd. apply (Hstand t1 c1 n1 1%nat); try done. eapply loops_mono; [|exact Hloop].
    by intros q ->%list_elem_of_singleton.
  - destruct (raise_term L T (Z.to_nat (T - t))) with (t0 := t0) (c := c) (n := n)
      as (k & t1 & c1 & n1 & Hloop & Hn1 & Hsd1 & Hs);
      [done|lia|done|by replace (T - Z.of_nat (Z.to_nat (T - t))) with t by lia|].
    apply (Hstand t1 c1 n1 k); try done. eapply loops_mono; [|exact Hloop]. by intros q ?%elem_of_nil.
Qed.

End Progress.

(** ** Any majority *)

(** A nonempty list has a greatest member, for any total preorder. *)
Lemma list_greatest {A} (le : A -> A -> Prop) l :
  (forall x y, le x y \/ le y x) -> (forall x y z, le x y -> le y z -> le x z) -> l <> [] ->
  exists x, x ∈ l /\ forall y, y ∈ l -> le y x.
Proof.
  intros Htotal Htrans. induction l as [|x l IH]; [done|]. intros _.
  assert (Hrefl : forall z, le z z) by (intros z; by destruct (Htotal z z)).
  destruct (decide (l = [])) as [->|Hne].
  { exists x. split; [apply elem_of_cons; by left|]. by intros y ->%list_elem_of_singleton. }
  destruct (IH Hne) as (z & Hz & Hall). destruct (Htotal x z) as [Hxz|Hzx].
  - exists z. split; [apply elem_of_cons; by right|]. by intros y [->|Hy]%elem_of_cons; [|apply Hall].
  - exists x. split; [apply elem_of_cons; by left|]. intros y [->|Hy]%elem_of_cons; [done|]. eapply Htrans; [by apply Hall|done].
Qed.

(** From here on the cluster was reached by a covered run. *)
#[local] Existing Instance covered_run.

Section Majority.
Context {R : Type} `{ReplicaLaws R} (members : list PeerInfo) (Hmembers : members_ok members).
Implicit Types (n : RaftNode R) (c : Cluster R).

Abbreviation ids := (node_id <$> members).

Lemma inv_healthy g i n : node_inv members g i n -> healthy n.
Proof.
  intros Hn. destruct (ni_commit _ _ _ _ Hn) as [H1 H2]. specialize (H2 I). apply committed_length in H2.
  constructor; [apply Hn| |apply Hn]. unfold zlen. lia.
Qed.

(** In a reachable cluster the indices a leader keeps are within its log. *)
Lemma inv_match c g i n p x :
  Inv members c g -> nodes c !! i = Some n -> state_ n = RaftState.kLeader -> match_index_ n !! p = Some x ->
  x <= zlen (log_entries n).
Proof.
  intros HI Hn Hs Hx. pose proof (inv_nodes _ _ _ HI _ _ Hn) as Hni.
  destruct (ni_leader _ _ _ _ Hni Hs) as [(ld & Hld & _ & Hlog) Hix]. destruct (xi_match _ _ Hix p x Hx) as [Hx0 Ha].
  destruct (decide (x = 0)) as [->|]; [apply zlen_nonneg|].
  assert (Hp : p ∈ ids) by (eapply (other_ids members g i n), (xi_match_dom _ _ Hix); [done|by exists x]).
  apply (inv_dom _ _ _ HI) in Hp as [np Hnp].
  destruct (ni_acks _ _ _ _ (inv_nodes _ _ _ HI _ _ Hnp) (current_term_ n) (Z.to_nat x)) as (ld' & Hld' & _ & Hlen & _); [lia|].
  replace ld' with ld in * by congruence. rewrite Hlog in Hlen. unfold zlen. lia.
Qed.

(** Every node of a reachable cluster is a leader or not. *)
Lemma inv_role c g i n :
  Inv members c g -> nodes c !! i = Some n -> fits (log_entries n) ->
  leads members i (log_entries n) (current_term_ n) n \/ standing members i (log_entries n) (current_term_ n) n.
Proof.
  intros HI Hn Hf. pose proof (inv_nodes _ _ _ HI _ _ Hn) as Hni. pose proof (inv_healthy g i n Hni) as Hh.
  destruct (decide (state_ n = RaftState.kLeader)) as [Hs|Hs].
  - left. destruct (ni_leader _ _ _ _ Hni Hs) as [_ Hix]. constructor; try done; try apply Hni.
    + intros p. rewrite (xi_match_dom _ _ Hix p). by apply (other_ids members g).
    + intros p x. by apply (inv_match c g i).
    + intros p. rewrite (xi_next_dom _ _ Hix p). by apply (other_ids members g).
    + done.
  - right. constructor; try done; apply Hni.
Qed.

(** The order in which votes compare logs. *)
Definition log_le (A B : list LogEntry) : Prop := up_to_date (zlen B) (Log_LastTerm B) A.

Lemma log_le_spec A B :
  log_wf A -> log_le A B <-> Log_LastTerm A < Log_LastTerm B \/ (Log_LastTerm B = Log_LastTerm A /\ zlen A <= zlen B).
Proof. intros HA. unfold log_le, up_to_date. by rewrite Log_LastIndex_wf. Qed.

(** A member with the most complete log, and one in the latest term. *)
Lemma best_of_quorum c g Q :
  Inv members c g -> quorum ids Q ->
  exists i n p np, i ∈ Q /\ nodes c !! i = Some n /\ p ∈ Q /\ nodes c !! p = Some np /\
    (forall q nq, q ∈ Q -> nodes c !! q = Some nq -> log_le (log_entries nq) (log_entries n)) /\
    (forall q nq, q ∈ Q -> nodes c !! q = Some nq -> current_term_ nq <= current_term_ np).
Proof.
  intros HI (_ & Hsub & Hlen). set (ns := omap (fun q => n ← nodes c !! q; Some (q, n)) Q).
  assert (Hns : forall q n, (q, n) ∈ ns <-> q ∈ Q /\ nodes c !! q = Some n).
  { intros q n. unfold ns. rewrite list_elem_of_omap. split.
    - intros (q' & Hq' & E). destruct (nodes c !! q') eqn:En; [|done]. cbn in E. by injection E as <- <-.
    - intros [Hq Hn]. exists q. by rewrite Hn. }
  assert (Hne : ns <> []).
  { destruct Q as [|q Q']; [cbn in Hlen; lia|]. destruct (proj2 (inv_dom _ _ _ HI q)) as [n Hn]; [apply Hsub, elem_of_cons; by left|].
    intros E. apply (not_elem_of_nil (q, n)). rewrite <- E. apply Hns. split; [apply elem_of_cons; by left|done]. }
  destruct (list_greatest (fun x y : Z * RaftNode R =>
    Log_LastTerm (log_entries x.2) < Log_LastTerm (log_entries y.2) \/
    (Log_LastTerm (log_entries y.2) = Log_LastTerm (log_entries x.2) /\ zlen (log_entries x.2) <= zlen (log_entries y.2))) ns)
    as ([i n] & [Hi Hn]%Hns & Hbest); [intros x y; lia|intros x y z; lia|done|].
  destruct (list_greatest (fun x y : Z * RaftNode R => current_term_ x.2 <= current_term_ y.2) ns)
    as ([p np] & [Hp Hnp]%Hns & Hlast); [intros x y; lia|intros x y z; lia|done|].
  exists i, n, p, np. do 4 (split; [done|]). split; intros q nq Hq Hnq.
  - apply log_le_spec; [|by apply (Hbest (q, nq)), Hns]. apply node_log_wf. apply (inv_nodes _ _ _ HI _ _ Hnq).
  - by apply (Hlast (q, nq)), Hns.
Qed.

End Majority.

(** Any majority can make progress. From every state of a cluster of two or more members
    that covered runs reach, and for every majority [Q] of them whose terms and logs are not
    at their bounds and whose logs with the new entry fit into one frame, there is a member
    of [Q] that needs nobody else: some turns of its background loop (it steps down, catches
    up with the latest term, wins an election and backs up through the logs of the others
    until they are in step, as far as each is needed), and then its handler answers kOk to a
    client's write, which is committed and applied. *)
Theorem any_majority_serves_writes {R} `{ReplicaLaws R} (members : list PeerInfo) (c0 c : Cluster R) Q time st reserve stale req e :
  members_ok members -> (2 <= length members)%nat -> initial members c0 -> runs c0 c -> commits_covered c ->
  quorum (node_id <$> members) Q ->
  (forall q nq, q ∈ Q -> nodes c !! q = Some nq -> in_bounds nq /\ fits (log_entries nq ++ [e])) ->
  write_of req = Some e -> storable e ->
  exists i, i ∈ Q /\ write_served i Q time c st reserve stale req e.
Proof.
  intros Hmem Htwo Hinit Hr Hcov HQ Hb Hw Hst.
  destruct (runs_inv members c0 c _ Hmem (initial_inv members c0 Hinit) Hr (fun _ => Hcov)) as (g & _ & HI).
  destruct (best_of_quorum members c g Q HI HQ) as (i & n & p & np & Hi & Hn & Hp & Hnp & Hbest & Hlast).
  exists i. split; [done|]. destruct (Hb i n Hi Hn) as [[Hlen _] Hf]. destruct (Hb p np Hp Hnp) as [[_ HT] _].
  assert (Hids : i ∈ node_id <$> members) by (by apply HQ).
  assert (Htwo' : (2 <= length (node_id <$> members))%nat) by (by rewrite length_fmap).
  apply (member_recovers members i Hmem Hids Q HQ Hi Htwo' st reserve stale req e Hw Hst
    (log_entries n) (current_term_ n) (current_term_ np) time c n); try done.
  - apply (inv_role members c g); [done|done|by eapply fits_prefix].
  - by apply (Hlast i).
  - intros q Hq Hqi. destruct (proj2 (inv_dom _ _ _ HI q)) as [nq Hnq]; [by apply HQ|]. exists nq. split; [done|].
    split; [by eapply inv_healthy, (inv_nodes _ _ _ HI)|by apply (Hlast q)].
  - intros Hlt. exists p, np. split; [done|]. split; [|done]. intros ->. replace np with n in Hlt by congruence. lia.
Qed.

#[local] Existing Instance example_libc.
#[local] Existing Instance example_hash.

(** Node 2 has taken over in term 2 from node 1, whose entry is committed; now node 2 is gone. *)
Lemma three_to_takeover : runs three takeover_end.
Proof. eapply runs_trans; [exact three_to_commit|exact takeover_runs]. Qed.

Lemma survivors_quorum : quorum (node_id <$> three_peers) [1; 3].
Proof. split; [apply NoDup_cons; split; [set_solver|apply NoDup_singleton]|]. split; [set_solver|]. cbn. lia. Qed.

Lemma survivors_in_bounds q nq : q ∈ [1; 3] -> nodes takeover_end !! q = Some nq -> in_bounds nq.
Proof.
  assert (Hb : forall q, q ∈ [1; 3] -> (n ← nodes takeover_end !! q;
    Some ((zlen (log_entries n) <? 2 ^ 62) && (current_term_ n + 1 <? 2 ^ 64))) = Some true).
  { intros q' [->|[->|[]%elem_of_nil]%elem_of_cons]%elem_of_cons; vm_compute; reflexivity. }
  intros Hq Hnq. specialize (Hb q Hq). rewrite Hnq in Hb. cbn [mbind option_bind] in Hb. injection Hb as Hb.
  apply andb_true_iff in Hb as [H1 H2]. split; [exact (proj1 (Z.ltb_lt _ _) H1)|exact (proj1 (Z.ltb_lt _ _) H2)].
Qed.

Lemma survivors_fit q nq : q ∈ [1; 3] -> nodes takeover_end !! q = Some nq ->
  fits (log_entries nq ++ [mkLogEntry 0 0 WalOp.kSet (str "k") (str "x")]).
Proof.
  assert (Hb : forall q, q ∈ [1; 3] -> (n ← nodes takeover_end !! q;
    Some (53 + entries_size (log_entries n ++ [mkLogEntry 0 0 WalOp.kSet (str "k") (str "x")]) <=? kMaxPayloadSize)) = Some true).
  { intros q' [->|[->|[]%elem_of_nil]%elem_of_cons]%elem_of_cons; vm_compute; reflexivity. }
  intros Hq Hnq. specialize (Hb q Hq). rewrite Hnq in Hb. cbn [mbind option_bind] in Hb. injection Hb as Hb.
  exact (proj1 (Z.leb_le _ _) Hb).
Qed.

(** ** A cluster of one *)

Lemma initial_alone {R} `{ReplicaLaws R} p (c0 : Cluster R) : initial [p] c0 -> all_alone c0.
Proof.
  intros Hinit. split; [|rewrite (init_net _ _ Hinit); constructor]. intros i n Hn.
  pose proof (inv_nodes _ _ _ (initial_inv (St := every_run) [p] c0 Hinit) i n Hn) as Hni.
  split; [|apply (init_nodes _ _ Hinit i n Hn)].
  assert (Hi : i = node_id p) by (apply list_elem_of_singleton, (init_dom _ _ Hinit); by exists n).
  unfold other_peers. rewrite (ni_peers _ _ _ _ Hni), (ni_id _ _ _ _ Hni). apply filter_none, Forall_singleton.
  intros Hne. by apply Hne.
Qed.

Lemma alone_runs {R} `{ReplicaLaws R} (c c' : Cluster R) : all_alone c -> runs c c' -> all_alone c'.
Proof. intros Ha Hr. induction Hr as [|c ev c1 c2 _ Hex _ IH]; [done|]. apply IH. by eapply exec_alone. Qed.

Lemma alone_covered {R} `{ReplicaLaws R} (c : Cluster R) : all_alone c -> commits_covered c.
Proof. intros [_ Hnet] to req Hin. rewrite Forall_forall in Hnet. by apply Hnet in Hin. Qed.

(** The hypothesis of two members is needed. The only member of a cluster of one elects
    itself but commits nothing ([one_node_never_commits]), and no write to it is ever
    acknowledged. *)
Theorem lone_member_acknowledges_nothing {R} `{ReplicaLaws R} (p : PeerInfo) run i st reserve stale (c0 : Cluster R) req e
    (w w' : World R) resp n :
  members_ok [p] -> schedules run i -> initial [p] c0 -> runs c0 (wd_cluster w) ->
  the_node i w = Some n -> last_applied n <= commit_index_ n ->
  write_of req = Some e -> storable e -> Handle (node_handler run i st reserve stale) req w = Some (resp, w') ->
  cresp_status resp <> ResponseStatus.kOk.
Proof.
  intros Hmem Hrun Hinit Hr Hn Hap He Hst HH Hok.
  destruct (Handle_write run i st reserve stale req e w w' resp He HH Hok) as (t & w1 & status & Et & EP & Es).
  apply (turn_stays run i Hrun) in Et. assert (Hr1 : reached c0 w1) by (by eapply reached_stays).
  destruct (Propose_ok [p] run i Hmem Hrun c0 Hinit e w1 status w' Hr1) as
    (w2 & n2 & w3 & n3 & n' & S2 & Hn2 & _ & S3 & Hn3 & _ & _ & Hlog & S4 & Hn' & Hidx); [|done|done|].
  { by apply storable_unset. }
  assert (S : stays i w w') by (eapply stays_trans; [exact Et|]; eapply stays_trans; [exact S2|]; by eapply stays_trans).
  assert (Hal : all_alone (wd_cluster w)) by (eapply alone_runs; [by eapply initial_alone|exact Hr]).
  assert (Hal' : all_alone (wd_cluster w')) by (eapply alone_runs; [exact Hal|by eapply runs_up_runs]).
  destruct (stays_advances [p] i Hmem c0 Hinit w w' n Hr S (alone_covered _ Hal') Hn) as (m & Hm & _ & Ha).
  assert (m = n') as -> by congruence. specialize (Ha I).
  destruct (proj1 Hal i n Hn) as [_ Hc]. destruct (proj1 Hal' i n' Hn') as [_ Hc'].
  rewrite Hlog in Hidx. autorewrite with zlen in Hidx. pose proof (zlen_nonneg (log_entries n2)). lia.
Qed.
