(* ===== verification/RaftHints.v ===== *)
(** * Whom a node takes for the leader

    [leader_id_], the hint that a node gives a client it refuses ([kWrongLeader]). Theorem:
    the hint is 0 or names the one member that leads the node's term. *)

From Stdlib Require Import Strings.String.
From S2P Require Import Prelude Common BigEndian Codec Crc32 Os WalRecord ShardedKV WalWriter DurableStorage.
From S2P Require Import RaftTypes RaftLog ClusterConfig RaftNode RaftNodeSpec RaftCluster RaftGhost.
From S2P Require Import RaftInvariant RaftCompleteness RaftSteps RaftSafety RaftReplica RaftTraces RaftApplied Handler.
From S2P Require Import RaftService RaftReads RaftLoop.

(** ** How the operations change it *)

Section Moves.
Context {R : Type} `{ReplicaOps R}.
Implicit Types n : RaftNode R.

(** The node knows no leader, or the one it knew, in the same term. *)
Definition forgets n n' : Prop :=
  leader_id_ n' = 0 \/ (leader_id_ n' = leader_id_ n /\ current_term_ n' = current_term_ n).

(** Or it has become the leader. *)
Definition hint_moves n n' : Prop :=
  forgets n n' \/ (leader_id_ n' = local_node_id_ n' /\ state_ n' = RaftState.kLeader).

Lemma forgets_refl n : forgets n n.
Proof. by right. Qed.

Lemma HandleRequestVote_forgets clk1 clk2 req n : forgets n (HandleRequestVote clk1 clk2 req n).2.
Proof.
  unfold HandleRequestVote. destruct (current_term_ n <? rvq_term req); repeat case_match; (by left) || by right.
Qed.

Lemma StartElection_reply_forgets clk term votes resp n : forgets n (StartElection_reply clk term votes resp n).2.
Proof. unfold StartElection_reply. repeat case_match; (by left) || by right. Qed.

Lemma StartElection_finish_moves time term votes n : hint_moves n (StartElection_finish time term votes n).
Proof. unfold StartElection_finish. destruct (_ && _ && _); [by right|left; by right]. Qed.

Lemma AdvanceCommit_forgets n n' : AdvanceCommitIndexLocked n = Some n' -> forgets n n'.
Proof.
  unfold AdvanceCommitIndexLocked, ApplyCommittedEntriesLocked. repeat case_match; intros E; simplify_eq; try (by right).
  destruct (apply_loop _ _ _); [|done]. injection E as <-. by right.
Qed.

Lemma ReplicateToPeer_request_forgets p n : forgets n (ReplicateToPeer_request p n).2.
Proof. unfold ReplicateToPeer_request, next_index_at, prev_of. repeat case_match; by right. Qed.

Lemma ConfirmLeadershipQuorum_request_forgets term p n : forgets n (ConfirmLeadershipQuorum_request term p n).2.
Proof. unfold ConfirmLeadershipQuorum_request, next_index_at, prev_of. repeat case_match; by right. Qed.

Lemma ReplicateToPeer_reply_forgets clk p req resp n n' : ReplicateToPeer_reply clk p req resp n = Some n' -> forgets n n'.
Proof.
  unfold ReplicateToPeer_reply, next_index_at. repeat case_match; intros E; simplify_eq; try ((by left) || by right);
    apply AdvanceCommit_forgets in E; done.
Qed.

Lemma ConfirmLeadershipQuorum_reply_forgets clk term p acks resp n :
  forgets n (ConfirmLeadershipQuorum_reply clk term p acks resp n).2.
Proof. unfold ConfirmLeadershipQuorum_reply. repeat case_match; (by left) || by right. Qed.

Lemma Propose_append_forgets e n res n' : Propose_append e n = Some (res, n') -> forgets n n'.
Proof.
  unfold Propose_append. destruct (negb _); [intros [= _ <-]; by right|].
  destruct (rep_Append _ _) as [[[st en] r]|]; [|done]. cbn [mbind option_bind].
  destruct (negb _); intros [= _ <-]; by right.
Qed.

Lemma RaftNode_new_forgets clk id config r n : RaftNode_new clk id config r = Some n -> leader_id_ n = 0.
Proof.
  unfold RaftNode_new. destruct (rep_LoadPersistedState r) as [[st ps] r1]. destruct (negb _); [by intros [= <-]|].
  destruct (rep_LoadLog _) as [[st' r2]|]; [|done]. cbn [mbind option_bind]. destruct (negb _); by intros [= <-].
Qed.

Lemma RunLoop_tick_forgets time n : forgets n (RunLoop_tick time n).2.
Proof. unfold RunLoop_tick. repeat case_match; by right. Qed.

(** An append request that is not stale names the leader. *)
Lemma HandleAppendEntries_hint clk1 clk2 req n resp n' :
  HandleAppendEntries clk1 clk2 req n = Some (resp, n') ->
  n' = n \/ (leader_id_ n' = aeq_leader_id req /\ current_term_ n' = aeq_term req).
Proof.
  unfold HandleAppendEntries, ApplyCommittedEntriesLocked.
  destruct (Z.ltb_spec (aeq_term req) (current_term_ n)); [intros [= _ <-]; by left|].
  match goal with |- context [set_leader_id _ ?x] => set (n1 := x) end.
  assert (Ht : current_term_ n1 = aeq_term req).
  { unfold n1. destruct (Z.ltb_spec (current_term_ n) (aeq_term req)); [done|]. case_match; cbn; lia. }
  clearbody n1. intros E. right.
  destruct (prev_mismatch _ _); [by injection E as _ <-|]. destruct (append_loop _ _ _) as [r|]; [|done].
  cbn [mbind option_bind] in E. destruct (_ <? _); [|by injection E as _ <-].
  destruct (apply_loop _ _ _) as [r'|]; [|done]. by injection E as _ <-.
Qed.

End Moves.

(** ** The invariant *)

Section Events.
Context {R : Type} `{ReplicaOps R}.
Implicit Types (n : RaftNode R) (c : Cluster R).

(** The node [i] of [c'] is [n'], and the others are those of [c]. *)
Definition moved_to (i : Z) n' c c' : Prop := nodes c' = <[i := n']> (nodes c).

(** What an event does to the hints. *)
Lemma exec_hints ev c c' :
  exec ev c = Some c' ->
  nodes c' = nodes c \/
  (exists i n n', nodes c !! i = Some n /\ moved_to i n' c c' /\ hint_moves n n') \/
  (exists i n n' req, nodes c !! i = Some n /\ moved_to i n' c c' /\ MAppReq i req ∈ net c /\
    (n' = n \/ (leader_id_ n' = aeq_leader_id req /\ current_term_ n' = aeq_term req))).
Proof.
  assert (Hnode : forall i n n', nodes c !! i = Some n -> moved_to i n' c c' -> forgets n n' ->
    exists i n n', nodes c !! i = Some n /\ moved_to i n' c c' /\ hint_moves n n').
  { intros i n n' Hn Hm Hf. exists i, n, n'. split; [done|]. split; [done|by left]. }
  intros Hex. destruct ev; cbn [exec] in Hex; try (destruct (nodes c !! _) as [n|] eqn:Hn; [|done]; cbn [mbind option_bind] in Hex).
  - destruct (bool_decide _); [|done]. injection Hex as <-. right. left. eapply Hnode; [done|done|by left].
  - destruct (elections c !! i) as [el|]; [|done]. cbn [mbind option_bind] in Hex. destruct (head _); [|done].
    injection Hex as <-. by left.
  - destruct (bool_decide _); [|done]. cbn [guard mbind option_bind] in Hex.
    pose proof (HandleRequestVote_forgets clk1 clk2 req n) as Hf. destruct (HandleRequestVote _ _ _ _) as [r n'].
    injection Hex as <-. right. left. by eapply Hnode.
  - destruct (elections c !! i) as [el|]; [|done]. cbn [mbind option_bind] in Hex. destruct (head _); [|done].
    cbn [mbind option_bind] in Hex. destruct (guard _); [|done]. cbn [mbind option_bind] in Hex.
    pose proof (StartElection_reply_forgets clk (rvq_term (el_req el)) (el_votes el) resp n) as Hf.
    destruct (StartElection_reply _ _ _ _ _) as [[v|] n']; injection Hex as <-; right; left; by eapply Hnode.
  - destruct (elections c !! i) as [el|]; [|done]. cbn [mbind option_bind] in Hex. destruct (bool_decide _); [|done].
    injection Hex as <-. right. left. exists i, n. eexists. split; [done|]. split; [done|]. apply StartElection_finish_moves.
  - destruct (bool_decide _); [|done]. cbn [guard mbind option_bind] in Hex.
    pose proof (ReplicateToPeer_request_forgets p n) as Hf.
    destruct (ReplicateToPeer_request _ _) as [[req|] n']; injection Hex as <-; [destruct (rpc_sent req)|]; right; left; by eapply Hnode.
  - case_bool_decide as Hm; [|done]. cbn [guard mbind option_bind] in Hex.
    destruct (HandleAppendEntries _ _ _ _) as [[r n']|] eqn:E; [|done]. injection Hex as <-. right. right.
    exists to, n, n', req. split; [done|]. split; [done|]. split; [done|by eapply HandleAppendEntries_hint].
  - destruct (guard _); [|done]. cbn [mbind option_bind] in Hex.
    destruct (ReplicateToPeer_reply _ _ _ _ _) as [n'|] eqn:E; [|done]. injection Hex as <-. right. left.
    eapply Hnode; [done|done|by eapply ReplicateToPeer_reply_forgets].
  - destruct (Propose_append _ _) as [[res n']|] eqn:E; [|done]. injection Hex as <-. right. left.
    eapply Hnode; [done|done|by eapply Propose_append_forgets].
  - destruct (bool_decide _); [|done]. cbn [guard mbind option_bind] in Hex.
    pose proof (ConfirmLeadershipQuorum_request_forgets term p n) as Hf.
    destruct (ConfirmLeadershipQuorum_request _ _ _) as [[req|] n']; injection Hex as <-; right; left; by eapply Hnode.
  - destruct (guard _); [|done]. injection Hex as <-. right. left.
    eapply Hnode; [done|done|exact (ConfirmLeadershipQuorum_reply_forgets clk (aeq_term req) p acks (Some resp) n)].
  - destruct (RaftNode_new _ _ _ _) as [n'|] eqn:E; [|done]. injection Hex as <-. right. left.
    eapply Hnode; [done|done|]. left. by eapply RaftNode_new_forgets.
  - injection Hex as <-. right. left. eapply Hnode; [done|done|apply RunLoop_tick_forgets].
Qed.

(** An append request is sent by a leader, in its term and under its name. *)
Definition sent_by_leader c (req : AppendEntriesRequest) : Prop :=
  exists i n, nodes c !! i = Some n /\ state_ n = RaftState.kLeader /\ current_term_ n = aeq_term req /\
    aeq_leader_id req = local_node_id_ n.

Lemma ReplicateToPeer_request_leader p n req n' :
  ReplicateToPeer_request p n = (Some req, n') ->
  state_ n = RaftState.kLeader /\ current_term_ n = aeq_term req /\ aeq_leader_id req = local_node_id_ n.
Proof. unfold ReplicateToPeer_request, next_index_at, prev_of. case_bool_decide; [|done]. cbn. by intros [= <- _]. Qed.

Lemma ConfirmLeadershipQuorum_request_leader term p n req n' :
  ConfirmLeadershipQuorum_request term p n = (Some req, n') ->
  state_ n = RaftState.kLeader /\ current_term_ n = aeq_term req /\ aeq_leader_id req = local_node_id_ n.
Proof.
  unfold ConfirmLeadershipQuorum_request, next_index_at, prev_of. case_bool_decide; [|done].
  destruct (Z.eqb_spec (current_term_ n) term) as [<-|]; [|done]. cbn. by intros [= <- _].
Qed.

Lemma exec_requests ev c c' p req : exec ev c = Some c' -> MAppReq p req ∈ net c' -> MAppReq p req ∈ net c \/ sent_by_leader c req.
Proof.
  intros Hex. assert (Hsend : forall m c1, net c' = m :: net c1 -> net c1 = net c -> (forall q r, m <> MAppReq q r) ->
    MAppReq p req ∈ net c' -> MAppReq p req ∈ net c \/ sent_by_leader c req).
  { intros m c1 -> -> Hm [<-|Hin]%elem_of_cons; [by destruct (Hm p req)|by left]. }
  destruct ev; cbn [exec] in Hex; try (destruct (nodes c !! _) as [n|] eqn:Hn; [|done]; cbn [mbind option_bind] in Hex).
  - destruct (bool_decide _); [|done]. injection Hex as <-. by left.
  - destruct (elections c !! i) as [el|]; [|done]. cbn [mbind option_bind] in Hex. destruct (head _); [|done].
    injection Hex as <-. by eapply Hsend.
  - destruct (bool_decide _); [|done]. cbn [guard mbind option_bind] in Hex.
    destruct (HandleRequestVote _ _ _ _) as [r n']. injection Hex as <-. by eapply Hsend.
  - destruct (elections c !! i) as [el|]; [|done]. cbn [mbind option_bind] in Hex. destruct (head _); [|done].
    cbn [mbind option_bind] in Hex. destruct (guard _); [|done]. cbn [mbind option_bind] in Hex.
    destruct (StartElection_reply _ _ _ _ _) as [[v|] n']; injection Hex as <-; by left.
  - destruct (elections c !! i) as [el|]; [|done]. cbn [mbind option_bind] in Hex. destruct (bool_decide _); [|done].
    injection Hex as <-. by left.
  - destruct (bool_decide _); [|done]. cbn [guard mbind option_bind] in Hex.
    destruct (ReplicateToPeer_request _ _) as [[r|] n'] eqn:E; injection Hex as <-; [destruct (rpc_sent r)|]; [|by left..].
    intros [[= <- <-]|Hin]%elem_of_cons; [|by left]. right. exists i, n. split; [done|].
    by eapply ReplicateToPeer_request_leader.
  - destruct (guard _); [|done]. cbn [mbind option_bind] in Hex.
    destruct (HandleAppendEntries _ _ _ _) as [[r n']|] eqn:E; [|done]. injection Hex as <-. by eapply Hsend.
  - destruct (guard _); [|done]. cbn [mbind option_bind] in Hex.
    destruct (ReplicateToPeer_reply _ _ _ _ _) as [n'|]; [|done]. injection Hex as <-. by left.
  - destruct (Propose_append _ _) as [[res n']|]; [|done]. injection Hex as <-. by left.
  - destruct (bool_decide _); [|done]. cbn [guard mbind option_bind] in Hex.
    destruct (ConfirmLeadershipQuorum_request _ _ _) as [[r|] n'] eqn:E; injection Hex as <-; [|by left].
    intros [[= <- <-]|Hin]%elem_of_cons; [|by left]. right. exists i, n. split; [done|].
    by eapply ConfirmLeadershipQuorum_request_leader.
  - destruct (guard _); [|done]. injection Hex as <-. by left.
  - destruct (RaftNode_new _ _ _ _) as [n'|]; [|done]. injection Hex as <-. by left.
  - injection Hex as <-. by left.
Qed.

End Events.

Section Hints.
Context {R : Type} `{ReplicaLaws R} (members : list PeerInfo) (Hmembers : members_ok members).
Context (c0 : Cluster R) (Hinit : initial members c0).
Implicit Types (n : RaftNode R) (c : Cluster R).

Abbreviation ids := (node_id <$> members).

(** On the way to [c], node [j] was the leader of term [t]. *)
Definition led c (t j : Z) : Prop :=
  exists c1 n, runs c0 c1 /\ runs c1 c /\ nodes c1 !! j = Some n /\ state_ n = RaftState.kLeader /\ current_term_ n = t.

Lemma led_later c c' t j : led c t j -> runs c c' -> led c' t j.
Proof. intros (c1 & n & Hr0 & Hr1 & Hn) Hr. exists c1, n. split; [done|]. split; [by eapply runs_trans|done]. Qed.

Record hints_ok c : Prop := {
  ho_nodes : forall j n, nodes c !! j = Some n -> leader_id_ n = 0 \/ led c (current_term_ n) (leader_id_ n);
  ho_net : forall p req, MAppReq p req ∈ net c -> led c (aeq_term req) (aeq_leader_id req)
}.

Lemma step_hints ev c c' : runs c0 c -> hints_ok c -> allowed ev c -> exec ev c = Some c' -> hints_ok c'.
Proof.
  intros Hr [Hns Hnet] Hal Hex. assert (Hstep : runs c c') by (econstructor; [done|done|constructor]).
  assert (Hr' : runs c0 c') by (by eapply runs_trans).
  destruct (runs_inv (St := every_run) members c0 c _ Hmembers (initial_inv members c0 Hinit) Hr ltac:(done)) as (g & _ & HI).
  destruct (runs_inv members c c' g Hmembers HI Hstep ltac:(done)) as (g' & _ & HI').
  assert (Hold : forall j n, nodes c !! j = Some n -> leader_id_ n = 0 \/ led c' (current_term_ n) (leader_id_ n)).
  { intros j n Hj. destruct (Hns j n Hj) as [|Hl]; [by left|right]. by eapply led_later. }
  constructor.
  - intros j m Hj. destruct (exec_hints ev c c' Hex) as [Hs|[(i & n & n' & Hn & Hm & Hmv)|(i & n & n' & req & Hn & Hm & Hin & Hcase)]].
    + rewrite Hs in Hj. by eapply Hold.
    + pose proof Hj as Hj'. unfold moved_to in Hm. rewrite Hm in Hj. apply lookup_insert_Some in Hj as [[<- <-]|[_ Hj]]; [|by eapply Hold].
      destruct Hmv as [[Hz|[-> ->]]|[Hl Hst]]; [by left|by eapply Hold|]. right. rewrite Hl.
      rewrite (ni_id _ _ _ _ (inv_nodes _ _ _ HI' _ _ Hj')). exists c', n'. split; [done|]. split; [constructor|done].
    + unfold moved_to in Hm. rewrite Hm in Hj. apply lookup_insert_Some in Hj as [[<- <-]|[_ Hj]]; [|by eapply Hold].
      destruct Hcase as [->|[-> ->]]; [by eapply Hold|]. right. eapply led_later; [by eapply Hnet|done].
  - intros p req Hin. destruct (exec_requests ev c c' p req Hex Hin) as [Hin'|(i & n & Hn & Hst & Ht & Hl)].
    + eapply led_later; [by eapply Hnet|done].
    + rewrite Hl, (ni_id _ _ _ _ (inv_nodes _ _ _ HI _ _ Hn)). exists c, n. done.
Qed.

Lemma reached_hints c : runs c0 c -> hints_ok c.
Proof.
  assert (Hgo : forall c1 c2, runs c1 c2 -> runs c0 c1 -> hints_ok c1 -> hints_ok c2).
  { intros c1 c2 Hr. induction Hr as [c1|c1 ev c2 c3 Hal Hex _ IH]; [done|]. intros Hr1 Hh.
    apply IH; [|by eapply step_hints]. eapply runs_trans; [exact Hr1|]. econstructor; [done|done|constructor]. }
  intros Hr. eapply Hgo; [exact Hr|constructor|]. constructor.
  - intros j n Hn. left. apply (init_nodes _ _ Hinit j n Hn).
  - intros p req. rewrite (init_net _ _ Hinit). by intros ?%elem_of_nil.
Qed.

Lemma led_member c t j : led c t j -> j ∈ ids.
Proof.
  intros (c1 & n & Hr0 & _ & Hn & _). 
  destruct (runs_inv (St := every_run) members c0 c1 _ Hmembers (initial_inv members c0 Hinit) Hr0 ltac:(done)) as (g & _ & HI).
  apply (inv_dom _ _ _ HI). by exists n.
Qed.

(** Nobody else leads the term afterwards. *)
Lemma led_unique c c' t i j n :
  led c t i -> runs c c' -> nodes c' !! j = Some n -> state_ n = RaftState.kLeader -> current_term_ n = t -> j = i.
Proof.
  intros (c1 & n1 & Hr0 & Hr1 & Hn1 & Hs1 & Ht1) Hr Hn Hs Ht.
  destruct (runs_inv2 (St := every_run) members c0 c1 c' Hmembers Hinit Hr0) as (g1 & g2 & HI1 & HI2 & He);
    [by eapply runs_trans|done|].
  destruct (ni_leader _ _ _ _ (inv_nodes _ _ _ HI1 _ _ Hn1) Hs1) as [(ld1 & Hld1 & Hid1 & _) _].
  destruct (ni_leader _ _ _ _ (inv_nodes _ _ _ HI2 _ _ Hn) Hs) as [(ld2 & Hld2 & Hid2 & _) _].
  destruct (ext_ldr _ _ He _ _ Hld1) as (ld & Hld & Hid & _). rewrite Ht1 in Hld. rewrite Ht in Hld2. congruence.
Qed.

End Hints.

(** ** The answer kWrongLeader *)

(** A refusal ends with the look at [leader_id_]; other answers carry no hint. *)
Definition hint_of {R} (i : Z) (w : World R) (resp : ClientResponse) : Prop :=
  (cresp_status resp = ResponseStatus.kWrongLeader /\
   exists n, the_node i w = Some n /\ cresp_leader_hint resp = leader_id_ n) \/
  (cresp_status resp <> ResponseStatus.kWrongLeader /\ cresp_leader_hint resp = 0).

Lemma Handle_hint {R} `{ReplicaOps R} run i st reserve stale req (w w' : World R) resp :
  Handle (node_handler run i st reserve stale) req w = Some (resp, w') -> hint_of i w' resp.
Proof.
  assert (Hwl : forall v, wrong_leader (node_raft run i reserve) req v = Some (resp, w') -> hint_of i w' resp).
  { intros v. unfold wrong_leader, node_raft, observe. cbn [rf_leader_id]. destruct (turn run v) as [[t v1]|]; [|done].
    cbn [mbind option_bind]. destruct (the_node i v1) as [n|] eqn:Hn; [|done]. intros [= <- <-]. left. split; [done|by exists n]. }
  assert (Hprop : forall e v, propose (node_raft run i reserve) req e v = Some (resp, w') -> hint_of i w' resp).
  { intros e v. unfold propose. destruct (rf_Propose _ e v) as [[status v1]|]; [|done]. cbn [mbind option_bind].
    destruct (Status_ok status); [intros [= <- _]; by right|].
    destruct (bool_decide _); [apply Hwl|intros [= <- _]; by right]. }
  unfold Handle. destruct (if _ || _ then _ else _) as [[leader w1]|]; [|done]. cbn [mbind option_bind raft_ node_handler].
  destruct (negb leader); [apply Hwl|]. destruct (creq_opcode req); [apply Hprop| |apply Hprop|intros [= <- _]; by right].
  destruct (read_refused _ _ _) as [[[] w2]|]; [apply Hwl| |done]. cbn [mbind option_bind]. unfold read.
  destruct (st_Get _ _ _) as [[[v|s] w3]|]; [| |done]; intros [= <- _]; right; (split; [|done]); [done|].
  apply ToResponseStatus_local.
Qed.

(** C8: The hint of a refusal is right. When the handler on a node answers kWrongLeader with a
    hint (to a GET, or to a write whose entry can be stored), the hint is a member that has been elected leader of the term the node is in
    when it answers, and in that term nobody else leads afterwards. *)
Theorem wrong_leader_hint_right {R} `{ReplicaLaws R} (members : list PeerInfo) run i st reserve stale
    (c0 : Cluster R) req (w w' : World R) resp :
  members_ok members -> schedules run i -> initial members c0 -> reads_map st ->
  runs c0 (wd_cluster w) -> (forall e, write_of req = Some e -> storable e) ->
  Handle (node_handler run i st reserve stale) req w = Some (resp, w') ->
  cresp_status resp = ResponseStatus.kWrongLeader -> cresp_leader_hint resp <> 0 ->
  exists n, the_node i w' = Some n /\ cresp_leader_hint resp ∈ node_id <$> members /\
    led c0 (wd_cluster w') (current_term_ n) (cresp_leader_hint resp) /\
    forall c j nj, runs (wd_cluster w') c -> nodes c !! j = Some nj -> state_ nj = RaftState.kLeader ->
      current_term_ nj = current_term_ n -> j = cresp_leader_hint resp.
Proof.
  intros Hmem Hrun Hinit Hst Hr Hw HH Hs Hz.
  destruct (Handle_hint _ _ _ _ _ _ _ _ _ HH) as [[_ (n & Hn & Hhint)]|[? _]]; [|done]. rewrite Hhint in *.
  assert (Hr' : runs c0 (wd_cluster w')).
  { eapply runs_trans; [exact Hr|]. eapply runs_up_runs.
    by eapply Handle_stays. }
  destruct (ho_nodes _ _ (reached_hints members Hmem c0 Hinit _ Hr') i n Hn) as [?|Hled]; [done|].
  exists n. split; [done|]. split; [by eapply led_member|]. split; [done|].
  intros c j nj Hc Hj Hl Ht. by eapply (led_unique members Hmem c0 Hinit).
Qed.

#[local] Existing Instance example_libc.
#[local] Existing Instance example_hash.

(** Node 2 follows node 1 and refuses a write. *)
Definition refused : World (Replica ShardedKV) := mkWorld commit_end [].

Lemma wrong_leader_hint_right_witness :
  exists n, the_node 2 refused = Some n /\ 1 ∈ node_id <$> three_peers /\ led three (wd_cluster refused) (current_term_ n) 1 /\
    forall c j nj, runs (wd_cluster refused) c -> nodes c !! j = Some nj -> state_ nj = RaftState.kLeader ->
      current_term_ nj = current_term_ n -> j = 1.
Proof.
  apply (wrong_leader_hint_right three_peers (bounded_run 2) 2 replica_store (fun _ => true) false three (set_k "q")
    (mkWorld commit_end [pause; pause]) refused (mkClientResponse 7 ResponseStatus.kWrongLeader [] 1)).
  - exact three_ok.
  - exact (bounded_run_schedules 2).
  - exact three_initial.
  - exact replica_store_reads.
  - exact three_to_commit.
  - intros e [= <-]. apply storableb_ok. reflexivity.
  - vm_compute. reflexivity.
  - reflexivity.
  - discriminate.
Defined.
