(* ===== verification/Session.v ===== *)
(** * Serving a connection ([src/server/connection_session.cpp])

    The blocking session: read, parse, dispatch, write. [process] is the same work on a
    buffer that holds all the input at once; the theorems compare the session with it,
    whatever pieces the input arrives in and the output leaves in. *)

From Stdlib Require Import Strings.String.
From S2P Require Import Prelude Common BigEndian Codec Crc32 Os WalRecord RaftTypes RpcCodec.
From S2P Require Import ShardedKV WalWriter DurableStorage ClusterConfig Socket Handler.

Definition kChunkSize : Z := 4096.

Definition ClientRequest_default : ClientRequest := mkClientRequest 0 Opcode.kGet [] [].
Definition ClusterRequest_default : ClusterRequest := mkClusterRequest 0 ClusterOpcode.kPing [].

(** The out-parameters of the parse: no responses. [type] has no initial value in the
    source; [TryParseFrame] writes it whenever it completes a frame. *)
Definition request_out : FrameOut :=
  mkFrameOut (Some ClientRequest_default) None (Some ClusterRequest_default) None (Some MessageType.kClientRequest).

Section Session.
Context `{Libc} {W : Type} (h : RequestHandler W).
Implicit Types (w : W) (sk : Sock).

(** The dispatch of a complete frame: the encoded response, or [None] when the
    connection is to be closed. *)
Definition answer_frame (o : FrameOut) w : option (option bytes * W) :=
  match out_type o with
  | Some MessageType.kClientRequest =>
      '(resp, w) ← Handle h (default ClientRequest_default (out_request o)) w;
      match EncodeClientResponse resp with
      | Value encoded => Some (Some encoded, w)
      | Failed _ => Some (None, w)
      end
  | Some MessageType.kClusterRequest =>
      '(resp, w) ← HandleCluster h (default ClusterRequest_default (out_cluster_request o)) w;
      match EncodeClusterResponse resp with
      | Value encoded => Some (Some encoded, w)
      | Failed _ => Some (None, w)
      end
  | _ => Some (None, w)
  end.

(** The inner loop. [true]: it asks for more input; [false]: the session is over. A
    complete frame is at least a header long, so the buffer's length bounds the turns. *)
Fixpoint session_frames (fuel : nat) (read_buffer : bytes) w sk : option (bool * bytes * W * Sock) :=
  match fuel with
  | O => None
  | S fuel =>
      match TryParseFrame read_buffer request_out with
      | (ParseResult.kNeedMore, read_buffer, _) => Some (true, read_buffer, w, sk)
      | (ParseResult.kError, read_buffer, _) => Some (false, read_buffer, w, sk)
      | (ParseResult.kComplete, read_buffer, o) =>
          '(answer, w) ← answer_frame o w;
          match answer with
          | None => Some (false, read_buffer, w, sk)
          | Some encoded =>
              '(status, sk) ← WriteFull encoded sk;
              if negb (Status_ok status) then Some (false, read_buffer, w, sk)
              else session_frames fuel read_buffer w sk
          end
      end
  end.

(** The outer loop; every turn uses up an answer to [read] or some input. *)
Fixpoint session_loop (fuel : nat) (read_buffer : bytes) w sk : option (W * Sock) :=
  match fuel with
  | O => None
  | S fuel =>
      '(more, read_buffer, w, sk) ← session_frames (S (length read_buffer)) read_buffer w sk;
      if negb more then Some (w, sk)
      else
        match sock_read kChunkSize sk with
        | (inr errno, sk) => if errno =? EINTR then session_loop fuel read_buffer w sk else Some (w, sk)
        | (inl chunk, sk) => if is_empty chunk then Some (w, sk) else session_loop fuel (read_buffer ++ chunk) w sk
        end
  end.

Definition ServeClientSession w sk : option (W * Sock) :=
  session_loop (S (length (sk_recv sk) + length (sk_in sk))) [] w sk.

(** ** The reference: all the input in one buffer *)

(** What is written, whether the connection is to be closed, what is left of the buffer,
    and the world. *)
Record Served := mkServed { sv_out : bytes; sv_stop : bool; sv_rest : bytes; sv_world : W }.

Definition sv_prepend (b : bytes) (r : Served) : Served := mkServed (b ++ sv_out r) (sv_stop r) (sv_rest r) (sv_world r).

Fixpoint process (fuel : nat) (buffer : bytes) w : option Served :=
  match fuel with
  | O => None
  | S fuel =>
      match TryParseFrame buffer request_out with
      | (ParseResult.kNeedMore, buffer, _) => Some (mkServed [] false buffer w)
      | (ParseResult.kError, buffer, _) => Some (mkServed [] true buffer w)
      | (ParseResult.kComplete, buffer, o) =>
          '(answer, w) ← answer_frame o w;
          match answer with
          | None => Some (mkServed [] true buffer w)
          | Some encoded => sv_prepend encoded <$> process fuel buffer w
          end
      end
  end.

Definition process_all (buffer : bytes) w : option Served := process (S (length buffer)) buffer w.

End Session.

Arguments Served W : clear implicits.

Section SessionProofs.
Context `{Libc} {W : Type} (h : RequestHandler W).
Implicit Types (w : W) (sk : Sock) (r : Served W).

Lemma TryParseFrame_shrinks b o b' o' :
  TryParseFrame b o = (ParseResult.kComplete, b', o') -> (length b' + 8 <= length b)%nat.
Proof.
  intros E. apply TryParseFrame_complete in E as (m & _ & _ & -> & _). rewrite length_app.
  pose proof (zlen_frame_of m) as Hz. pose proof (zlen_nonneg (payload_of m)). unfold kFrameHeaderSize, zlen in *. lia.
Qed.

Lemma sv_prepend_nil r : sv_prepend [] r = r.
Proof. by destruct r. Qed.

Lemma sv_prepend_app a b r : sv_prepend a (sv_prepend b r) = sv_prepend (a ++ b) r.
Proof. unfold sv_prepend. cbn. by rewrite app_assoc. Qed.

(** Any fuel beyond the buffer's length gives the same result. *)
Lemma process_fuel fuel1 fuel2 b w :
  (length b < fuel1)%nat -> (length b < fuel2)%nat -> process h fuel1 b w = process h fuel2 b w.
Proof.
  revert fuel2 b w. induction fuel1 as [|fuel1 IH]; intros [|fuel2] b w H1 H2; try lia. cbn [process].
  destruct (TryParseFrame b request_out) as [[[] b'] o] eqn:E; [done| |done].
  apply TryParseFrame_shrinks in E. destruct (answer_frame h o w) as [[[enc|] w1]|]; [|done..].
  cbn [mbind option_bind]. by rewrite (IH fuel2) by lia.
Qed.

(** Input that arrives in two pieces: a first part that asks for more ... *)
Lemma process_app fuel b w r more :
  (length b < fuel)%nat -> process h fuel b w = Some r -> sv_stop r = false ->
  process_all h (b ++ more) w = sv_prepend (sv_out r) <$> process_all h (sv_rest r ++ more) (sv_world r).
Proof.
  revert b w r. induction fuel as [|fuel IH]; intros b w r Hf; [lia|]. cbn [process].
  destruct (TryParseFrame b request_out) as [[[] b'] o] eqn:E.
  - apply TryParseFrame_need_more in E as [-> ->]. intros [= <-] _. cbn [sv_out sv_rest sv_world].
    destruct (process_all h (b ++ more) w) as [r|]; cbn; [by rewrite sv_prepend_nil|done].
  - pose proof (TryParseFrame_shrinks _ _ _ _ E) as Hs.
    apply (TryParseFrame_complete_app _ _ _ _ more) in E. unfold process_all at 1. cbn [process]. rewrite E.
    destruct (answer_frame h o w) as [[[enc|] w1]|]; [|by intros [= <-]|done]. cbn [mbind option_bind].
    destruct (process h fuel b' w1) as [r1|] eqn:E1; [|done]. cbn [fmap option_fmap option_map]. intros [= <-] Hstop.
    rewrite (process_fuel _ (S (length (b' ++ more)))) by (rewrite ?length_app; lia).
    fold (process_all h (b' ++ more) w1). rewrite (IH b' w1 r1) by (done || lia).
    change (sv_rest (sv_prepend enc r1)) with (sv_rest r1).
    change (sv_world (sv_prepend enc r1)) with (sv_world r1).
    destruct (process_all h (sv_rest r1 ++ more) (sv_world r1)) as [r2|]; [|done].
    cbn [fmap option_fmap option_map]. by rewrite sv_prepend_app.
  - by intros [= <-].
Qed.

(** ... or that ends the session, ... *)
Lemma process_stop fuel b w r more :
  (length b < fuel)%nat -> process h fuel b w = Some r -> sv_stop r = true ->
  exists rest, process_all h (b ++ more) w = Some (mkServed (sv_out r) true rest (sv_world r)).
Proof.
  revert b w r. induction fuel as [|fuel IH]; intros b w r Hf; [lia|]. cbn [process].
  destruct (TryParseFrame b request_out) as [[[] b'] o] eqn:E.
  - by intros [= <-].
  - pose proof (TryParseFrame_shrinks _ _ _ _ E) as Hs.
    apply (TryParseFrame_complete_app _ _ _ _ more) in E. unfold process_all. cbn [process]. rewrite E.
    destruct (answer_frame h o w) as [[[enc|] w1]|]; [|intros [= <-] _; by eexists|done]. cbn [mbind option_bind].
    destruct (process h fuel b' w1) as [r1|] eqn:E1; [|done]. cbn [fmap option_fmap option_map]. intros [= <-] Hstop.
    rewrite (process_fuel _ (S (length (b' ++ more)))) by (rewrite ?length_app; lia).
    destruct (IH b' w1 r1) as [rest Hr]; [lia|done|done|]. fold (process_all h (b' ++ more) w1). rewrite Hr.
    by exists rest.
  - apply (TryParseFrame_error_app _ _ _ _ more) in E. unfold process_all. cbn [process]. rewrite E.
    intros [= <-] _. by eexists.
Qed.

(** ... or in which a call never returns. *)
Lemma process_blocks fuel b w more :
  (length b < fuel)%nat -> process h fuel b w = None -> process_all h (b ++ more) w = None.
Proof.
  revert b w. induction fuel as [|fuel IH]; intros b w Hf; [lia|]. cbn [process].
  destruct (TryParseFrame b request_out) as [[[] b'] o] eqn:E; [done| |done].
  pose proof (TryParseFrame_shrinks _ _ _ _ E) as Hs.
  apply (TryParseFrame_complete_app _ _ _ _ more) in E. unfold process_all. cbn [process]. rewrite E.
  destruct (answer_frame h o w) as [[[enc|] w1]|]; [|done..]. cbn [mbind option_bind].
  destruct (process h fuel b' w1) as [r1|] eqn:E1; [done|]. intros _.
  rewrite (process_fuel _ (S (length (b' ++ more)))) by (rewrite ?length_app; lia).
  fold (process_all h (b' ++ more) w1). by rewrite (IH b' w1) by (done || lia).
Qed.

(** The inner loop did all the work of [process]. *)
Definition frames_done r (sent : bytes) (more : bool) (b : bytes) w : Prop :=
  sent = sv_out r /\ more = negb (sv_stop r) /\ b = sv_rest r /\ w = sv_world r.

(** The result of the inner loop on a stream: all of it was written, or a prefix before
    the kernel refused to take more. *)
Definition frames_result sk r (res : option (bool * bytes * W * Sock)) : Prop :=
  exists more b' w' sk' sent, res = Some (more, b', w', sk') /\
    sk_out sk' = sk_out sk ++ sent /\ sk_in sk' = sk_in sk /\ sk_recv sk' = sk_recv sk /\
    (frames_done r sent more b' w' \/ (more = false /\ sent `prefix_of` sv_out r)) /\
    (calm (sk_send sk) -> frames_done r sent more b' w' /\ calm (sk_send sk')).

Lemma frames_result_end sk r more b w : frames_done r [] more b w -> frames_result sk r (Some (more, b, w, sk)).
Proof. intros Hd. exists more, b, w, sk, []. rewrite app_nil_r. do_conj. split; [by left|done]. Qed.

Lemma session_frames_spec fuel b w sk r :
  process h fuel b w = Some r -> frames_result sk r (session_frames h fuel b w sk).
Proof.
  revert b w sk r. induction fuel as [|fuel IH]; intros b w sk r; [done|]. cbn [process session_frames].
  destruct (TryParseFrame b request_out) as [[[] b'] o] eqn:E; [| |].
  1, 3: intros [= <-]; by apply frames_result_end.
  destruct (answer_frame h o w) as [[[enc|] w1]|]; [|intros [= <-]; by apply frames_result_end|done].
  cbn [mbind option_bind]. destruct (process h fuel b' w1) as [r1|] eqn:E1; [|done].
  cbn [fmap option_fmap option_map]. intros [= <-].
  destruct (WriteFull_spec enc sk) as (st & sk1 & sent & left_ & -> & Henc & Ho & Hi & Hr & Hok & Hcalm).
  cbn [mbind option_bind]. destruct (Status_ok st) eqn:Est; cbn [negb].
  - destruct Hok as [Hok _]. rewrite (Hok eq_refl), app_nil_r in Henc. subst sent.
    destruct (IH b' w1 sk1 r1 E1) as (more & b2 & w2 & sk2 & sent & -> & Ho2 & Hi2 & Hr2 & Hcase & Hcalm2).
    exists more, b2, w2, sk2, (enc ++ sent). split; [done|].
    assert (Hlift : frames_done r1 sent more b2 w2 -> frames_done (sv_prepend enc r1) (enc ++ sent) more b2 w2)
      by (intros (-> & -> & -> & ->); by split_and!).
    split; [by rewrite Ho2, Ho, app_assoc|]. split; [congruence|]. split; [congruence|]. split.
    + destruct Hcase as [Hd|[-> Hp]]; [left; by apply Hlift|right]. split; [done|]. cbn. by apply prefix_app.
    + intros Hc. destruct (Hcalm Hc) as [_ Hc1]. destruct (Hcalm2 Hc1) as [Hd Hc2]. split; [by apply Hlift|done].
  - exists false, b', w1, sk1, sent. split; [done|]. do_conj. split.
    + right. split; [done|]. cbn. rewrite Henc, <- app_assoc. by eexists.
    + intros Hc. destruct (Hcalm Hc) as [-> _]. destruct Hok as [_ Hok]. by discriminate Hok.
Qed.

(** The result of a session: the kernel took a prefix of the reference's output, all of
    it when calls are only interrupted, and then the worlds agree too. *)
Definition session_result sk r (res : option (W * Sock)) : Prop :=
  exists w' sk' sent, res = Some (w', sk') /\
    sk_out sk' = sk_out sk ++ sent /\ sent `prefix_of` sv_out r /\
    (calm (sk_recv sk) -> calm (sk_send sk) -> sent = sv_out r /\ w' = sv_world r).

(** A session that goes on after having written [out]. *)
Lemma session_result_after sk sk2 out r2 res :
  session_result sk2 r2 res -> sk_out sk2 = sk_out sk ++ out ->
  (calm (sk_recv sk) -> calm (sk_send sk) -> calm (sk_recv sk2) /\ calm (sk_send sk2)) ->
  session_result sk (sv_prepend out r2) res.
Proof.
  intros (w' & sk' & sent & -> & Ho & Hp & Hc) Ho2 Hcalm. exists w', sk', (out ++ sent).
  split; [done|]. split; [by rewrite Ho, Ho2, app_assoc|]. split; [by apply prefix_app|].
  intros H1 H2. destruct (Hcalm H1 H2) as [H3 H4]. by destruct (Hc H3 H4) as [-> ->].
Qed.

(** The input in two pieces. *)
Lemma process_split b more w r1 r :
  process_all h b w = Some r1 -> process_all h (b ++ more) w = Some r ->
  (sv_stop r1 = true /\ sv_out r = sv_out r1 /\ sv_world r = sv_world r1) \/
  (sv_stop r1 = false /\ exists r2, process_all h (sv_rest r1 ++ more) (sv_world r1) = Some r2 /\
     r = sv_prepend (sv_out r1) r2).
Proof.
  intros E1 E. pose proof (Nat.lt_succ_diag_r (length b)) as Hlt. destruct (sv_stop r1) eqn:Es; [left|right].
  - destruct (process_stop _ _ _ _ more Hlt E1 Es) as [rest Er]. rewrite Er in E. by injection E as <-.
  - rewrite (process_app _ _ _ _ more Hlt E1 Es) in E.
    apply fmap_Some in E as (r2 & E2 & ->). split; [done|]. by exists r2.
Qed.

Lemma calm_tail script : calm script -> calm (tail script).
Proof. destruct script; [done|]. by intros [_ ?]%Forall_cons. Qed.

Lemma session_loop_spec fuel b w sk r :
  (length (sk_recv sk) + length (sk_in sk) < fuel)%nat -> process_all h (b ++ sk_in sk) w = Some r ->
  session_result sk r (session_loop h fuel b w sk).
Proof.
  revert b w sk r. induction fuel as [|fuel IH]; intros b w sk r Hf Hall; [lia|]. cbn [session_loop].
  destruct (process h (S (length b)) b w) as [r1|] eqn:E1;
    [|by rewrite (process_blocks _ _ _ (sk_in sk) (Nat.lt_succ_diag_r _) E1) in Hall].
  destruct (session_frames_spec _ _ _ sk _ E1) as (more & b1 & w1 & sk1 & sent & -> & Ho & Hi & Hr & Hcase & Hcalm).
  cbn [mbind option_bind]. pose proof (process_split _ _ _ _ _ E1 Hall) as Hsplit.
  destruct Hcase as [(-> & -> & -> & ->)|[-> Hp]].
  2: { exists w1, sk1, sent. do_conj. split.
       - transitivity (sv_out r1); [done|]. destruct Hsplit as [(_ & -> & _)|(_ & r2 & _ & ->)]; [done|cbn; by eexists].
       - intros _ Hs. destruct (Hcalm Hs) as [(-> & Hm & _ & ->) _].
         destruct Hsplit as [(_ & -> & ->)|(Hst & _)]; [done|]. by rewrite Hst in Hm. }
  rewrite negb_involutive. destruct Hsplit as [(-> & Ho' & Hw')|(-> & r2 & E2 & ->)].
  { exists (sv_world r1), sk1, (sv_out r1). rewrite Ho', Hw'. do_conj. done. }
  rewrite <- Hi in E2.
  destruct (sock_read kChunkSize sk1) as [[chunk|e] sk2] eqn:Er; apply sock_read_spec in Er as (Ho2 & Hs2 & Hread & Hrecv);
    try (unfold kChunkSize; lia).
  - destruct Hread as (Hin & _ & Hnil). rewrite <- Hi, Hin, length_app in Hf. destruct (is_empty chunk) eqn:Ec.
    + apply is_empty_true in Ec as ->. rewrite (Hnil eq_refl), app_nil_r in E2.
      assert (E3 : r1 = sv_prepend (sv_out r1) r2).
      { rewrite <- Hi, (Hnil eq_refl), app_nil_r in Hall. unfold process_all in Hall. congruence. }
      rewrite <- E3. exists (sv_world r1), sk2, (sv_out r1). split; [done|]. split; [by rewrite Ho2, Ho|done].
    + apply is_empty_false in Ec. rewrite Hin, app_assoc in E2. apply session_result_after with sk2.
      * apply IH; [|done]. rewrite Hrecv, Hr. unfold zlen in Ec. destruct (sk_recv sk); cbn in *; lia.
      * by rewrite Ho2, Ho.
      * intros Hc Hs. rewrite Hrecv, Hr, Hs2. split; [by apply calm_tail|]. by apply Hcalm.
  - destruct Hread as (Hin & script & Hsc). destruct (Z.eqb_spec e EINTR) as [->|Hne].
    + rewrite <- Hin in E2. apply session_result_after with sk2.
      * apply IH; [|done]. rewrite Hrecv, Hin, Hi, Hsc. rewrite <- Hr, Hsc in Hf. cbn in *. lia.
      * by rewrite Ho2, Ho.
      * intros Hc Hs. rewrite Hrecv, Hr, Hs2. split; [by apply calm_tail|]. by apply Hcalm.
    + exists (sv_world r1), sk2, (sv_out r1). split; [done|]. split; [by rewrite Ho2, Ho|]. split; [cbn; by eexists|].
      rewrite <- Hr, Hsc. by intros [? _]%Forall_cons.
Qed.

Lemma ServeClientSession_spec w sk r :
  process_all h (sk_in sk) w = Some r -> session_result sk r (ServeClientSession h w sk).
Proof. intros E. unfold ServeClientSession. apply (session_loop_spec _ [] w sk r); [lia|done]. Qed.

(** C22: the session does not depend on how the bytes travel. Let the peer send any bytes,
    well-formed or not, in any pieces, with interrupted and short reads and writes. The
    session returns, and it has written exactly what processing all of the input at once
    writes, and left the same world; if reads or writes fail, it has written a prefix of
    that. (The premise: no call of the handler blocks for ever on this input.) *)
Theorem session_serves_stream w sk r :
  process_all h (sk_in sk) w = Some r ->
  exists w' sk' sent, ServeClientSession h w sk = Some (w', sk') /\
    sk_out sk' = sk_out sk ++ sent /\ sent `prefix_of` sv_out r /\
    (calm (sk_recv sk) -> calm (sk_send sk) -> sent = sv_out r /\ w' = sv_world r).
Proof. apply ServeClientSession_spec. Qed.

(** ** Frames of requests *)

(** The encoded answer to a message; [None]: the connection is closed. *)
Definition answer_message (m : Message) w : option (option bytes * W) :=
  match m with
  | MClientRequest req =>
      '(resp, w) ← Handle h req w;
      Some (match EncodeClientResponse resp with Value b => Some b | Failed _ => None end, w)
  | MClusterRequest req =>
      '(resp, w) ← HandleCluster h req w;
      Some (match EncodeClusterResponse resp with Value b => Some b | Failed _ => None end, w)
  | _ => Some (None, w)
  end.

Lemma answer_frame_deliver m w : answer_frame h (deliver m request_out) w = answer_message m w.
Proof.
  destruct m as [req|resp|req|resp]; try done; unfold answer_frame, answer_message; cbn.
  - destruct (Handle h req w) as [[resp w1]|]; [|done]. cbn. by destruct (EncodeClientResponse resp).
  - destruct (HandleCluster h req w) as [[resp w1]|]; [|done]. cbn. by destruct (EncodeClusterResponse resp).
Qed.

(** One frame in front of the rest of the input. *)
Lemma process_frame m rest w :
  fields_fit m -> encodable m ->
  process_all h (frame_of m ++ rest) w =
  '(answer, w1) ← answer_message m w;
  match answer with
  | None => Some (mkServed [] true rest w1)
  | Some encoded => sv_prepend encoded <$> process_all h rest w1
  end.
Proof.
  intros Hfit He. pose proof (TryParseFrame_frame m rest request_out Hfit He) as E.
  pose proof (TryParseFrame_shrinks _ _ _ _ E). unfold process_all at 1. cbn [process]. rewrite E, answer_frame_deliver.
  destruct (answer_message m w) as [[[enc|] w1]|]; [|done..]. cbn [mbind option_bind].
  by rewrite (process_fuel _ (S (length rest))) by lia.
Qed.

Lemma process_nil w : process_all h [] w = Some (mkServed [] false [] w).
Proof. reflexivity. Qed.

(** If the calls of the handler return in the worlds of [good] and stay in them, then the
    session's work on any input does. *)
Lemma process_returns (good : W -> Prop) :
  (forall req w, good w -> exists resp w', Handle h req w = Some (resp, w') /\ good w') ->
  (forall req w, good w -> exists resp w', HandleCluster h req w = Some (resp, w') /\ good w') ->
  forall b w, good w -> exists r, process_all h b w = Some r /\ good (sv_world r).
Proof.
  intros Hc Hcl b w. unfold process_all. pose proof (Nat.lt_succ_diag_r (length b)) as Hf. revert Hf.
  generalize (S (length b)) as fuel. intros fuel. revert b w. induction fuel as [|fuel IH]; intros b w Hf Hw; [lia|].
  cbn [process]. destruct (TryParseFrame b request_out) as [[[] b'] o] eqn:E; [by eexists| |by eexists].
  assert (Ha : exists enc w1, answer_frame h o w = Some (enc, w1) /\ good w1).
  { unfold answer_frame. destruct (out_type o) as [[]|]; try by eexists _, _.
    - destruct (Hc (default ClientRequest_default (out_request o)) w Hw) as (resp & w1 & -> & ?). cbn.
      destruct (EncodeClientResponse resp); by eexists _, _.
    - destruct (Hcl (default ClusterRequest_default (out_cluster_request o)) w Hw) as (resp & w1 & -> & ?). cbn.
      destruct (EncodeClusterResponse resp); by eexists _, _. }
  destruct Ha as ([enc|] & w1 & -> & Hw1); [|by eexists]. cbn [mbind option_bind].
  apply TryParseFrame_shrinks in E. destruct (IH b' w1 ltac:(lia) Hw1) as (r & -> & Hr). by eexists.
Qed.

End SessionProofs.

(** ** The session of a server without a cluster *)

Definition requests_stream (reqs : list ClientRequest) : bytes := concat ((fun r => frame_of (MClientRequest r)) <$> reqs).
Definition responses_stream (resps : list ClientResponse) : bytes := concat ((fun r => frame_of (MClientResponse r)) <$> resps).

(** The responses of one map to a sequence of requests, and the map then. *)
Fixpoint spec_session (reqs : list ClientRequest) (m : kvmap) : list ClientResponse * kvmap :=
  match reqs with
  | [] => ([], m)
  | req :: reqs =>
      let '(resp, m) := spec_Handle req m in
      let '(resps, m) := spec_session reqs m in (resp :: resps, m)
  end.

(** A value that fits into a response frame. *)
Definition values_fit (m : kvmap) : Prop := forall k v, m !! k = Some v -> zlen v + 18 <= kMaxPayloadSize.

(** Every value that a client can store fits into a response. *)
Lemma spec_Handle_fits req m :
  encodable (MClientRequest req) -> values_fit m ->
  values_fit (spec_Handle req m).2 /\ zlen (cresp_value (spec_Handle req m).1) + 18 <= kMaxPayloadSize.
Proof.
  intros [Hs [Hk _]] Hm. cbn [payload_of] in Hs. rewrite zlen_payload_ClientRequest in Hs.
  pose proof (zlen_nonneg (creq_value req)).
  assert (0 < zlen (creq_key req)) by (destruct (creq_key req); [done|zlen_lia]).
  assert (Hr : forall st m', values_fit m' -> values_fit (respond req st, m').2 /\
    zlen (cresp_value (respond req st, m').1) + 18 <= kMaxPayloadSize) by (intros st m' ?; split; [done|by vm_compute]).
  unfold spec_Handle. destruct (creq_opcode req).
  - destruct (_ || _); [by apply Hr|]. apply Hr. intros k v [[_ <-]|[_ Hv]]%lookup_insert_Some; [lia|by eapply Hm].
  - destruct (is_empty _); [by apply Hr|]. destruct (m !! creq_key req) as [v|] eqn:E; [|by apply Hr].
    split; [done|]. by eapply Hm.
  - destruct (is_empty _); [by apply Hr|]. destruct (m !! creq_key req) as [v|] eqn:E; apply Hr; [|done].
    intros k x [_ Hx]%lookup_delete_Some. by eapply Hm.
  - by apply Hr.
Qed.

Section StandaloneSession.
Context `{Libc} {T : Type} `{KvLaws T}.
Implicit Types (d : DurableStorage T) (s : Sys).

(** The answer to a request: the frame of the specified response. *)
Lemma answer_standalone allow req rs d s :
  ds_inv rs d s -> disk_ok s -> values_fit (replay rs) -> zlen rs + 1 < 2 ^ 64 ->
  fields_fit (MClientRequest req) -> encodable (MClientRequest req) ->
  exists d' s' rs', answer_message (standalone allow) (MClientRequest req) (d, s) =
      Some (Some (frame_of (MClientResponse (spec_Handle req (replay rs)).1)), (d', s')) /\
    ds_inv rs' d' s' /\ disk_ok s' /\ replay rs' = (spec_Handle req (replay rs)).2 /\ values_fit (replay rs') /\
    zlen rs <= zlen rs' <= zlen rs + 1.
Proof.
  intros Hd Hok Hval Hlt Hfit He. pose proof (encodable_request_fits req He) as Hreq.
  destruct (Handle_standalone allow req rs d s Hd Hreq Hlt Hok) as (d' & s' & rs' & E & Hd' & Hr & Hl & Hok').
  pose proof (Handle_answer (fun _ => True) (standalone allow) req (d, s) _ _ I I E) as Hans.
  destruct (spec_Handle_fits req (replay rs) He Hval) as [Hval' Hsize].
  destruct (client_answer_encodable _ _ _ Hans Hfit Hsize) as [_ Henc].
  exists d', s', rs'. cbn [answer_message]. rewrite E. cbn [mbind option_bind].
  assert (EncodeClientResponse (spec_Handle req (replay rs)).1 =
    Value (frame_of (MClientResponse (spec_Handle req (replay rs)).1))) as ->
    by (apply (encode_message_spec (MClientResponse _)); by split).
  rewrite Hr. split; [done|]. by split_and!; try apply Hl.
Qed.

(** On a healthy disk the session's work on any bytes ends. *)
Lemma process_standalone_live allow b w :
  standalone_live w -> exists r, process_all (standalone (T := T) allow) b w = Some r /\ standalone_live (sv_world r).
Proof.
  apply (process_returns (standalone allow) standalone_live).
  - intros req w'. apply Handle_standalone_live.
  - intros req w' Hw. destruct (HandleCluster_standalone allow req w') as [resp E]. by exists resp, w'.
Qed.

Lemma process_standalone allow reqs rs d s :
  ds_inv rs d s -> disk_ok s -> values_fit (replay rs) -> zlen rs + zlen reqs < 2 ^ 64 ->
  Forall (fun req => fields_fit (MClientRequest req) /\ encodable (MClientRequest req)) reqs ->
  exists d' s' rs', process_all (standalone allow) (requests_stream reqs) (d, s) =
      Some (mkServed (responses_stream (spec_session reqs (replay rs)).1) false [] (d', s')) /\
    ds_inv rs' d' s' /\ replay rs' = (spec_session reqs (replay rs)).2 /\ disk_ok s' /\ values_fit (replay rs') /\
    zlen rs' <= zlen rs + zlen reqs.
Proof.
  intros Hd Hok Hval Hlt Hreqs. revert rs d s Hd Hok Hval Hlt.
  induction Hreqs as [|req reqs [Hfit He] Hreqs IH]; intros rs d s Hd Hok Hval Hlt;
    [exists d, s, rs; split; [done|]; split_and!; try done; autorewrite with zlen; lia|].
  autorewrite with zlen in Hlt. pose proof (zlen_nonneg reqs).
  destruct (answer_standalone allow req rs d s Hd Hok Hval ltac:(lia) Hfit He)
    as (d1 & s1 & rs1 & E1 & Hd1 & Hok1 & Hr1 & Hval1 & Hl1).
  destruct (IH rs1 d1 s1 Hd1 Hok1 Hval1 ltac:(lia)) as (d' & s' & rs' & E & Hd' & Hr' & Hok' & Hval' & Hl').
  exists d', s', rs'. change (requests_stream (req :: reqs)) with (frame_of (MClientRequest req) ++ requests_stream reqs).
  rewrite process_frame, E1 by done. cbn [mbind option_bind]. rewrite E. cbn [spec_session].
  destruct (spec_Handle req (replay rs)) as [resp m]. cbn [fst snd] in *. rewrite <- Hr1.
  destruct (spec_session reqs (replay rs1)) as [resps m']. split; [done|]. split_and!; try done. autorewrite with zlen. lia.
Qed.

(** C21: a client's session on a durable store is a session with one map. The client
    sends the frames of any requests it can encode. However the bytes are split on the
    way in and out, the session returns after writing exactly the frames of the responses
    that a single finite map gives to those requests in order. The map it ends with is in
    memory, and it is what recovery finds after a crash at that moment. *)
Theorem session_refines_map allow reqs rs d s sk :
  ds_inv rs d s -> disk_ok s -> values_fit (replay rs) -> zlen rs + zlen reqs < 2 ^ 64 ->
  Forall (fun req => fields_fit (MClientRequest req) /\ encodable (MClientRequest req)) reqs ->
  sk_in sk = requests_stream reqs -> calm (sk_recv sk) -> calm (sk_send sk) ->
  exists d' s' sk', ServeClientSession (standalone allow) (d, s) sk = Some ((d', s'), sk') /\
    sk_out sk' = sk_out sk ++ responses_stream (spec_session reqs (replay rs)).1 /\
    kv_map (ds_kv d') = (spec_session reqs (replay rs)).2 /\
    forall b, crash_file (sys_file s') b ->
      exists rs', b = encode_log rs' /\ replay rs' = (spec_session reqs (replay rs)).2.
Proof.
  intros Hd Hok Hval Hlt Hreqs Hin Hrecv Hsend.
  destruct (process_standalone allow reqs rs d s Hd Hok Hval Hlt Hreqs) as (d' & s' & rs' & E & Hd' & Hr & _).
  rewrite <- Hin in E. destruct (ServeClientSession_spec (standalone allow) (d, s) sk _ E)
    as (w' & sk' & sent & Es & Ho & _ & Hc).
  destruct (Hc Hrecv Hsend) as [-> ->]. exists d', s', sk'. split; [done|]. split; [done|].
  split; [rewrite <- Hr; apply Hd'|]. intros b Hb. exists rs'. split; [|done]. by eapply crash_healthy.
Qed.

End StandaloneSession.

(** ** Concrete sessions *)

#[local] Existing Instance example_libc.
#[local] Existing Instance example_hash.

Definition example_requests : list ClientRequest :=
  [mkClientRequest 1 Opcode.kSet (str "a") (str "1"); mkClientRequest 2 Opcode.kGet (str "a") [];
   mkClientRequest 3 Opcode.kDelete (str "b") []].

Definition example_ping : Message := MClusterRequest (mkClusterRequest 9 ClusterOpcode.kPing []).

(** The input in small pieces, with interruptions. *)
Definition example_sock (input : bytes) : Sock :=
  mkSock input [IoSome 3; IoErr EINTR; IoSome 30; IoSome 1] [] [IoSome 5; IoErr EINTR; IoSome 2].

Definition fresh_world : DurableStorage ShardedKV * Sys := (fresh_store, fresh_disk []).

Lemma example_requests_ok :
  Forall (fun req => fields_fit (MClientRequest req) /\ encodable (MClientRequest req)) example_requests.
Proof. repeat constructor; try discriminate; cbn; lia. Qed.

Lemma fresh_disk_ok : disk_ok (fresh_disk []).
Proof. repeat constructor. Qed.

Lemma session_refines_map_witness :
  exists d' s' sk',
    ServeClientSession (standalone (T := ShardedKV) false) fresh_world (example_sock (requests_stream example_requests))
      = Some ((d', s'), sk') /\
    sk_out sk' = responses_stream [respond (mkClientRequest 1 Opcode.kSet (str "a") (str "1")) ResponseStatus.kOk;
      mkClientResponse 2 ResponseStatus.kOk (str "1") 0; mkClientResponse 3 ResponseStatus.kNotFound [] 0].
Proof.
  destruct (session_refines_map (T := ShardedKV) false example_requests [] fresh_store (fresh_disk [])
    (example_sock (requests_stream example_requests))) as (d' & s' & sk' & E & Ho & _).
  - apply fresh_store_inv.
  - exact fresh_disk_ok.
  - intros k v E. change (replay []) with (∅ : kvmap) in E. rewrite lookup_empty in E. discriminate E.
  - vm_compute. reflexivity.
  - exact example_requests_ok.
  - reflexivity.
  - repeat constructor.
  - repeat constructor.
  - exists d', s', sk'. split; [exact E|exact Ho].
Defined.

(** A ping, and then bytes that are not a frame. *)
Definition example_input : bytes := frame_of example_ping ++ str "not a frame".

Definition example_served : Served (DurableStorage ShardedKV * Sys) :=
  mkServed (frame_of (MClusterResponse (mkClusterResponse 9 ResponseStatus.kOk (str "pong")))) true [] fresh_world.

Lemma session_serves_stream_witness :
  exists w' sk', ServeClientSession (standalone (T := ShardedKV) false) fresh_world (example_sock example_input) = Some (w', sk') /\
    sk_out sk' = frame_of (MClusterResponse (mkClusterResponse 9 ResponseStatus.kOk (str "pong"))).
Proof.
  destruct (session_serves_stream (standalone (T := ShardedKV) false) fresh_world (example_sock example_input) example_served)
    as (w' & sk' & sent & E & Ho & _ & Hc).
  - vm_compute. reflexivity.
  - exists w', sk'. split; [exact E|]. rewrite Ho. cbn [sk_out example_sock app].
    apply Hc; repeat constructor.
Defined.
