(* ===== verification/Connection.v ===== *)
(** * A non-blocking connection ([src/net/connection.cpp])

    The buffers of a connection that an event loop drives, and that the stream of its
    responses is the one of a blocking session (Session.v). *)

From Stdlib Require Import Strings.String.
From S2P Require Import Prelude Common BigEndian Codec Crc32 Os WalRecord RaftTypes RpcCodec.
From S2P Require Import ShardedKV WalWriter DurableStorage ClusterConfig Socket Handler Session.

Record Connection := mkConnection {
  fd_ : Z;
  read_buffer_ : bytes;
  write_buffer_ : bytes;
  closed_ : bool
}.

Section Connection.
Context `{Libc} {W : Type} (h : RequestHandler W).
Implicit Types (c : Connection) (w : W) (sk : Sock).

(** The constructor; the status of [SetNonBlocking] is not looked at. *)
Definition Connection_new (fd : Z) (k : Kern) : Connection * Kern :=
  let '(_, k) := SetNonBlocking fd true k in (mkConnection fd [] [] false, k).

Definition write_pending c : bool := negb (is_empty (write_buffer_ c)).
Definition write_buffer_size c : Z := zlen (write_buffer_ c).
Definition closed c : bool := closed_ c.
Definition MarkClosed c : Connection := mkConnection (fd_ c) (read_buffer_ c) (write_buffer_ c) true.

Definition set_buffers (read write : bytes) c : Connection := mkConnection (fd_ c) read write (closed_ c).

(** The loop; a frame is at least a header long. *)
Fixpoint ProcessFrames_loop (fuel : nat) c w : option (Connection * W) :=
  match fuel with
  | O => None
  | S fuel =>
      match TryParseFrame (read_buffer_ c) request_out with
      | (ParseResult.kNeedMore, buf, _) => Some (set_buffers buf (write_buffer_ c) c, w)
      | (ParseResult.kError, buf, _) => Some (MarkClosed (set_buffers buf (write_buffer_ c) c), w)
      | (ParseResult.kComplete, buf, o) =>
          let c := set_buffers buf (write_buffer_ c) c in
          '(answer, w) ← answer_frame h o w;
          match answer with
          | None => Some (MarkClosed c, w)
          | Some encoded => ProcessFrames_loop fuel (set_buffers (read_buffer_ c) (write_buffer_ c ++ encoded) c) w
          end
      end
  end.

Definition ProcessFrames c w : option (Connection * W) := ProcessFrames_loop (S (length (read_buffer_ c))) c w.

(** The reading loop: the [errno] that ended it, if one did. *)
Fixpoint OnReadable_loop (fuel : nat) c sk : option (option Z * Connection * Sock) :=
  match fuel with
  | O => None
  | S fuel =>
      match sock_read kChunkSize sk with
      | (inl chunk, sk) =>
          if is_empty chunk then Some (None, MarkClosed c, sk)
          else OnReadable_loop fuel (set_buffers (read_buffer_ c ++ chunk) (write_buffer_ c) c) sk
      | (inr errno, sk) =>
          if errno =? EAGAIN then Some (None, c, sk)
          else if errno =? EINTR then OnReadable_loop fuel c sk
          else Some (Some errno, MarkClosed c, sk)
      end
  end.

Definition OnReadable c w sk : option (Status * Connection * W * Sock) :=
  '(failed, c, sk) ← OnReadable_loop (S (length (sk_recv sk) + length (sk_in sk))) c sk;
  match failed with
  | Some errno => Some (IoError (str "read: ") errno, c, w, sk)
  | None => '(c, w) ← ProcessFrames c w; Some (Status_Ok, c, w, sk)
  end.

Fixpoint OnWritable_loop (fuel : nat) c sk : option (Status * Connection * Sock) :=
  if is_empty (write_buffer_ c) then Some (Status_Ok, c, sk)
  else
    match fuel with
    | O => None
    | S fuel =>
        match sock_write (write_buffer_ c) sk with
        | (inr errno, sk) =>
            if errno =? EAGAIN then Some (Status_Ok, c, sk)
            else if errno =? EINTR then OnWritable_loop fuel c sk
            else Some (IoError (str "write: ") errno, MarkClosed c, sk)
        | (inl n, sk) => OnWritable_loop fuel (set_buffers (read_buffer_ c) (zdrop n (write_buffer_ c)) c) sk
        end
    end.

Definition OnWritable c sk : option (Status * Connection * Sock) := OnWritable_loop (S (length (sk_send sk))) c sk.

(** ** What the operations do *)

Definition apply_served c (r : Served W) : Connection :=
  mkConnection (fd_ c) (sv_rest r) (write_buffer_ c ++ sv_out r) (closed_ c || sv_stop r).

Lemma ProcessFrames_loop_spec fuel c w :
  ProcessFrames_loop fuel c w = (fun r => (apply_served c r, sv_world r)) <$> process h fuel (read_buffer_ c) w.
Proof.
  revert c w. induction fuel as [|fuel IH]; intros c w; [done|]. cbn [ProcessFrames_loop process].
  destruct (TryParseFrame (read_buffer_ c) request_out) as [[[] buf] o] eqn:E; cbn.
  - unfold apply_served, set_buffers. cbn. by rewrite app_nil_r, orb_false_r.
  - destruct (answer_frame h o w) as [[[enc|] w1]|]; cbn; [|unfold apply_served, MarkClosed, set_buffers; cbn|done].
    + rewrite IH. cbn [read_buffer_ set_buffers]. destruct (process h fuel buf w1) as [r|]; [|done]. cbn.
      unfold apply_served. cbn. by rewrite app_assoc.
    + by rewrite app_nil_r, orb_true_r.
  - unfold apply_served, MarkClosed, set_buffers. cbn. by rewrite app_nil_r, orb_true_r.
Qed.

Lemma ProcessFrames_spec c w :
  ProcessFrames c w = (fun r => (apply_served c r, sv_world r)) <$> process_all h (read_buffer_ c) w.
Proof. apply ProcessFrames_loop_spec. Qed.

Lemma drop_tail {A} n (l : list A) : drop n (tail l) = drop (S n) l.
Proof. destruct l; [apply drop_nil|done]. Qed.

(** The reading loop appends what it takes from the stream; without a fatal error the
    connection stays open, or the stream has ended. *)
Lemma OnReadable_loop_spec fuel c sk :
  (length (sk_recv sk) + length (sk_in sk) < fuel)%nat ->
  exists failed got closed' sk', OnReadable_loop fuel c sk =
      Some (failed, mkConnection (fd_ c) (read_buffer_ c ++ got) (write_buffer_ c) closed', sk') /\
    sk_in sk = got ++ sk_in sk' /\ sk_out sk' = sk_out sk /\ sk_send sk' = sk_send sk /\
    (exists n, sk_recv sk' = drop n (sk_recv sk)) /\
    match failed with
    | Some e => closed' = true /\ IoErr e ∈ sk_recv sk /\ e <> EAGAIN /\ e <> EINTR
    | None => closed' = closed_ c \/ (closed' = true /\ sk_in sk' = [])
    end.
Proof.
  revert c sk. induction fuel as [|fuel IH]; intros c sk Hf; [lia|]. cbn [OnReadable_loop].
  destruct (sock_read kChunkSize sk) as [[chunk|e] sk1] eqn:Er; apply sock_read_spec in Er as (Ho & Hs & Hread & Hrecv);
    try (unfold kChunkSize; lia).
  - destruct Hread as (Hin & _ & Hnil). destruct (is_empty chunk) eqn:Ec.
    + apply is_empty_true in Ec as ->. exists None, [], true, sk1. rewrite app_nil_r. do_conj.
      split; [exists 1%nat; by rewrite Hrecv, <- drop_tail|]. right. split; [done|].
      rewrite (Hnil eq_refl) in Hin. by symmetry.
    + apply is_empty_false in Ec.
      destruct (IH (set_buffers (read_buffer_ c ++ chunk) (write_buffer_ c) c) sk1)
        as (failed & got & cl & sk' & -> & Hin' & Ho' & Hs' & [n Hn] & Hcase).
      { rewrite Hrecv. rewrite Hin, length_app in Hf. unfold zlen in Ec. destruct (sk_recv sk); cbn in *; lia. }
      exists failed, (chunk ++ got), cl, sk'. cbn [fd_ read_buffer_ write_buffer_ set_buffers closed_].
      rewrite app_assoc. split; [done|]. split; [by rewrite Hin, <- app_assoc, <- Hin'|]. split; [congruence|].
      split; [congruence|]. split; [exists (S n); by rewrite Hn, Hrecv, drop_tail|].
      destruct failed as [e|]; [|done]. destruct Hcase as (? & He & ?). split; [done|]. split; [|done].
      rewrite Hrecv in He. destruct (sk_recv sk); [done|]. by right.
  - destruct Hread as (Hin & script & Hsc). rewrite Hsc in Hrecv. cbn [tail] in Hrecv.
    assert (Hdrop : exists n, sk_recv sk1 = drop n (sk_recv sk)) by (exists 1%nat; by rewrite Hsc).
    destruct (Z.eqb_spec e EAGAIN) as [->|Hna].
    { exists None, [], (closed_ c), sk1. rewrite app_nil_r. split; [by destruct c|]. split; [by rewrite Hin|]. do_conj. by left. }
    destruct (Z.eqb_spec e EINTR) as [->|Hni].
    + destruct (IH c sk1) as (failed & got & cl & sk' & -> & Hin' & Ho' & Hs' & [n Hn] & Hcase).
      { rewrite Hrecv, Hin. rewrite Hsc in Hf. cbn in Hf. lia. }
      exists failed, got, cl, sk'. split; [done|]. split; [by rewrite <- Hin|]. split; [congruence|]. split; [congruence|].
      split; [exists (S n); by rewrite Hn, Hrecv, Hsc|]. destruct failed; [|done].
      destruct Hcase as (? & He & ?). rewrite Hsc. split; [done|]. split; [right; by rewrite <- Hrecv|done].
    + exists (Some e), [], true, sk1. rewrite app_nil_r. split; [done|]. split; [by rewrite Hin|]. do_conj.
      split; [rewrite Hsc; left|done].
Qed.

(** The result of writing: the kernel took the front of the buffer, the rest is kept. *)
Definition written c sk (res : option (Status * Connection * Sock)) : Prop :=
  exists st sent rest closed' sk', res = Some (st, mkConnection (fd_ c) (read_buffer_ c) rest closed', sk') /\
    write_buffer_ c = sent ++ rest /\ sk_out sk' = sk_out sk ++ sent /\ sk_in sk' = sk_in sk /\ sk_recv sk' = sk_recv sk /\
    (exists n, sk_send sk' = drop n (sk_send sk)) /\
    (closed' = closed_ c \/ exists e, IoErr e ∈ sk_send sk /\ e <> EAGAIN /\ e <> EINTR).

Lemma written_none c sk st : written c sk (Some (st, c, sk)).
Proof.
  exists st, [], (write_buffer_ c), (closed_ c), sk. rewrite app_nil_r. destruct c.
  split_and!; first [done | by exists 0%nat | by left].
Qed.

(** One answer of the script was used, and [b] was handed over. *)
Lemma written_after c sk b rest a script res :
  sk_send sk = a :: script -> write_buffer_ c = b ++ rest ->
  written (set_buffers (read_buffer_ c) rest c) (mkSock (sk_in sk) (sk_recv sk) (sk_out sk ++ b) script) res ->
  written c sk res.
Proof.
  intros Es Eb (st & sent & rest' & cl & sk' & -> & Hw & Ho & Hi & Hr & [k Hn] & Hcl). cbn in *.
  exists st, (b ++ sent), rest', cl, sk'. split; [done|]. split; [by rewrite Eb, Hw, app_assoc|].
  split; [by rewrite Ho, app_assoc|]. split; [done|]. split; [done|]. rewrite Es. split; [by exists (S k)|].
  destruct Hcl as [->|(e & He & ?)]; [by left|right]. exists e. split; [by right|done].
Qed.

Lemma OnWritable_loop_spec fuel c sk :
  (length (sk_send sk) < fuel)%nat -> written c sk (OnWritable_loop fuel c sk).
Proof.
  revert c sk. induction fuel as [|fuel IH]; intros c sk Hf; [lia|]. cbn [OnWritable_loop].
  destruct (is_empty (write_buffer_ c)) eqn:Eb; [apply written_none|]. apply is_empty_false in Eb.
  assert (Hc : set_buffers (read_buffer_ c) (write_buffer_ c) c = c) by (by destruct c).
  assert (Hskip : forall a script res, sk_send sk = a :: script ->
    written c (mkSock (sk_in sk) (sk_recv sk) (sk_out sk) script) res -> written c sk res).
  { intros a script res Es Hres. eapply (written_after _ _ [] (write_buffer_ c)); [exact Es|done|].
    by rewrite Hc, app_nil_r. }
  unfold sock_write. destruct (sk_send sk) as [|[n|e] script] eqn:Es.
  - assert (OnWritable_loop fuel (set_buffers (read_buffer_ c) (zdrop (zlen (write_buffer_ c)) (write_buffer_ c)) c)
      (mkSock (sk_in sk) (sk_recv sk) (sk_out sk ++ write_buffer_ c) []) =
      Some (Status_Ok, set_buffers (read_buffer_ c) [] c, mkSock (sk_in sk) (sk_recv sk) (sk_out sk ++ write_buffer_ c) []))
      as -> by (rewrite zdrop_all by lia; by destruct fuel).
    eexists _, (write_buffer_ c), [], (closed_ c), _. rewrite app_nil_r.
    split_and!; first [done | by exists 0%nat | by left].
  - eapply written_after; [exact Es|symmetry; apply ztake_zdrop|]. apply IH. cbn in *. lia.
  - destruct (Z.eqb_spec e EAGAIN) as [->|Hna]; [by eapply Hskip; [|apply written_none]|].
    destruct (Z.eqb_spec e EINTR) as [->|Hni]; [eapply Hskip; [done|]; apply IH; cbn in *; lia|].
    eexists _, [], (write_buffer_ c), true, _. split; [reflexivity|]. rewrite app_nil_r, Es. cbn. do 4 (split; [done|]).
    split; [by exists 1%nat|right]. exists e. split; [left|done].
Qed.

(** ** The size of the input buffer *)

Lemma need_more_bound b o b' o' :
  TryParseFrame b o = (ParseResult.kNeedMore, b', o') -> zlen b < kFrameHeaderSize + kMaxPayloadSize.
Proof.
  unfold TryParseFrame. intros E. destruct (Z.ltb_spec (zlen b) kFrameHeaderSize); [unfold kMaxPayloadSize; lia|].
  destruct (negb _); [done|]. destruct (negb _); [done|].
  destruct (Z.ltb_spec kMaxPayloadSize (ReadU32BE (zdrop 4 b))); [done|].
  destruct (Z.ltb_spec (zlen b) (kFrameHeaderSize + ReadU32BE (zdrop 4 b))); [lia|].
  destruct (MessageType_of_byte _); [|done]. by destruct (decode_payload _ _ _).
Qed.

Lemma process_rest_bound fuel b w r :
  process h fuel b w = Some r -> sv_stop r = false -> zlen (sv_rest r) < kFrameHeaderSize + kMaxPayloadSize.
Proof.
  revert b w r. induction fuel as [|fuel IH]; intros b w r; [done|]. cbn [process].
  destruct (TryParseFrame b request_out) as [[[] b'] o] eqn:E; [| |by intros [= <-]].
  - intros [= <-] _. cbn. pose proof (need_more_bound _ _ _ _ E). by apply TryParseFrame_need_more in E as [-> _].
  - destruct (answer_frame h o w) as [[[enc|] w1]|]; [|by intros [= <-]|done]. cbn [mbind option_bind].
    intros (r1 & E1 & ->)%fmap_Some. cbn. by eapply IH.
Qed.

(** C30: the input buffer of an open connection is bounded. However much a client sends
    and however the reads are answered, after [OnReadable] a connection that is still open
    holds less than one maximal frame of unprocessed input. *)
Theorem input_buffer_bounded c w sk st c' w' sk' :
  OnReadable c w sk = Some (st, c', w', sk') -> closed c' = false ->
  write_buffer_size c <= write_buffer_size c' /\ zlen (read_buffer_ c') < kFrameHeaderSize + kMaxPayloadSize.
Proof.
  unfold OnReadable, closed.
  destruct (OnReadable_loop_spec (S (length (sk_recv sk) + length (sk_in sk))) c sk ltac:(lia))
    as (failed & got & cl & sk1 & -> & _ & _ & _ & _ & Hcase). cbn [mbind option_bind].
  destruct failed as [e|]; [destruct Hcase as (-> & _); by intros [= <- <- <- <-]|].
  rewrite ProcessFrames_spec. destruct (process_all h _ w) as [r|] eqn:E; [|done]. intros [= <- <- <- <-]. cbn.
  intros [_ Hstop]%orb_false_iff. split; [unfold write_buffer_size; cbn; zlen_lia|]. by eapply process_rest_bound.
Qed.

(** ** A connection that is alone with the handler *)

Inductive ConnEvent := Readable | Writable.

(** A closed connection gets no more events. *)
Definition conn_step (ev : ConnEvent) c w sk : option (Connection * W * Sock) :=
  if closed c then Some (c, w, sk)
  else
    match ev with
    | Readable => '(_, c, w, sk) ← OnReadable c w sk; Some (c, w, sk)
    | Writable => '(_, c, sk) ← OnWritable c sk; Some (c, w, sk)
    end.

Fixpoint conn_run (evs : list ConnEvent) c w sk : option (Connection * W * Sock) :=
  match evs with
  | [] => Some (c, w, sk)
  | ev :: evs => '(c, w, sk) ← conn_step ev c w sk; conn_run evs c w sk
  end.

(** No answer is an error other than [EAGAIN] and [EINTR]. *)
Definition nonfatal (script : list StreamAns) : Prop :=
  Forall (fun a => match a with IoErr e => e = EAGAIN \/ e = EINTR | IoSome _ => True end) script.

Lemma nonfatal_drop n script : nonfatal script -> nonfatal (drop n script).
Proof. apply Forall_drop. Qed.

Lemma nonfatal_no script e : nonfatal script -> IoErr e ∈ script -> e <> EAGAIN -> e <> EINTR -> False.
Proof. intros Hn He H1 H2. unfold nonfatal in Hn. rewrite Forall_forall in Hn. destruct (Hn _ He); contradiction. Qed.

(** The state of a connection to which a peer sends [input] in the world [w0]: it has
    processed [consumed], and what is not in the kernel's hands is in the buffers. *)
Definition conn_inv (healthy : Prop) (input out0 : bytes) (w0 : W) c w sk : Prop :=
  (healthy -> nonfatal (sk_recv sk) /\ nonfatal (sk_send sk)) /\ out0 `prefix_of` sk_out sk /\
  exists consumed r, consumed `prefix_of` input /\ process_all h consumed w0 = Some r /\
    w = sv_world r /\ sk_out sk ++ write_buffer_ c = out0 ++ sv_out r /\
    (closed_ c = false -> input = consumed ++ sk_in sk /\ sv_stop r = false /\ read_buffer_ c = sv_rest r) /\
    (healthy -> closed_ c = true -> sv_stop r = true \/ consumed = input).

Lemma Readable_inv healthy input out0 w0 c w sk r :
  process_all h input w0 = Some r -> closed_ c = false -> conn_inv healthy input out0 w0 c w sk ->
  exists c' w' sk', conn_step Readable c w sk = Some (c', w', sk') /\ conn_inv healthy input out0 w0 c' w' sk'.
Proof.
  intros Hall Hc (Hh & Hgrow & consumed & r1 & Hpre & Hr1 & -> & Hout & Hopen & _). destruct (Hopen Hc) as (Hin & Hstop & Hbuf).
  unfold conn_step, closed, OnReadable. rewrite Hc.
  destruct (OnReadable_loop_spec (S (length (sk_recv sk) + length (sk_in sk))) c sk ltac:(lia))
    as (failed & got & cl & sk' & -> & Hin' & Ho & Hs & [n Hn] & Hcase). cbn [mbind option_bind].
  assert (Hh' : healthy -> nonfatal (sk_recv sk') /\ nonfatal (sk_send sk')).
  { intros [H1 H2]%Hh. rewrite Hn, Hs. split; [by apply nonfatal_drop|done]. }
  destruct failed as [e|].
  - destruct Hcase as (-> & He & Hna & Hni). eexists _, _, _. split; [done|]. split; [done|]. rewrite Ho. split; [done|].
    exists consumed, r1. cbn. do 4 (split; [done|]). split; [done|].
    intros [H1 _]%Hh _. exfalso. by eapply nonfatal_no.
  - rewrite Hin' in Hin.
    assert (Hmore : exists r2, process_all h (consumed ++ got) w0 = Some (sv_prepend (sv_out r1) r2) /\
      process_all h (sv_rest r1 ++ got) (sv_world r1) = Some r2).
    { destruct (process_all h (consumed ++ got) w0) as [r'|] eqn:E.
      - rewrite (process_app h _ _ _ _ got (Nat.lt_succ_diag_r _) Hr1 Hstop) in E.
        apply fmap_Some in E as (r2 & E2 & ->). by exists r2.
      - rewrite Hin, app_assoc in Hall. by rewrite (process_blocks h _ _ _ _ (Nat.lt_succ_diag_r _) E) in Hall. }
    destruct Hmore as (r2 & E & E2). rewrite ProcessFrames_spec. cbn [read_buffer_]. rewrite Hbuf, E2.
    eexists _, _, _. split; [reflexivity|]. split; [done|]. split; [by rewrite Ho|].
    exists (consumed ++ got), (sv_prepend (sv_out r1) r2). split; [exists (sk_in sk'); by rewrite Hin, app_assoc|].
    split; [done|]. split; [done|]. cbn. rewrite Ho. split; [by rewrite app_assoc, Hout, app_assoc|].
    split.
    + intros [-> ->]%orb_false_iff. split; [by rewrite Hin, app_assoc|done].
    + intros _ [->| ->]%orb_true_iff; [right|by left].
      destruct Hcase as [Hcl|[_ Hnil]]; [congruence|]. by rewrite Hin, Hnil, app_nil_r.
Qed.

Lemma Writable_inv healthy input out0 w0 c w sk :
  closed_ c = false -> conn_inv healthy input out0 w0 c w sk ->
  exists c' w' sk', conn_step Writable c w sk = Some (c', w', sk') /\ conn_inv healthy input out0 w0 c' w' sk'.
Proof.
  intros Hc (Hh & Hgrow & consumed & r1 & Hpre & Hr1 & -> & Hout & Hopen & Hcl). unfold conn_step, closed, OnWritable. rewrite Hc.
  destruct (OnWritable_loop_spec (S (length (sk_send sk))) c sk ltac:(lia))
    as (st & sent & rest & cl & sk' & -> & Hw & Ho & Hi & Hr & [n Hn] & Hcl'). cbn [mbind option_bind].
  eexists _, _, _. split; [done|]. split; [intros [H1 H2]%Hh; rewrite Hr, Hn; split; [done|by apply nonfatal_drop]|].
  split; [rewrite Ho; by apply prefix_app_r|]. exists consumed, r1. cbn. do 3 (split; [done|]). split; [by rewrite Ho, <- app_assoc, <- Hw|]. rewrite Hi.
  split; [intros ->; by apply Hopen|]. intros Hhealthy ->. destruct (Hh Hhealthy) as [_ H2].
  destruct Hcl' as [E|(e & He & Hna & Hni)]; [congruence|]. exfalso. by eapply nonfatal_no.
Qed.

Lemma conn_run_inv evs healthy input out0 w0 c w sk r :
  process_all h input w0 = Some r -> conn_inv healthy input out0 w0 c w sk ->
  exists c' w' sk', conn_run evs c w sk = Some (c', w', sk') /\ conn_inv healthy input out0 w0 c' w' sk'.
Proof.
  intros Hall. revert c w sk. induction evs as [|ev evs IH]; intros c w sk Hinv; cbn [conn_run]; [by exists c, w, sk|].
  assert (Hstep : exists c' w' sk', conn_step ev c w sk = Some (c', w', sk') /\ conn_inv healthy input out0 w0 c' w' sk').
  { destruct (closed_ c) eqn:Hc; [exists c, w, sk; split; [|done]; unfold conn_step, closed; by rewrite Hc|].
    destruct ev; [by eapply Readable_inv|by apply Writable_inv]. }
  destruct Hstep as (c1 & w1 & sk1 & -> & Hinv1). by apply IH.
Qed.

(** C23: the event-driven connection writes the same stream as the blocking session. For
    any peer input, any answers of the kernel and any order of readable and writable
    events, every handler of the connection returns; what the kernel has taken together
    with what is queued is a prefix of the output of processing the whole input at once
    (which [session_serves_stream] shows to be the session's output). Without fatal errors
    it is all of that output once the input is read or the connection closed. *)
Theorem connection_serves_stream evs fd w sk r :
  process_all h (sk_in sk) w = Some r ->
  exists c' w' sk' sent, conn_run evs (mkConnection fd [] [] false) w sk = Some (c', w', sk') /\
    sk_out sk' = sk_out sk ++ sent /\ (sent ++ write_buffer_ c') `prefix_of` sv_out r /\
    (nonfatal (sk_recv sk) -> nonfatal (sk_send sk) -> sk_in sk' = [] \/ closed_ c' = true ->
     sent ++ write_buffer_ c' = sv_out r /\ w' = sv_world r).
Proof.
  intros Hall. set (healthy := nonfatal (sk_recv sk) /\ nonfatal (sk_send sk)).
  destruct (conn_run_inv evs healthy (sk_in sk) (sk_out sk) w (mkConnection fd [] [] false) w sk r Hall)
    as (c' & w' & sk' & E & Hh & [sent Hsent] & consumed & r1 & [tail_ Htail] & Hr1 & -> & Hout & Hopen & Hcl).
  { split; [done|]. split; [done|]. exists [], (mkServed [] false [] w). split; [apply prefix_nil|]. by rewrite !app_nil_r. }
  exists c', (sv_world r1), sk', sent. split; [done|]. split; [done|].
  rewrite Hsent, <- app_assoc in Hout. apply app_inv_head in Hout. rewrite Hout. rewrite Htail in Hall.
  pose proof (process_split h _ _ _ _ _ Hr1 Hall) as Hsplit. split.
  - destruct Hsplit as [(_ & -> & _)|(_ & r2 & _ & ->)]; [done|]. cbn. by eexists.
  - intros H1 H2 Hend. destruct Hsplit as [(_ & -> & ->)|(Hstop & r2 & E2 & ->)]; [done|].
    assert (Hall' : consumed = sk_in sk).
    { destruct (closed_ c') eqn:Ec; [destruct (Hcl (conj H1 H2) eq_refl); congruence|].
      destruct Hend as [Hnil|]; [|done]. destruct (Hopen eq_refl) as (-> & _). by rewrite Hnil, app_nil_r. }
    assert (tail_ = []) as -> by (rewrite Hall', <- (app_nil_r (sk_in sk)) in Htail at 1; by apply app_inv_head in Htail).
    rewrite app_nil_r in Hall. assert (E3 : r1 = sv_prepend (sv_out r1) r2) by congruence. by rewrite <- E3.
Qed.

End Connection.

(** ** Concrete connections *)

#[local] Existing Instance example_libc.
#[local] Existing Instance example_hash.

(** Readable, writable, readable again; the second part of the input comes late. *)
Definition paused_sock (input : bytes) : Sock :=
  mkSock input [IoSome 30; IoErr EAGAIN; IoErr EINTR; IoSome 4096; IoErr EAGAIN] [] [IoSome 4; IoErr EAGAIN].

Definition paused_run : option (Connection * (DurableStorage ShardedKV * Sys) * Sock) :=
  conn_run (standalone false) [Readable; Writable; Readable; Writable] (mkConnection 5 [] [] false) fresh_world
    (paused_sock (requests_stream example_requests)).

Definition served_requests : Served (DurableStorage ShardedKV * Sys) :=
  default example_served (process_all (standalone false) (requests_stream example_requests) fresh_world).

Lemma served_requests_eq : process_all (standalone false) (requests_stream example_requests) fresh_world = Some served_requests.
Proof. unfold served_requests. destruct (process_all _ _ _) as [r|] eqn:E; [done|]. vm_compute in E. discriminate E. Qed.

Lemma connection_serves_stream_witness :
  exists c' w' sk' sent, paused_run = Some (c', w', sk') /\ sk_out sk' = sent /\
    (sent ++ write_buffer_ c') `prefix_of` sv_out served_requests.
Proof.
  destruct (connection_serves_stream (standalone false) [Readable; Writable; Readable; Writable] 5 fresh_world
    (paused_sock (requests_stream example_requests)) served_requests served_requests_eq)
    as (c' & w' & sk' & sent & E & Ho & Hp & _).
  exists c', w', sk', sent. split; [exact E|]. split; [exact Ho|exact Hp].
Defined.

(** The first readable event of that run leaves a part of a frame. *)
Definition first_readable : option (Status * Connection * (DurableStorage ShardedKV * Sys) * Sock) :=
  OnReadable (standalone false) (mkConnection 5 [] [] false) fresh_world (paused_sock (requests_stream example_requests)).

Lemma input_buffer_bounded_witness :
  exists st c' w' sk', first_readable = Some (st, c', w', sk') /\ closed c' = false /\
    zlen (read_buffer_ c') < kFrameHeaderSize + kMaxPayloadSize.
Proof.
  destruct first_readable as [[[[st c'] w'] sk']|] eqn:E; [|vm_compute in E; discriminate E].
  assert (Hc : closed c' = false).
  { assert (E' : (fun '(_, c, _, _) => closed c) <$> first_readable = Some false) by (vm_compute; reflexivity).
    rewrite E in E'. injection E' as E'. exact E'. }
  exists st, c', w', sk'. split; [reflexivity|]. split; [exact Hc|].
  exact (proj2 (input_buffer_bounded (standalone false) _ _ _ _ _ _ _ E Hc)).
Defined.
