(* ===== verification/EpollServer.v ===== *)
(** * The event loop ([src/net/epoll_server.cpp])

    One thread that owns a table of connections. The kernel's side is the set of open
    descriptors, the interest list of the epoll instance, the streams of the accepted
    sockets and scripts of answers; [epoll_wait]'s answers are the input of the loop. *)

From Stdlib Require Import Strings.String.
From S2P Require Import Prelude Common BigEndian Codec Crc32 Os WalRecord RaftTypes RpcCodec.
From S2P Require Import ShardedKV WalWriter DurableStorage ClusterConfig Socket Handler Session Connection.

(** ** The kernel's side *)

Definition EPOLLIN : Z := 0x001.
Definition EPOLLOUT : Z := 0x004.
Definition EPOLLERR : Z := 0x008.
Definition EPOLLHUP : Z := 0x010.
Definition EPOLLRDHUP : Z := 0x2000.
Definition EPOLLET : Z := 2 ^ 31.

(** [en_accept]: the next answers of [accept], a connected stream or an [errno]; then
    there is nothing to accept. *)
Record EpollNet := mkEpollNet {
  en_kern : Kern;
  en_interest : gmap Z Z;
  en_socks : gmap Z Sock;
  en_accept : list (Sock + Z);
  en_ctl : list (option Z);
  en_create : list (option Z);
  en_eventfd : list (option Z);
  en_wakes : Z
}.

Definition set_kern k (n : EpollNet) : EpollNet :=
  mkEpollNet k (en_interest n) (en_socks n) (en_accept n) (en_ctl n) (en_create n) (en_eventfd n) (en_wakes n).
Definition set_interest i ctl (n : EpollNet) : EpollNet :=
  mkEpollNet (en_kern n) i (en_socks n) (en_accept n) ctl (en_create n) (en_eventfd n) (en_wakes n).
Definition set_socks x (n : EpollNet) : EpollNet :=
  mkEpollNet (en_kern n) (en_interest n) x (en_accept n) (en_ctl n) (en_create n) (en_eventfd n) (en_wakes n).
Definition set_accepts x (n : EpollNet) : EpollNet :=
  mkEpollNet (en_kern n) (en_interest n) (en_socks n) x (en_ctl n) (en_create n) (en_eventfd n) (en_wakes n).
Definition set_new_fds c e (n : EpollNet) : EpollNet :=
  mkEpollNet (en_kern n) (en_interest n) (en_socks n) (en_accept n) (en_ctl n) c e (en_wakes n).
Definition set_wakes x (n : EpollNet) : EpollNet :=
  mkEpollNet (en_kern n) (en_interest n) (en_socks n) (en_accept n) (en_ctl n) (en_create n) (en_eventfd n) x.

Inductive CtlOp := CtlAdd (events : Z) | CtlMod (events : Z) | CtlDel.

(** [epoll_ctl(2)]: the [errno], [None] on success. *)
Definition epoll_ctl (op : CtlOp) (fd : Z) (n : EpollNet) : option Z * EpollNet :=
  let '(a, ctl) := next_ans (en_ctl n) in
  let n := set_interest (en_interest n) ctl n in
  match a, op, en_interest n !! fd with
  | Some e, _, _ => (Some e, n)
  | None, CtlAdd events, None => (None, set_interest (<[fd := events]> (en_interest n)) ctl n)
  | None, CtlAdd _, Some _ => (Some EEXIST, n)
  | None, CtlMod events, Some _ => (None, set_interest (<[fd := events]> (en_interest n)) ctl n)
  | None, CtlDel, Some _ => (None, set_interest (delete fd (en_interest n)) ctl n)
  | None, _, None => (Some ENOENT, n)
  end.

(** [CloseQuietly] of a descriptor: closing ends the stream and the registration. *)
Definition net_close (fd : Z) (n : EpollNet) : EpollNet :=
  let n := set_kern (CloseQuietly fd (en_kern n)) n in
  let n := set_socks (delete fd (en_socks n)) n in
  set_interest (delete fd (en_interest n)) (en_ctl n) n.

(** ** The server *)

Definition kMaxEvents : Z := 64.
Definition kBackpressureThreshold : Z := 1024 * 1024.

Definition WantedEvents (conn : Connection) : Z :=
  let events := Z.lor EPOLLET EPOLLRDHUP in
  let events := if write_buffer_size conn <? kBackpressureThreshold then Z.lor events EPOLLIN else events in
  if write_pending conn then Z.lor events EPOLLOUT else events.

Record EpollServer := mkEpollServer {
  es_host : bytes;
  es_port : Z;
  es_stop : bool;
  listen_fd_ : Z;
  epoll_fd_ : Z;
  wake_fd_ : Z;
  bind_status_ : Status;
  connections_ : gmap Z Connection
}.

Definition set_bind_status st (s : EpollServer) : EpollServer :=
  mkEpollServer (es_host s) (es_port s) (es_stop s) (listen_fd_ s) (epoll_fd_ s) (wake_fd_ s) st (connections_ s).
Definition set_fds l e w (s : EpollServer) : EpollServer :=
  mkEpollServer (es_host s) (es_port s) (es_stop s) l e w (bind_status_ s) (connections_ s).
Definition set_port p (s : EpollServer) : EpollServer :=
  mkEpollServer (es_host s) p (es_stop s) (listen_fd_ s) (epoll_fd_ s) (wake_fd_ s) (bind_status_ s) (connections_ s).
Definition set_stop b (s : EpollServer) : EpollServer :=
  mkEpollServer (es_host s) (es_port s) b (listen_fd_ s) (epoll_fd_ s) (wake_fd_ s) (bind_status_ s) (connections_ s).
Definition set_connections x (s : EpollServer) : EpollServer :=
  mkEpollServer (es_host s) (es_port s) (es_stop s) (listen_fd_ s) (epoll_fd_ s) (wake_fd_ s) (bind_status_ s) x.

Section Server.
Context `{Libc} `{Resolver}.

Implicit Types (s : EpollServer) (n : EpollNet).

(** The constructor: every early [return] of the source is a branch. *)
Definition EpollServer_new (host : bytes) (port : Z) n : EpollServer * EpollNet :=
  let s := mkEpollServer host port false Fd_none Fd_none Fd_none Status_Ok ∅ in
  let '(listen_result, k) := TcpListen host port (en_kern n) in
  let n := set_kern k n in
  match listen_result with
  | Failed st => (set_bind_status st s, n)
  | Value listen_fd =>
      let s := set_fds listen_fd Fd_none Fd_none s in
      let '(bound, k) := GetBoundPort listen_fd port (en_kern n) in
      let s := set_port bound s in
      let '(_, k) := SetNonBlocking listen_fd true k in
      let '(a, create) := next_ans (en_create n) in
      let '(epoll_raw, errno, k) := sys_new_fd a k in
      let n := set_new_fds create (en_eventfd n) (set_kern k n) in
      if epoll_raw <? 0 then (set_bind_status (IoError (str "epoll_create1: ") errno) s, n)
      else
        let s := set_fds listen_fd epoll_raw Fd_none s in
        let '(a, eventfd) := next_ans (en_eventfd n) in
        let '(wake_raw, errno, k) := sys_new_fd a (en_kern n) in
        let n := set_new_fds (en_create n) eventfd (set_kern k n) in
        if wake_raw <? 0 then (set_bind_status (IoError (str "eventfd: ") errno) s, n)
        else
          let s := set_fds listen_fd epoll_raw wake_raw s in
          let '(failed, n) := epoll_ctl (CtlAdd EPOLLIN) listen_fd n in
          match failed with
          | Some errno => (set_bind_status (IoError (str "epoll_ctl(listen): ") errno) s, n)
          | None =>
              let '(failed, n) := epoll_ctl (CtlAdd EPOLLIN) wake_raw n in
              match failed with
              | Some errno => (set_bind_status (IoError (str "epoll_ctl(wake): ") errno) s, n)
              | None => (s, n)
              end
          end
  end.

(** [wrote]: whether the write to the event descriptor succeeded. *)
Definition EpollServer_Stop (wrote : bool) s n : EpollServer * EpollNet :=
  (set_stop true s, if wrote then set_wakes (en_wakes n + 1) n else n).

Definition RemoveConnection (fd : Z) s n : EpollServer * EpollNet :=
  let '(_, n) := epoll_ctl CtlDel fd n in
  let n := net_close fd n in
  (set_connections (delete fd (connections_ s)) s, n).

(** The loop of [AcceptNewConnections], over the answers of [accept]. *)
Fixpoint accept_loop (answers : list (Sock + Z)) s n : EpollServer * EpollNet :=
  match answers with
  | [] => (s, set_accepts [] n)
  | inr errno :: answers =>
      if errno =? EAGAIN then (s, set_accepts answers n)
      else if errno =? EINTR then accept_loop answers s n
      else (s, set_accepts answers n)
  | inl stream :: answers =>
      let '(client_fd, _, k) := sys_new_fd None (en_kern n) in
      let '(conn, k) := Connection_new client_fd k in
      let n := set_socks (<[client_fd := stream]> (en_socks n)) (set_kern k n) in
      let '(failed, n) := epoll_ctl (CtlAdd (WantedEvents conn)) client_fd n in
      match failed with
      | Some _ => accept_loop answers s (net_close client_fd n)
      | None =>
          (* emplace keeps an element that is there *)
          let table := match connections_ s !! client_fd with
                       | Some _ => connections_ s
                       | None => <[client_fd := conn]> (connections_ s)
                       end in
          accept_loop answers (set_connections table s) n
      end
  end.

Definition AcceptNewConnections s n : EpollServer * EpollNet := accept_loop (en_accept n) s n.

Section Events.
Context {W : Type} (h : RequestHandler W).
Implicit Types w : W.

Definition has (events mask : Z) : bool := negb (Z.land events mask =? 0).

(** [ev.events] is [events]. The statuses of the handlers and of [epoll_ctl] are ignored. *)
Definition HandleEvent (fd events : Z) s n w : option (EpollServer * EpollNet * W) :=
  match connections_ s !! fd with
  | None => Some (s, n, w)
  | Some conn =>
      if has events (Z.lor EPOLLHUP EPOLLERR)
      then let '(s, n) := RemoveConnection fd s n in Some (s, n, w)
      else
        sk ← en_socks n !! fd;
        '(conn, w, sk) ←
          (if has events EPOLLIN then '(_, conn, w, sk) ← OnReadable h conn w sk; Some (conn, w, sk)
           else Some (conn, w, sk));
        '(conn, sk) ←
          (if negb (closed conn) && has events EPOLLOUT then '(_, conn, sk) ← OnWritable conn sk; Some (conn, sk)
           else Some (conn, sk));
        let s := set_connections (<[fd := conn]> (connections_ s)) s in
        let n := set_socks (<[fd := sk]> (en_socks n)) n in
        if closed conn then let '(s, n) := RemoveConnection fd s n in Some (s, n, w)
        else let '(_, n) := epoll_ctl (CtlMod (WantedEvents conn)) fd n in Some (s, n, w)
  end.

(** One element of the array that [epoll_wait] filled. *)
Definition dispatch (ev : Z * Z) s n w : option (EpollServer * EpollNet * W) :=
  let '(fd, events) := ev in
  if fd =? wake_fd_ s then Some (s, set_wakes 0 n, w)
  else if fd =? listen_fd_ s then let '(s, n) := AcceptNewConnections s n in Some (s, n, w)
  else HandleEvent fd events s n w.

Fixpoint dispatch_all (evs : list (Z * Z)) s n w : option (EpollServer * EpollNet * W) :=
  match evs with
  | [] => Some (s, n, w)
  | ev :: evs => '(s, n, w) ← dispatch ev s n w; dispatch_all evs s n w
  end.

Inductive WaitAns :=
| WaitErr (errno : Z)
| WaitReady (events : list (Z * Z)).

(** What becomes of the loop: it returned, or it waits for the next event. *)
Inductive RunEnd := RunReturns (st : Status) | RunWaits.

(** The loop of [Run]. With every answer comes whether [Stop] was called before it. *)
Fixpoint EpollServer_Run_loop (answers : list (bool * WaitAns)) s n w : option (RunEnd * EpollServer * EpollNet * W) :=
  match answers with
  | [] => Some (if es_stop s then RunReturns Status_Ok else RunWaits, s, n, w)
  | (stopped, answer) :: answers =>
      let s := if (stopped : bool) then set_stop true s else s in
      if es_stop s then Some (RunReturns Status_Ok, s, n, w)
      else
        match answer with
        | WaitErr errno =>
            if errno =? EINTR then EpollServer_Run_loop answers s n w
            else Some (RunReturns (IoError (str "epoll_wait: ") errno), s, n, w)
        | WaitReady events => '(s, n, w) ← dispatch_all events s n w; EpollServer_Run_loop answers s n w
        end
  end.

Definition EpollServer_Run (answers : list (bool * WaitAns)) s n w : option (RunEnd * EpollServer * EpollNet * W) :=
  if negb (Status_ok (bind_status_ s)) then Some (RunReturns (bind_status_ s), s, n, w)
  else EpollServer_Run_loop answers s n w.

End Events.
End Server.

(** ** The table, the interest list and the descriptors agree *)

(** [base] are the descriptors that are not connections, among them the server's own;
    [bad] is the number of wrong [close] calls before. *)
Record table_ok (base : gmap.gset Z) (bad : nat) (s : EpollServer) (n : EpollNet) : Prop := {
  to_open : k_open (en_kern n) = base ∪ dom (connections_ s);
  to_fresh : base ## dom (connections_ s);
  to_bad : k_bad_closes (en_kern n) = bad;
  to_interest : forall fd, fd ∉ base -> is_Some (en_interest n !! fd) <-> is_Some (connections_ s !! fd);
  to_socks : dom (en_socks n) = dom (connections_ s);
  to_conn : map_Forall (fun fd c => 0 <= fd /\ fd_ c = fd /\ closed_ c = false) (connections_ s);
  to_own : listen_fd_ s ∈ base /\ epoll_fd_ s ∈ base /\ wake_fd_ s ∈ base
}.

(** What [epoll_ctl] can change: the registration of its descriptor. *)
Lemma epoll_ctl_spec op fd n r n' :
  epoll_ctl op fd n = (r, n') ->
  en_kern n' = en_kern n /\ en_socks n' = en_socks n /\ en_accept n' = en_accept n /\
  (forall x, x <> fd -> en_interest n' !! x = en_interest n !! x) /\
  match op with
  | CtlAdd _ => match r with None => is_Some (en_interest n' !! fd) | Some _ => en_interest n' = en_interest n end
  | CtlMod _ => is_Some (en_interest n' !! fd) <-> is_Some (en_interest n !! fd)
  | CtlDel => True
  end.
Proof.
  unfold epoll_ctl. destruct (next_ans (en_ctl n)) as [a ctl]. cbn [en_interest set_interest].
  destruct a as [e|]; [intros [= <- <-]; by destruct op|].
  destruct op as [ev|ev|], (en_interest n !! fd) as [old|] eqn:El; intros [= <- <-]; cbn; split_and!; try done.
  all: try (intros x Hx; by rewrite ?lookup_insert_ne, ?lookup_delete_ne).
  all: by rewrite ?lookup_insert_eq, ?El.
Qed.

Lemma net_close_spec fd n :
  en_kern (net_close fd n) = CloseQuietly fd (en_kern n) /\ en_socks (net_close fd n) = delete fd (en_socks n) /\
  en_interest (net_close fd n) = delete fd (en_interest n) /\ en_accept (net_close fd n) = en_accept n.
Proof. done. Qed.

(** Removing a connection takes its descriptor out of all three. *)
Lemma RemoveConnection_ok base bad fd s n s' n' c :
  table_ok base bad s n -> connections_ s !! fd = Some c -> RemoveConnection fd s n = (s', n') ->
  table_ok base bad s' n' /\ connections_ s' = delete fd (connections_ s).
Proof.
  intros [Ho Hf Hb Hi Hs Hc Hw] Hfd. unfold RemoveConnection.
  destruct (epoll_ctl CtlDel fd n) as [r n1] eqn:E. apply epoll_ctl_spec in E as (Hk & Hso & _ & Hoth & _).
  intros [= <- <-]. split; [|done]. destruct (Hc _ _ Hfd) as (Hpos & _).
  assert (Hin : fd ∈ dom (connections_ s)) by (by apply elem_of_dom_2 in Hfd).
  assert (Hclose : k_open (CloseQuietly fd (en_kern n)) = k_open (en_kern n) ∖ {[fd]} /\
    k_bad_closes (CloseQuietly fd (en_kern n)) = bad).
  { unfold CloseQuietly, sys_close. destruct (Z.leb_spec 0 fd); [|lia]. rewrite bool_decide_true by set_solver. done. }
  destruct Hclose as [Hopen Hbad].
  constructor; cbn [connections_ set_connections listen_fd_ epoll_fd_ wake_fd_].
  - cbn. rewrite Hk, Hopen, Ho, dom_delete_L. set_solver.
  - rewrite dom_delete_L. set_solver.
  - cbn. by rewrite Hk.
  - intros x Hx. cbn. destruct (decide (x = fd)) as [->|Hne].
    + rewrite !lookup_delete_eq. split; intros [? ?]; done.
    + rewrite !lookup_delete_ne, Hoth by done. by apply Hi.
  - cbn. by rewrite Hso, !dom_delete_L, Hs.
  - by apply map_Forall_delete.
  - done.
Qed.

Section ServerProofs.
Context `{Libc} `{Resolver}.

(** A new connection takes a descriptor that nobody has. *)
Lemma accept_new_fd base bad s n fd e k k' c :
  table_ok base bad s n -> sys_new_fd None (en_kern n) = (fd, e, k) -> Connection_new fd k = (c, k') ->
  gains_fd fd (en_kern n) k' /\ connections_ s !! fd = None /\ en_interest n !! fd = None /\
  c = mkConnection fd [] [] false /\ fd ∉ base.
Proof.
  intros [Ho Hf Hb Hi Hs Hc Hw] Efd Ec. unfold sys_new_fd in Efd.
  destruct (open_lowest (en_kern n)) as [fd' k1] eqn:El. injection Efd as <- <- <-. apply open_lowest_spec in El.
  unfold Connection_new, SetNonBlocking in Ec.
  assert (Hk' : same_fds k1 k' /\ c = mkConnection fd' [] [] false).
  { destruct (next_ans (k_fcntl k1)) as [[e1|] script]; [by injection Ec as <- <-|].
    destruct (next_ans script) as [[e2|] script2]; by injection Ec as <- <-. }
  destruct Hk' as [Hk' ->]. split; [by eapply gains_fd_same|]. destruct El as (_ & Hnot & _). rewrite Ho in Hnot.
  assert (Hnone : connections_ s !! fd' = None) by (apply not_elem_of_dom; set_solver).
  split; [done|]. split; [|split; [done|set_solver]].
  destruct (en_interest n !! fd') as [x|] eqn:Ei; [|done]. exfalso.
  assert (is_Some (connections_ s !! fd')) as [y Hy] by (apply Hi; [set_solver|by eexists]). congruence.
Qed.

Lemma accept_loop_ok base bad answers s n s' n' :
  table_ok base bad s n -> accept_loop answers s n = (s', n') ->
  table_ok base bad s' n' /\ connections_ s ⊆ connections_ s'.
Proof.
  revert s n. induction answers as [|a answers IH]; intros s n Hok; cbn [accept_loop].
  { intros [= <- <-]. split; [|done]. by destruct Hok; constructor. }
  destruct a as [stream|errno].
  2: { destruct (errno =? EAGAIN); [intros [= <- <-]; split; [by destruct Hok; constructor|done]|].
       destruct (errno =? EINTR); [by apply IH|]. intros [= <- <-]. split; [by destruct Hok; constructor|done]. }
  destruct (sys_new_fd None (en_kern n)) as [[fd e] k] eqn:Efd. destruct (Connection_new fd k) as [c k'] eqn:Ec.
  destruct (accept_new_fd base bad s n fd e k k' c Hok Efd Ec) as (Hg & Hnone & Hni & -> & Hnb).
  destruct (epoll_ctl _ fd _) as [r n1] eqn:Ectl.
  apply epoll_ctl_spec in Ectl as (Hk & Hso & _ & Hoth & Hr). cbn [en_kern en_socks en_interest set_socks set_kern] in *.
  pose proof Hok as [Ho Hf Hb Hi Hs Hc Hw]. pose proof Hg as (Hpos & Hnot & Hopen & Hbad). destruct r as [errno|].
  - apply IH. pose proof (CloseQuietly_gained _ _ _ Hg) as [Hs1 Hs2].
    constructor; cbn [en_kern en_socks en_interest net_close set_kern set_socks set_interest]; rewrite ?Hk, ?Hso; try done.
    + by rewrite Hs1.
    + congruence.
    + intros x Hx. rewrite Hr. destruct (decide (x = fd)) as [->|Hne].
      * rewrite lookup_delete_eq, Hnone. done.
      * rewrite lookup_delete_ne by done. by apply Hi.
    + rewrite delete_insert_eq. rewrite delete_id; [done|]. apply not_elem_of_dom. rewrite Hs. by apply not_elem_of_dom.
  - rewrite Hnone. intros E. apply IH in E as [Hok' Hsub].
    + split; [done|]. etrans; [|exact Hsub]. by apply insert_subseteq.
    + constructor; cbn [connections_ set_connections listen_fd_ epoll_fd_ wake_fd_]; rewrite ?Hk, ?Hso, ?dom_insert_L.
      * rewrite Hopen, Ho. set_solver.
      * set_solver.
      * congruence.
      * intros x Hx. destruct (decide (x = fd)) as [->|Hne]; [by rewrite lookup_insert_eq|].
        rewrite lookup_insert_ne, Hoth by done. by apply Hi.
      * by rewrite Hs.
      * by apply map_Forall_insert_2.
      * done.
Qed.

Section EventProofs.
Context {W : Type} (h : RequestHandler W).
Implicit Types w : W.

(** Worlds in which the handler's calls return, and which they do not leave. *)
Variable good : W -> Prop.
Hypothesis handler_returns : forall b w, good w -> exists r, process_all h b w = Some r /\ good (sv_world r).

Lemma OnReadable_handled c w sk :
  match OnReadable h c w sk with
  | Some (_, c', w', _) => fd_ c' = fd_ c /\ (good w -> good w')
  | None => ~ good w
  end.
Proof.
  unfold OnReadable. destruct (OnReadable_loop_spec (S (length (sk_recv sk) + length (sk_in sk))) c sk ltac:(lia))
    as (failed & got & cl & sk' & -> & _). cbn [mbind option_bind]. destruct failed; [done|].
  rewrite ProcessFrames_spec. cbn [read_buffer_].
  pose proof (handler_returns (read_buffer_ c ++ got) w) as Hr. destruct (process_all h _ w) as [r|]; cbn.
  - split; [done|]. intros Hw. by destruct (Hr Hw) as (r' & [= <-] & ?).
  - intros Hw. by destruct (Hr Hw) as (r' & ? & _).
Qed.

Lemma OnWritable_returns c sk : exists st c' sk', OnWritable c sk = Some (st, c', sk') /\ fd_ c' = fd_ c.
Proof.
  unfold OnWritable. destruct (OnWritable_loop_spec (S (length (sk_send sk))) c sk ltac:(lia))
    as (st & sent & rest & cl & sk' & -> & _). by eexists _, _, _.
Qed.

(** Replacing a connection and its stream by later ones. *)
Lemma table_ok_update base bad s n fd c c' sk :
  table_ok base bad s n -> connections_ s !! fd = Some c -> fd_ c' = fd_ c -> closed_ c' = false ->
  table_ok base bad (set_connections (<[fd := c']> (connections_ s)) s) (set_socks (<[fd := sk]> (en_socks n)) n).
Proof.
  intros [Ho Hf Hb Hi Hs Hc Hw] Hfd Hid Hcl. destruct (Hc _ _ Hfd) as (Hpos & Hx & _).
  assert (Hdom : dom (<[fd := c']> (connections_ s)) = dom (connections_ s))
    by (rewrite dom_insert_L; apply elem_of_dom_2 in Hfd; set_solver).
  constructor; cbn [connections_ set_connections listen_fd_ epoll_fd_ wake_fd_ en_kern en_interest en_socks set_socks];
    rewrite ?Hdom; try done.
  - intros x Hx'. rewrite Hi by done. destruct (decide (x = fd)) as [->|Hne]; [|by rewrite lookup_insert_ne].
    rewrite lookup_insert_eq, Hfd. done.
  - rewrite dom_insert_L, Hs. apply elem_of_dom_2 in Hfd. set_solver.
  - apply map_Forall_insert_2; [|done]. split; [done|]. split; [congruence|done].
Qed.

(** A call of the server from world [w]: it keeps the table, and returns from the good
    worlds. *)
Definition handled base bad w (r : option (EpollServer * EpollNet * W)) : Prop :=
  match r with
  | Some (s', n', w') => table_ok base bad s' n' /\ (good w -> good w')
  | None => ~ good w
  end.

(** The part of [HandleEvent] after the handlers of the connection. *)
Lemma HandleEvent_finish base bad s n fd c c2 sk2 w w1 :
  table_ok base bad s n -> connections_ s !! fd = Some c -> fd_ c2 = fd_ c -> (good w -> good w1) ->
  handled base bad w
    (let s := set_connections (<[fd := c2]> (connections_ s)) s in
     let n := set_socks (<[fd := sk2]> (en_socks n)) n in
     if closed c2 then let '(s, n) := RemoveConnection fd s n in Some (s, n, w1)
     else let '(_, n) := epoll_ctl (CtlMod (WantedEvents c2)) fd n in Some (s, n, w1)).
Proof.
  intros Hok Hfd Hid Hgood. cbv zeta. destruct (closed c2) eqn:Ecl.
  - set (s1 := set_connections _ s). set (n1 := set_socks _ n). destruct (RemoveConnection fd s1 n1) as [s' n'] eqn:E.
    split; [|done].
    (* the table as if the connection had not been replaced: it is removed anyway *)
    pose proof Hok as [Ho Hf Hb Hi Hs Hc Hw].
    assert (E' : RemoveConnection fd (set_connections (<[fd := c]> (connections_ s)) s) n1 = (s', n')).
    { rewrite <- E. unfold RemoveConnection, s1. cbn. by rewrite !delete_insert_eq. }
    eapply RemoveConnection_ok in E' as [? _]; [done| |cbn; by rewrite lookup_insert_eq].
    apply table_ok_update with c; [done|done|done|]. by destruct (Hc _ _ Hfd) as (_ & _ & ?).
  - pose proof (table_ok_update base bad s n fd c c2 sk2 Hok Hfd Hid Ecl) as [Ho Hf Hb Hi Hs Hc Hw].
    destruct (epoll_ctl _ fd _) as [r n2] eqn:E. apply epoll_ctl_spec in E as (Hk & Hso & _ & Hoth & Hr).
    split; [|done]. constructor; rewrite ?Hk, ?Hso; try done.
    intros x Hx. destruct (decide (x = fd)) as [->|Hne]; [rewrite Hr; by apply Hi|rewrite Hoth by done; by apply Hi].
Qed.

Lemma HandleEvent_ok base bad fd events s n w :
  table_ok base bad s n -> handled base bad w (HandleEvent h fd events s n w).
Proof.
  intros Hok. unfold HandleEvent. destruct (connections_ s !! fd) as [c|] eqn:Hfd; [|by split].
  destruct (has events _).
  { destruct (RemoveConnection fd s n) as [s' n'] eqn:E. split; [|done]. by eapply RemoveConnection_ok in E as [? _]. }
  assert (is_Some (en_socks n !! fd)) as [sk ->].
  { apply elem_of_dom. rewrite (to_socks _ _ _ _ Hok). by apply elem_of_dom_2 in Hfd. }
  cbn [mbind option_bind].
  assert (Hread : match (if has events EPOLLIN then '(_, conn, w, sk) ← OnReadable h c w sk; Some (conn, w, sk)
      else Some (c, w, sk)) with Some (c1, w1, _) => fd_ c1 = fd_ c /\ (good w -> good w1) | None => ~ good w end).
  { destruct (has events EPOLLIN); [|done]. pose proof (OnReadable_handled c w sk) as Hr.
    by destruct (OnReadable h c w sk) as [[[[??]?]?]|]. }
  destruct (if has events EPOLLIN then _ else _) as [[[c1 w1] sk1]|]; [|done]. destruct Hread as [Hid1 Hgood].
  cbn [mbind option_bind].
  assert (Hwrite : exists c2 sk2, (if negb (closed c1) && has events EPOLLOUT then '(_, conn, sk) ← OnWritable c1 sk1;
      Some (conn, sk) else Some (c1, sk1)) = Some (c2, sk2) /\ fd_ c2 = fd_ c).
  { destruct (_ && _); [|by eexists _, _]. destruct (OnWritable_returns c1 sk1) as (st & c2 & sk2 & -> & ?).
    exists c2, sk2. split; [done|congruence]. }
  destruct Hwrite as (c2 & sk2 & -> & Hid2). cbn [mbind option_bind]. by apply HandleEvent_finish with c.
Qed.

Lemma dispatch_ok base bad ev s n w :
  table_ok base bad s n -> handled base bad w (dispatch h ev s n w).
Proof.
  intros Hok. destruct ev as [fd events]. unfold dispatch.
  destruct (fd =? wake_fd_ s); [split; [by destruct Hok; constructor|done]|].
  destruct (fd =? listen_fd_ s); [|by apply HandleEvent_ok].
  destruct (AcceptNewConnections s n) as [s' n'] eqn:E. split; [|done]. by eapply accept_loop_ok in E as [? _].
Qed.

Lemma dispatch_all_ok base bad evs s n w :
  table_ok base bad s n -> handled base bad w (dispatch_all h evs s n w).
Proof.
  revert s n w. induction evs as [|ev evs IH]; intros s n w Hok; cbn [dispatch_all]; [by split|].
  pose proof (dispatch_ok base bad ev s n w Hok) as Hd. destruct (dispatch h ev s n w) as [[[s1 n1] w1]|]; [|done].
  destruct Hd as [Hok1 Hg1]. cbn [mbind option_bind]. specialize (IH s1 n1 w1 Hok1).
  destruct (dispatch_all h evs s1 n1 w1) as [[[s2 n2] w2]|]; cbn in *; tauto.
Qed.

Lemma Run_loop_ok base bad answers s n w :
  table_ok base bad s n ->
  match EpollServer_Run_loop h answers s n w with
  | Some (_, s', n', w') => table_ok base bad s' n' /\ (good w -> good w')
  | None => ~ good w
  end.
Proof.
  revert s n w. induction answers as [|[stopped answer] answers IH]; intros s n w Hok; cbn [EpollServer_Run_loop]; [done|].
  set (s1 := if stopped then set_stop true s else s).
  assert (Hok1 : table_ok base bad s1 n) by (destruct stopped; [by destruct Hok; constructor|done]).
  destruct (es_stop s1); [done|]. destruct answer as [errno|events].
  - destruct (errno =? EINTR); [by apply IH|done].
  - pose proof (dispatch_all_ok base bad events s1 n w Hok1) as Hd.
    destruct (dispatch_all h events s1 n w) as [[[s2 n2] w2]|]; [|done]. destruct Hd as [Hok2 Hg2]. cbn [mbind option_bind].
    specialize (IH s2 n2 w2 Hok2). destruct (EpollServer_Run_loop h answers s2 n2 w2) as [[[[??]?]?]|]; tauto.
Qed.

End EventProofs.

Lemma SetNonBlocking_fds fd b k st k' : SetNonBlocking fd b k = (st, k') -> same_fds k k'.
Proof.
  unfold SetNonBlocking. destruct (next_ans (k_fcntl k)) as [[e|] script]; [by intros [= <- <-]|].
  destruct (next_ans script) as [[e|] script']; by intros [= <- <-].
Qed.

Lemma GetBoundPort_fds fd fallback k p k' : GetBoundPort fd fallback k = (p, k') -> same_fds k k'.
Proof.
  unfold GetBoundPort, sys_getsockname. destruct (k_name k) as [|[[]|] l]; by intros [= <- <-].
Qed.

(** A server whose constructor succeeded owns three new descriptors, and its table is empty. *)
Lemma EpollServer_new_ok host port n s n' :
  en_interest n = ∅ -> en_socks n = ∅ -> EpollServer_new host port n = (s, n') -> Status_ok (bind_status_ s) = true ->
  table_ok (k_open (en_kern n) ∪ {[listen_fd_ s; epoll_fd_ s; wake_fd_ s]}) (k_bad_closes (en_kern n)) s n'.
Proof.
  intros Hi Hs. unfold EpollServer_new. destruct (TcpListen host port (en_kern n)) as [r k1] eqn:E1.
  apply TcpListen_spec in E1. destruct r as [lfd|st]; [|destruct E1 as [Hst _]; intros [= <- <-]; unfold Status_ok; cbn; by rewrite Hst].
  destruct (GetBoundPort _ _ _) as [bound k2] eqn:E2. apply GetBoundPort_fds in E2. cbn [en_kern set_kern] in *.
  destruct (SetNonBlocking lfd true k2) as [st k3] eqn:E3. apply SetNonBlocking_fds in E3.
  destruct (next_ans (en_create _)) as [a create]. destruct (sys_new_fd a k3) as [[epoll e1] k4] eqn:E4.
  destruct (Z.ltb_spec epoll 0); [by intros [= <- <-]|].
  apply sys_new_fd_spec in E4 as [[-> _]|E4]; [lia|].
  destruct (next_ans (en_eventfd _)) as [a2 evs]. destruct (sys_new_fd a2 _) as [[wake e2] k5] eqn:E5.
  destruct (Z.ltb_spec wake 0); [by intros [= <- <-]|]. cbn [en_kern set_new_fds set_kern] in E5.
  apply sys_new_fd_spec in E5 as [[-> _]|E5]; [lia|].
  destruct (epoll_ctl (CtlAdd EPOLLIN) lfd _) as [r1 n1] eqn:Ea. destruct r1; [by intros [= <- <-]|].
  destruct (epoll_ctl (CtlAdd EPOLLIN) wake n1) as [r2 n2] eqn:Eb. destruct r2; [by intros [= <- <-]|].
  apply epoll_ctl_spec in Ea as (Hk1 & Hso1 & _ & Hoth1 & _), Eb as (Hk2 & Hso2 & _ & Hoth2 & _).
  cbn [en_kern en_socks en_interest set_new_fds set_kern] in *.
  intros [= <- <-] _. destruct E1 as (_ & _ & G1 & G1'), E2 as [G2 G2'], E3 as [G3 G3'], E4 as (_ & _ & G4 & G4'),
    E5 as (_ & _ & G5 & G5').
  constructor; cbn [connections_ listen_fd_ epoll_fd_ wake_fd_ set_fds set_port].
  - rewrite Hk2, Hk1, G5, G4, G3, G2, G1, dom_empty_L. set_solver.
  - set_solver.
  - rewrite Hk2, Hk1. congruence.
  - intros fd Hfd. rewrite Hoth2, Hoth1, Hi, lookup_empty by set_solver. rewrite lookup_empty. done.
  - by rewrite Hso2, Hso1, Hs.
  - apply map_Forall_empty.
  - set_solver.
Qed.

(** C24: the connection table, the interest list and the process's descriptors agree.
    Construct a server and run it on any answers of the kernel and any stop, with any
    handler. At every point where the loop waits or returns, exactly the descriptors of
    before, the server's three and one per connection are open; each connection is in the
    interest list and has an open stream, no other accepted socket is and has; no
    descriptor was ever closed twice. The loop gets to such a point, having handled every
    batch of events, if the handler's calls return in a set of worlds that they do not
    leave. For a server on a durable store these are the worlds with a healthy disk in
    which everything logged is applied ([process_standalone_live]). *)
Theorem epoll_table_consistent {W : Type} (h : RequestHandler W) host port n s0 n0 answers (w : W) :
  en_interest n = ∅ -> en_socks n = ∅ -> EpollServer_new host port n = (s0, n0) ->
  (forall e s' n' w', EpollServer_Run h answers s0 n0 w = Some (e, s', n', w') -> Status_ok (bind_status_ s0) = true ->
     table_ok (k_open (en_kern n) ∪ {[listen_fd_ s0; epoll_fd_ s0; wake_fd_ s0]}) (k_bad_closes (en_kern n)) s' n') /\
  (forall good : W -> Prop,
     (forall b w, good w -> exists r, process_all h b w = Some r /\ good (sv_world r)) -> good w ->
     exists e s' n' w', EpollServer_Run h answers s0 n0 w = Some (e, s', n', w') /\ good w').
Proof.
  intros Hi Hs E. unfold EpollServer_Run.
  destruct (Status_ok (bind_status_ s0)) eqn:Est; [|by split; [|intros good _ Hw; eexists _, _, _, _]]. cbn [negb].
  pose proof (EpollServer_new_ok host port n s0 n0 Hi Hs E Est) as Hok. split.
  - intros e s' n' w' Er _. pose proof (Run_loop_ok h (fun _ => False) ltac:(done) _ _ answers s0 n0 w Hok) as Hr.
    rewrite Er in Hr. apply Hr.
  - intros good Hret Hw. pose proof (Run_loop_ok h good Hret _ _ answers s0 n0 w Hok) as Hr.
    destruct (EpollServer_Run_loop h answers s0 n0 w) as [[[[e s'] n'] w']|]; [|done]. exists e, s', n', w'.
    split; [done|]. by apply Hr.
Qed.

End ServerProofs.

(** ** Two limits of the design *)

Section Limits.
Context `{Libc} {W : Type} (h : RequestHandler W).
Implicit Types (c : Connection) (w : W) (sk : Sock).

Lemma OnReadable_loop_eof fuel c sk :
  sk_recv sk = [] -> (length (sk_in sk) < fuel)%nat ->
  OnReadable_loop fuel c sk =
    Some (None, MarkClosed (set_buffers (read_buffer_ c ++ sk_in sk) (write_buffer_ c) c), mkSock [] [] (sk_out sk) (sk_send sk)).
Proof.
  revert c sk. induction fuel as [|fuel IH]; intros c [input recv out send]; cbn [sk_recv sk_in sk_out sk_send]; [lia|].
  intros -> Hf. cbn [OnReadable_loop]. unfold sock_read. cbn [sk_recv sk_in sk_out sk_send]. destruct input as [|b input].
  - unfold zdrop, ztake. rewrite drop_nil, take_nil. cbn. rewrite app_nil_r. by destruct c.
  - change (is_empty (ztake kChunkSize (b :: input))) with false. cbv iota.
    rewrite IH; cbn [sk_recv sk_in sk_out sk_send set_buffers read_buffer_ write_buffer_]; [|done|].
    + unfold set_buffers, MarkClosed. cbn [fd_ closed_ read_buffer_ write_buffer_].
      by rewrite <- app_assoc, ztake_zdrop.
    + unfold zdrop. rewrite length_drop. change (Z.to_nat kChunkSize) with (S 4095). cbn in *. lia.
Qed.

(** Responses are lost when the client has ended its side of the stream. The event that
    brings the end brings requests with it; they are executed, and their responses are
    queued on a connection that is removed before anything is written. The blocking
    session writes all of them ([session_serves_stream]). *)
Theorem half_closed_client_unanswered s n w fd events c sk r :
  has events (Z.lor EPOLLHUP EPOLLERR) = false -> has events EPOLLIN = true ->
  connections_ s !! fd = Some c -> en_socks n !! fd = Some sk -> sk_recv sk = [] ->
  process_all h (read_buffer_ c ++ sk_in sk) w = Some r ->
  exists c' sk' s' n',
    OnReadable h c w sk = Some (Status_Ok, c', sv_world r, sk') /\
    write_buffer_ c' = write_buffer_ c ++ sv_out r /\ sk_out sk' = sk_out sk /\
    HandleEvent h fd events s n w = Some (s', n', sv_world r) /\
    connections_ s' !! fd = None /\ en_socks n' !! fd = None.
Proof.
  intros Hhup Hin Hc Hs Hr Hp. unfold HandleEvent. rewrite Hc, Hhup, Hs, Hin. cbn [mbind option_bind].
  assert (E : OnReadable h c w sk = Some (Status_Ok, apply_served (MarkClosed (set_buffers (read_buffer_ c ++ sk_in sk)
    (write_buffer_ c) c)) r, sv_world r, mkSock [] [] (sk_out sk) (sk_send sk))).
  { unfold OnReadable. rewrite OnReadable_loop_eof by (done || lia). cbn [mbind option_bind].
    rewrite ProcessFrames_spec. cbn [read_buffer_ MarkClosed set_buffers]. by rewrite Hp. }
  rewrite E. cbn [mbind option_bind closed apply_served MarkClosed closed_ orb negb andb].
  match goal with |- context [RemoveConnection fd ?s1 ?n1] => remember (RemoveConnection fd s1 n1) as res eqn:Er end.
  unfold RemoveConnection in Er. destruct (epoll_ctl CtlDel fd _) as [a n1]. subst res.
  eexists _, _, _, _. split; [done|]. split; [done|]. split; [done|]. split; [done|]. cbn. by rewrite !lookup_delete_eq.
Qed.

(** A client that sends byte by byte and then pauses. *)
Definition slow_sender (input : bytes) : Sock :=
  mkSock input (replicate (length input) (IoSome 1) ++ [IoErr EAGAIN]) [] [].

Lemma OnReadable_loop_slow fuel c input :
  (length input < fuel)%nat -> closed_ c = false ->
  OnReadable_loop fuel c (slow_sender input) =
    Some (None, set_buffers (read_buffer_ c ++ input) (write_buffer_ c) c, mkSock [] [] [] []).
Proof.
  revert c input. induction fuel as [|fuel IH]; intros c input Hf Hc; [lia|].
  destruct input as [|b input]; [rewrite app_nil_r; by destruct c|].
  cbn [OnReadable_loop slow_sender sock_read sk_recv sk_in length replicate app sk_out sk_send].
  change (OnReadable_loop fuel (set_buffers (read_buffer_ c ++ [b]) (write_buffer_ c) c) (slow_sender input) =
    Some (None, set_buffers (read_buffer_ c ++ [b] ++ input) (write_buffer_ c) c, mkSock [] [] [] [])).
  rewrite IH by first [exact Hc | cbn in Hf; lia]. unfold set_buffers. cbn. by rewrite <- app_assoc.
Qed.

Lemma example_ping_ok : fields_fit example_ping /\ encodable example_ping.
Proof. by vm_compute. Qed.

Definition pings (k : nat) : bytes := concat (replicate k (frame_of example_ping)).
Definition pong : bytes := frame_of (MClusterResponse (mkClusterResponse 9 ResponseStatus.kOk (str "pong"))).

Lemma process_pings k w : process_all h (pings k) w = Some (mkServed (concat (replicate k pong)) false [] w).
Proof.
  induction k as [|k IH]; [apply process_nil|]. unfold pings in *. cbn [replicate concat].
  rewrite process_frame by apply example_ping_ok. change (answer_message h example_ping w) with (Some (Some pong, w)).
  cbn [mbind option_bind]. by rewrite IH.
Qed.

(** The queue of responses has no bound: one readable event answers everything the client
    has sent, whatever is queued already, and the threshold is looked at only afterwards.
    [k] pings of one client queue [k] responses. *)
Theorem response_queue_unbounded k fd w :
  exists c' sk', OnReadable h (mkConnection fd [] [] false) w (slow_sender (pings k)) = Some (Status_Ok, c', w, sk') /\
    closed c' = false /\ write_buffer_size c' = Z.of_nat k * zlen pong.
Proof.
  unfold OnReadable. rewrite OnReadable_loop_slow by first [done | cbn [sk_in slow_sender]; lia]. cbn [mbind option_bind].
  rewrite ProcessFrames_spec. cbn [read_buffer_ set_buffers app]. rewrite process_pings.
  eexists _, _. split; [done|]. split; [done|]. unfold write_buffer_size. cbn [apply_served write_buffer_ sv_out set_buffers app].
  induction k as [|k IH]; [done|]. cbn [replicate concat]. rewrite zlen_app, IH. lia.
Qed.

End Limits.

(** ** A concrete server *)

#[local] Existing Instance example_libc.
#[local] Existing Instance example_hash.

#[local] Instance example_resolver : Resolver := {|
  getaddrinfo passive node service := GaiOk [str "127.0.0.1"];
  gai_strerror e := []
|}.

(** Three descriptors are open; a client connects and will send a SET, a GET and a DELETE. *)
Definition example_kern : Kern := mkKern {[0; 1; 2]} 0 [] [] [] [] [] [] ∅.
Definition example_net : EpollNet := mkEpollNet example_kern ∅ ∅ [inl (slow_sender (requests_stream example_requests))] [] [] [] 0.
Definition example_server : EpollServer * EpollNet := EpollServer_new (str "0.0.0.0") 7000 example_net.
Definition example_events : list (bool * WaitAns) :=
  [(false, WaitReady [(3, EPOLLIN)]); (false, WaitErr EINTR); (false, WaitReady [(6, EPOLLIN); (6, EPOLLOUT)])].

(** The server of a fresh durable store. *)
Definition example_run : option (RunEnd * EpollServer * EpollNet * (DurableStorage ShardedKV * Sys)) :=
  EpollServer_Run (standalone false) example_events example_server.1 example_server.2 fresh_world.

Lemma fresh_world_live : standalone_live fresh_world.
Proof. apply (ds_inv_live []); [apply fresh_store_inv|done|exact fresh_disk_ok]. Qed.

Lemma epoll_table_consistent_witness :
  exists e s' n' w', example_run = Some (e, s', n', w') /\ standalone_live w' /\
    k_open (en_kern n') = {[0; 1; 2; 3; 4; 5]} ∪ dom (connections_ s').
Proof.
  destruct (epoll_table_consistent (standalone false) (str "0.0.0.0") 7000 example_net example_server.1 example_server.2
    example_events fresh_world eq_refl eq_refl) as [Hok Hret]; [vm_compute; reflexivity|].
  destruct (Hret standalone_live (process_standalone_live false) fresh_world_live) as (e & s' & n' & w' & E & Hw).
  exists e, s', n', w'. split; [exact E|]. split; [exact Hw|].
  rewrite (to_open _ _ _ _ (Hok e s' n' w' E ltac:(vm_compute; reflexivity))). f_equal.
Defined.
