(* ===== verification/Transport.v ===== *)
(** * The cluster transport ([src/cluster/transport.cpp])

    One RPC is one connection: dial, write the request, wait for one frame, close. The
    cache of [GetOrConnect] and [CloseAll] is a separate use of the class. What the peer
    sends depends on what it has received; [ln_remote] is that function, which the theorems
    instantiate with a peer that runs a session of Session.v. *)

From Stdlib Require Import Strings.String.
From S2P Require Import Prelude Common BigEndian Codec Crc32 Os WalRecord RaftTypes RpcCodec.
From S2P Require Import ShardedKV WalWriter DurableStorage ClusterConfig Socket Handler Session.

(** The connection that the next [connect] makes: the peer, and the answers to the calls
    of [read] and [write]. *)
Record Line := mkLine {
  ln_remote : bytes -> bytes;
  ln_recv : list StreamAns;
  ln_send : list StreamAns;
  ln_stays : bool  (* the peer keeps the connection open after what it sends *)
}.

Definition ClusterResponse_default : ClusterResponse := mkClusterResponse 0 ResponseStatus.kOk [].

(** The out-parameters of the parse: only a cluster response. *)
Definition response_out : FrameOut :=
  mkFrameOut None None None (Some ClusterResponse_default) (Some MessageType.kClusterResponse).

Record ClusterTransport := mkClusterTransport {
  local_node_id_ : Z;
  peer_fds_ : gmap Z Z
}.

Section Transport.
Context `{Libc} `{Resolver}.

Definition rpc_error (message : String.string) : Status := Status_Error ErrorCode.kIOError (str message).

(** The waiting loop; a turn uses up an answer to [read] or some input, or ends it. There
    is no timeout: with a peer that stays connected and sends nothing more it waits for
    ever ([None]). *)
Fixpoint SendRpc_loop (stays : bool) (fuel : nat) (buffer : bytes) (o : FrameOut) (sk : Sock) : option (Result ClusterResponse * Sock) :=
  match fuel with
  | O => None
  | S fuel =>
      match TryParseFrame buffer o with
      | (ParseResult.kComplete, _, o) =>
          match out_type o with
          | Some MessageType.kClusterResponse => Some (Value (default ClusterResponse_default (out_cluster_response o)), sk)
          | _ => Some (Failed (rpc_error "peer sent a non-cluster-response frame"), sk)
          end
      | (ParseResult.kError, _, _) => Some (Failed (rpc_error "malformed cluster response from peer"), sk)
      | (ParseResult.kNeedMore, buffer, o) =>
          r ← sock_recv stays kChunkSize sk;
          match r with
          | (inr _, sk) => Some (Failed (rpc_error "connection closed while awaiting cluster response"), sk)
          | (inl chunk, sk) =>
              if is_empty chunk then Some (Failed (rpc_error "connection closed while awaiting cluster response"), sk)
              else SendRpc_loop stays fuel (buffer ++ chunk) o sk
          end
      end
  end.

(** Also gives what the kernel accepted for the peer. *)
Definition SendRpc (peer : PeerInfo) (req : ClusterRequest) (ln : Line) (k : Kern)
    : option (Result ClusterResponse * Kern * bytes) :=
  let '(conn, k) := TcpConnect (host peer) (port peer) k in
  match conn with
  | Failed st => Some (Failed st, k, [])
  | Value fd =>
      match EncodeClusterRequest req with
      | Failed st => Some (Failed st, CloseQuietly fd k, [])
      | Value encoded =>
          '(status, sk) ← WriteFull encoded (mkSock [] (ln_recv ln) [] (ln_send ln));
          if negb (Status_ok status) then Some (Failed status, CloseQuietly fd k, sk_out sk)
          else
            let sk := mkSock (ln_remote ln (sk_out sk)) (sk_recv sk) (sk_out sk) (sk_send sk) in
            '(result, sk) ← SendRpc_loop (ln_stays ln) (S (length (sk_recv sk) + length (sk_in sk))) [] response_out sk;
            Some (result, CloseQuietly fd k, sk_out sk)
      end
  end.

Definition ClusterTransport_new (local_node_id : Z) : ClusterTransport := mkClusterTransport local_node_id ∅.

Definition GetOrConnect (peer : PeerInfo) (t : ClusterTransport) (k : Kern) : Result Z * ClusterTransport * Kern :=
  match peer_fds_ t !! node_id peer with
  | Some fd => (Value fd, t, k)
  | None =>
      let '(conn, k) := TcpConnect (host peer) (port peer) k in
      match conn with
      | Failed st => (Failed st, t, k)
      | Value fd => (Value fd, mkClusterTransport (local_node_id_ t) (<[node_id peer := fd]> (peer_fds_ t)), k)
      end
  end.

(** The order in which the map is walked is not specified; the walk closes them all. *)
Definition CloseAll (t : ClusterTransport) (k : Kern) : ClusterTransport * Kern :=
  (mkClusterTransport (local_node_id_ t) ∅, foldl (fun k '(_, fd) => CloseQuietly fd k) k (map_to_list (peer_fds_ t))).

(** The destructor. *)
Definition ClusterTransport_destroy (t : ClusterTransport) (k : Kern) : Kern := (CloseAll t k).2.

(** ** The RPCs of the Raft node ([src/raft/node.cpp])

    What the node does around [SendRpc]: [None] inside is a round without an answer. *)

Definition RequestVote_rpc (peer : PeerInfo) (req : RequestVoteRequest) (ln : Line) (k : Kern)
    : option (option RequestVoteResponse * Kern) :=
  let cluster_req := mkClusterRequest 0 ClusterOpcode.kRequestVote (EncodeRequestVoteRequest req) in
  '(result, k, _) ← SendRpc peer cluster_req ln k;
  match result with
  | Failed _ => Some (None, k)
  | Value r =>
      match DecodeRequestVoteResponse (clresp_body r) RequestVoteResponse_default with
      | Throws _ => None
      | Returns (status, resp) => Some (if Status_ok status then Some resp else None, k)
      end
  end.

Definition AppendEntries_rpc (peer : PeerInfo) (req : AppendEntriesRequest) (ln : Line) (k : Kern)
    : option (option AppendEntriesResponse * Kern) :=
  let cluster_req := mkClusterRequest 0 ClusterOpcode.kAppendEntries (EncodeAppendEntriesRequest req) in
  '(result, k, _) ← SendRpc peer cluster_req ln k;
  match result with
  | Failed _ => Some (None, k)
  | Value r =>
      match DecodeAppendEntriesResponse (clresp_body r) AppendEntriesResponse_default with
      | Throws _ => None
      | Returns (status, resp) => Some (if Status_ok status then Some resp else None, k)
      end
  end.

End Transport.

(** ** Every call returns and gives back its descriptor *)

Section Descriptors.
Context `{Libc} `{Resolver}.

Lemma SendRpc_loop_returns fuel buffer o sk :
  (length (sk_recv sk) + length (sk_in sk) < fuel)%nat -> is_Some (SendRpc_loop false fuel buffer o sk).
Proof.
  revert buffer o sk. induction fuel as [|fuel IH]; intros buffer o sk Hf; [lia|]. cbn [SendRpc_loop].
  destruct (TryParseFrame buffer o) as [[[] buffer'] o'].
  - destruct (sock_recv false kChunkSize sk) as [[[chunk|e] sk1]|] eqn:Er; [| |by apply sock_recv_waits in Er as [? _]];
      apply sock_recv_read, sock_read_spec in Er as (_ & _ & Hread & Hrecv); cbn [mbind option_bind]; [|done|by eexists|done].
    destruct (is_empty chunk) eqn:Ec; [by eexists|]. apply is_empty_false in Ec. destruct Hread as (Hin & _ & _).
    apply IH. rewrite Hrecv. rewrite Hin, length_app in Hf. unfold zlen in Ec. destruct (sk_recv sk); cbn in *; lia.
  - destruct (out_type o') as [[]|]; by eexists.
  - by eexists.
Qed.

(** A call that returns has given its descriptor back. *)
Lemma SendRpc_fds peer req ln k result k' sent : SendRpc peer req ln k = Some (result, k', sent) -> same_fds k k'.
Proof.
  unfold SendRpc. destruct (TcpConnect _ _ k) as [[fd|st] k1] eqn:Ec; apply TcpConnect_spec in Ec.
  - assert (Hclose : same_fds k (CloseQuietly fd k1)) by by apply CloseQuietly_gained.
    destruct (EncodeClusterRequest req) as [encoded|st]; [|by intros [= _ <- _]].
    destruct (WriteFull _ _) as [[st sk]|]; [|done]. cbn [mbind option_bind].
    destruct (negb (Status_ok st)); [by intros [= _ <- _]|].
    destruct (SendRpc_loop _ _ _ _ _) as [[r sk']|]; [|done]. by intros [= _ <- _].
  - destruct Ec as [_ Hs]. by intros [= _ <- _].
Qed.

(** With a peer that answers or closes the connection, every call returns. *)
Lemma SendRpc_returns peer req ln k : ln_stays ln = false -> is_Some (SendRpc peer req ln k).
Proof.
  intros Hst. unfold SendRpc. destruct (TcpConnect _ _ k) as [[fd|st] k1]; [|by eexists].
  destruct (EncodeClusterRequest req) as [encoded|st]; [|by eexists].
  destruct (WriteFull_spec encoded (mkSock [] (ln_recv ln) [] (ln_send ln)))
    as (st & sk & sent & left_ & -> & _). cbn [mbind option_bind].
  destruct (negb (Status_ok st)); [by eexists|]. rewrite Hst.
  match goal with |- context [SendRpc_loop false ?f [] response_out ?s] =>
    destruct (SendRpc_loop_returns f [] response_out s ltac:(lia)) as [[result sk'] ->] end.
  by eexists.
Qed.

(** The uses of a transport. *)
Inductive TransportOp :=
| TConnect (peer : PeerInfo)
| TSend (peer : PeerInfo) (req : ClusterRequest) (ln : Line)
| TCloseAll.

Definition transport_step (op : TransportOp) (t : ClusterTransport) (k : Kern) : option (ClusterTransport * Kern) :=
  match op with
  | TConnect peer => let '(_, t, k) := GetOrConnect peer t k in Some (t, k)
  | TSend peer req ln => '(_, k, _) ← SendRpc peer req ln k; Some (t, k)
  | TCloseAll => Some (CloseAll t k)
  end.

Fixpoint transport_run (ops : list TransportOp) (t : ClusterTransport) (k : Kern) : option (ClusterTransport * Kern) :=
  match ops with
  | [] => Some (t, k)
  | op :: ops => '(t, k) ← transport_step op t k; transport_run ops t k
  end.

(** The cache owns its descriptors: they are open, each once. *)
Record transport_ok (k0 : Kern) (t : ClusterTransport) (k : Kern) : Prop := {
  tk_open : forall fd, fd ∈ k_open k <-> fd ∈ k_open k0 \/ exists id, peer_fds_ t !! id = Some fd;
  tk_fresh : forall id fd, peer_fds_ t !! id = Some fd -> 0 <= fd /\ fd ∉ k_open k0;
  tk_inj : forall i j fd, peer_fds_ t !! i = Some fd -> peer_fds_ t !! j = Some fd -> i = j;
  tk_bad : k_bad_closes k = k_bad_closes k0
}.

Lemma transport_ok_same k0 t k k' : transport_ok k0 t k -> same_fds k k' -> transport_ok k0 t k'.
Proof. intros [H1 H2 H3 H4] [H5 H6]. constructor; try done; [|congruence]. intros fd. by rewrite H5. Qed.

Lemma GetOrConnect_ok k0 peer t k r t' k' :
  transport_ok k0 t k -> GetOrConnect peer t k = (r, t', k') -> transport_ok k0 t' k'.
Proof.
  intros Hok. unfold GetOrConnect. destruct (peer_fds_ t !! node_id peer) as [fd|] eqn:El; [by intros [= <- <- <-]|].
  destruct (TcpConnect _ _ k) as [[fd|st] k1] eqn:Ec; apply TcpConnect_spec in Ec; intros [= <- <- <-].
  2: { destruct Ec as [_ Hs]. by eapply transport_ok_same. }
  destruct Hok as [Ho Hf Hi Hb], Ec as (Hpos & Hnew & Hopen & Hbad). rewrite Ho in Hnew.
  constructor; cbn [peer_fds_]; [| | |congruence].
  - intros x. rewrite Hopen, elem_of_union, elem_of_singleton, Ho. split.
    + intros [->|[?|[id Hid]]]; [right; exists (node_id peer); by rewrite lookup_insert_eq|by left|].
      right. exists id. rewrite lookup_insert_ne; [done|]. intros <-. congruence.
    + intros [?|[id [[<- ->]|[_ Hid]]%lookup_insert_Some]]; [by auto|by left|]. right. right. by exists id.
  - intros id x [[<- <-]|[_ Hid]]%lookup_insert_Some; [|by eapply Hf]. split; [done|]. by intros ?; apply Hnew; left.
  - intros i j x [[<- <-]|[Hne Hid]]%lookup_insert_Some [[<- Heq]|[Hne' Hjd]]%lookup_insert_Some;
      [done| | |by eapply Hi].
    + destruct Hnew. right. by exists j.
    + destruct Hnew. right. exists i. congruence.
Qed.

Lemma close_list_spec (l : list (Z * Z)) k :
  NoDup l.*2 -> Forall (fun p => 0 <= p.2 /\ p.2 ∈ k_open k) l ->
  k_open (foldl (fun k '(_, fd) => CloseQuietly fd k) k l) = k_open k ∖ list_to_set l.*2 /\
  k_bad_closes (foldl (fun k '(_, fd) => CloseQuietly fd k) k l) = k_bad_closes k.
Proof.
  revert k. induction l as [|[id fd] l IH]; intros k Hnd Hall; cbn [foldl fmap list_fmap list_to_set]; [split; [set_solver|done]|].
  apply NoDup_cons in Hnd as [Hnot Hnd]. apply Forall_cons in Hall as [[Hpos Hin] Hall]. cbn [snd] in *.
  assert (E : CloseQuietly fd k = set_open (k_open k ∖ {[fd]}) (k_bad_closes k) k).
  { unfold CloseQuietly, sys_close. destruct (Z.leb_spec 0 fd); [|lia]. by rewrite bool_decide_true. }
  rewrite E. destruct (IH (set_open (k_open k ∖ {[fd]}) (k_bad_closes k) k)) as [-> ->]; [done| |cbn; split; [set_solver|done]].
  apply Forall_forall. intros [i x] Hx. rewrite Forall_forall in Hall. destruct (Hall _ Hx) as [? ?]. split; [done|].
  cbn in *. apply elem_of_difference. split; [done|]. intros ->%elem_of_singleton. apply Hnot.
  apply list_elem_of_fmap. by exists (i, fd).
Qed.

Lemma CloseAll_ok k0 t k : transport_ok k0 t k -> same_fds k0 (CloseAll t k).2.
Proof.
  intros [Ho Hf Hi Hb]. unfold CloseAll. cbn [snd].
  assert (Hmem : forall x, x ∈ (map_to_list (peer_fds_ t)).*2 <-> exists id, peer_fds_ t !! id = Some x).
  { intros x. rewrite list_elem_of_fmap. split.
    - intros ([id y] & -> & Hin%elem_of_map_to_list). by exists id.
    - intros [id Hid]. exists (id, x). split; [done|]. by apply elem_of_map_to_list. }
  destruct (close_list_spec (map_to_list (peer_fds_ t)) k) as [Hopen Hbad].
  - apply NoDup_fmap_2_strong; [|apply NoDup_map_to_list]. intros [i x] [j y] Hx%elem_of_map_to_list Hy%elem_of_map_to_list.
    cbn. intros <-. by rewrite (Hi i j x Hx Hy).
  - apply Forall_forall. intros [id x] Hx%elem_of_map_to_list. cbn. split; [by eapply Hf|]. apply Ho. right. by exists id.
  - split; [|congruence]. rewrite Hopen. apply set_eq. intros x. rewrite elem_of_difference, elem_of_list_to_set, Hmem, Ho.
    split; [intros [[?|?] Hn]; [done|by destruct Hn]|]. intros Hx. split; [by left|]. intros [id Hid]. by apply Hf in Hid as [_ ?].
Qed.

Lemma transport_step_ok k0 op t k t' k' :
  transport_ok k0 t k -> transport_step op t k = Some (t', k') -> transport_ok k0 t' k'.
Proof.
  intros Hok. destruct op as [peer|peer req ln|]; cbn [transport_step].
  - destruct (GetOrConnect peer t k) as [[r t1] k1] eqn:E. intros [= <- <-]. by eapply GetOrConnect_ok.
  - destruct (SendRpc peer req ln k) as [[[result k1] sent]|] eqn:E; [|done]. intros [= <- <-].
    eapply transport_ok_same; [exact Hok|by eapply SendRpc_fds].
  - intros [= <- <-]. destruct (CloseAll_ok k0 t k Hok) as [H1 H2].
    constructor; cbn [peer_fds_ CloseAll]; [|done|done|by rewrite <- H2].
    intros fd. change (foldl _ k _) with (CloseAll t k).2. rewrite H1. split; [by left|]. by intros [?|[id ?]].
Qed.

Lemma transport_run_ok k0 ops t k t' k' :
  transport_ok k0 t k -> transport_run ops t k = Some (t', k') -> transport_ok k0 t' k'.
Proof.
  revert t k. induction ops as [|op ops IH]; intros t k Hok; cbn [transport_run]; [by intros [= <- <-]|].
  destruct (transport_step op t k) as [[t1 k1]|] eqn:E; [|done]. apply IH. by eapply transport_step_ok.
Qed.

(** The peer of the call answers, closes or breaks the connection, sooner or later. *)
Definition ends_connection (op : TransportOp) : Prop :=
  match op with TSend _ _ ln => ln_stays ln = false | _ => True end.

Lemma transport_run_returns ops t k : Forall ends_connection ops -> is_Some (transport_run ops t k).
Proof.
  intros Hops. revert t k. induction Hops as [|op ops Hop _ IH]; intros t k; cbn [transport_run]; [by eexists|].
  assert (Hs : is_Some (transport_step op t k)).
  { destruct op as [peer|peer req ln|]; cbn [transport_step]; [by destruct (GetOrConnect peer t k) as [[??]?]; eexists| |by eexists].
    destruct (SendRpc_returns peer req ln k Hop) as [[[??]?] ->]. by eexists. }
  destruct Hs as [[t1 k1] ->]. apply IH.
Qed.

(** C26: the transport leaks no descriptor. Make a transport, use it in any way, with
    peers that refuse, reset, send garbage or stop in the middle of a frame, and destroy it
    once all calls have returned: exactly the descriptors that were open before are open,
    none having been closed twice. And all calls return if no peer stays connected without
    completing its answer; for such a peer [SendRpc], which has no timeout, waits
    ([silent_peer_blocks]). *)
Theorem transport_leaks_no_descriptor id ops k :
  (forall t' k', transport_run ops (ClusterTransport_new id) k = Some (t', k') ->
     same_fds k (ClusterTransport_destroy t' k')) /\
  (Forall ends_connection ops -> is_Some (transport_run ops (ClusterTransport_new id) k)).
Proof.
  split; [|by apply transport_run_returns]. intros t' k' E. apply CloseAll_ok. eapply transport_run_ok; [|exact E].
  constructor; cbn; try done. intros fd. split; [by left|]. by intros [?|[i ?]].
Qed.

(** A peer that accepts the connection and stays silent blocks the caller for ever, as
    docs/raft-design.md says under its known limitations. *)
Theorem silent_peer_blocks peer req ln k fd k1 encoded :
  TcpConnect (host peer) (port peer) k = (Value fd, k1) -> EncodeClusterRequest req = Value encoded ->
  ln_stays ln = true -> (forall sent, ln_remote ln sent = []) -> ln_recv ln = [] -> ln_send ln = [] ->
  SendRpc peer req ln k = None.
Proof.
  intros Ec Ee Hst Hrem Hr Hs. unfold SendRpc. rewrite Ec, Ee, Hr, Hs, Hst.
  destruct (WriteFull_spec encoded (mkSock [] [] [] [])) as (st & sk & sent & left_ & -> & _ & _ & _ & Hrecv & Hok & Hcalm).
  destruct (Hcalm ltac:(constructor)) as [-> _]. cbn [mbind option_bind]. rewrite (proj2 Hok eq_refl). cbn [negb].
  rewrite Hrem. cbn [sk_recv sk_in sk_send sk_out] in *. rewrite Hrecv. reflexivity.
Qed.

End Descriptors.

(** ** An RPC is a call of the peer's handler *)

(** Reads that are not interrupted: [SendRpc] gives up on any error, [EINTR] included. *)
Definition steady (script : list StreamAns) : Prop := Forall (fun a => exists n, a = IoSome n) script.

(** A peer that serves the connection with a session of its own. *)
Definition served_by `{Libc} {W} (h : RequestHandler W) (w : W) (recv send : list StreamAns) (input : bytes) : bytes :=
  match ServeClientSession h w (mkSock input recv [] send) with
  | Some (_, sk) => sk_out sk
  | None => []
  end.

Section RoundTrip.
Context `{Libc} `{Resolver} {W : Type} (h : RequestHandler W).
Implicit Types (w : W) (sk : Sock).

(** The waiting loop finds the frame, in whatever pieces it comes. *)
Lemma SendRpc_loop_finds stays fuel buffer sk resp more :
  fields_fit (MClusterResponse resp) -> encodable (MClusterResponse resp) -> steady (sk_recv sk) ->
  (length (sk_recv sk) + length (sk_in sk) < fuel)%nat ->
  buffer ++ sk_in sk = frame_of (MClusterResponse resp) ++ more ->
  exists sk', SendRpc_loop stays fuel buffer response_out sk = Some (Value resp, sk') /\ sk_out sk' = sk_out sk.
Proof.
  intros Hfit He. pose proof (TryParseFrame_frame (MClusterResponse resp) more response_out Hfit He) as Hwhole.
  revert buffer sk. induction fuel as [|fuel IH]; intros buffer sk Hst Hf E; [lia|]. cbn [SendRpc_loop].
  rewrite <- E in Hwhole.
  destruct (TryParseFrame buffer response_out) as [[[] buffer'] o'] eqn:Ep.
  - apply TryParseFrame_need_more in Ep as Hsame. destruct Hsame as [-> ->].
    destruct (sock_recv stays kChunkSize sk) as [[[chunk|e] sk1]|] eqn:Er;
      [| |apply sock_recv_waits in Er as [_ Er]; rewrite Er, app_nil_r in Hwhole; congruence];
      apply sock_recv_read, sock_read_spec in Er as (Ho & _ & Hread & Hrecv); try (unfold kChunkSize; lia);
      cbn [mbind option_bind].
    + destruct Hread as (Hin & _ & Hnil). destruct (is_empty chunk) eqn:Ec.
      { apply is_empty_true in Ec as ->. rewrite (Hnil eq_refl), app_nil_r in Hwhole. congruence. }
      apply is_empty_false in Ec. destruct (IH (buffer ++ chunk) sk1) as (sk' & -> & Ho').
      * rewrite Hrecv. destruct (sk_recv sk); [done|]. by apply Forall_cons in Hst as [_ ?].
      * rewrite Hrecv. rewrite Hin, length_app in Hf. unfold zlen in Ec. destruct (sk_recv sk); cbn in *; lia.
      * by rewrite <- app_assoc, <- Hin.
      * eexists. split; [done|congruence].
    + destruct Hread as (_ & script & Hsc). rewrite Hsc in Hst. by apply Forall_cons in Hst as [[n ?] _].
  - apply (TryParseFrame_complete_app _ _ _ _ (sk_in sk)) in Ep. rewrite Ep in Hwhole. injection Hwhole as _ ->.
    by exists sk.
  - apply (TryParseFrame_error_app _ _ _ _ (sk_in sk)) in Ep. congruence.
Qed.

(** What the peer does with one request. *)
Lemma session_answers req w resp w' :
  is_u64 (clreq_request_id req) -> encodable (MClusterRequest req) -> HandleCluster h req w = Some (resp, w') ->
  process_all h (frame_of (MClusterRequest req)) w = Some (mkServed (frame_of (MClusterResponse resp)) false [] w').
Proof.
  intros Hid He E. pose proof (HandleCluster_answer _ _ _ _ _ E) as Ha.
  destruct (cluster_answer_encodable _ _ Ha Hid) as [_ [Hs _]].
  rewrite <- (app_nil_r (frame_of (MClusterRequest req))). rewrite process_frame by done.
  cbn [answer_message]. rewrite E. cbn [mbind option_bind]. rewrite EncodeClusterResponse_eq.
  destruct (Z.ltb_spec kMaxPayloadSize (zlen (payload_of (MClusterResponse resp)))); [lia|].
  rewrite process_nil. cbn. unfold sv_prepend. cbn. by rewrite app_nil_r.
Qed.

(** An RPC to a peer that serves the connection: the answer of its handler, and its world
    is the one the handler left. *)
Lemma SendRpc_served peer req ln k fd k1 w resp w' recv send :
  is_u64 (clreq_request_id req) -> encodable (MClusterRequest req) -> HandleCluster h req w = Some (resp, w') ->
  TcpConnect (host peer) (port peer) k = (Value fd, k1) ->
  ln_remote ln = served_by h w recv send -> steady (ln_recv ln) -> calm (ln_send ln) -> calm recv -> calm send ->
  exists k' sk', SendRpc peer req ln k = Some (Value resp, k', frame_of (MClusterRequest req)) /\ same_fds k k' /\
    ServeClientSession h w (mkSock (frame_of (MClusterRequest req)) recv [] send) = Some (w', sk').
Proof.
  intros Hid He E Ec Hrem Hst Hsend Hr Hs. pose proof (session_answers req w resp w' Hid He E) as Hp.
  destruct (ServeClientSession_spec h w (mkSock (frame_of (MClusterRequest req)) recv [] send) _ Hp)
    as (w1 & sk1 & sent & Eses & Hout & _ & Hcalm).
  destruct (Hcalm Hr Hs) as [-> ->]. cbn [sv_out sv_world sk_out app] in *.
  unfold SendRpc. rewrite Ec, EncodeClusterRequest_eq.
  destruct (Z.ltb_spec kMaxPayloadSize (zlen (payload_of (MClusterRequest req)))); [destruct He; lia|].
  destruct (WriteFull_spec (frame_of (MClusterRequest req)) (mkSock [] (ln_recv ln) [] (ln_send ln)))
    as (st & sk & sent & left_ & -> & Hsent & Ho & Hin & Hrecv & Hok & Hc). cbn [mbind option_bind].
  destruct (Hc Hsend) as [-> _]. rewrite (proj2 Hok eq_refl). cbn [negb]. rewrite app_nil_r in Hsent. subst sent.
  cbn [sk_out sk_recv app] in Ho, Hrecv. rewrite Ho, Hrecv, Hrem. unfold served_by.
  cbn [sk_recv sk_in sk_out sk_send]. rewrite Eses, Hout.
  destruct (cluster_answer_encodable _ _ (HandleCluster_answer _ _ _ _ _ E) Hid) as [Hrf Hre].
  destruct (SendRpc_loop_finds (ln_stays ln) (S (length (ln_recv ln) + length (frame_of (MClusterResponse resp)))) []
    (mkSock (frame_of (MClusterResponse resp)) (ln_recv ln) (frame_of (MClusterRequest req)) (sk_send sk)) resp [])
    as (sk' & -> & Ho'); [done|done|done|cbn; lia|by rewrite app_nil_r|].
  cbn [mbind option_bind]. exists (CloseQuietly fd k1), sk1. rewrite Ho'. split; [done|]. split; [|done].
  apply TcpConnect_spec in Ec. by apply CloseQuietly_gained.
Qed.

Lemma vote_reply_decodes resp out0 :
  is_u64 (rvr_term resp) -> DecodeRequestVoteResponse (EncodeRequestVoteResponse resp) out0 = Returns (Status_Ok, resp).
Proof. intros Ht. destruct vote_and_reply_codec as (_ & Hd & _ & He & _). by apply Hd, He. Qed.

Lemma append_reply_decodes resp out0 :
  is_u64 (aer_term resp) -> DecodeAppendEntriesResponse (EncodeAppendEntriesResponse resp) out0 = Returns (Status_Ok, resp).
Proof. intros Ht. destruct vote_and_reply_codec as (_ & _ & Hd & _ & He). by apply Hd, He. Qed.

(** The connection to the peer works: it is accepted, and calls are at most interrupted
    (for the caller: writes; for the peer, whose answers are [recv] and [send]: both). *)
Record connected (peer : PeerInfo) (ln : Line) (k : Kern) (w : W) (recv send : list StreamAns) : Prop := {
  cd_accepted : exists fd k1, TcpConnect (host peer) (port peer) k = (Value fd, k1);
  cd_caller : steady (ln_recv ln) /\ calm (ln_send ln);
  cd_peer : ln_remote ln = served_by h w recv send /\ calm recv /\ calm send
}.

(** The peer's session for one message of ours ends in world [w']. *)
Definition peer_ends (msg : ClusterRequest) (recv send : list StreamAns) (w w' : W) : Prop :=
  exists sk, ServeClientSession h w (mkSock (frame_of (MClusterRequest msg)) recv [] send) = Some (w', sk).

(** The requests that the node sends. *)
Definition vote_message (req : RequestVoteRequest) : ClusterRequest :=
  mkClusterRequest 0 ClusterOpcode.kRequestVote (EncodeRequestVoteRequest req).
Definition append_message (req : AppendEntriesRequest) : ClusterRequest :=
  mkClusterRequest 0 ClusterOpcode.kAppendEntries (EncodeAppendEntriesRequest req).

Lemma vote_message_encodable req : encodable (MClusterRequest (vote_message req)).
Proof.
  split; [|done]. cbn [payload_of]. rewrite zlen_payload_ClusterRequest. cbn [clreq_body vote_message].
  unfold EncodeRequestVoteRequest. autorewrite with nkv_write zlen. by unfold kMaxPayloadSize.
Qed.

Lemma append_message_encodable req :
  zlen (EncodeAppendEntriesRequest req) + 13 <= kMaxPayloadSize -> encodable (MClusterRequest (append_message req)).
Proof. intros Hl. split; [|done]. cbn [payload_of]. rewrite zlen_payload_ClusterRequest. cbn [clreq_body append_message]. lia. Qed.

Lemma HandleCluster_vote raft req w resp w' :
  raft_ h = Some raft -> vote_request_fits req -> rf_HandleRequestVote raft req w = Some (resp, w') ->
  HandleCluster h (vote_message req) w = Some (mkClusterResponse 0 ResponseStatus.kOk (EncodeRequestVoteResponse resp), w').
Proof.
  intros Hr Hfit E. unfold HandleCluster. cbn [clreq_opcode clreq_body vote_message]. rewrite Hr.
  rewrite (proj2 (proj1 vote_and_reply_codec _ RequestVoteRequest_default req)) by done. cbn. by rewrite E.
Qed.

Lemma HandleCluster_append raft req w resp w' :
  raft_ h = Some raft -> append_request_fits req -> rf_reserve raft (zlen (aeq_entries req)) = true ->
  rf_HandleAppendEntries raft req w = Some (resp, w') ->
  HandleCluster h (append_message req) w = Some (mkClusterResponse 0 ResponseStatus.kOk (EncodeAppendEntriesResponse resp), w').
Proof.
  intros Hr Hfit Hres E. unfold HandleCluster. cbn [clreq_opcode clreq_body append_message]. rewrite Hr.
  rewrite (proj2 (append_request_codec _ _ AppendEntriesRequest_default req)) by done. cbn. by rewrite E.
Qed.

(** C19: over a connection that works, the RPCs of the Raft node are calls of the peer's
    handlers. The node's encoding, its frame, the peer's session, parser, decoder, handler
    and encoder, and the node's waiting loop and decoder together return exactly what
    [HandleRequestVote] or [HandleAppendEntries] of the peer returns for the request, the
    peer is left in the state of that handler, and the descriptor is given back: the
    network of the cluster model, for a message that arrives. A body that does not fit into
    a frame gets no answer. *)
Theorem raft_rpcs_call_the_peer good raft peer ln k w recv send :
  raft_ h = Some raft -> raft_typed good raft -> good w -> connected peer ln k w recv send ->
  (forall req resp w', vote_request_fits req -> rf_HandleRequestVote raft req w = Some (resp, w') ->
     exists k', RequestVote_rpc peer req ln k = Some (Some resp, k') /\ same_fds k k' /\ peer_ends (vote_message req) recv send w w') /\
  (forall req resp w', append_request_fits req -> rf_reserve raft (zlen (aeq_entries req)) = true ->
     zlen (EncodeAppendEntriesRequest req) + 13 <= kMaxPayloadSize -> rf_HandleAppendEntries raft req w = Some (resp, w') ->
     exists k', AppendEntries_rpc peer req ln k = Some (Some resp, k') /\ same_fds k k' /\ peer_ends (append_message req) recv send w w') /\
  (forall req, kMaxPayloadSize < zlen (EncodeAppendEntriesRequest req) + 13 ->
     exists k', AppendEntries_rpc peer req ln k = Some (None, k') /\ same_fds k k').
Proof.
  intros Hr Ht Hg [(fd & k1 & Ec) [Hst Hcs] (Hrem & Hc1 & Hc2)]. split; [|split].
  - intros req resp w' Hfit E.
    destruct (SendRpc_served peer (vote_message req) ln k fd k1 w _ w' recv send ltac:(cbn; lia) (vote_message_encodable req)
      (HandleCluster_vote raft req w resp w' Hr Hfit E) Ec Hrem Hst Hcs Hc1 Hc2) as (k' & sk' & Es & Hsame & Hses).
    exists k'. unfold RequestVote_rpc. change (mkClusterRequest 0 _ _) with (vote_message req). rewrite Es.
    cbn [mbind option_bind clresp_body]. rewrite vote_reply_decodes by (by eapply rt_vote). split; [done|]. split; [done|]. by exists sk'.
  - intros req resp w' Hfit Hres Hlen E.
    destruct (SendRpc_served peer (append_message req) ln k fd k1 w _ w' recv send ltac:(cbn; lia)
      (append_message_encodable req Hlen) (HandleCluster_append raft req w resp w' Hr Hfit Hres E)
      Ec Hrem Hst Hcs Hc1 Hc2) as (k' & sk' & Es & Hsame & Hses).
    exists k'. unfold AppendEntries_rpc. change (mkClusterRequest 0 _ _) with (append_message req). rewrite Es.
    cbn [mbind option_bind clresp_body]. rewrite append_reply_decodes by (by eapply rt_append). split; [done|]. split; [done|]. by exists sk'.
  - intros req Hlen. unfold AppendEntries_rpc, SendRpc. rewrite Ec, EncodeClusterRequest_eq.
    cbn [payload_of]. rewrite zlen_payload_ClusterRequest. cbn [clreq_body].
    destruct (Z.ltb_spec kMaxPayloadSize (8 + 1 + 4 + zlen (EncodeAppendEntriesRequest req))); [|lia].
    exists (CloseQuietly fd k1). split; [done|]. apply TcpConnect_spec in Ec. by apply CloseQuietly_gained.
Qed.

End RoundTrip.

(** ** Concrete calls *)

#[local] Existing Instance example_libc.

#[local] Instance example_resolver : Resolver := {|
  getaddrinfo passive node service := GaiOk [str "::1"; str "127.0.0.1"];
  gai_strerror e := []
|}.

Definition example_peer : PeerInfo := mkPeerInfo 2 (str "peer") 7001.
Definition example_vote : RequestVoteRequest := mkRequestVoteRequest 7 1 0 0.

(** The first address refuses; the frames travel in pieces, and the peer is interrupted. *)
Definition example_kern : Kern := mkKern {[0; 1; 2]} 0 [] [] [] [Some 111] [] [] ∅.
Definition example_line (recv : list StreamAns) : Line :=
  mkLine (served_by example_follower tt [IoSome 3; IoErr EINTR] [IoSome 5]) recv [IoErr EINTR; IoSome 9] true.

(** A signal makes an RPC fail whose answer arrives: [SendRpc] takes an interrupted [read]
    for the end of the connection, unlike every other loop of the program. *)
Theorem interrupted_rpc_fails :
  exists k', RequestVote_rpc example_peer example_vote (example_line [IoErr EINTR]) example_kern = Some (None, k').
Proof. eexists. vm_compute. reflexivity. Qed.
