(* ===== verification/RaftTyped.v ===== *)
(** * The widths of a Raft node's fields

    [RaftNode] keeps its term in 64 bits and node ids in 32. The model has integers: here
    the terms and ids of nodes, messages and elections are shown to stay in those ranges,
    whatever events happen, so that the node keeps what the request handler assumes of it
    ([raft_typed] of Handler.v). *)

From Stdlib Require Import Strings.String.
From S2P Require Import Prelude Common BigEndian Codec Crc32 Os WalRecord RpcCodec ShardedKV WalWriter DurableStorage.
From S2P Require Import Socket Session Transport.
From S2P Require Import RaftTypes RaftLog ClusterConfig RaftNode RaftNodeSpec RaftCluster RaftGhost.
From S2P Require Import RaftInvariant RaftSafety RaftReplica RaftTraces RaftApplied Handler RaftService.

(** ** The operations of a node *)

Section Nodes.
Context {R : Type} `{ReplicaOps R}.
Implicit Types n : RaftNode R.

Definition node_typed n : Prop := is_u64 (current_term_ n) /\ is_u32 (leader_id_ n) /\ is_u32 (local_node_id_ n).

(** The three fields are those of [n]. *)
Definition same_fields n n' : Prop :=
  current_term_ n' = current_term_ n /\ leader_id_ n' = leader_id_ n /\ local_node_id_ n' = local_node_id_ n.

Lemma same_typed n n' : same_fields n n' -> node_typed n -> node_typed n'.
Proof. unfold same_fields, node_typed. by intros (-> & -> & ->). Qed.

Lemma BecomeFollower_typed clk t n : is_u64 t -> node_typed n -> node_typed (BecomeFollowerLocked clk t n).
Proof. intros Ht (_ & _ & Hid). split; [exact Ht|]. split; [by vm_compute|exact Hid]. Qed.

Lemma HandleRequestVote_typed clk1 clk2 req n :
  is_u64 (rvq_term req) -> node_typed n ->
  is_u64 (rvr_term (HandleRequestVote clk1 clk2 req n).1) /\ node_typed (HandleRequestVote clk1 clk2 req n).2.
Proof.
  intros Hq Hn. unfold HandleRequestVote.
  assert (H1 : node_typed (if current_term_ n <? rvq_term req then BecomeFollowerLocked clk1 (rvq_term req) n else n))
    by (case_match; [by apply BecomeFollower_typed|done]).
  revert H1. generalize (if current_term_ n <? rvq_term req then BecomeFollowerLocked clk1 (rvq_term req) n else n).
  intros m Hm. destruct (_ <? _); [by split; [apply Hm|]|]. destruct (_ && _); split; (apply Hm || exact Hm).
Qed.

Lemma StartElection_begin_typed clk n :
  node_typed n -> is_u64 (rvq_term (StartElection_begin clk n).1) /\ node_typed (StartElection_begin clk n).2.
Proof.
  intros (_ & _ & Hid). assert (Hu : is_u64 (u64 (current_term_ n + 1))) by (unfold u64; pose proof (Z.mod_pos_bound (current_term_ n + 1) (2 ^ 64)); lia).
  split; [exact Hu|]. split; [exact Hu|]. split; [by vm_compute|exact Hid].
Qed.

Lemma StartElection_reply_typed clk term votes resp n :
  (forall r, resp = Some r -> is_u64 (rvr_term r)) -> node_typed n -> node_typed (StartElection_reply clk term votes resp n).2.
Proof.
  intros Hr Hn. unfold StartElection_reply. destruct resp as [r|]; [|done]. destruct (_ || _); [done|].
  destruct (_ <? _); [|done]. apply BecomeFollower_typed; [by apply Hr|done].
Qed.

Lemma StartElection_finish_typed time term votes n : node_typed n -> node_typed (StartElection_finish time term votes n).
Proof. intros Hn. unfold StartElection_finish. destruct (_ && _); [|done]. by destruct Hn as (? & ? & ?). Qed.

Lemma Apply_same n n' : ApplyCommittedEntriesLocked n = Some n' -> same_fields n n'.
Proof. unfold ApplyCommittedEntriesLocked. destruct (apply_loop _ _ _); [|done]. by intros [= <-]. Qed.

Lemma AdvanceCommit_same n n' : AdvanceCommitIndexLocked n = Some n' -> same_fields n n'.
Proof.
  unfold AdvanceCommitIndexLocked. destruct (_ <=? _); [by intros [= <-]|]. destruct (Log_Get _ _); [|by intros [= <-]].
  destruct (_ =? _); [|by intros [= <-]]. intros E. by apply Apply_same in E.
Qed.

Lemma HandleAppendEntries_typed clk1 clk2 req n resp n' :
  is_u64 (aeq_term req) -> is_u32 (aeq_leader_id req) -> node_typed n ->
  HandleAppendEntries clk1 clk2 req n = Some (resp, n') -> is_u64 (aer_term resp) /\ node_typed n'.
Proof.
  intros Hq Hl Hn. unfold HandleAppendEntries. destruct (_ <? _); [intros [= <- <-]; by split; [apply Hn|]|].
  match goal with |- context [set_leader_id _ ?x] => set (n0 := x) end.
  assert (Hn0 : is_u64 (current_term_ n0) /\ is_u32 (local_node_id_ n0)).
  { unfold n0. destruct (_ <? _); [by split; [|apply Hn]|]. by destruct (bool_decide _); split; apply Hn. }
  clearbody n0. destruct Hn0 as [Ht Hid].
  set (n1 := ResetElectionDeadlineLocked _ _). assert (Hn1 : node_typed n1) by done.
  change (current_term_ n1) with (current_term_ n0). clearbody n1.
  destruct (prev_mismatch _ _); [by intros [= <- <-]|]. destruct (append_loop _ _ _) as [r|]; [|done]. cbn [mbind option_bind].
  destruct (_ <? _); [|by intros [= <- <-]]. destruct (ApplyCommittedEntriesLocked _) as [n2|] eqn:E; [|done].
  intros [= <- <-]. split; [exact Ht|]. apply Apply_same in E. by eapply same_typed.
Qed.

Lemma ReplicateToPeer_request_typed p n req n' :
  node_typed n -> ReplicateToPeer_request p n = (req, n') ->
  node_typed n' /\ forall q, req = Some q -> is_u64 (aeq_term q) /\ is_u32 (aeq_leader_id q).
Proof.
  intros Hn. unfold ReplicateToPeer_request, next_index_at, prev_of. destruct (negb _); [by intros [= <- <-]|].
  intros [= <- <-]. split; [exact Hn|]. intros q [= <-]. split; apply Hn.
Qed.

Lemma ReplicateToPeer_reply_typed clk p req resp n n' :
  (forall r, resp = Some r -> is_u64 (aer_term r)) -> node_typed n ->
  ReplicateToPeer_reply clk p req resp n = Some n' -> node_typed n'.
Proof.
  intros Hr Hn. unfold ReplicateToPeer_reply, next_index_at. destruct resp as [r|]; [|by intros [= <-]].
  destruct (_ || _); [by intros [= <-]|].
  destruct (_ <? _); [intros [= <-]; apply BecomeFollower_typed; [by apply Hr|done]|]. destruct (aer_success r).
  - intros E%AdvanceCommit_same. eapply same_typed; [exact E|]. by destruct (last (aeq_entries req)).
  - destruct (1 <? _); by intros [= <-].
Qed.

Lemma Propose_append_same e n res n' : Propose_append e n = Some (res, n') -> same_fields n n'.
Proof.
  unfold Propose_append. destruct (negb _); [by intros [= _ <-]|].
  destruct (rep_Append _ _) as [[[st e'] r]|]; [|done]. cbn [mbind option_bind]. by destruct (negb _); intros [= _ <-].
Qed.

Lemma ConfirmLeadershipQuorum_request_typed term p n req n' :
  node_typed n -> ConfirmLeadershipQuorum_request term p n = (req, n') ->
  node_typed n' /\ forall q, req = Some q -> is_u64 (aeq_term q) /\ is_u32 (aeq_leader_id q).
Proof.
  intros Hn. unfold ConfirmLeadershipQuorum_request, next_index_at, prev_of.
  destruct (negb _); [by intros [= <- <-]|]. destruct (Z.eqb_spec (current_term_ n) term) as [<-|]; [|by intros [= <- <-]].
  intros [= <- <-]. split; [exact Hn|]. intros q [= <-]. split; apply Hn.
Qed.

Lemma ConfirmLeadershipQuorum_reply_typed clk term p acks resp n :
  (forall r, resp = Some r -> is_u64 (aer_term r)) -> node_typed n ->
  node_typed (ConfirmLeadershipQuorum_reply clk term p acks resp n).2.
Proof.
  intros Hr Hn. unfold ConfirmLeadershipQuorum_reply. destruct resp as [r|]; [|done].
  destruct (_ <? _); [apply BecomeFollower_typed; [by apply Hr|done]|]. destruct (_ || _); [done|]. by destruct (aer_success r).
Qed.

Lemma RunLoop_tick_same time n : same_fields n (RunLoop_tick time n).2.
Proof. unfold RunLoop_tick. by repeat case_match. Qed.

End Nodes.

(** ** Clusters *)

Definition msg_typed (m : Msg) : Prop :=
  match m with
  | MVoteReq _ q => is_u64 (rvq_term q)
  | MVoteResp _ _ r => is_u64 (rvr_term r)
  | MAppReq _ q => is_u64 (aeq_term q) /\ is_u32 (aeq_leader_id q)
  | MAppResp _ _ r => is_u64 (aer_term r)
  end.

Record cluster_typed {R} (c : Cluster R) : Prop := {
  ct_nodes : forall i n, nodes c !! i = Some n -> node_typed n;
  ct_net : Forall msg_typed (net c);
  ct_elections : forall i el, elections c !! i = Some el -> is_u64 (rvq_term (el_req el))
}.

Section Events.
Context {R : Type} `{ReplicaOps R}.
Implicit Types (n : RaftNode R) (c : Cluster R).

Lemma net_typed c m : cluster_typed c -> m ∈ net c -> msg_typed m.
Proof. intros [_ Hm _] Hin. rewrite Forall_forall in Hm. by apply Hm. Qed.

Lemma set_node_typed i n c : node_typed n -> cluster_typed c -> cluster_typed (set_node i n c).
Proof.
  intros Hn [H1 H2 H3]. constructor; [|done|done]. intros j m Hj. cbn in Hj.
  apply lookup_insert_Some in Hj as [[_ <-]|[_ Hj]]; [done|by eapply H1].
Qed.

Lemma send_typed m c : msg_typed m -> cluster_typed c -> cluster_typed (send m c).
Proof. intros Hm [H1 H2 H3]. constructor; [done| |done]. by constructor. Qed.

Lemma set_election_typed i el c : is_u64 (rvq_term (el_req el)) -> cluster_typed c -> cluster_typed (set_election i el c).
Proof.
  intros He [H1 H2 H3]. constructor; [done|done|]. intros j el' Hj. cbn in Hj.
  apply lookup_insert_Some in Hj as [[_ <-]|[_ Hj]]; [done|by eapply H3].
Qed.

Lemma end_election_typed i c : cluster_typed c -> cluster_typed (end_election i c).
Proof.
  intros [H1 H2 H3]. constructor; [done|done|]. intros j el Hj. cbn in Hj.
  apply lookup_delete_Some in Hj as [_ Hj]. by eapply H3.
Qed.

End Events.

Create HintDb nkv_typed.
#[export] Hint Resolve set_node_typed send_typed set_election_typed end_election_typed : nkv_typed.

Section Runs.
Context {R : Type} `{ReplicaOps R}.
Implicit Types (n : RaftNode R) (c : Cluster R).

(** Every event but a restart, which loads the term from the state file. *)
Lemma exec_typed ev c c' :
  (forall i disk clk, ev <> EvRestart i disk clk) -> cluster_typed c -> exec ev c = Some c' -> cluster_typed c'.
Proof.
  intros Hno Hc Hex. pose proof Hc as [Hns _ Hes].
  destruct ev as [i clk|i|i req clk1 clk2|i resp clk|i time|i p|i req clk1 clk2|i p req resp clk|i e|i p term|
    i p acks req resp clk|i disk clk|i time]; cbn [exec] in Hex.
  2: { destruct (elections c !! i) as [el|] eqn:He; [|done]. cbn [mbind option_bind] in Hex.
       destruct (head (el_rest el)) as [p|]; [|done]. injection Hex as <-. apply send_typed; [exact (Hes i el He)|done]. }
  all: destruct (nodes c !! i) as [n|] eqn:Hi; [|done]; cbn [mbind option_bind] in Hex; pose proof (Hns i n Hi) as Hn.
  - destruct (guard _); [|done]. cbn [mbind option_bind] in Hex. pose proof (StartElection_begin_typed clk n Hn) as [Hq Hm].
    destruct (StartElection_begin clk n) as [rq m]. injection Hex as <-. auto with nkv_typed.
  - destruct (bool_decide_reflect (MVoteReq i req ∈ net c)) as [Hin|]; [|done]. cbn [guard mbind option_bind] in Hex.
    pose proof (HandleRequestVote_typed clk1 clk2 req n (net_typed _ _ Hc Hin) Hn) as [Hr Hm].
    destruct (HandleRequestVote clk1 clk2 req n) as [rp m]. injection Hex as <-. auto with nkv_typed.
  - destruct (elections c !! i) as [el|] eqn:He; [|done]. cbn [mbind option_bind] in Hex.
    destruct (head (el_rest el)) as [p|]; [|done]. cbn [mbind option_bind] in Hex.
    destruct (guard _) eqn:Eg; [|done]. cbn [mbind option_bind] in Hex.
    assert (Hm : node_typed (StartElection_reply clk (rvq_term (el_req el)) (el_votes el) resp n).2).
    { apply StartElection_reply_typed; [|done]. intros r ->. unfold guard in Eg. case_bool_decide as Hin; [|done].
      exact (net_typed _ _ Hc Hin). }
    pose proof (Hes i el He) as Hq.
    destruct (StartElection_reply _ _ _ _ _) as [[v|] m]; injection Hex as <-; auto with nkv_typed.
  - destruct (elections c !! i) as [el|]; [|done]. cbn [mbind option_bind] in Hex. destruct (guard _); [|done].
    injection Hex as <-. apply end_election_typed, set_node_typed; [by apply StartElection_finish_typed|done].
  - destruct (guard _); [|done]. cbn [mbind option_bind] in Hex.
    destruct (ReplicateToPeer_request p n) as [rq m] eqn:E. apply ReplicateToPeer_request_typed in E as [Hm Hq]; [|done].
    destruct rq as [rq|]; [pose proof (Hq rq eq_refl)|]; injection Hex as <-; [destruct (rpc_sent rq)|]; auto with nkv_typed.
  - destruct (bool_decide_reflect (MAppReq i req ∈ net c)) as [Hin|]; [|done]. cbn [guard mbind option_bind] in Hex.
    destruct (net_typed _ _ Hc Hin) as [Hq Hl]. destruct (HandleAppendEntries clk1 clk2 req n) as [[rp m]|] eqn:E; [|done].
    injection Hex as <-. apply HandleAppendEntries_typed in E as [Hr Hm]; auto with nkv_typed.
  - destruct (bool_decide_reflect (MAppResp p req resp ∈ net c)) as [Hin|]; [|done].
    destruct (aeq_leader_id req =? i); [|done]. cbn [andb guard mbind option_bind] in Hex.
    destruct (ReplicateToPeer_reply clk p req (Some resp) n) as [m|] eqn:E; [|done]. injection Hex as <-.
    apply set_node_typed; [|done]. eapply ReplicateToPeer_reply_typed; [|exact Hn|exact E].
    intros r [= <-]. exact (net_typed _ _ Hc Hin).
  - destruct (Propose_append e n) as [[rs m]|] eqn:E; [|done]. injection Hex as <-. apply set_node_typed; [|done].
    apply Propose_append_same in E. by eapply same_typed.
  - destruct (guard _); [|done]. cbn [mbind option_bind] in Hex.
    destruct (ConfirmLeadershipQuorum_request term p n) as [rq m] eqn:E.
    apply ConfirmLeadershipQuorum_request_typed in E as [Hm Hq]; [|done].
    destruct rq as [rq|]; [pose proof (Hq rq eq_refl)|]; injection Hex as <-; auto with nkv_typed.
  - destruct (bool_decide_reflect (MAppResp p req resp ∈ net c)) as [Hin|]; [|done].
    destruct (aeq_leader_id req =? i); [|done]. injection Hex as <-. apply set_node_typed; [|done].
    apply (ConfirmLeadershipQuorum_reply_typed clk (aeq_term req) p acks (Some resp)); [|done].
    intros r [= <-]. exact (net_typed _ _ Hc Hin).
  - by destruct (Hno i disk clk).
  - injection Hex as <-. apply set_node_typed; [|done]. eapply same_typed; [apply RunLoop_tick_same|done].
Qed.

Lemma run_allowed_typed evs c c' : cluster_typed c -> run_allowed evs c = Some c' -> cluster_typed c'.
Proof.
  revert c. induction evs as [|ev evs IH]; intros c Hc; cbn [run_allowed]; [by intros [= <-]|].
  destruct (allowedb ev c) eqn:Ha; [|done]. destruct (exec ev c) as [c1|] eqn:E; [|done]. cbn [mbind option_bind].
  apply IH. eapply exec_typed; [|exact Hc|exact E]. by intros i disk clk ->.
Qed.

(** ** Calls *)

Context (run : list (Event R) -> Cluster R -> option (Cluster R)) (i : Z).
Implicit Types w : World R.

(** The others keep the widths. *)
Definition keeps_typed : Prop := forall evs c c', cluster_typed c -> run evs c = Some c' -> cluster_typed c'.

Context (Hrun : keeps_typed).

Definition world_typed w : Prop := cluster_typed (wd_cluster w).

Lemma turn_typed w t w' : world_typed w -> turn run w = Some (t, w') -> world_typed w'.
Proof.
  intros Hw. unfold turn. destruct (head (wd_turns w)) as [t'|]; [|done]. cbn [mbind option_bind].
  destruct (run _ _) as [c|] eqn:E; [|done]. intros [= _ <-]. by eapply Hrun.
Qed.

Lemma answered_typed p req before (t : Turn R) w :
  world_typed w -> answered p req before t w = Some () -> forall r, tn_reply t = Some r -> is_u64 (aer_term r).
Proof. intros Hw Ha r Hr. destruct (answered_sent _ _ _ _ _ _ Ha Hr) as [_ Hin]. exact (net_typed _ _ Hw Hin). Qed.

Lemma ReplicateToPeer_typed p w w' : world_typed w -> ReplicateToPeer run i p w = Some w' -> world_typed w'.
Proof.
  intros Hw. unfold ReplicateToPeer. destruct (turn run w) as [[t1 w1]|] eqn:E1; [|done]. cbn [mbind option_bind].
  apply turn_typed in E1; [|done]. destruct (the_node i w1) as [n1|] eqn:Hn1; [|done]. cbn [mbind option_bind].
  destruct (ReplicateToPeer_request p n1) as [rq n2] eqn:Eq.
  apply ReplicateToPeer_request_typed in Eq as [Hn2 Hq]; [|exact (ct_nodes _ E1 i n1 Hn1)].
  destruct rq as [req|]; [|intros [= <-]; by apply set_node_typed].
  destruct (rpc_sent req); [|intros [= <-]; by apply set_node_typed]. specialize (Hq req eq_refl).
  assert (Hs : world_typed (sent (MAppReq p req) (put i n2 w1))) by (apply send_typed, set_node_typed; done).
  cbv zeta. destruct (turn run (sent _ _)) as [[t2 w2]|] eqn:E2; [|done]. cbn [mbind option_bind].
  apply turn_typed in E2; [|done]. destruct (answered _ _ _ _ _) as [[]|] eqn:Ea; [|done]. cbn [mbind option_bind].
  destruct (the_node i w2) as [n3|] eqn:Hn3; [|done]. cbn [mbind option_bind].
  destruct (ReplicateToPeer_reply _ _ _ _ _) as [n4|] eqn:Er; [|done]. intros [= <-]. apply set_node_typed; [|done].
  eapply ReplicateToPeer_reply_typed; [by eapply answered_typed|exact (ct_nodes _ E2 i n3 Hn3)|exact Er].
Qed.

Lemma replicate_all_typed ps w w' : world_typed w -> replicate_all run i ps w = Some w' -> world_typed w'.
Proof.
  revert w. induction ps as [|p ps IH]; intros w Hw; cbn [replicate_all]; [by intros [= <-]|].
  destruct (ReplicateToPeer run i p w) as [w1|] eqn:E; [|done]. apply IH. by eapply ReplicateToPeer_typed.
Qed.

Lemma Propose_typed e w st w' : world_typed w -> Propose run i e w = Some (st, w') -> world_typed w'.
Proof.
  intros Hw. unfold Propose. destruct (turn run w) as [[t1 w1]|] eqn:E1; [|done]. cbn [mbind option_bind].
  apply turn_typed in E1; [|done]. destruct (the_node i w1) as [n1|] eqn:Hn1; [|done]. cbn [mbind option_bind].
  destruct (Propose_append e n1) as [[res n2]|] eqn:EP; [|done]. cbn [mbind option_bind].
  assert (H2 : world_typed (put i n2 w1)).
  { apply set_node_typed; [|done]. apply Propose_append_same in EP. eapply same_typed; [exact EP|]. exact (ct_nodes _ E1 i n1 Hn1). }
  destruct res as [index|status]; [|by intros [= _ <-]].
  destruct (replicate_all _ _ _ _) as [w3|] eqn:E3; [|done]. cbn [mbind option_bind]. apply replicate_all_typed in E3; [|done].
  destruct (turn run w3) as [[t4 w4]|] eqn:E4; [|done]. cbn [mbind option_bind]. apply turn_typed in E4; [|done].
  destruct (the_node i w4); [|done]. by intros [= _ <-].
Qed.

Lemma confirm_peers_typed maj term ps acks w b w' :
  world_typed w -> confirm_peers run i maj term ps acks w = Some (b, w') -> world_typed w'.
Proof.
  revert acks w. induction ps as [|p ps IH]; intros acks w Hw; cbn [confirm_peers]; [by intros [= _ <-]|].
  destruct (turn run w) as [[t1 w1]|] eqn:E1; [|done]. cbn [mbind option_bind].
  apply turn_typed in E1; [|done]. destruct (the_node i w1) as [n1|] eqn:Hn1; [|done]. cbn [mbind option_bind].
  destruct (ConfirmLeadershipQuorum_request term p n1) as [rq n2] eqn:Eq.
  apply ConfirmLeadershipQuorum_request_typed in Eq as [Hn2 Hq]; [|exact (ct_nodes _ E1 i n1 Hn1)].
  destruct rq as [req|]; [|intros [= _ <-]; by apply set_node_typed]. specialize (Hq req eq_refl).
  assert (Hs : world_typed (sent (MAppReq p req) (put i n2 w1))) by (apply send_typed, set_node_typed; done).
  cbv zeta. destruct (turn run (sent _ _)) as [[t2 w2]|] eqn:E2; [|done]. cbn [mbind option_bind].
  apply turn_typed in E2; [|done]. destruct (answered _ _ _ _ _) as [[]|] eqn:Ea; [|done]. cbn [mbind option_bind].
  destruct (the_node i w2) as [n3|] eqn:Hn3; [|done]. cbn [mbind option_bind].
  pose proof (ConfirmLeadershipQuorum_reply_typed (tn_clk t2) term p acks (tn_reply t2) n3 (answered_typed _ _ _ _ _ E2 Ea)
    (ct_nodes _ E2 i n3 Hn3)) as Hn4.
  destruct (ConfirmLeadershipQuorum_reply _ _ _ _ _ _) as [[acks'|] n4]; [|intros [= _ <-]; by apply set_node_typed].
  apply IH. by apply set_node_typed.
Qed.

Lemma observe_typed {A} (f : RaftNode R -> A) w a w' :
  world_typed w -> observe run i f w = Some (a, w') -> world_typed w' /\ exists n, node_typed n /\ a = f n.
Proof.
  intros Hw. unfold observe. destruct (turn run w) as [[t w1]|] eqn:E; [|done]. cbn [mbind option_bind].
  apply turn_typed in E; [|done]. destruct (the_node i w1) as [n|] eqn:Hn; [|done]. intros [= <- <-]. split; [done|].
  exists n. split; [exact (ct_nodes _ E i n Hn)|done].
Qed.

(** The interface of the request handler, on a Raft node. *)
Theorem node_raft_typed reserve : raft_typed world_typed (node_raft run i reserve).
Proof.
  constructor; cbn [node_raft rf_leader_id rf_HandleRequestVote rf_HandleAppendEntries rf_state rf_Propose rf_ConfirmLeadershipQuorum].
  - intros w id w' Hw E. apply observe_typed in E as [_ (n & Hn & ->)]; [|done]. apply Hn.
  - intros q w r w' Hw [Hq _]. unfold serve_vote. destruct (turn run w) as [[t w1]|] eqn:E; [|done]. cbn [mbind option_bind].
    apply turn_typed in E; [|done]. destruct (the_node i w1) as [n|] eqn:Hn; [|done]. cbn [mbind option_bind].
    pose proof (HandleRequestVote_typed (tn_clk t) (tn_clk t) q n Hq (ct_nodes _ E i n Hn)) as [Hr _].
    destruct (HandleRequestVote _ _ q n). by intros [= <- _].
  - intros q w r w' Hw (Hq & Hl & _). unfold serve_append. destruct (turn run w) as [[t w1]|] eqn:E; [|done]. cbn [mbind option_bind].
    apply turn_typed in E; [|done]. destruct (the_node i w1) as [n|] eqn:Hn; [|done]. cbn [mbind option_bind].
    destruct (HandleAppendEntries _ _ q n) as [[rp m]|] eqn:Eh; [|done]. intros [= <- _].
    by apply HandleAppendEntries_typed in Eh as [? _]; [| | |exact (ct_nodes _ E i n Hn)].
  - intros w x w' Hw E. by apply observe_typed in E as [? _].
  - intros e w st w' Hw. by apply Propose_typed.
  - intros w b w' Hw. unfold ConfirmLeadershipQuorum. destruct (turn run w) as [[t w1]|] eqn:E; [|done].
    cbn [mbind option_bind]. apply turn_typed in E; [|done]. destruct (the_node i w1) as [n|]; [|done]. cbn [mbind option_bind].
    destruct (ConfirmLeadershipQuorum_begin _ n); [by intros [= _ <-]|]. by apply confirm_peers_typed.
Qed.

End Runs.

(** ** On the cluster of RaftTraces.v *)

#[local] Existing Instance example_libc.
#[local] Existing Instance example_hash.

Lemma bounded_run_typed {R} `{ReplicaOps R} i : keeps_typed (R := R) (bounded_run i).
Proof.
  intros evs c c' Hc. unfold bounded_run. destruct (run_allowed evs c) as [c1|] eqn:E; [|done]. cbn [mbind option_bind].
  apply run_allowed_typed in E; [|done]. destruct (nodes c1 !! i) as [n|]; [destruct (_ && _); [|done]|]; by intros [= <-].
Qed.

Lemma three_typed : cluster_typed three.
Proof.
  constructor; [|constructor|done]. intros i n Hn. destruct (init_nodes _ _ three_initial i n Hn) as [Hok Hid _ _ Ht _ _ Hl _].
  assert (Hi : i ∈ node_id <$> three_peers) by (apply (init_dom _ _ three_initial); by exists n).
  split; [by rewrite Ht|]. split; [by rewrite Hl|]. rewrite Hid.
  apply list_elem_of_fmap in Hi as (p & -> & Hp). by repeat (apply elem_of_cons in Hp as [->|Hp]); [..|apply elem_of_nil in Hp].
Qed.

Lemma commit_end_typed : cluster_typed commit_end.
Proof. do 2 (eapply run_allowed_typed; [|eapply is_Some_default; vm_compute; reflexivity]). exact three_typed. Qed.

(** Node 2 follows node 1 and refuses a write. *)
Lemma handled_requests_typed_witness :
  exists resp w', Handle (handler_of 2) (set_k "q") (mkWorld commit_end [pause; pause]) = Some (resp, w') /\
    cresp_leader_hint resp = 1 /\ client_answer (handler_of 2) (set_k "q") resp.
Proof.
  eexists _, _. split; [vm_compute; reflexivity|]. split; [reflexivity|].
  exact (proj1 (proj1 (handled_requests_typed world_typed (handler_of 2)
    (node_raft_typed (bounded_run 2) 2 (bounded_run_typed 2) (fun _ => true)))
    (set_k "q") (mkWorld commit_end [pause; pause]) _ _ commit_end_typed ltac:(split; vm_compute; congruence)
    ltac:(vm_compute; reflexivity))).
Defined.

(** Node 3 asks node 2 for its vote: the first address refuses, the frames travel in pieces,
    and node 2 is interrupted. *)
#[local] Instance vote_resolver : Resolver := {|
  getaddrinfo passive node service := GaiOk [str "::1"; str "127.0.0.1"];
  gai_strerror e := []
|}.

Definition asked_vote : RequestVoteRequest := mkRequestVoteRequest 2 3 1 1.
Definition asked_world : World (Replica ShardedKV) := mkWorld commit_end [pause].
Definition asked_line : Line :=
  mkLine (served_by (handler_of 2) asked_world [IoSome 3; IoErr EINTR] [IoSome 5]) [IoSome 1; IoSome 4] [IoErr EINTR; IoSome 9] true.

Lemma raft_rpcs_call_the_peer_witness :
  exists k', RequestVote_rpc example_peer asked_vote asked_line Transport.example_kern =
      Some (Some (mkRequestVoteResponse 2 true), k') /\ k_open k' = {[0; 1; 2]}.
Proof.
  assert (Hc : connected (handler_of 2) example_peer asked_line Transport.example_kern asked_world [IoSome 3; IoErr EINTR] [IoSome 5]).
  { constructor; [eexists _, _; vm_compute; reflexivity| |]; repeat constructor; by eexists. }
  assert (Hv : bool_decide (fst <$> serve_vote (bounded_run 2) 2 asked_vote asked_world = Some (mkRequestVoteResponse 2 true)) = true)
    by (vm_compute; reflexivity).
  apply bool_decide_eq_true_1 in Hv.
  destruct (serve_vote (bounded_run 2) 2 asked_vote asked_world) as [[resp w']|] eqn:E; [|discriminate Hv]. injection Hv as ->.
  destruct (proj1 (raft_rpcs_call_the_peer (handler_of 2) world_typed (node_raft (bounded_run 2) 2 (fun _ => true)) example_peer
    asked_line Transport.example_kern asked_world _ _ eq_refl
    (node_raft_typed (bounded_run 2) 2 (bounded_run_typed 2) (fun _ => true)) commit_end_typed Hc)
    asked_vote (mkRequestVoteResponse 2 true) w') as (k' & Ek & [Hs _] & _).
  - repeat split; vm_compute; congruence.
  - exact E.
  - exists k'. split; [exact Ek|exact Hs].
Defined.
