(* ===== verification/FaultInjection.v ===== *)
(** * Fault injection for tests ([src/testing/fault_injection.h])

    A transport that drops or delays RPCs on command, and the controller that cuts two
    nodes off from each other. Rates and random draws are doubles, compared by the rules of
    IEEE 754 (the standard library's [SpecFloat]); transports are objects at addresses,
    since the controller holds pointers to them. *)

From Stdlib Require Import Strings.String.
From Stdlib Require Import SpecFloat.
From S2P Require Import Prelude Common BigEndian Codec RpcCodec ClusterConfig Socket Transport.

Definition double_0 : spec_float := S754_zero false.
Definition double_1 : spec_float := S754_finite false (2 ^ 52) (-52).

Record FaultInjectingTransport := mkFaultInjectingTransport {
  dropped_peers_ : gmap.gset Z;
  delay_ms_ : gmap Z Z;
  drop_rate_ : gmap Z spec_float;
  rng_ : nat (* the number of draws so far *)
}.

Section FaultInjection.
Context `{Libc} `{Resolver}.
(** The draws of [dist_(rng_)]. *)
Variable dist_ : nat -> spec_float.
Implicit Types t : FaultInjectingTransport.

Definition FaultInjectingTransport_new : FaultInjectingTransport := mkFaultInjectingTransport ∅ ∅ ∅ 0.

Definition set_drop_outbound_to (peer_id : Z) (drop : bool) t : FaultInjectingTransport :=
  mkFaultInjectingTransport (if drop then {[peer_id]} ∪ dropped_peers_ t else dropped_peers_ t ∖ {[peer_id]})
    (delay_ms_ t) (drop_rate_ t) (rng_ t).

Definition set_delay_ms (peer_id ms : Z) t : FaultInjectingTransport :=
  mkFaultInjectingTransport (dropped_peers_ t)
    (if ms <=? 0 then delete peer_id (delay_ms_ t) else <[peer_id := ms]> (delay_ms_ t)) (drop_rate_ t) (rng_ t).

Definition set_drop_rate (peer_id : Z) (rate : spec_float) t : FaultInjectingTransport :=
  mkFaultInjectingTransport (dropped_peers_ t) (delay_ms_ t)
    (if SFleb rate double_0 then delete peer_id (drop_rate_ t)
     else <[peer_id := if SFltb double_1 rate then double_1 else rate]> (drop_rate_ t)) (rng_ t).

Definition clear_faults t : FaultInjectingTransport := mkFaultInjectingTransport ∅ ∅ ∅ (rng_ t).

(** The result with how long the call slept, the kernel, what was sent, and the transport. *)
Definition fi_SendRpc (peer : PeerInfo) (req : ClusterRequest) (ln : Line) (k : Kern) t
    : option (Result ClusterResponse * Z * Kern * bytes * FaultInjectingTransport) :=
  if bool_decide (node_id peer ∈ dropped_peers_ t)
  then Some (Failed (rpc_error "fault injection: outbound RPC dropped"), 0, k, [], t)
  else
    let '(lost, t) :=
      match drop_rate_ t !! node_id peer with
      | Some rate =>
          (SFltb (dist_ (rng_ t)) rate,
           mkFaultInjectingTransport (dropped_peers_ t) (delay_ms_ t) (drop_rate_ t) (S (rng_ t)))
      | None => (false, t)
      end in
    if (lost : bool) then Some (Failed (rpc_error "fault injection: outbound RPC dropped (rate)"), 0, k, [], t)
    else
      let delay_ms := default 0 (delay_ms_ t !! node_id peer) in
      '(result, k, sent) ← SendRpc peer req ln k;
      Some (result, if 0 <? delay_ms then delay_ms else 0, k, sent, t).

(** ** The controller *)

Definition FaultInjectionController : Type := gmap Z nat.
Notation Heap := (gmap nat FaultInjectingTransport).
Implicit Types (c : FaultInjectionController) (heap : Heap).

Definition Register (id : Z) (transport : nat) c : FaultInjectionController := <[id := transport]> c.

Definition Find (id : Z) c : option nat := c !! id.

Definition partition (a b : Z) (enabled : bool) c heap : Heap :=
  let heap := match Find a c with Some ta => alter (set_drop_outbound_to b enabled) ta heap | None => heap end in
  match Find b c with Some tb => alter (set_drop_outbound_to a enabled) tb heap | None => heap end.

Definition controller_clear_faults c heap : Heap :=
  foldl (fun heap '(_, transport) => alter clear_faults transport heap) heap (map_to_list c).

(** ** What tests rely on *)

(** A call is either dropped, without touching the network, or the transport's own; it
    returns when the transport's own would. *)
Lemma fi_SendRpc_cases peer req ln k t result slept k' sent t' :
  fi_SendRpc peer req ln k t = Some (result, slept, k', sent, t') ->
  same_fds k k' /\
  dropped_peers_ t' = dropped_peers_ t /\ delay_ms_ t' = delay_ms_ t /\ drop_rate_ t' = drop_rate_ t /\
  ((Result_ok result = false /\ k' = k /\ sent = []) \/ SendRpc peer req ln k = Some (result, k', sent)).
Proof.
  unfold fi_SendRpc. case_bool_decide; [intros [= <- _ <- <- <-]; split_and!; [..|by left]; done|].
  assert (Hcall : forall t0 d, ('(result, k, sent) ← SendRpc peer req ln k; Some (result, d, k, sent, t0)) =
    Some (result, slept, k', sent, t') -> same_fds k k' /\ t' = t0 /\ SendRpc peer req ln k = Some (result, k', sent)).
  { intros t0 d E. destruct (SendRpc peer req ln k) as [[[r k1] s1]|] eqn:Es; [|done]. apply SendRpc_fds in Es.
    injection E as <- _ <- <- <-. done. }
  destruct (drop_rate_ t !! node_id peer) as [rate|]; [destruct (SFltb _ rate)|].
  - intros [= <- _ <- <- <-]. split_and!; [..|by left]; done.
  - intros (Hs & -> & E)%Hcall. split_and!; [..|by right]; done || apply Hs.
  - intros (Hs & -> & E)%Hcall. split_and!; [..|by right]; done || apply Hs.
Qed.

Lemma fi_SendRpc_returns peer req ln k t : ln_stays ln = false -> is_Some (fi_SendRpc peer req ln k t).
Proof.
  intros Hst. unfold fi_SendRpc. case_bool_decide; [by eexists|].
  destruct (SendRpc_returns peer req ln k Hst) as [[[r k1] s1] E].
  destruct (drop_rate_ t !! node_id peer) as [rate|]; [destruct (SFltb _ rate); [by eexists|]|]; rewrite E; by eexists.
Qed.

(** Without faults for a peer, calls to it are the transport's own and do not sleep. *)
Lemma fi_SendRpc_clean peer req ln k t :
  node_id peer ∉ dropped_peers_ t -> drop_rate_ t !! node_id peer = None -> delay_ms_ t !! node_id peer = None ->
  fi_SendRpc peer req ln k t = '(result, k, sent) ← SendRpc peer req ln k; Some (result, 0, k, sent, t).
Proof. intros H1 H2 H3. unfold fi_SendRpc. by rewrite bool_decide_false, H2, H3 by done. Qed.

(** A rate of one or more loses every call, as draws are below one; a rate that is not a
    number loses none. *)
Lemma full_rate_drops peer req ln k t rate :
  (forall n, SFltb (dist_ n) double_1 = true) -> SFleb rate double_0 = false -> SFltb double_1 rate = true ->
  exists result t', fi_SendRpc peer req ln k (set_drop_rate (node_id peer) rate t) = Some (result, 0, k, [], t') /\
    Result_ok result = false.
Proof.
  intros Hd Hz Ho. unfold fi_SendRpc, set_drop_rate. cbn [dropped_peers_ drop_rate_ rng_ delay_ms_].
  rewrite Hz, Ho, lookup_insert_eq. case_bool_decide; [by eexists _, _|]. rewrite Hd. by eexists _, _.
Qed.

Lemma nan_rate_keeps peer req ln k t :
  node_id peer ∉ dropped_peers_ t -> delay_ms_ t !! node_id peer = None ->
  exists t', fi_SendRpc peer req ln k (set_drop_rate (node_id peer) S754_nan t) =
    '(result, k, sent) ← SendRpc peer req ln k; Some (result, 0, k, sent, t').
Proof.
  intros H1 H2. unfold fi_SendRpc, set_drop_rate. cbn [dropped_peers_ drop_rate_ rng_ delay_ms_ SFleb SFltb SFcompare].
  rewrite bool_decide_false, lookup_insert_eq by done. cbn [SFltb SFcompare].
  assert (Hn : forall x, SFltb x S754_nan = false) by (by intros [| | |]). rewrite Hn. cbn [delay_ms_]. rewrite H2.
  by eexists.
Qed.

Lemma lookup_alter_transport (f : FaultInjectingTransport -> FaultInjectingTransport) i j heap :
  alter f i heap !! j = (if decide (j = i) then f else id) <$> heap !! j.
Proof.
  destruct (decide (j = i)) as [->|]; [apply lookup_alter_eq|]. rewrite lookup_alter_ne by congruence. by destruct (heap !! j).
Qed.

(** Who is dropped after [partition]: exactly the two directions change, also when one
    object is registered for both nodes. *)
Lemma partition_dropped a b enabled c heap p t :
  heap !! p = Some t ->
  exists t', partition a b enabled c heap !! p = Some t' /\ delay_ms_ t' = delay_ms_ t /\ drop_rate_ t' = drop_rate_ t /\
    forall x, x ∈ dropped_peers_ t' <->
      if decide ((c !! a = Some p /\ x = b) \/ (c !! b = Some p /\ x = a)) then enabled = true else x ∈ dropped_peers_ t.
Proof.
  intros Ht. unfold partition, Find.
  assert (Hfind : forall (o : option nat) f hp, match o with Some q => alter f q hp | None => hp end !! p =
    (if decide (o = Some p) then f else id) <$> (hp : Heap) !! p).
  { intros [q|] f hp; [|by rewrite decide_False by done; destruct (hp !! p)]. rewrite lookup_alter_transport.
    destruct (decide (p = q)) as [->|]; [by rewrite decide_True|]. by rewrite decide_False by congruence. }
  rewrite !Hfind, Ht. eexists. split; [done|].
  destruct (decide (c !! a = Some p)) as [Ha|Ha], (decide (c !! b = Some p)) as [Hb|Hb];
    (split; [by destruct t|]; split; [by destruct t|]); intros x;
    (destruct (decide ((c !! a = Some p /\ x = b) \/ (c !! b = Some p /\ x = a))) as [Hx|Hx]);
    destruct enabled; cbn; set_solver.
Qed.

(** A cut pair of nodes hears nothing of each other. *)
Theorem partition_cuts_both_ways a b c heap pa pb ta tb peer_a peer_b req ln k :
  c !! a = Some pa -> c !! b = Some pb -> heap !! pa = Some ta -> heap !! pb = Some tb ->
  node_id peer_a = a -> node_id peer_b = b ->
  exists ta' tb', partition a b true c heap !! pa = Some ta' /\ partition a b true c heap !! pb = Some tb' /\
    fi_SendRpc peer_b req ln k ta' = Some (Failed (rpc_error "fault injection: outbound RPC dropped"), 0, k, [], ta') /\
    fi_SendRpc peer_a req ln k tb' = Some (Failed (rpc_error "fault injection: outbound RPC dropped"), 0, k, [], tb').
Proof.
  intros Ha Hb Hta Htb Hia Hib.
  destruct (partition_dropped a b true c heap pa ta Hta) as (ta' & Ea & _ & _ & Hda).
  destruct (partition_dropped a b true c heap pb tb Htb) as (tb' & Eb & _ & _ & Hdb).
  exists ta', tb'. split; [done|]. split; [done|]. unfold fi_SendRpc. split; rewrite bool_decide_true; try done.
  - apply Hda. rewrite decide_True; [done|]. by left.
  - apply Hdb. rewrite decide_True; [done|]. by right.
Qed.

End FaultInjection.
