(* ===== verification/ThreadPool.v ===== *)
(** * The thread pool ([src/concurrency/thread_pool.cpp])

    Workers that drain one queue under a mutex and a condition variable. A step is what one
    thread does between two points where others can act: a critical section, a
    notification, a task. A worker that waits is asleep until it is notified or wakes up
    spuriously; so a notification that finds nobody asleep is lost, as in the source. *)

From S2P Require Import Prelude.

Section ThreadPool.
Context {Task : Type}.

(** [AtLock]: about to take the mutex and to evaluate the predicate of [wait]; [Asleep]:
    inside [wait], without the mutex. *)
Inductive Worker := AtLock | Asleep | Running (task : Task) | Exited.

(** The destructor: not called, [stop_] set, [notify_all] called and so many joined, done. *)
Inductive Destructor := NotCalled | Stopping | Joining (joined : nat).

(** [notifies]: callers of [Submit] that have left the mutex but not yet called
    [notify_one]. The last three are history: the tasks that were queued, that a worker
    took, that have returned. *)
Record ThreadPool := mkThreadPool {
  tasks_ : list Task;
  stop_ : bool;
  workers_ : list Worker;
  notifies : nat;
  destructor : Destructor;
  accepted : list Task;
  started : list Task;
  finished : list Task
}.

Implicit Types p : ThreadPool.

Definition ThreadPool_new (num_workers : nat) : ThreadPool :=
  mkThreadPool [] false (replicate num_workers AtLock) 0 NotCalled [] [] [].

Definition set_worker (i : nat) (x : Worker) p : ThreadPool :=
  mkThreadPool (tasks_ p) (stop_ p) (<[i := x]> (workers_ p)) (notifies p) (destructor p) (accepted p) (started p) (finished p).

(** The critical section of [Submit]. *)
Definition Submit_push (task : Task) p : ThreadPool :=
  if stop_ p then p
  else mkThreadPool (tasks_ p ++ [task]) (stop_ p) (workers_ p) (S (notifies p)) (destructor p)
         (accepted p ++ [task]) (started p) (finished p).

Definition is_asleep (x : Worker) : bool := match x with Asleep => true | _ => false end.

(** The end of [Submit]: wakes the sleeper [i]; nobody when there is none. *)
Definition Submit_notify (i : nat) p : option ThreadPool :=
  match notifies p with
  | O => None
  | S rest =>
      let p := mkThreadPool (tasks_ p) (stop_ p) (workers_ p) rest (destructor p) (accepted p) (started p) (finished p) in
      match workers_ p !! i with
      | Some Asleep => Some (set_worker i AtLock p)
      | _ => if existsb is_asleep (workers_ p) then None else Some p
      end
  end.

(** The critical section of [WorkerLoop]: sleep, return, or take a task. *)
Definition WorkerLoop_lock (i : nat) p : option ThreadPool :=
  match workers_ p !! i with
  | Some AtLock =>
      if negb (stop_ p || negb (is_empty (tasks_ p))) then Some (set_worker i Asleep p)
      else
        match tasks_ p with
        | [] => Some (set_worker i Exited p)
        | task :: rest =>
            let p := set_worker i (Running task) p in
            Some (mkThreadPool rest (stop_ p) (workers_ p) (notifies p) (destructor p) (accepted p)
              (started p ++ [task]) (finished p))
        end
  | _ => None
  end.

(** [task();] has returned. *)
Definition WorkerLoop_run (i : nat) p : option ThreadPool :=
  match workers_ p !! i with
  | Some (Running task) =>
      let p := set_worker i AtLock p in
      Some (mkThreadPool (tasks_ p) (stop_ p) (workers_ p) (notifies p) (destructor p) (accepted p) (started p)
        (finished p ++ [task]))
  | _ => None
  end.

Definition spurious_wakeup (i : nat) p : option ThreadPool :=
  match workers_ p !! i with Some Asleep => Some (set_worker i AtLock p) | _ => None end.

Definition set_destructor (st : bool) (d : Destructor) p : ThreadPool :=
  mkThreadPool (tasks_ p) st (workers_ p) (notifies p) d (accepted p) (started p) (finished p).

Definition Destructor_stop p : option ThreadPool :=
  match destructor p with NotCalled => Some (set_destructor true Stopping p) | _ => None end.

Definition wake (x : Worker) : Worker := match x with Asleep => AtLock | _ => x end.

Definition Destructor_notify p : option ThreadPool :=
  match destructor p with
  | Stopping =>
      let p := set_destructor (stop_ p) (Joining 0) p in
      Some (mkThreadPool (tasks_ p) (stop_ p) (wake <$> workers_ p) (notifies p) (destructor p) (accepted p) (started p)
        (finished p))
  | _ => None
  end.

(** [worker.join()] of the next worker has returned. *)
Definition Destructor_join p : option ThreadPool :=
  match destructor p with
  | Joining n =>
      match workers_ p !! n with
      | Some Exited => Some (set_destructor (stop_ p) (Joining (S n)) p)
      | _ => None
      end
  | _ => None
  end.

Inductive Step :=
| SSubmit (task : Task)
| SNotify (i : nat)
| SLock (i : nat)
| SRun (i : nat)
| SSpurious (i : nat)
| SStop
| SNotifyAll
| SJoin.

Definition pool_step (x : Step) p : option ThreadPool :=
  match x with
  | SSubmit task => Some (Submit_push task p)
  | SNotify i => Submit_notify i p
  | SLock i => WorkerLoop_lock i p
  | SRun i => WorkerLoop_run i p
  | SSpurious i => spurious_wakeup i p
  | SStop => Destructor_stop p
  | SNotifyAll => Destructor_notify p
  | SJoin => Destructor_join p
  end.

Fixpoint pool_run (schedule : list Step) p : option ThreadPool :=
  match schedule with
  | [] => Some p
  | x :: schedule => p ← pool_step x p; pool_run schedule p
  end.

(** ** Invariants *)

Definition count (f : Worker -> nat) (l : list Worker) : nat := sum_list (f <$> l).
Definition at_lock (x : Worker) : nat := match x with AtLock => 1 | _ => 0 end.
Definition asleep (x : Worker) : nat := match x with Asleep => 1 | _ => 0 end.
Definition running (x : Worker) : list Task := match x with Running task => [task] | _ => [] end.

(** No wakeup is lost: if somebody sleeps, every queued task has a notification on its
    way, or a worker that is about to look at the queue. *)
Record pool_ok p : Prop := {
  po_queue : accepted p = started p ++ tasks_ p;
  po_running : started p ≡ₚ concat (running <$> workers_ p) ++ finished p;
  po_wakeup : Asleep ∈ workers_ p -> (length (tasks_ p) <= notifies p + count at_lock (workers_ p))%nat;
  po_exited : Exited ∈ workers_ p -> stop_ p = true /\ tasks_ p = [];
  po_stop : stop_ p = false <-> destructor p = NotCalled;
  po_joining : forall n, destructor p = Joining n -> Asleep ∉ workers_ p /\ (n <= length (workers_ p))%nat
}.

Lemma count_insert f l i x y :
  l !! i = Some y -> (count f (<[i := x]> l) + f y = count f l + f x)%nat.
Proof.
  revert i. induction l as [|z l IH]; intros [|i] Hi; try done.
  - injection Hi as ->. unfold count. cbn. lia.
  - change (f z + count f (<[i := x]> l) + f y = f z + count f l + f x)%nat. specialize (IH i Hi). lia.
Qed.

Lemma running_insert l i x y :
  l !! i = Some y -> concat (running <$> <[i := x]> l) ++ running y ≡ₚ concat (running <$> l) ++ running x.
Proof.
  revert i. induction l as [|z l IH]; intros [|i] Hi; cbn in *; [done|done| |].
  - injection Hi as ->. rewrite (Permutation_app_comm (running x ++ _)), (Permutation_app_comm (running y ++ _)).
    apply Permutation_app_swap_app.
  - rewrite <- !app_assoc. by rewrite IH.
Qed.

Lemma elem_of_insert_ne (l : list Worker) i x y : y <> x -> y ∈ <[i := x]> l -> y ∈ l.
Proof.
  intros Hne [j Hj]%list_elem_of_lookup. apply list_lookup_insert_Some in Hj as [(_ & ? & _)|[_ Hj]]; [done|].
  by eapply list_elem_of_lookup_2.
Qed.

Lemma at_lock_elem l i : l !! i = Some AtLock -> (1 <= count at_lock l)%nat.
Proof.
  revert i. induction l as [|x l IH]; intros [|i] Hi; try done; unfold count; cbn; [injection Hi as ->; cbn; lia|].
  specialize (IH i Hi). unfold count in IH. lia.
Qed.

Lemma is_asleep_spec l : existsb is_asleep l = true <-> Asleep ∈ l.
Proof.
  rewrite existsb_exists. split.
  - intros ([] & Hin & Ha); try done. by apply list_elem_of_In.
  - intros Hin. exists Asleep. split; [by apply list_elem_of_In|done].
Qed.

Definition set_notifies (m : nat) p : ThreadPool :=
  mkThreadPool (tasks_ p) (stop_ p) (workers_ p) m (destructor p) (accepted p) (started p) (finished p).

(** Waking a sleeper moves it to the mutex, which makes up for one notification. *)
Lemma wake_one_ok p i m :
  workers_ p !! i = Some Asleep -> (notifies p <= S m)%nat -> pool_ok p -> pool_ok (set_worker i AtLock (set_notifies m p)).
Proof.
  intros Hi Hm [Hq Hr Hw He Hs Hj]. pose proof (count_insert at_lock _ _ AtLock _ Hi) as Hc. cbn in Hc.
  constructor; cbn [tasks_ stop_ workers_ notifies destructor accepted started finished set_worker set_notifies]; try done.
  - pose proof (running_insert _ _ AtLock _ Hi) as Hp. cbn in Hp. rewrite !app_nil_r in Hp. by rewrite Hp.
  - intros Hin%elem_of_insert_ne; [|done]. specialize (Hw Hin). lia.
  - intros Hin%elem_of_insert_ne; [|done]. by apply He.
  - intros n Hn. destruct (Hj n Hn) as [Hna Hl]. rewrite length_insert. split; [|done].
    intros Hin%elem_of_insert_ne; done.
Qed.

Lemma Submit_push_ok task p : pool_ok p -> pool_ok (Submit_push task p).
Proof.
  intros Hok. unfold Submit_push. destruct (stop_ p) eqn:Es; [done|]. destruct Hok as [Hq Hr Hw He Hs Hj].
  constructor; cbn [tasks_ stop_ workers_ notifies destructor accepted started finished]; try done.
  - by rewrite Hq, app_assoc.
  - intros Hin. specialize (Hw Hin). rewrite length_app. cbn. lia.
  - intros Hin. destruct (He Hin). congruence.
  - split; [intros _; by apply Hs|done].
Qed.

Lemma Submit_notify_ok i p p' : pool_ok p -> Submit_notify i p = Some p' -> pool_ok p'.
Proof.
  intros Hok. unfold Submit_notify. destruct (notifies p) as [|rest] eqn:En; [done|]. cbn [workers_].
  change (mkThreadPool _ _ _ rest _ _ _ _) with (set_notifies rest p).
  assert (Hlost : existsb is_asleep (workers_ p) = false -> pool_ok (set_notifies rest p)).
  { intros Ha. destruct Hok as [Hq Hr Hw He Hs Hj]. constructor; try done. intros Hin%is_asleep_spec. cbn in Hin. congruence. }
  destruct (workers_ p !! i) as [[]|] eqn:Ei.
  2: { intros [= <-]. apply wake_one_ok; (done || lia). }
  all: destruct (existsb is_asleep (workers_ p)) eqn:Ea; [done|]; intros [= <-]; by apply Hlost.
Qed.

Lemma WorkerLoop_lock_ok i p p' : pool_ok p -> WorkerLoop_lock i p = Some p' -> pool_ok p'.
Proof.
  intros [Hq Hr Hw He Hs Hj]. unfold WorkerLoop_lock. destruct (workers_ p !! i) as [[]|] eqn:Ei; try done.
  assert (Hperm : forall x, concat (running <$> <[i := x]> (workers_ p)) ≡ₚ concat (running <$> workers_ p) ++ running x).
  { intros x. pose proof (running_insert _ _ x _ Ei) as Hp. cbn in Hp. by rewrite app_nil_r in Hp. }
  assert (Hjoin : forall x n, x <> Asleep -> destructor p = Joining n ->
    Asleep ∉ <[i := x]> (workers_ p) /\ (n <= length (<[i := x]> (workers_ p)))%nat).
  { intros x n Hx Hn. destruct (Hj n Hn) as [Hna Hl]. rewrite length_insert. split; [|done].
    by intros Hin%elem_of_insert_ne. }
  destruct (stop_ p) eqn:Est, (tasks_ p) as [|task rest] eqn:Et; cbn [orb negb is_empty]; intros [= <-];
    constructor; cbn [tasks_ stop_ workers_ notifies destructor accepted started finished set_worker]; try done;
    rewrite ?Est, ?Et; try done.
  all: try (by rewrite Hq, <- app_assoc).
  all: try (by rewrite Hperm; cbn [running]; rewrite ?app_nil_r, Hr, <- ?app_assoc; try apply Permutation_app_head;
    try apply Permutation_app_comm).
  all: try (intros n Hn; by apply Hjoin).
  all: try (intros Hin%elem_of_insert_ne; [|done]; specialize (He Hin); destruct He; congruence).
  all: try (pose proof (count_insert at_lock _ _ (Running task) _ Ei) as Hc; cbn in Hc;
    intros Hin%elem_of_insert_ne; [|done]; specialize (Hw Hin); cbn in *; lia).
  all: try (cbn; lia).
  intros n Hn. destruct Hs as [Hs _]. by rewrite (Hs eq_refl) in Hn.
Qed.

Lemma WorkerLoop_run_ok i p p' : pool_ok p -> WorkerLoop_run i p = Some p' -> pool_ok p'.
Proof.
  intros [Hq Hr Hw He Hs Hj]. unfold WorkerLoop_run. destruct (workers_ p !! i) as [[| |task|]|] eqn:Ei; try done.
  intros [= <-]. pose proof (count_insert at_lock _ _ AtLock _ Ei) as Hc. cbn in Hc.
  constructor; cbn [tasks_ stop_ workers_ notifies destructor accepted started finished set_worker]; try done.
  - pose proof (running_insert _ _ AtLock _ Ei) as Hp. cbn in Hp. rewrite app_nil_r in Hp. rewrite Hr, <- Hp, <- app_assoc.
    apply Permutation_app_head, Permutation_app_comm.
  - intros Hin%elem_of_insert_ne; [|done]. specialize (Hw Hin). lia.
  - intros Hin%elem_of_insert_ne; [|done]. by apply He.
  - intros n Hn. destruct (Hj n Hn) as [Hna Hl]. rewrite length_insert. split; [|done].
    intros Hin%elem_of_insert_ne; done.
Qed.

Lemma Destructor_stop_ok p p' : pool_ok p -> Destructor_stop p = Some p' -> pool_ok p'.
Proof.
  intros [Hq Hr Hw He Hs Hj]. unfold Destructor_stop. destruct (destructor p); try done. intros [= <-].
  constructor; try done. intros Hin. split; [done|]. by apply He.
Qed.

Lemma wake_all l : Asleep ∉ wake <$> l /\ concat (running <$> (wake <$> l)) = concat (running <$> l) /\
  (Exited ∈ wake <$> l -> Exited ∈ l).
Proof.
  split; [|split].
  - intros ([] & ? & _)%list_elem_of_fmap; done.
  - induction l as [|x l IH]; [done|]. cbn. rewrite IH. by destruct x.
  - intros ([] & ? & ?)%list_elem_of_fmap; done.
Qed.

Lemma Destructor_notify_ok p p' : pool_ok p -> Destructor_notify p = Some p' -> pool_ok p'.
Proof.
  intros [Hq Hr Hw He Hs Hj]. unfold Destructor_notify. destruct (destructor p) eqn:Ed; try done. intros [= <-].
  destruct (wake_all (workers_ p)) as (Ha & Hrun & Hex).
  constructor; cbn [tasks_ stop_ workers_ notifies destructor accepted started finished set_destructor].
  - done.
  - by rewrite Hrun.
  - done.
  - intros Hin. by apply He, Hex.
  - split; [|done]. intros E. apply Hs in E. congruence.
  - intros n [= <-]. split; [done|lia].
Qed.

Lemma Destructor_join_ok p p' : pool_ok p -> Destructor_join p = Some p' -> pool_ok p'.
Proof.
  intros [Hq Hr Hw He Hs Hj]. unfold Destructor_join. destruct (destructor p) as [| |n] eqn:Ed; try done.
  destruct (workers_ p !! n) as [[]|] eqn:En; try done. intros [= <-]. constructor; try done.
  - cbn. split; [|done]. intros E. apply Hs in E. congruence.
  - cbn. intros m [= <-]. split; [by eapply Hj|]. apply lookup_lt_Some in En. lia.
Qed.

Lemma pool_step_ok x p p' : pool_ok p -> pool_step x p = Some p' -> pool_ok p'.
Proof.
  intros Hok. destruct x; cbn [pool_step].
  - intros [= <-]. by apply Submit_push_ok.
  - by apply Submit_notify_ok.
  - by apply WorkerLoop_lock_ok.
  - by apply WorkerLoop_run_ok.
  - unfold spurious_wakeup. destruct (workers_ p !! i) as [[]|] eqn:Ei; try done. intros [= <-].
    pose proof (wake_one_ok p i (notifies p) Ei ltac:(lia) Hok) as Hw. by destruct p.
  - by apply Destructor_stop_ok.
  - by apply Destructor_notify_ok.
  - by apply Destructor_join_ok.
Qed.

Lemma pool_run_ok schedule p p' : pool_ok p -> pool_run schedule p = Some p' -> pool_ok p'.
Proof.
  revert p. induction schedule as [|x schedule IH]; intros p Hok; cbn [pool_run]; [by intros [= <-]|].
  destruct (pool_step x p) as [p1|] eqn:E; [|done]. apply IH. by eapply pool_step_ok.
Qed.

Lemma ThreadPool_new_ok n : pool_ok (ThreadPool_new n).
Proof.
  constructor; cbn; try done.
  - rewrite app_nil_r. induction n as [|n IH]; [done|exact IH].
  - intros Hin. lia.
  - by intros [? _]%elem_of_replicate.
Qed.

Lemma pool_step_length x p p' : pool_step x p = Some p' -> length (workers_ p') = length (workers_ p).
Proof.
  destruct x; cbn [pool_step].
  - intros [= <-]. unfold Submit_push. by destruct (stop_ p).
  - unfold Submit_notify. destruct (notifies p); [done|]. cbn [workers_].
    destruct (workers_ p !! i) as [[]|]; try (destruct (existsb _ _); [done|]); intros [= <-]; cbn; by rewrite ?length_insert.
  - unfold WorkerLoop_lock. destruct (workers_ p !! i) as [[]|]; try done.
    destruct (negb _); [|destruct (tasks_ p)]; intros [= <-]; cbn; by rewrite length_insert.
  - unfold WorkerLoop_run. destruct (workers_ p !! i) as [[]|]; try done. intros [= <-]. cbn. by rewrite length_insert.
  - unfold spurious_wakeup. destruct (workers_ p !! i) as [[]|]; try done. intros [= <-]. cbn. by rewrite length_insert.
  - unfold Destructor_stop. destruct (destructor p); try done. by intros [= <-].
  - unfold Destructor_notify. destruct (destructor p); try done. intros [= <-]. cbn. by rewrite length_fmap.
  - unfold Destructor_join. destruct (destructor p) as [| |n]; try done. destruct (workers_ p !! n) as [[]|]; try done.
    by intros [= <-].
Qed.

Lemma pool_run_length schedule n p :
  pool_run schedule (ThreadPool_new n) = Some p -> length (workers_ p) = n.
Proof.
  enough (Hgen : forall p0, pool_run schedule p0 = Some p -> length (workers_ p) = length (workers_ p0)).
  { intros E. apply Hgen in E. by rewrite E; cbn; rewrite length_replicate. }
  induction schedule as [|x schedule IH]; intros p0; cbn [pool_run]; [by intros [= ->]|].
  destruct (pool_step x p0) as [p1|] eqn:E; [|done]. intros Hr. apply IH in Hr. apply pool_step_length in E. congruence.
Qed.

(** ** How long a schedule can be *)

Definition weight (x : Worker) : nat := match x with AtLock => 1 | Running _ => 2 | _ => 0 end.
Definition destructor_weight (n : nat) (d : Destructor) : nat :=
  match d with NotCalled => 2 * n + 2 | Stopping => 2 * n + 1 | Joining j => n - j end.
Definition potential p : nat :=
  2 * length (tasks_ p) + 2 * notifies p + count weight (workers_ p) + destructor_weight (length (workers_ p)) (destructor p).

(** What a step may add: only new tasks and spurious wakeups make more work. *)
Definition step_cost (x : Step) : nat := match x with SSubmit _ => 5 | SSpurious _ => 2 | _ => 0 end.

Lemma count_wake l : (count weight (wake <$> l) <= count weight l + length l)%nat.
Proof. unfold count. induction l as [|x l IH]; cbn in *; [lia|]. destruct x; cbn; lia. Qed.

Ltac pool_cbn := cbn [tasks_ stop_ workers_ notifies destructor set_worker set_destructor destructor_weight weight length] in *.

Lemma potential_step x p p' :
  pool_ok p -> pool_step x p = Some p' -> (S (potential p') <= potential p + step_cost x)%nat.
Proof.
  intros Hok. unfold potential. destruct x; cbn [pool_step step_cost].
  - intros [= <-]. unfold Submit_push. destruct (stop_ p); [lia|]. pool_cbn. rewrite length_app. pool_cbn. lia.
  - unfold Submit_notify. destruct (notifies p) as [|rest] eqn:En; [done|]. cbn [workers_].
    destruct (workers_ p !! i) as [[]|] eqn:Ei.
    2: { intros [= <-]. pose proof (count_insert weight _ _ AtLock _ Ei) as Hc. pool_cbn. rewrite length_insert. lia. }
    all: destruct (existsb _ _); [done|]; intros [= <-]; pool_cbn; lia.
  - unfold WorkerLoop_lock. destruct (workers_ p !! i) as [[]|] eqn:Ei; try done.
    destruct (negb _); [|destruct (tasks_ p) as [|task rest] eqn:Et]; intros [= <-]; pool_cbn;
      match goal with |- context [<[i := ?x]> _] => pose proof (count_insert weight _ _ x _ Ei) as Hc end;
      pool_cbn; rewrite ?Et, length_insert; pool_cbn; lia.
  - unfold WorkerLoop_run. destruct (workers_ p !! i) as [[]|] eqn:Ei; try done. intros [= <-].
    pose proof (count_insert weight _ _ AtLock _ Ei) as Hc. pool_cbn. rewrite length_insert. lia.
  - unfold spurious_wakeup. destruct (workers_ p !! i) as [[]|] eqn:Ei; try done. intros [= <-].
    pose proof (count_insert weight _ _ AtLock _ Ei) as Hc. pool_cbn. rewrite length_insert. lia.
  - unfold Destructor_stop. destruct (destructor p); try done. intros [= <-]. pool_cbn. lia.
  - unfold Destructor_notify. destruct (destructor p); try done. intros [= <-]. pool_cbn. rewrite length_fmap.
    pose proof (count_wake (workers_ p)). lia.
  - unfold Destructor_join. destruct (destructor p) as [| |n] eqn:Ed; try done.
    destruct (workers_ p !! n) as [[]|] eqn:En; try done. intros [= <-]. apply lookup_lt_Some in En. pool_cbn. lia.
Qed.

Lemma potential_run schedule p p' :
  pool_ok p -> pool_run schedule p = Some p' -> (length schedule + potential p' <= potential p + sum_list (step_cost <$> schedule))%nat.
Proof.
  revert p. induction schedule as [|x schedule IH]; intros p Hok; cbn [pool_run]; [intros [= <-]; cbn; lia|].
  destruct (pool_step x p) as [p1|] eqn:E; [|done]. cbn [mbind option_bind]. intros Hrun.
  pose proof (potential_step x p p1 Hok E). specialize (IH p1 (pool_step_ok _ _ _ Hok E) Hrun).
  change (S (length schedule) + potential p' <= potential p + (step_cost x + sum_list (step_cost <$> schedule)))%nat. lia.
Qed.

Lemma potential_new n : potential (ThreadPool_new n) = (3 * n + 2)%nat.
Proof.
  unfold potential, ThreadPool_new. pool_cbn. rewrite length_replicate.
  assert (Hc : count weight (replicate n AtLock) = n) by (unfold count; induction n as [|n IH]; [done|]; cbn in *; lia).
  rewrite Hc. lia.
Qed.

(** ** What every schedule leads to *)

(** Nothing is left to do: no thread of the pool or of its users can take a step. *)
Definition quiescent p : Prop :=
  forall x, step_cost x = 0%nat -> x <> SStop -> pool_step x p = None.

Lemma quiescent_worker p i x : quiescent p -> workers_ p !! i = Some x -> x = Asleep \/ x = Exited.
Proof.
  intros Hq Hi. pose proof (Hq (SLock i) eq_refl ltac:(done)) as Hl. pose proof (Hq (SRun i) eq_refl ltac:(done)) as Hr.
  cbn [pool_step] in *. unfold WorkerLoop_lock in Hl. unfold WorkerLoop_run in Hr. rewrite Hi in *.
  destruct x as [| |task|]; [|by left|done|by right]. destruct (negb _); [done|]. by destruct (tasks_ p).
Qed.

Lemma quiescent_notifies p : quiescent p -> notifies p = 0%nat.
Proof.
  intros Hq. destruct (notifies p) as [|rest] eqn:En; [done|]. exfalso.
  destruct (existsb is_asleep (workers_ p)) eqn:Ea.
  - apply is_asleep_spec, list_elem_of_lookup in Ea as [i Hi]. pose proof (Hq (SNotify i) eq_refl ltac:(done)) as H.
    cbn [pool_step] in H. unfold Submit_notify in H. rewrite En in H. cbn [workers_] in H. by rewrite Hi in H.
  - pose proof (Hq (SNotify (length (workers_ p))) eq_refl ltac:(done)) as H. cbn [pool_step] in H.
    unfold Submit_notify in H. rewrite En in H. cbn [workers_] in H.
    rewrite (lookup_ge_None_2 (workers_ p)), Ea in H by lia. done.
Qed.

(** No worker is at the mutex or busy. *)
Lemma quiescent_idle p : quiescent p -> count at_lock (workers_ p) = 0%nat /\ concat (running <$> workers_ p) = [].
Proof.
  intros Hq. assert (Hall : Forall (fun x => x = Asleep \/ x = Exited) (workers_ p)).
  { apply Forall_lookup. intros i x Hi. by eapply quiescent_worker. }
  unfold count. induction Hall as [|x l [->| ->] _ [IH1 IH2]]; done.
Qed.

Lemma quiescent_done p : pool_ok p -> quiescent p -> workers_ p <> [] -> tasks_ p = [].
Proof.
  intros Hok Hq Hne. destruct (quiescent_idle p Hq) as [Hc _]. pose proof (quiescent_notifies p Hq) as Hn.
  destruct (workers_ p !! 0%nat) as [x|] eqn:E0; [|by destruct (workers_ p)].
  pose proof (list_elem_of_lookup_2 _ _ _ E0) as Hin.
  destruct (quiescent_worker p 0 x Hq E0) as [->| ->].
  - pose proof (po_wakeup p Hok Hin) as Hw. rewrite Hc, Hn in Hw. by destruct (tasks_ p); [|cbn in Hw; lia].
  - by apply (po_exited p Hok Hin).
Qed.

Lemma quiescent_destroyed p :
  pool_ok p -> quiescent p -> destructor p <> NotCalled ->
  destructor p = Joining (length (workers_ p)) /\ Forall (fun x => x = Exited) (workers_ p).
Proof.
  intros Hok Hq Hd. destruct (destructor p) as [| |n] eqn:Ed; [done| |].
  - pose proof (Hq SNotifyAll eq_refl ltac:(done)) as H. cbn in H. unfold Destructor_notify in H. by rewrite Ed in H.
  - destruct (po_joining p Hok n Ed) as [Hna Hle].
    assert (Hex : Forall (fun x => x = Exited) (workers_ p)).
    { apply Forall_lookup. intros i x Hi. destruct (quiescent_worker p i x Hq Hi) as [->| ->]; [|done].
      destruct Hna. by eapply list_elem_of_lookup_2. }
    split; [|done]. destruct (decide (n = length (workers_ p))) as [->|Hne]; [done|].
    destruct (lookup_lt_is_Some_2 (workers_ p) n ltac:(lia)) as [x Hx].
    pose proof (Hq SJoin eq_refl ltac:(done)) as H. cbn in H. unfold Destructor_join in H. rewrite Ed, Hx in H.
    rewrite Forall_lookup in Hex. by rewrite (Hex _ _ Hx) in H.
Qed.

(** The workers that were joined have exited. *)
Definition joined_ok p : Prop :=
  match destructor p with Joining n => Forall (fun x => x = Exited) (take n (workers_ p)) | _ => True end.

Lemma joined_insert n l i x y :
  Forall (fun x => x = Exited) (take n l) -> l !! i = Some y -> y <> Exited -> Forall (fun x => x = Exited) (take n (<[i := x]> l)).
Proof.
  intros Hall Hi Hy. destruct (decide (i < n)%nat) as [Hlt|Hge].
  - destruct Hy. rewrite Forall_lookup in Hall. apply (Hall i). by rewrite lookup_take_lt.
  - by rewrite take_insert_ge by lia.
Qed.

Lemma joined_step x p p' : joined_ok p -> pool_step x p = Some p' -> joined_ok p'.
Proof.
  unfold joined_ok. destruct x; cbn [pool_step].
  - intros Hj [= <-]. unfold Submit_push. by destruct (stop_ p).
  - unfold Submit_notify. destruct (notifies p); [done|]. cbn [workers_].
    destruct (workers_ p !! i) as [[]|] eqn:Ei; try (destruct (existsb _ _); [done|]; by intros Hj [= <-]).
    intros Hj [= <-]. pool_cbn. destruct (destructor p); try done. by eapply joined_insert.
  - unfold WorkerLoop_lock. destruct (workers_ p !! i) as [[]|] eqn:Ei; try done. intros Hj.
    destruct (negb _); [|destruct (tasks_ p)]; intros [= <-]; pool_cbn; destruct (destructor p); try done; by eapply joined_insert.
  - unfold WorkerLoop_run. destruct (workers_ p !! i) as [[]|] eqn:Ei; try done. intros Hj [= <-]. pool_cbn.
    destruct (destructor p); try done. by eapply joined_insert.
  - unfold spurious_wakeup. destruct (workers_ p !! i) as [[]|] eqn:Ei; try done. intros Hj [= <-]. pool_cbn.
    destruct (destructor p); try done. by eapply joined_insert.
  - unfold Destructor_stop. destruct (destructor p); try done. by intros _ [= <-].
  - unfold Destructor_notify. destruct (destructor p); try done. intros _ [= <-]. pool_cbn. constructor.
  - unfold Destructor_join. destruct (destructor p) as [| |n] eqn:Ed; try done.
    destruct (workers_ p !! n) as [[]|] eqn:En; try done. intros Hj [= <-]. pool_cbn.
    rewrite (take_S_r _ _ _ En). by apply Forall_app_2; [|constructor].
Qed.

(** C20: every accepted task is run, and the destructor returns. Take a pool with at least
    one worker and any interleaving of its workers, of [Submit] calls from any threads, of
    the destructor and of spurious wakeups, with tasks that return. The schedule's length
    is bounded by the number of workers, submissions and spurious wakeups, so no thread
    waits or spins for ever while others run; and when no thread can move any more, every
    accepted task has returned, exactly once, and a destructor that was called has
    returned, with all workers gone. Tasks are started in the order of submission, and
    one is refused only after the destructor was called. *)
Theorem pool_runs_every_task num_workers schedule p :
  (0 < num_workers)%nat -> pool_run schedule (ThreadPool_new num_workers) = Some p ->
  (length schedule <= 3 * num_workers + 2 + sum_list (step_cost <$> schedule))%nat /\
  started p `prefix_of` accepted p /\
  (quiescent p ->
     finished p ≡ₚ accepted p /\
     (destructor p <> NotCalled ->
        destructor p = Joining (length (workers_ p)) /\ Forall (fun x => x = Exited) (workers_ p))) /\
  (forall task, destructor p = NotCalled -> accepted (Submit_push task p) = accepted p ++ [task]).
Proof.
  intros Hn Hrun. pose proof (ThreadPool_new_ok num_workers) as Hnew. pose proof (pool_run_ok _ _ _ Hnew Hrun) as Hok.
  split; [|split; [|split]].
  - pose proof (potential_run _ _ _ Hnew Hrun) as Hp. rewrite potential_new in Hp. lia.
  - rewrite (po_queue p Hok). by eexists.
  - intros Hq. split; [|by apply quiescent_destroyed]. destruct (quiescent_idle p Hq) as [_ Hr].
    assert (Hne : workers_ p <> []).
    { enough (length (workers_ p) = num_workers) by (intros E; rewrite E in *; cbn in *; lia). by eapply pool_run_length. }
    rewrite (po_queue p Hok), (quiescent_done p Hok Hq Hne), app_nil_r, (po_running p Hok), Hr. done.
  - intros task Hd. unfold Submit_push. by rewrite (proj2 (po_stop p Hok) Hd).
Qed.

End ThreadPool.

(** ** A concrete pool: two workers, three tasks, and the destructor *)

Definition example_schedule : list Step :=
  [SLock 0; SLock 1; SSubmit 1%Z; SSubmit 2%Z; SNotify 1; SLock 1; SNotify 0; SSubmit 3%Z; SStop; SLock 0; SSubmit 4%Z;
   SRun 1; SNotify 0; SLock 1; SNotifyAll; SRun 1; SRun 0; SLock 1; SLock 0; SJoin; SJoin].

Definition example_pool : ThreadPool (Task := Z) :=
  default (ThreadPool_new 2) (pool_run example_schedule (ThreadPool_new 2)).

Lemma example_quiescent : quiescent example_pool.
Proof.
  intros x Hc Hs. destruct x; try discriminate Hc; try (by destruct Hs); try (destruct i as [|[|i]]); vm_compute; reflexivity.
Qed.

Lemma pool_runs_every_task_witness :
  accepted example_pool = [1; 2; 3]%Z /\ finished example_pool = [1; 3; 2]%Z /\ finished example_pool ≡ₚ accepted example_pool /\
  Forall (fun x => x = Exited) (workers_ example_pool).
Proof.
  destruct (pool_runs_every_task 2 example_schedule example_pool) as (_ & _ & Hq & _).
  - lia.
  - vm_compute. reflexivity.
  - destruct (Hq example_quiescent) as [Hp Hd]. split; [vm_compute; reflexivity|]. split; [vm_compute; reflexivity|].
    split; [exact Hp|]. apply Hd. intros E. vm_compute in E. discriminate E.
Defined.

(** A pool without workers accepts tasks that nobody will ever run. *)
Theorem empty_pool_runs_nothing (schedule : list (Step (Task := Z))) p :
  pool_run schedule (ThreadPool_new 0) = Some p -> started p = [].
Proof.
  intros Hrun. enough (Hgen : forall p0, workers_ p0 = [] -> pool_run schedule p0 = Some p -> started p = started p0)
    by (by apply Hgen in Hrun). clear Hrun.
  induction schedule as [|x schedule IH]; intros p0 Hw; cbn [pool_run]; [by intros [= ->]|].
  destruct (pool_step x p0) as [p1|] eqn:E; [|done]. intros Hr.
  assert (Hsame : workers_ p1 = [] /\ started p1 = started p0).
  { split; [apply pool_step_length in E; rewrite Hw in E; by apply nil_length_inv in E|].
    destruct x; cbn [pool_step] in E; unfold Submit_push, Submit_notify, WorkerLoop_lock, WorkerLoop_run, spurious_wakeup,
      Destructor_stop, Destructor_notify, Destructor_join in E; cbn [workers_] in E; rewrite ?Hw in E; repeat case_match; by simplify_eq. }
  destruct Hsame as [Hw1 <-]. by apply IH.
Qed.
