(* ===== verification/Servers.v ===== *)
(** * The blocking and the thread-pool server ([src/server/blocking_server.cpp],
    [src/server/thread_pool_server.cpp])

    Both classes bind in the constructor and accept in [Run]; they differ in who serves a
    connection. The answers of [accept] are a script, with what the loop sees of [stop_]
    before and after each. The thread-pool server is a machine of ThreadPool.v whose tasks
    are the descriptors of clients. *)

From Stdlib Require Import Strings.String.
From S2P Require Import Prelude Common BigEndian Codec Crc32 Os WalRecord RaftTypes RpcCodec.
From S2P Require Import ShardedKV WalWriter DurableStorage ClusterConfig Socket Handler Session ThreadPool.

(** The members that the two classes share. *)
Record TcpServer := mkTcpServer {
  ts_host : bytes;
  ts_port : Z;
  ts_stop : bool;
  ts_listen_fd : Z;
  ts_bind_status : Status
}.

(** One turn of an accept loop: the answer of [accept], and [stop_] when the loop reads it
    at its head and after the call. *)
Record AcceptTurn := mkAcceptTurn {
  at_stop_before : bool;
  at_answer : Sock + Z;
  at_stop_after : bool
}.

Inductive AcceptEnd := AcceptReturns (st : Status) | AcceptWaits.

Section Servers.
Context `{Libc} `{Resolver}.

Definition BlockingServer_new (host : bytes) (port : Z) (k : Kern) : TcpServer * Kern :=
  let '(listen_result, k) := TcpListen host port k in
  match listen_result with
  | Failed st => (mkTcpServer host port false Fd_none st, k)
  | Value fd =>
      let '(bound, k) := GetBoundPort fd port k in
      (mkTcpServer host bound false fd Status_Ok, k)
  end.

Definition BlockingServer_Stop (s : TcpServer) (k : Kern) : TcpServer * Kern :=
  let '(wake_conn, k) := TcpConnect (ts_host s) (ts_port s) k in
  let k := match wake_conn with Value fd => CloseQuietly fd k | Failed _ => k end in
  let '(listen_fd, k) := Fd_reset (ts_listen_fd s) k in
  (mkTcpServer (ts_host s) (ts_port s) true listen_fd (ts_bind_status s), k).

Section Blocking.
Context {W : Type} (h : RequestHandler W).
Implicit Types w : W.

(** The loop of [Run]. Also gives what the kernel accepted for each client served. *)
Fixpoint BlockingServer_Run_loop (turns : list AcceptTurn) (k : Kern) w : option (AcceptEnd * list bytes * Kern * W) :=
  match turns with
  | [] => Some (AcceptWaits, [], k, w)
  | t :: turns =>
      if at_stop_before t then Some (AcceptReturns Status_Ok, [], k, w)
      else
        match at_answer t with
        | inr errno =>
            if errno =? EINTR then BlockingServer_Run_loop turns k w
            else if at_stop_after t then Some (AcceptReturns Status_Ok, [], k, w)
            else Some (AcceptReturns (IoError (str "accept: ") errno), [], k, w)
        | inl stream =>
            let '(client_fd, _, k) := sys_new_fd None k in
            if at_stop_after t then Some (AcceptReturns Status_Ok, [], CloseQuietly client_fd k, w)
            else
              '(w, stream) ← ServeClientSession h w stream;
              '(e, outs, k, w) ← BlockingServer_Run_loop turns (CloseQuietly client_fd k) w;
              Some (e, sk_out stream :: outs, k, w)
        end
  end.

Definition BlockingServer_Run (s : TcpServer) (turns : list AcceptTurn) (k : Kern) w : option (AcceptEnd * list bytes * Kern * W) :=
  if negb (Status_ok (ts_bind_status s)) then Some (AcceptReturns (ts_bind_status s), [], k, w)
  else BlockingServer_Run_loop turns k w.

End Blocking.

(** ** The thread-pool server *)

(** The pool's tasks are client descriptors; [None]: [Run] has not returned. *)
Record ThreadPoolServer := mkThreadPoolServer {
  tp_server : TcpServer;
  tp_pool : ThreadPool (Task := Z);
  tp_run : option Status
}.

Definition ThreadPoolServer_new (host : bytes) (port : Z) (num_workers : nat) (k : Kern) : ThreadPoolServer * Kern :=
  let pool := ThreadPool_new num_workers in
  let '(s, k) := BlockingServer_new host port k in
  (mkThreadPoolServer s pool (if Status_ok (ts_bind_status s) then None else Some (ts_bind_status s)), k).

Definition ThreadPoolServer_Stop (x : ThreadPoolServer) (k : Kern) : ThreadPoolServer * Kern :=
  let '(s, k) := BlockingServer_Stop (tp_server x) k in
  (mkThreadPoolServer s (tp_pool x) (tp_run x), k).

(** One turn of [Run]; the lambda of [Submit] is the client's descriptor. *)
Definition ThreadPoolServer_accept (t : AcceptTurn) (x : ThreadPoolServer) (k : Kern) : ThreadPoolServer * Kern :=
  let return_ st k := (mkThreadPoolServer (tp_server x) (tp_pool x) (Some st), k) in
  if at_stop_before t then return_ Status_Ok k
  else
    match at_answer t with
    | inr errno =>
        if errno =? EINTR then (x, k)
        else if at_stop_after t then return_ Status_Ok k
        else return_ (IoError (str "accept: ") errno) k
    | inl _ =>
        let '(client_fd, _, k) := sys_new_fd None k in
        if at_stop_after t then return_ Status_Ok (CloseQuietly client_fd k)
        else (mkThreadPoolServer (tp_server x) (Submit_push client_fd (tp_pool x)) (tp_run x), k)
    end.

(** The steps of the server: a turn of [Run] while it runs, a step of the pool. The task
    of a worker serves the client (Session.v) and then closes its descriptor. The pool's
    destructor runs after [Run] has returned. [Stop] may be called at any time. *)
Inductive ServerStep := SvAccept (t : AcceptTurn) | SvStop | SvPool (x : Step (Task := Z)).

Definition server_step (ev : ServerStep) (x : ThreadPoolServer) (k : Kern) : option (ThreadPoolServer * Kern) :=
  match ev with
  | SvAccept t => match tp_run x with None => Some (ThreadPoolServer_accept t x k) | Some _ => None end
  | SvStop => Some (ThreadPoolServer_Stop x k)
  | SvPool (SSubmit _) => None
  | SvPool SStop =>
      match tp_run x with
      | None => None
      | Some _ => p ← pool_step SStop (tp_pool x); Some (mkThreadPoolServer (tp_server x) p (tp_run x), k)
      end
  | SvPool (SRun i) =>
      p ← pool_step (SRun i) (tp_pool x);
      let k := match workers_ (tp_pool x) !! i with Some (Running fd) => CloseQuietly fd k | _ => k end in
      Some (mkThreadPoolServer (tp_server x) p (tp_run x), k)
  | SvPool y => p ← pool_step y (tp_pool x); Some (mkThreadPoolServer (tp_server x) p (tp_run x), k)
  end.

Fixpoint server_run (evs : list ServerStep) (x : ThreadPoolServer) (k : Kern) : option (ThreadPoolServer * Kern) :=
  match evs with
  | [] => Some (x, k)
  | ev :: evs => '(x, k) ← server_step ev x k; server_run evs x k
  end.

End Servers.

(** ** The blocking server serves its clients in turn *)

Section BlockingProofs.
Context `{Libc} `{Resolver} {W : Type} (h : RequestHandler W).
Implicit Types w : W.

(** The clients that the loop serves before it returns, and how it ends. *)
Fixpoint served_clients (turns : list AcceptTurn) : list Sock * AcceptEnd :=
  match turns with
  | [] => ([], AcceptWaits)
  | mkAcceptTurn true _ _ :: _ => ([], AcceptReturns Status_Ok)
  | mkAcceptTurn false (inr errno) after :: turns =>
      if errno =? EINTR then served_clients turns
      else ([], AcceptReturns (if after then Status_Ok else IoError (str "accept: ") errno))
  | mkAcceptTurn false (inl _) true :: _ => ([], AcceptReturns Status_Ok)
  | mkAcceptTurn false (inl stream) false :: turns =>
      let '(clients, e) := served_clients turns in (stream :: clients, e)
  end.

(** Each client alone with the handler, one after the other. *)
Fixpoint serve_in_turn (clients : list Sock) w : option (list bytes * W) :=
  match clients with
  | [] => Some ([], w)
  | stream :: clients =>
      r ← process_all h (sk_in stream) w;
      '(outs, w) ← serve_in_turn clients (sv_world r);
      Some (sv_out r :: outs, w)
  end.

Lemma accepted_fd_closed k fd e k1 : sys_new_fd None k = (fd, e, k1) -> same_fds k (CloseQuietly fd k1).
Proof.
  intros E. apply sys_new_fd_spec in E as [[-> Hs]|Hg]; [by rewrite CloseQuietly_none|]. by apply CloseQuietly_gained.
Qed.

(** The blocking server. Whatever [accept] answers, if clients send any bytes in any
    pieces and calls are at most interrupted, the loop serves exactly the clients that it
    accepted before [stop_] was seen or [accept] failed, one after the other on the store
    that the one before left, each getting what processing its input gives; it returns
    success on [stop_] and the error otherwise, and every descriptor is closed. *)
Lemma blocking_loop_serves turns k w outs w' :
  Forall (fun sk => sk_out sk = [] /\ calm (sk_recv sk) /\ calm (sk_send sk)) (served_clients turns).1 ->
  serve_in_turn (served_clients turns).1 w = Some (outs, w') ->
  exists k', BlockingServer_Run_loop h turns k w = Some ((served_clients turns).2, outs, k', w') /\ same_fds k k'.
Proof.
  revert k w outs. induction turns as [|[before answer after] turns IH]; intros k w outs;
    cbn [served_clients BlockingServer_Run_loop at_stop_before at_answer at_stop_after].
  { intros _ [= <- <-]. by exists k. }
  destruct before; [intros _ [= <- <-]; by exists k|]. destruct answer as [stream|errno].
  2: { destruct (errno =? EINTR); [apply IH|]. destruct after; intros _ [= <- <-]; by exists k. }
  destruct (sys_new_fd None k) as [[fd e] k1] eqn:Ef. pose proof (accepted_fd_closed k fd e k1 Ef) as Hfd.
  destruct after; [intros _ [= <- <-]; by eexists|].
  destruct (served_clients turns) as [clients e'] eqn:Es. cbn [fst snd]. intros [(Ho & Hr & Hsd) Hall]%Forall_cons.
  cbn [serve_in_turn]. destruct (process_all h (sk_in stream) w) as [r|] eqn:Er; [|done]. cbn [mbind option_bind].
  destruct (serve_in_turn clients (sv_world r)) as [[outs1 w1]|] eqn:E1; [|done]. intros [= <- <-].
  destruct (ServeClientSession_spec h w stream r Er) as (w2 & sk2 & sent & -> & Hout & _ & Hcalm).
  destruct (Hcalm Hr Hsd) as [-> ->]. cbn [mbind option_bind].
  destruct (IH (CloseQuietly fd k1) (sv_world r) outs1 Hall E1) as (k' & -> & Hk). cbn [mbind option_bind].
  exists k'. rewrite Hout, Ho. split; [done|]. by eapply same_fds_trans.
Qed.

(** The destructor closes the listener that the constructor opened. *)
Lemma BlockingServer_closes host port k s k1 k2 :
  BlockingServer_new host port k = (s, k1) -> same_fds k1 k2 -> same_fds k (Fd_destroy (ts_listen_fd s) k2).
Proof.
  unfold BlockingServer_new. destruct (TcpListen host port k) as [[fd|st] k'] eqn:E; apply TcpListen_spec in E.
  - destruct (GetBoundPort fd port k') as [bound k''] eqn:E2. intros [= <- <-] Hs.
    assert (Hs2 : same_fds k' k'').
    { unfold GetBoundPort, sys_getsockname in E2. destruct (k_name k') as [|[[]|] l]; by injection E2 as <- <-. }
    cbn [ts_listen_fd]. apply CloseQuietly_gained. eapply gains_fd_same; [|by eapply same_fds_trans]. done.
  - destruct E as [_ Hs']. intros [= <- <-] Hs. cbn. by eapply same_fds_trans.
Qed.

End BlockingProofs.

(** ** The thread-pool server closes every client exactly once *)

(** The clients whose descriptors the pool still owns: being served, or waiting. *)
Definition open_clients (p : ThreadPool (Task := Z)) : list Z := concat (running <$> workers_ p) ++ tasks_ p.

Lemma open_clients_run i fd p p' :
  workers_ p !! i = Some (Running fd) -> WorkerLoop_run i p = Some p' -> open_clients p ≡ₚ fd :: open_clients p'.
Proof.
  intros Hi. unfold WorkerLoop_run. rewrite Hi. intros [= <-]. unfold open_clients. cbn [workers_ tasks_ set_worker].
  pose proof (running_insert _ _ AtLock _ Hi) as Hp. cbn [running] in Hp. rewrite app_nil_r in Hp. rewrite <- Hp.
  rewrite (Permutation_app_comm _ [fd]). done.
Qed.

Lemma open_clients_step x p p' :
  match x with SSubmit _ | SRun _ => False | _ => True end -> pool_step x p = Some p' -> open_clients p' ≡ₚ open_clients p.
Proof.
  unfold open_clients. destruct x; cbn [pool_step]; intros Hx; try done.
  - unfold Submit_notify. destruct (notifies p); [done|]. cbn [workers_].
    destruct (workers_ p !! i) as [[]|] eqn:Ei; try (destruct (existsb _ _); [done|]; by intros [= <-]).
    intros [= <-]. cbn [workers_ tasks_ set_worker]. pose proof (running_insert _ _ AtLock _ Ei) as Hp.
    cbn [running] in Hp. rewrite !app_nil_r in Hp. by rewrite Hp.
  - unfold WorkerLoop_lock. destruct (workers_ p !! i) as [[]|] eqn:Ei; try done.
    assert (Hp : forall y, concat (running <$> <[i := y]> (workers_ p)) ≡ₚ concat (running <$> workers_ p) ++ running y).
    { intros y. pose proof (running_insert _ _ y _ Ei) as Hp. cbn [running] in Hp. by rewrite app_nil_r in Hp. }
    destruct (negb _); [|destruct (tasks_ p) as [|task rest] eqn:Et]; intros [= <-];
      cbn [workers_ tasks_ set_worker]; rewrite Hp; cbn [running]; rewrite ?Et, ?app_nil_r, <- ?app_assoc; done.
  - unfold spurious_wakeup. destruct (workers_ p !! i) as [[]|] eqn:Ei; try done. intros [= <-].
    cbn [workers_ tasks_ set_worker]. pose proof (running_insert _ _ AtLock _ Ei) as Hp.
    cbn [running] in Hp. rewrite !app_nil_r in Hp. by rewrite Hp.
  - unfold Destructor_stop. destruct (destructor p); try done. by intros [= <-].
  - unfold Destructor_notify. destruct (destructor p); try done. intros [= <-]. cbn [workers_ tasks_ set_destructor].
    by destruct (wake_all (workers_ p)) as (_ & -> & _).
  - unfold Destructor_join. destruct (destructor p) as [| |n]; try done. destruct (workers_ p !! n) as [[]|]; try done.
    by intros [= <-].
Qed.

Section ThreadPoolServerProofs.
Context `{Libc} `{Resolver}.
Implicit Types (x : ThreadPoolServer) (k : Kern).

Record server_ok (k0 : Kern) x k : Prop := {
  sv_open : forall fd, fd ∈ k_open k <->
    fd ∈ k_open k0 \/ (0 <= fd /\ fd = ts_listen_fd (tp_server x)) \/ fd ∈ open_clients (tp_pool x);
  sv_nodup : NoDup (open_clients (tp_pool x));
  sv_fresh : forall fd, fd ∈ open_clients (tp_pool x) -> 0 <= fd /\ fd ∉ k_open k0 /\ fd <> ts_listen_fd (tp_server x);
  sv_listen : 0 <= ts_listen_fd (tp_server x) -> ts_listen_fd (tp_server x) ∉ k_open k0;
  sv_bad : k_bad_closes k = k_bad_closes k0;
  sv_run : tp_run x = None -> destructor (tp_pool x) = NotCalled;
  sv_pool : pool_ok (tp_pool x)
}.

(** Only the descriptors that are open and the pool's clients matter. *)
Lemma server_ok_same k0 x k k' p r :
  server_ok k0 x k -> same_fds k k' -> open_clients p ≡ₚ open_clients (tp_pool x) -> pool_ok p ->
  (r = None -> destructor p = NotCalled) -> server_ok k0 (mkThreadPoolServer (tp_server x) p r) k'.
Proof.
  intros [H1 H2 H3 H4 H5 H6 H7] [Hs Hs'] Hp Hok Hr. constructor; cbn [tp_server tp_pool tp_run]; try done.
  - intros fd. by rewrite Hs, H1, Hp.
  - by rewrite Hp.
  - intros fd. rewrite Hp. apply H3.
  - congruence.
Qed.

Lemma Submit_clients fd p : pool_ok p -> destructor p = NotCalled -> open_clients (Submit_push fd p) = open_clients p ++ [fd].
Proof.
  intros Hok Hd. unfold Submit_push. rewrite (proj2 (po_stop p Hok) Hd). unfold open_clients. cbn. by rewrite app_assoc.
Qed.

Lemma accept_ok k0 t x k x' k' :
  server_ok k0 x k -> tp_run x = None -> ThreadPoolServer_accept t x k = (x', k') -> server_ok k0 x' k'.
Proof.
  intros Hok Hrun. pose proof Hok as [H1 H2 H3 H4 H5 H6 H7]. specialize (H6 Hrun).
  assert (Hret : forall st k1, same_fds k k1 -> server_ok k0 (mkThreadPoolServer (tp_server x) (tp_pool x) (Some st)) k1)
    by (intros st k1 Hs; by apply (server_ok_same k0 x k)).
  unfold ThreadPoolServer_accept. destruct (at_stop_before t); [intros [= <- <-]; by apply Hret|].
  destruct (at_answer t) as [stream|errno].
  2: { destruct (errno =? EINTR); [by intros [= <- <-]|]. destruct (at_stop_after t); intros [= <- <-]; by apply Hret. }
  destruct (sys_new_fd None k) as [[fd e] k1] eqn:Ef. pose proof (accepted_fd_closed k fd e k1 Ef) as Hfd.
  destruct (at_stop_after t); [intros [= <- <-]; by apply Hret|]. intros [= <- <-].
  unfold sys_new_fd in Ef. destruct (open_lowest k) as [fd' k2] eqn:El. injection Ef as <- <- <-.
  apply open_lowest_spec in El as (Hpos & Hnew & Hopen & Hbad). rewrite H1 in Hnew.
  constructor; cbn [tp_server tp_pool tp_run]; try rewrite Submit_clients by done.
  - intros y. rewrite Hopen, elem_of_union, elem_of_singleton, H1, elem_of_app, list_elem_of_singleton. tauto.
  - apply NoDup_app. split; [done|]. split; [|apply NoDup_singleton]. intros y Hy ->%list_elem_of_singleton. tauto.
  - intros y [Hy| ->%list_elem_of_singleton]%elem_of_app; [by apply H3|]. split; [done|]. split; [tauto|]. intros ->. tauto.
  - done.
  - congruence.
  - intros _. unfold Submit_push. by destruct (stop_ (tp_pool x)).
  - by apply Submit_push_ok.
Qed.

Lemma Stop_ok k0 x k x' k' : server_ok k0 x k -> ThreadPoolServer_Stop x k = (x', k') -> server_ok k0 x' k'.
Proof.
  intros [H1 H2 H3 H4 H5 H6 H7]. unfold ThreadPoolServer_Stop, BlockingServer_Stop.
  destruct (TcpConnect _ _ k) as [conn k1] eqn:Ec. apply TcpConnect_spec in Ec.
  set (k2 := match conn with Value fd => CloseQuietly fd k1 | Failed _ => k1 end).
  assert (Hs : same_fds k k2) by (destruct conn; [by apply CloseQuietly_gained|by destruct Ec]). clearbody k2.
  destruct Hs as [Hs Hs']. intros [= <- <-]. unfold CloseQuietly, sys_close. set (l := ts_listen_fd (tp_server x)) in *.
  destruct (Z.leb_spec 0 l) as [Hl|Hl].
  - rewrite bool_decide_true by (rewrite Hs, H1; auto).
    constructor; cbn [tp_server tp_pool tp_run ts_listen_fd k_open k_bad_closes set_open]; try done; [| |congruence].
    + intros y. rewrite elem_of_difference, elem_of_singleton, Hs, H1. split.
      * intros [[?|[[? ?]|?]] ?]; [tauto|done|tauto].
      * intros [Hy|[[? ->]|Hy]]; [|lia|]; (split; [tauto|]); intros ->; [by apply H4|by apply H3 in Hy as (_ & _ & ?)].
    + intros y Hy. destruct (H3 y Hy) as (? & ? & ?). split; [done|]. split; [done|]. lia.
  - constructor; cbn [tp_server tp_pool tp_run ts_listen_fd]; try done; [| |congruence].
    + intros y. rewrite Hs, H1. split; (intros [?|[[? ?]|?]]; [tauto|lia|tauto]).
    + intros y Hy. destruct (H3 y Hy) as (? & ? & ?). split; [done|]. split; [done|]. lia.
Qed.

Lemma Run_task_ok k0 i x k p :
  server_ok k0 x k -> WorkerLoop_run i (tp_pool x) = Some p ->
  server_ok k0 (mkThreadPoolServer (tp_server x) p (tp_run x))
    match workers_ (tp_pool x) !! i with Some (Running fd) => CloseQuietly fd k | _ => k end.
Proof.
  intros [H1 H2 H3 H4 H5 H6 H7] E. pose proof (WorkerLoop_run_ok _ _ _ H7 E) as Hok. pose proof E as E'.
  unfold WorkerLoop_run in E. destruct (workers_ (tp_pool x) !! i) as [[| |fd|]|] eqn:Ei; try done.
  pose proof (open_clients_run i fd _ _ Ei E') as Hp. rewrite Hp in H2. apply NoDup_cons in H2 as [Hnot Hnd].
  destruct (H3 fd) as (Hpos & Hf0 & Hfl); [rewrite Hp; by left|].
  assert (Hin : fd ∈ k_open k) by (rewrite H1, Hp; right; right; by left).
  assert (Ec : CloseQuietly fd k = set_open (k_open k ∖ {[fd]}) (k_bad_closes k) k).
  { unfold CloseQuietly, sys_close. destruct (Z.leb_spec 0 fd); [|lia]. by rewrite bool_decide_true. }
  rewrite Ec. constructor; cbn [tp_server tp_pool tp_run k_open k_bad_closes set_open]; try done.
  - intros y. rewrite elem_of_difference, elem_of_singleton, H1, Hp, elem_of_cons. split.
    + intros [[?|[?|[?|?]]] ?]; tauto.
    + intros [?|[[? ?]|?]]; (split; [tauto|congruence || (intros ->; done)]).
  - intros y Hy. apply H3. rewrite Hp. by right.
  - intros Hr. specialize (H6 Hr). injection E as <-. done.
Qed.

Lemma server_step_ok k0 ev x k x' k' : server_ok k0 x k -> server_step ev x k = Some (x', k') -> server_ok k0 x' k'.
Proof.
  intros Hok. destruct ev as [t| |y]; cbn [server_step].
  - destruct (tp_run x) eqn:Er; [done|]. intros [= E]. by eapply accept_ok.
  - intros [= E]. by eapply Stop_ok.
  - assert (Hpool : forall p, match y with SSubmit _ | SRun _ | SStop => False | _ => True end ->
      pool_step y (tp_pool x) = Some p -> server_ok k0 (mkThreadPoolServer (tp_server x) p (tp_run x)) k).
    { intros p Hy E. pose proof (pool_step_ok _ _ _ (sv_pool _ _ _ Hok) E) as Hp.
      apply (server_ok_same k0 x k); [done|done| |done|].
      - apply (open_clients_step y); [by destruct y|done].
      - intros Hr. pose proof (sv_run _ _ _ Hok Hr) as Hd. destruct y; try done; cbn [pool_step] in E;
          unfold Submit_notify, WorkerLoop_lock, spurious_wakeup, Destructor_notify, Destructor_join in E;
          rewrite ?Hd in E; repeat case_match; by simplify_eq. }
    destruct y; cbv iota beta; try (destruct (pool_step _ (tp_pool x)) as [p|] eqn:E; [|done]; intros [= <- <-]; by apply Hpool); [|].
    + destruct (pool_step _ (tp_pool x)) as [p|] eqn:E; [|done]. intros [= <- <-]. by apply Run_task_ok.
    + destruct (tp_run x) eqn:Er; [|done]. destruct (pool_step SStop (tp_pool x)) as [p|] eqn:E; [|done]. intros [= <- <-].
      apply (server_ok_same k0 x k); [done|done| |by apply (pool_step_ok _ _ _ (sv_pool _ _ _ Hok) E)|done].
      by apply (open_clients_step SStop).
Qed.

Lemma server_run_ok k0 evs x k x' k' : server_ok k0 x k -> server_run evs x k = Some (x', k') -> server_ok k0 x' k'.
Proof.
  revert x k. induction evs as [|ev evs IH]; intros x k Hok; cbn [server_run]; [by intros [= <- <-]|].
  destruct (server_step ev x k) as [[x1 k1]|] eqn:E; [|done]. apply IH. by eapply server_step_ok.
Qed.

Lemma ThreadPoolServer_new_ok host port n k x k' : ThreadPoolServer_new host port n k = (x, k') -> server_ok k x k'.
Proof.
  unfold ThreadPoolServer_new, BlockingServer_new. destruct (TcpListen host port k) as [[fd|st] k1] eqn:E;
    apply TcpListen_spec in E.
  - destruct (GetBoundPort fd port k1) as [bound k2] eqn:E2. intros [= <- <-].
    assert (Hs : same_fds k1 k2).
    { unfold GetBoundPort, sys_getsockname in E2. destruct (k_name k1) as [|[[]|] l]; by injection E2 as <- <-. }
    destruct Hs as [Hs Hs'], E as (Hpos & Hnew & Hopen & Hbad).
    assert (Hnil : open_clients (ThreadPool_new n) = []).
    { unfold open_clients. cbn. rewrite app_nil_r. induction n as [|n IH]; [done|exact IH]. }
    constructor; cbn [tp_server tp_pool tp_run ts_listen_fd]; rewrite ?Hnil; try done; [|apply NoDup_nil_2| |congruence|].
    + intros y. rewrite Hs, Hopen, elem_of_union, elem_of_singleton. split.
      * intros [->|?]; [right; by left|by left].
      * intros [?|[[_ ->]|Hy]]; [by right|by left|by apply elem_of_nil in Hy].
    + intros y Hy. by apply elem_of_nil in Hy.
    + apply ThreadPool_new_ok.
  - intros [= <- <-]. destruct E as [Hst [Hs Hs']].
    assert (Hnil : open_clients (ThreadPool_new n) = []).
    { unfold open_clients. cbn. rewrite app_nil_r. induction n as [|n IH]; [done|exact IH]. }
    constructor; cbn [tp_server tp_pool tp_run ts_listen_fd]; rewrite ?Hnil; try done; [|apply NoDup_nil_2| |].
    + intros y. rewrite Hs. unfold Fd_none. split; [by left|]. intros [?|[[? ?]|Hy]]; [done|lia|by apply elem_of_nil in Hy].
    + intros y Hy. by apply elem_of_nil in Hy.
    + apply ThreadPool_new_ok.
Qed.

Lemma server_step_length ev x k x' k' :
  server_step ev x k = Some (x', k') -> length (workers_ (tp_pool x')) = length (workers_ (tp_pool x)).
Proof.
  destruct ev as [t| |y]; cbn [server_step].
  - destruct (tp_run x); [done|]. unfold ThreadPoolServer_accept, Submit_push. intros E. repeat case_match; by simplify_eq.
  - unfold ThreadPoolServer_Stop. destruct (BlockingServer_Stop _ _). by intros [= <- <-].
  - destruct y; try done; try (destruct (tp_run x); [|done]);
      (destruct (pool_step _ (tp_pool x)) as [p|] eqn:E; [|done]); intros [= <- <-]; by apply pool_step_length in E.
Qed.

Lemma server_run_length evs x k x' k' :
  server_run evs x k = Some (x', k') -> length (workers_ (tp_pool x')) = length (workers_ (tp_pool x)).
Proof.
  revert x k. induction evs as [|ev evs IH]; intros x k; cbn [server_run]; [by intros [= <- <-]|].
  destruct (server_step ev x k) as [[x1 k1]|] eqn:E; [|done]. intros Hr. apply IH in Hr. apply server_step_length in E. congruence.
Qed.

(** C25: the thread-pool server owns its clients. In every run, with any answers of
    [accept], any interleaving of the workers and [Stop] at any time, the open descriptors
    are those of before, the listener, and one for each client being served or waiting; no
    descriptor is closed twice. When no worker can move, every accepted client has been
    served and its descriptor closed. *)
Theorem thread_pool_server_owns_clients host port num_workers k x0 k0 evs x k' :
  (0 < num_workers)%nat -> ThreadPoolServer_new host port num_workers k = (x0, k0) -> server_run evs x0 k0 = Some (x, k') ->
  (forall fd, fd ∈ k_open k' <->
     fd ∈ k_open k \/ (0 <= fd /\ fd = ts_listen_fd (tp_server x)) \/ fd ∈ open_clients (tp_pool x)) /\
  NoDup (open_clients (tp_pool x)) /\ k_bad_closes k' = k_bad_closes k /\
  (quiescent (tp_pool x) -> open_clients (tp_pool x) = [] /\ finished (tp_pool x) ≡ₚ accepted (tp_pool x)).
Proof.
  intros Hn Enew Hrun. pose proof (server_run_ok _ _ _ _ _ _ (ThreadPoolServer_new_ok _ _ _ _ _ _ Enew) Hrun) as Hok.
  split; [apply Hok|]. split; [apply Hok|]. split; [apply Hok|]. intros Hq. pose proof (sv_pool _ _ _ Hok) as Hp.
  assert (Hne : workers_ (tp_pool x) <> []).
  { apply server_run_length in Hrun. unfold ThreadPoolServer_new in Enew. destruct (BlockingServer_new _ _ _).
    injection Enew as <- <-. cbn in Hrun. rewrite length_replicate in Hrun. intros E. rewrite E in Hrun. cbn in Hrun. lia. }
  destruct (quiescent_idle _ Hq) as [_ Hr]. pose proof (quiescent_done _ Hp Hq Hne) as Ht.
  split; [unfold open_clients; by rewrite Hr, Ht|].
  rewrite (po_queue _ Hp), Ht, app_nil_r, (po_running _ Hp), Hr. done.
Qed.

End ThreadPoolServerProofs.

(** ** Concrete servers *)

#[local] Existing Instance example_libc.
#[local] Existing Instance example_hash.
#[local] Instance example_resolver : Resolver := {|
  getaddrinfo passive node service := GaiOk [str "127.0.0.1"];
  gai_strerror e := []
|}.

Definition example_kern : Kern := mkKern {[0; 1; 2]} 0 [] [] [] [] [] [] ∅.

(** A client that stores and one that reads; then [Stop] connects to wake the loop up. *)
Definition example_turns : list AcceptTurn :=
  [mkAcceptTurn false (inl (example_sock (frame_of (MClientRequest (mkClientRequest 1 Opcode.kSet (str "a") (str "1")))))) false;
   mkAcceptTurn false (inr EINTR) false;
   mkAcceptTurn false (inl (example_sock (frame_of (MClientRequest (mkClientRequest 2 Opcode.kGet (str "a") []))))) false;
   mkAcceptTurn false (inl (mkSock [] [] [] [])) true].

(** Two clients for one worker, [Stop], and the destructor. *)
Definition example_steps : list ServerStep :=
  [SvPool (SLock 0); SvAccept (mkAcceptTurn false (inl (mkSock [] [] [] [])) false);
   SvAccept (mkAcceptTurn false (inl (mkSock [] [] [] [])) false); SvPool (SNotify 0); SvPool (SLock 0); SvStop;
   SvPool (SNotify 0); SvAccept (mkAcceptTurn true (inr 9) true); SvPool (SRun 0); SvPool (SLock 0)].

Lemma thread_pool_server_owns_clients_witness :
  exists x k', server_run example_steps (ThreadPoolServer_new (str "localhost") 7400 1 example_kern).1
      (ThreadPoolServer_new (str "localhost") 7400 1 example_kern).2 = Some (x, k') /\
    open_clients (tp_pool x) = [5] /\ (5 ∈ k_open k') /\ k_bad_closes k' = 0%nat.
Proof.
  destruct (server_run example_steps _ _) as [[x k']|] eqn:E; [|vm_compute in E; discriminate E].
  destruct (thread_pool_server_owns_clients (str "localhost") 7400 1 example_kern _ _ example_steps x k' ltac:(lia)
    (surjective_pairing _) E) as (Hopen & _ & Hbad & _).
  assert (Hc : (fun '(x, _) => open_clients (tp_pool x)) <$> Some (x, k') = Some [5]) by (rewrite <- E; vm_compute; reflexivity).
  injection Hc as Hc. exists x, k'. split; [reflexivity|]. split; [exact Hc|]. split; [|exact Hbad].
  apply Hopen. right. right. rewrite Hc. by left.
Defined.
