(* ===== verification/Linearizability.v ===== *)
(** * The linearizability checker of the tests ([src/testing/linearizability_checker.h])

    The checker compares each GET with the real-time intervals of the SETs. [linearizable]
    is the definition it approximates: one order of all operations that respects real time
    and in which each GET returns the value last written. *)

From Stdlib Require Import Strings.String.
From S2P Require Import Prelude Common ClusterConfig.

Module Kind.
Inductive t := kSet | kGet.
#[global] Instance eq_dec : EqDecision t.
Proof. solve_decision. Defined.
End Kind.

Record LinearizabilityOp := mkLinearizabilityOp {
  client_id : Z;
  kind : Kind.t;
  value : bytes;
  ok : bool;
  start : Z;
  end_ : Z
}.

Definition history : Type := list LinearizabilityOp.
Implicit Types (g w : LinearizabilityOp) (h : history).

(** [Record(op)]. *)
Definition Record_op (op : LinearizabilityOp) h : history := h ++ [op].

(** [sets] holds pointers into the history; a pointer is an index. *)
Definition sets h : list (nat * LinearizabilityOp) :=
  List.filter (fun '(_, op) => bool_decide (kind op = Kind.kSet) && ok op) (imap pair h).

Definition ever_written g h : bool := existsb (fun '(_, s) => bool_decide (value s = value g)) (sets h).

Definition is_candidate w g : bool :=
  (end_ w <=? start g) || ((start w <? end_ g) && (start g <? end_ w)).

Definition superseded (i : nat) w g h : bool :=
  existsb (fun '(j, w2) => negb (Nat.eqb j i) && ((end_ w <=? start w2) && (end_ w2 <=? start g))) (sets h).

Definition valid g h : bool :=
  existsb (fun '(i, w) => bool_decide (value w = value g) && (is_candidate w g && negb (superseded i w g h))) (sets h).

(** What is reported for one operation of the history; [None]: nothing. *)
Definition check_get g h : option bytes :=
  if negb (bool_decide (kind g = Kind.kGet)) || negb (ok g) then None
  else if negb (ever_written g h) then
    Some (str "client " ++ to_string_int (client_id g) ++ str " GET returned a value never written: '" ++ value g ++ str "'")
  else if negb (valid g h) then
    Some (str "client " ++ to_string_int (client_id g) ++ str " GET returned stale value '" ++ value g ++ str "'")
  else None.

(** The loop over the history [ops], which returns at the first violation. *)
Fixpoint Check_loop (ops h : history) : bytes :=
  match ops with
  | [] => []
  | g :: ops => match check_get g h with Some message => message | None => Check_loop ops h end
  end.

Definition Check h : bytes := Check_loop h h.

(** ** What the checker is meant to decide *)

(** The operations that took effect: the successful ones. *)
Definition effective h (i : nat) (op : LinearizabilityOp) : Prop := h !! i = Some op /\ ok op = true.

(** [rank] orders the operations: an operation that ended before another started comes
    first, and a GET returns what the last SET before it wrote. *)
Record linearization (rank : nat -> Z) h : Prop := {
  lin_inj : forall i j a b, effective h i a -> effective h j b -> rank i = rank j -> i = j;
  lin_real_time : forall i j a b, effective h i a -> effective h j b -> end_ a <= start b -> i <> j -> rank i < rank j;
  lin_reads : forall i g, effective h i g -> kind g = Kind.kGet ->
    exists j w, effective h j w /\ kind w = Kind.kSet /\ value w = value g /\ rank j < rank i /\
      forall l w2, effective h l w2 -> kind w2 = Kind.kSet -> rank l < rank i -> rank l <= rank j
}.

Definition linearizable h : Prop := exists rank, linearization rank h.

Lemma elem_of_sets h i w : (i, w) ∈ sets h <-> effective h i w /\ kind w = Kind.kSet.
Proof.
  unfold sets, effective. rewrite list_elem_of_In, filter_In, <- list_elem_of_In, elem_of_lookup_imap, andb_true_iff, bool_decide_eq_true.
  split.
  - intros [(j & op & [= -> ->] & Hl) [Hk Ho]]. done.
  - intros [[Hl Ho] Hk]. split; [|done]. by exists i, w.
Qed.

Lemma existsb_sets (f : nat * LinearizabilityOp -> bool) h :
  existsb f (sets h) = true <-> exists i w, effective h i w /\ kind w = Kind.kSet /\ f (i, w) = true.
Proof.
  rewrite existsb_exists. split.
  - intros ([i w] & Hin & Hf). apply list_elem_of_In, elem_of_sets in Hin as [He Hk]. by exists i, w.
  - intros (i & w & He & Hk & Hf). exists (i, w). split; [|done]. by apply list_elem_of_In, elem_of_sets.
Qed.

(** A GET of a linearizable history is not reported. *)
Lemma check_get_linearizable rank h i g :
  linearization rank h -> h !! i = Some g -> check_get g h = None.
Proof.
  intros [Hinj Hrt Hreads] Hi. unfold check_get.
  destruct (bool_decide_reflect (kind g = Kind.kGet)) as [Hk|]; [|done]. destruct (ok g) eqn:Ho; [|done]. cbn [negb orb].
  assert (Hg : effective h i g) by done.
  destruct (Hreads i g Hg Hk) as (j & w & Hw & Hkw & Hv & Hlt & Hlast).
  assert (Hever : ever_written g h = true).
  { apply existsb_sets. exists j, w. split; [done|]. split; [done|]. by apply bool_decide_eq_true. }
  assert (Hvalid : valid g h = true).
  { apply existsb_sets. exists j, w. split; [done|]. split; [done|]. rewrite !andb_true_iff, bool_decide_eq_true, negb_true_iff.
    split; [done|]. split.
    - unfold is_candidate. rewrite orb_true_iff, andb_true_iff, Z.leb_le, !Z.ltb_lt.
      destruct (Z.le_gt_cases (end_ w) (start g)) as [|Hgt]; [by left|right]. split; [|lia].
      destruct (Z.le_gt_cases (end_ g) (start w)) as [Hle|]; [|lia].
      pose proof (Hrt i j g w Hg Hw Hle ltac:(intros ->; lia)). lia.
    - apply not_true_iff_false. intros Hs. apply existsb_sets in Hs as (l & w2 & Hw2 & Hk2 & Hf).
      rewrite !andb_true_iff, negb_true_iff, Nat.eqb_neq, !Z.leb_le in Hf. destruct Hf as (Hne & H1 & H2).
      pose proof (Hrt j l w w2 Hw Hw2 H1 ltac:(congruence)) as Hr1.
      assert (l <> i). { intros ->. destruct Hw2 as [Hw2 _]. rewrite Hi in Hw2. congruence. }
      pose proof (Hrt l i w2 g Hw2 Hg H2 ltac:(done)) as Hr2. specialize (Hlast l w2 Hw2 Hk2 Hr2). lia. }
  by rewrite Hever, Hvalid.
Qed.

(** C39: the checker raises no false alarm. If the successful operations of a history can
    be ordered like those of one register, in real time, then [Check] reports nothing: a
    report means that no such order exists. *)
Theorem checker_reports_violations h : linearizable h -> Check h = [].
Proof.
  intros [rank Hlin]. unfold Check.
  enough (Hgen : forall ops, (forall g, g ∈ ops -> exists i, h !! i = Some g) -> Check_loop ops h = []).
  { apply Hgen. intros g Hg. by apply list_elem_of_lookup. }
  induction ops as [|g ops IH]; intros Hall; [done|]. cbn [Check_loop].
  destruct (Hall g) as [i Hi]; [by left|]. rewrite (check_get_linearizable rank h i g Hlin Hi). apply IH.
  intros x Hx. apply Hall. by right.
Qed.

(** ** Concrete histories *)

Definition set_op (v : String.string) (success : bool) (s e : Z) : LinearizabilityOp :=
  mkLinearizabilityOp 1 Kind.kSet (str v) success s e.
Definition get_op (v : String.string) (s e : Z) : LinearizabilityOp := mkLinearizabilityOp 2 Kind.kGet (str v) true s e.
Arguments set_op v%_string_scope. Arguments get_op v%_string_scope.

(** A GET that overlaps the SET of the value it returns. *)
Definition example_history : history := [set_op "x" true 0 3; set_op "y" true 4 7; get_op "y" 5 6].

Lemma example_linearization : linearization Z.of_nat example_history.
Proof.
  constructor.
  - intros i j a b _ _. apply Nat2Z.inj.
  - intros i j a b [Ha _] [Hb _] Hle Hne. destruct i as [|[|[|i]]], j as [|[|[|j]]]; try done;
      injection Ha as <-; injection Hb as <-; cbn in *; lia.
  - intros i g [Hi _] Hk. destruct i as [|[|[|i]]]; try done; injection Hi as <-; try done.
    exists 1%nat, (set_op "y" true 4 7). split; [by split|]. split; [done|]. split; [done|]. split; [done|].
    intros l w2 _ _. lia.
Qed.

Lemma checker_reports_violations_witness : Check example_history = [].
Proof. apply (checker_reports_violations example_history). exists Z.of_nat. exact example_linearization. Defined.

(** A SET without an acknowledgement may still take effect, in a cluster also after the
    answer was an error; the checker then reports the GET that sees it. *)
Theorem unacknowledged_set_reported :
  Check [set_op "x" false 0 1; get_op "x" 2 3] = str "client 2 GET returned a value never written: 'x'" /\
  linearizable [set_op "x" true 0 1; get_op "x" 2 3].
Proof.
  split; [vm_compute; reflexivity|]. exists Z.of_nat. constructor.
  - intros i j a b _ _. apply Nat2Z.inj.
  - intros i j a b [Ha _] [Hb _] Hle Hne. destruct i as [|[|i]], j as [|[|j]]; try done;
      injection Ha as <-; injection Hb as <-; cbn in *; lia.
  - intros i g [Hi _] Hk. destruct i as [|[|i]]; try done; injection Hi as <-; try done.
    exists 0%nat, (set_op "x" true 0 1). split; [by split|]. split; [done|]. split; [done|]. split; [done|].
    intros l w2 [Hl _] Hk2. destruct l as [|[|l]]; try done.
Qed.

(** The checker looks at each GET alone: readers that see two concurrent SETs in turn, and
    the first value again, are accepted, although no order explains them. *)
Theorem checker_is_incomplete :
  let h := [set_op "a" true 0 10; set_op "b" true 1 11; get_op "a" 12 13; get_op "b" 14 15; get_op "a" 16 17] in
  Check h = [] /\ ~ linearizable h.
Proof.
  intros h. split; [vm_compute; reflexivity|]. intros [rank [Hinj Hrt Hreads]].
  assert (He : forall i op, h !! i = Some op -> effective h i op).
  { intros i op Hi. split; [done|]. destruct i as [|[|[|[|[|i]]]]]; try done; by injection Hi as <-. }
  assert (Hsets : forall j w, effective h j w -> kind w = Kind.kSet ->
    (j = 0%nat /\ value w = str "a") \/ (j = 1%nat /\ value w = str "b")).
  { intros j w [Hj _] Hk. destruct j as [|[|[|[|[|j]]]]]; try done; injection Hj as <-; try done; auto. }
  assert (Hbefore : forall i j a b, h !! i = Some a -> h !! j = Some b -> end_ a <= start b -> i <> j -> rank i < rank j)
    by (intros i j a b Hi Hj; apply Hrt; by apply He).
  pose proof (Hbefore 0%nat 3%nat _ _ eq_refl eq_refl ltac:(cbn; lia) ltac:(done)) as H03.
  pose proof (Hbefore 1%nat 2%nat _ _ eq_refl eq_refl ltac:(cbn; lia) ltac:(done)) as H12.
  destruct (Hreads 2%nat _ (He 2%nat _ eq_refl) eq_refl) as (j & w & Hw & Hk & Hv & _ & Hlast).
  destruct (Hsets j w Hw Hk) as [[-> _]|[-> Hb]]; [|rewrite Hb in Hv; vm_compute in Hv; discriminate Hv].
  destruct (Hreads 3%nat _ (He 3%nat _ eq_refl) eq_refl) as (j' & w' & Hw' & Hk' & Hv' & _ & Hlast').
  destruct (Hsets j' w' Hw' Hk') as [[-> Ha]|[-> _]]; [rewrite Ha in Hv'; vm_compute in Hv'; discriminate Hv'|].
  pose proof (Hlast 1%nat _ (He 1%nat _ eq_refl) eq_refl H12). pose proof (Hlast' 0%nat _ (He 0%nat _ eq_refl) eq_refl H03).
  assert (Heq : rank 0%nat = rank 1%nat) by lia.
  by pose proof (Hinj 0%nat 1%nat _ _ (He 0%nat _ eq_refl) (He 1%nat _ eq_refl) Heq).
Qed.
