(* ===== verification/CommandLine.v ===== *)
(** * Command lines ([tools/*/main.cpp])

    What the three programs share: the conversions of the C++ library that they apply to
    arguments, flags with values, and how a process ends. *)

From Stdlib Require Import Strings.String.
From S2P Require Import Prelude Common ClusterConfig.

(** The sign and the digits that [strtol] finds after white space. *)
Definition signed_digits (s : bytes) : bool * bytes :=
  match drop_while isspace s with
  | c :: s' =>
      if byte_to_Z c =? 45 then (true, take_while isdigit s')
      else if byte_to_Z c =? 43 then (false, take_while isdigit s')
      else (false, take_while isdigit (c :: s'))
  | [] => (false, [])
  end.

(** [std::stoi]: what follows the digits is ignored. *)
Definition stoi (s : bytes) : Outcome Z :=
  let '(neg, ds) := signed_digits s in
  if is_empty ds then Throws std_invalid_argument
  else
    let v := if neg then - digits_value ds else digits_value ds in
    if (v <? - 2 ^ 31) || (2 ^ 31 - 1 <? v) then Throws std_out_of_range else Returns v.

(** [std::stoul]: a minus sign negates in the unsigned type. *)
Definition stoul_any (s : bytes) : Outcome Z :=
  let '(neg, ds) := signed_digits s in
  if is_empty ds then Throws std_invalid_argument
  else
    let v := digits_value ds in
    if 2 ^ 64 <=? v then Throws std_out_of_range else Returns (u64 (if neg then - v else v)).

Definition EXIT_SUCCESS : Z := 0.
Definition EXIT_FAILURE : Z := 1.

(** How a process ends: its exit code and what it wrote to the two streams; or an
    exception that nothing catches. *)
Inductive Ended :=
| Exits (code : Z) (out err : bytes)
| Aborts (e : Exception).

(** [std::cerr << text << "\n"] *)
Definition line (text : bytes) : bytes := text ++ [newline].

Definition exit_failure (err : bytes) : Ended := Exits EXIT_FAILURE [] err.

(** The text of a usage message. *)
Definition text (lines : list String.string) : bytes := concat ((fun l => line (str l)) <$> lines).

(** [NextArg(argc, argv, i, flag_name)], for the arguments that follow the flag. *)
Definition NextArg {A} (rest : list bytes) (flag_name : bytes) (k : bytes -> list bytes -> A) (exit : Ended -> A) : A :=
  match rest with
  | [] => exit (exit_failure (line (str "missing value for " ++ flag_name)))
  | v :: rest => k v rest
  end.

(** A conversion whose exception ends the process. *)
Definition converted {A B} (o : Outcome A) (k : A -> B) (exit : Ended -> B) : B :=
  match o with Returns v => k v | Throws e => exit (Aborts e) end.

(** Numbers written the usual way are read back. *)
Lemma signed_digits_of ds : Forall (fun c => isdigit c = true) ds -> signed_digits ds = (false, ds).
Proof.
  intros Hall. unfold signed_digits. destruct Hall as [|c ds Hc Hds]; [done|].
  assert (Hz : 48 <= byte_to_Z c <= 57).
  { unfold isdigit in Hc. apply andb_true_iff in Hc as [?%Z.leb_le ?%Z.leb_le]. lia. }
  cbn [drop_while]. assert (isspace c = false) as ->.
  { unfold isspace. apply orb_false_iff. split; [lia|]. apply andb_false_iff. right. lia. }
  destruct (Z.eqb_spec (byte_to_Z c) 45); [lia|]. destruct (Z.eqb_spec (byte_to_Z c) 43); [lia|].
  f_equal. assert (Htake : forall l, Forall (fun c => isdigit c = true) l -> take_while isdigit l = l).
  { induction 1 as [|x l Hx _ IH]; [done|]. cbn. by rewrite Hx, IH. }
  apply Htake. by constructor.
Qed.

Lemma stoi_to_string v : 0 <= v < 2 ^ 31 -> stoi (to_string v) = Returns v.
Proof.
  intros Hv. destruct (to_string_spec v) as (Hne & Hds & Hval); [lia|]. unfold stoi.
  rewrite signed_digits_of by done. destruct (to_string v) as [|c ds] eqn:E; [done|]. cbn [is_empty].
  rewrite Hval. destruct (Z.ltb_spec v (- 2 ^ 31)); [lia|]. destruct (Z.ltb_spec (2 ^ 31 - 1) v); [lia|]. done.
Qed.
