(* ===== verification/Client.v ===== *)
(** * The command-line client ([tools/nkv-client/main.cpp])

    Arguments, one request and its response, and the retry at the leader. The connections
    are lines of Transport.v: [ln1] is the first one that is dialled, [ln2] the retry. *)

From Stdlib Require Import Strings.String.
From S2P Require Import Prelude Common BigEndian Codec Crc32 Os WalRecord RaftTypes RpcCodec.
From S2P Require Import ShardedKV WalWriter DurableStorage ClusterConfig Socket Handler Session Transport CommandLine.

Definition client_usage : bytes := text
  ["nkv-client - NeuralKV command-line client"; ""; "Usage:";
   "  nkv-client [--host <addr>] [--port <n>] [--cluster-config <path>] set <key> <value>";
   "  nkv-client [--host <addr>] [--port <n>] [--cluster-config <path>] get <key>";
   "  nkv-client [--host <addr>] [--port <n>] [--cluster-config <path>] delete <key>";
   "  nkv-client --help"; "";
   "With --cluster-config set, a WRONG_LEADER response is followed once by a";
   "retry against the leader node it names."]%string.

(** The switch is over all values that a response can carry. *)
Definition StatusName (status : ResponseStatus) : bytes :=
  match status with
  | ResponseStatus.kOk => str "OK"
  | ResponseStatus.kNotFound => str "NOT_FOUND"
  | ResponseStatus.kBadRequest => str "BAD_REQUEST"
  | ResponseStatus.kInternalError => str "INTERNAL_ERROR"
  | ResponseStatus.kWrongLeader => str "WRONG_LEADER"
  end.

Definition ClientResponse_default : ClientResponse := mkClientResponse 0 ResponseStatus.kOk [] 0.

(** ** One request *)

Section Client.
Context `{Libc} `{Resolver}.

(** The waiting loop. The overload of [TryParseFrame] that it calls does not tell the type
    of the frame. Like [SendRpc] it waits for ever ([None]) for a server that stays
    connected and sends nothing more. *)
Fixpoint SendRequest_loop (stays : bool) (fuel : nat) (buffer : bytes) (resp : ClientResponse) (sk : Sock)
    : option (Result ClientResponse * Sock) :=
  match fuel with
  | O => None
  | S fuel =>
      match TryParseFrame_client buffer None (Some resp) with
      | (ParseResult.kComplete, _, o) => Some (Value (default resp (out_response o)), sk)
      | (ParseResult.kError, _, _) => Some (Failed (rpc_error "malformed response from server"), sk)
      | (ParseResult.kNeedMore, buffer, o) =>
          let resp := default resp (out_response o) in
          r ← sock_recv stays kChunkSize sk;
          match r with
          | (inr errno, sk) =>
              if errno =? EINTR then SendRequest_loop stays fuel buffer resp sk
              else Some (Failed (IoError (str "read: ") errno), sk)
          | (inl chunk, sk) =>
              if is_empty chunk then Some (Failed (rpc_error "connection closed before response received"), sk)
              else SendRequest_loop stays fuel (buffer ++ chunk) resp sk
          end
      end
  end.

Definition SendRequest (req : ClientRequest) (ln : Line) : option (Result ClientResponse) :=
  match EncodeClientRequest req with
  | Failed st => Some (Failed st)
  | Value encoded =>
      '(status, sk) ← WriteFull encoded (mkSock [] (ln_recv ln) [] (ln_send ln));
      if negb (Status_ok status) then Some (Failed status)
      else
        let sk := mkSock (ln_remote ln (sk_out sk)) (sk_recv sk) (sk_out sk) (sk_send sk) in
        '(result, _) ← SendRequest_loop (ln_stays ln) (S (length (sk_recv sk) + length (sk_in sk))) [] ClientResponse_default sk;
        Some result
  end.

Definition ConnectAndSend (host : bytes) (port : Z) (req : ClientRequest) (ln : Line) (k : Kern)
    : option (Result ClientResponse * Kern) :=
  let '(conn_result, k) := TcpConnect host port k in
  match conn_result with
  | Failed st => Some (Failed st, k)
  | Value fd => result ← SendRequest req ln; Some (result, Fd_destroy fd k)
  end.

(** ** [main] *)

Record ClientOptions := mkClientOptions {
  co_host : bytes;
  co_port : Z;
  co_cluster_config_path : bytes;
  co_positional : list bytes
}.

Definition ClientOptions_default : ClientOptions := mkClientOptions (str "127.0.0.1") 7400 [] [].

Definition is_arg (arg : bytes) (flag : String.string) : bool := bool_decide (arg = str flag).
Arguments is_arg arg flag%_string_scope.

(** The loop over the arguments, with what it has collected; a value is skipped with its
    flag, so the recursion is on the number of arguments. *)
Fixpoint client_args (fuel : nat) (args : list bytes) (o : ClientOptions) : ClientOptions + Ended :=
  match fuel with
  | O => inl o
  | S fuel =>
      match args with
      | [] => inl o
      | arg :: rest =>
          if is_arg arg "--help" || is_arg arg "-h" then inr (Exits EXIT_SUCCESS client_usage [])
          else if is_arg arg "--host" then
            NextArg rest arg (fun v rest => client_args fuel rest
              (mkClientOptions v (co_port o) (co_cluster_config_path o) (co_positional o))) inr
          else if is_arg arg "--port" then
            NextArg rest arg (fun v rest => converted (stoi v) (fun n => client_args fuel rest
              (mkClientOptions (co_host o) (u16 n) (co_cluster_config_path o) (co_positional o))) inr) inr
          else if is_arg arg "--cluster-config" then
            NextArg rest arg (fun v rest => client_args fuel rest
              (mkClientOptions (co_host o) (co_port o) v (co_positional o))) inr
          else client_args fuel rest
            (mkClientOptions (co_host o) (co_port o) (co_cluster_config_path o) (co_positional o ++ [arg]))
      end
  end.

(** The request of a command. *)
Definition client_request (positional : list bytes) : ClientRequest + Ended :=
  match positional with
  | [] => inr (Exits EXIT_FAILURE client_usage (line (str "missing command")))
  | command :: operands =>
      if is_arg command "set" then
        match operands with
        | [key; value] => inl (mkClientRequest 1 Opcode.kSet key value)
        | _ => inr (exit_failure (line (str "usage: nkv-client set <key> <value>")))
        end
      else if is_arg command "get" then
        match operands with
        | [key] => inl (mkClientRequest 1 Opcode.kGet key [])
        | _ => inr (exit_failure (line (str "usage: nkv-client get <key>")))
        end
      else if is_arg command "delete" then
        match operands with
        | [key] => inl (mkClientRequest 1 Opcode.kDelete key [])
        | _ => inr (exit_failure (line (str "usage: nkv-client delete <key>")))
        end
      else inr (Exits EXIT_FAILURE client_usage (line (str "unknown command: " ++ command)))
  end.

(** The end of [main]; [err]: what is on the error stream already. *)
Definition print_response (is_get : bool) (resp : ClientResponse) (err : bytes) : Ended :=
  match cresp_status resp with
  | ResponseStatus.kOk => Exits EXIT_SUCCESS (if is_get then line (cresp_value resp) else line (str "OK")) err
  | ResponseStatus.kNotFound => exit_failure (err ++ line (str "NOT_FOUND"))
  | status => exit_failure (err ++ line (StatusName status))
  end.

(** The branch for a response that names another leader. *)
Definition client_redirect (config_file : bytes -> option bytes) (o : ClientOptions) (req : ClientRequest)
    (is_get : bool) (resp : ClientResponse) (ln2 : Line) (k : Kern) : option (Ended * Kern) :=
  let path := co_cluster_config_path o in
  let hint := to_string (cresp_leader_hint resp) in
  if is_empty path then
    Some (print_response is_get resp
      (line (str "server reports leader is node " ++ hint ++ str "; pass --cluster-config to redirect automatically")), k)
  else
    match LoadClusterConfig path (config_file path) ClusterConfig_default with
    | Throws e => Some (Aborts e, k)
    | Returns (load_status, cluster_config) =>
        if negb (Status_ok load_status)
        then Some (exit_failure (line (str "failed to load cluster config: " ++ message load_status)), k)
        else
          match FindPeer cluster_config (cresp_leader_hint resp) with
          | None => Some (exit_failure (line (str "leader node " ++ hint ++ str " is not in " ++ path)), k)
          | Some leader =>
              let err := line (str "redirected to leader node " ++ to_string (node_id leader) ++ str " at " ++ host leader ++
                str ":" ++ to_string (port leader)) in
              '(retry_result, k) ← ConnectAndSend (host leader) (port leader) req ln2 k;
              match retry_result with
              | Failed st => Some (exit_failure (err ++ line (message st)), k)
              | Value resp => Some (print_response is_get resp err, k)
              end
          end
    end.

Definition client_main (args : list bytes) (config_file : bytes -> option bytes) (ln1 ln2 : Line) (k : Kern)
    : option (Ended * Kern) :=
  match client_args (length args) args ClientOptions_default with
  | inr ended => Some (ended, k)
  | inl o =>
      match client_request (co_positional o) with
      | inr ended => Some (ended, k)
      | inl req =>
          let is_get := bool_decide (creq_opcode req = Opcode.kGet) in
          '(result, k) ← ConnectAndSend (co_host o) (co_port o) req ln1 k;
          match result with
          | Failed st => Some (exit_failure (line (message st)), k)
          | Value resp =>
              if bool_decide (cresp_status resp = ResponseStatus.kWrongLeader) && negb (cresp_leader_hint resp =? 0)
              then client_redirect config_file o req is_get resp ln2 k
              else Some (print_response is_get resp [], k)
          end
      end
  end.

End Client.

(** ** Every run ends, with the descriptors it began with *)

Section ClientProofs.
Context `{Libc} `{Resolver}.

Lemma SendRequest_loop_returns fuel buffer resp sk :
  (length (sk_recv sk) + length (sk_in sk) < fuel)%nat -> is_Some (SendRequest_loop false fuel buffer resp sk).
Proof.
  revert buffer resp sk. induction fuel as [|fuel IH]; intros buffer resp sk Hf; [lia|]. cbn [SendRequest_loop].
  destruct (TryParseFrame_client buffer None (Some resp)) as [[[] buffer'] o]; [|by eexists|by eexists].
  destruct (sock_recv false kChunkSize sk) as [[[chunk|e] sk1]|] eqn:Er; [| |by apply sock_recv_waits in Er as [? _]];
    apply sock_recv_read, sock_read_spec in Er as (_ & _ & Hread & Hrecv); try (unfold kChunkSize; lia); cbn [mbind option_bind].
  - destruct (is_empty chunk) eqn:Ec; [by eexists|]. apply is_empty_false in Ec. destruct Hread as (Hin & _ & _).
    apply IH. rewrite Hrecv. rewrite Hin, length_app in Hf. unfold zlen in Ec. destruct (sk_recv sk); cbn in *; lia.
  - destruct (e =? EINTR); [|by eexists]. destruct Hread as (Hin & script & Hsc). apply IH.
    rewrite Hrecv, Hin, Hsc. rewrite Hsc in Hf. cbn in *. lia.
Qed.

Lemma SendRequest_returns req ln : ln_stays ln = false -> is_Some (SendRequest req ln).
Proof.
  intros Hst. unfold SendRequest. destruct (EncodeClientRequest req) as [encoded|st]; [|by eexists].
  destruct (WriteFull_spec encoded (mkSock [] (ln_recv ln) [] (ln_send ln))) as (st & sk & sent & left_ & -> & _).
  cbn [mbind option_bind]. destruct (negb (Status_ok st)); [by eexists|]. rewrite Hst.
  match goal with |- context [SendRequest_loop false ?f [] ?r ?s] =>
    destruct (SendRequest_loop_returns f [] r s ltac:(lia)) as [[result sk'] ->] end. by eexists.
Qed.

Lemma ConnectAndSend_returns host port req ln k :
  ln_stays ln = false -> exists result k', ConnectAndSend host port req ln k = Some (result, k').
Proof.
  intros Hst. unfold ConnectAndSend. destruct (TcpConnect host port k) as [[fd|st] k1]; [|by eexists _, _].
  destruct (SendRequest_returns req ln Hst) as [result ->]. by eexists _, _.
Qed.

Lemma ConnectAndSend_fds host port req ln k result k' :
  ConnectAndSend host port req ln k = Some (result, k') -> same_fds k k'.
Proof.
  unfold ConnectAndSend. destruct (TcpConnect host port k) as [[fd|st] k1] eqn:Ec; apply TcpConnect_spec in Ec.
  - destruct (SendRequest req ln) as [r|]; [|done]. intros [= _ <-]. by apply CloseQuietly_gained.
  - destruct Ec as [_ Hs]. by intros [= _ <-].
Qed.

(** Whatever the arguments, the files and the servers do. *)
Lemma client_main_fds args config_file ln1 ln2 k ended k' :
  client_main args config_file ln1 ln2 k = Some (ended, k') -> same_fds k k'.
Proof.
  unfold client_main. destruct (client_args _ args _) as [o|e]; [|by intros [= _ <-]].
  destruct (client_request _) as [req|e]; [|by intros [= _ <-]].
  destruct (ConnectAndSend _ _ req ln1 k) as [[result k1]|] eqn:E1; [|done]. cbn [mbind option_bind].
  apply ConnectAndSend_fds in E1. destruct result as [resp|st]; [|by intros [= _ <-]].
  destruct (_ && _); [|by intros [= _ <-]]. unfold client_redirect. destruct (is_empty _); [by intros [= _ <-]|].
  destruct (LoadClusterConfig _ _ _) as [[st config]|e]; [|by intros [= _ <-]]. destruct (negb _); [by intros [= _ <-]|].
  destruct (FindPeer config _) as [leader|]; [|by intros [= _ <-]].
  destruct (ConnectAndSend _ _ req ln2 k1) as [[r2 k2]|] eqn:E2; [|done]. cbn [mbind option_bind].
  apply ConnectAndSend_fds in E2. destruct r2; intros [= _ <-]; by eapply same_fds_trans.
Qed.

(** With servers that answer or close the connection it ends. *)
Lemma client_main_returns args config_file ln1 ln2 k :
  ln_stays ln1 = false -> ln_stays ln2 = false -> is_Some (client_main args config_file ln1 ln2 k).
Proof.
  intros H1 H2. unfold client_main. destruct (client_args _ args _) as [o|ended]; [|by eexists].
  destruct (client_request _) as [req|ended]; [|by eexists].
  destruct (ConnectAndSend_returns (co_host o) (co_port o) req ln1 k H1) as (result & k1 & ->). cbn [mbind option_bind].
  destruct result as [resp|st]; [|by eexists]. destruct (_ && _); [|by eexists].
  unfold client_redirect. destruct (is_empty _); [by eexists|].
  destruct (LoadClusterConfig _ _ _) as [[st config]|e]; [|by eexists]. destruct (negb _); [by eexists|].
  destruct (FindPeer config _) as [leader|]; [|by eexists].
  destruct (ConnectAndSend_returns (host leader) (port leader) req ln2 k1 H2) as (result & k2 & ->). cbn [mbind option_bind].
  by destruct result; eexists.
Qed.

(** ** A request is a call of the server's handler *)

Lemma SendRequest_loop_finds stays fuel buffer resp0 sk resp more :
  fields_fit (MClientResponse resp) -> encodable (MClientResponse resp) -> calm (sk_recv sk) ->
  (length (sk_recv sk) + length (sk_in sk) < fuel)%nat ->
  buffer ++ sk_in sk = frame_of (MClientResponse resp) ++ more ->
  exists sk', SendRequest_loop stays fuel buffer resp0 sk = Some (Value resp, sk').
Proof.
  intros Hfit He.
  pose proof (TryParseFrame_frame (MClientResponse resp) more (mkFrameOut None (Some resp0) None None None) Hfit He) as Hwhole.
  revert buffer sk. induction fuel as [|fuel IH]; intros buffer sk Hcalm Hf E; [lia|]. cbn [SendRequest_loop].
  unfold TryParseFrame_client. rewrite <- E in Hwhole.
  destruct (TryParseFrame buffer (mkFrameOut None (Some resp0) None None None)) as [[[] buffer'] o'] eqn:Ep.
  - apply TryParseFrame_need_more in Ep as Hsame. destruct Hsame as [-> ->]. cbn [out_response default].
    destruct (sock_recv stays kChunkSize sk) as [[[chunk|e] sk1]|] eqn:Er;
      [| |apply sock_recv_waits in Er as [_ Er]; rewrite Er, app_nil_r in Hwhole; congruence];
      apply sock_recv_read, sock_read_spec in Er as (_ & _ & Hread & Hrecv); try (unfold kChunkSize; lia);
      cbn [mbind option_bind].
    + destruct Hread as (Hin & _ & Hnil). destruct (is_empty chunk) eqn:Ec.
      { apply is_empty_true in Ec as ->. rewrite (Hnil eq_refl), app_nil_r in Hwhole. congruence. }
      apply is_empty_false in Ec. apply IH.
      * rewrite Hrecv. by apply calm_tail.
      * rewrite Hrecv. rewrite Hin, length_app in Hf. unfold zlen in Ec. destruct (sk_recv sk); cbn in *; lia.
      * by rewrite <- app_assoc, <- Hin.
    + destruct Hread as (Hin & script & Hsc). pose proof Hcalm as Hcalm'. rewrite Hsc in Hcalm'.
      apply Forall_cons in Hcalm' as [He' Hrest]. cbn in He'. subst e. rewrite Z.eqb_refl. apply IH.
      * by rewrite Hrecv, Hsc.
      * rewrite Hrecv, Hin, Hsc. rewrite Hsc in Hf. cbn in *. lia.
      * by rewrite Hin.
  - apply (TryParseFrame_complete_app _ _ _ _ (sk_in sk)) in Ep. rewrite Ep in Hwhole. injection Hwhole as _ ->.
    by exists sk.
  - apply (TryParseFrame_error_app _ _ _ _ (sk_in sk)) in Ep. congruence.
Qed.

End ClientProofs.

Section Served.
Context `{Libc} `{Resolver} {W : Type} (h : RequestHandler W).
Implicit Types w : W.

(** A connection that works, to a server that serves it with a session from world [w];
    calls on both sides are at most interrupted. *)
Record dialled (host : bytes) (port : Z) (ln : Line) (k : Kern) w (recv send : list StreamAns) : Prop := {
  dl_accepted : exists fd k1, TcpConnect host port k = (Value fd, k1);
  dl_client : calm (ln_recv ln) /\ calm (ln_send ln);
  dl_server : ln_remote ln = served_by h w recv send /\ calm recv /\ calm send
}.

(** The server's session for one request ends in world [w']. *)
Definition server_ends (req : ClientRequest) (recv send : list StreamAns) (w w' : W) : Prop :=
  exists sk, ServeClientSession h w (mkSock (frame_of (MClientRequest req)) recv [] send) = Some (w', sk).

(** What a session makes of a request that its handler answers. *)
Lemma answer_handled req w resp w' :
  Handle h req w = Some (resp, w') -> encodable (MClientResponse resp) ->
  answer_message h (MClientRequest req) w = Some (Some (frame_of (MClientResponse resp)), w').
Proof.
  intros E [Hr _]. cbn [answer_message]. rewrite E. cbn [mbind option_bind]. rewrite EncodeClientResponse_eq.
  by destruct (Z.ltb_spec kMaxPayloadSize (zlen (payload_of (MClientResponse resp)))); [lia|].
Qed.

Lemma ConnectAndSend_served host port req ln k w recv send resp w' :
  dialled host port ln k w recv send -> fields_fit (MClientRequest req) -> encodable (MClientRequest req) ->
  answer_message h (MClientRequest req) w = Some (Some (frame_of (MClientResponse resp)), w') ->
  fields_fit (MClientResponse resp) -> encodable (MClientResponse resp) ->
  exists k', ConnectAndSend host port req ln k = Some (Value resp, k') /\ same_fds k k' /\ server_ends req recv send w w'.
Proof.
  intros [(fd & k1 & Ec) [Hcr Hcs] (Hrem & Hr & Hs)] Hfit He Ha Hrf Hre.
  assert (Hp : process_all h (frame_of (MClientRequest req)) w = Some (mkServed (frame_of (MClientResponse resp)) false [] w')).
  { rewrite <- (app_nil_r (frame_of (MClientRequest req))). rewrite process_frame, Ha by done. cbn [mbind option_bind].
    rewrite process_nil. unfold sv_prepend. cbn. by rewrite app_nil_r. }
  destruct (ServeClientSession_spec h w (mkSock (frame_of (MClientRequest req)) recv [] send) _ Hp)
    as (w1 & sk1 & sent & Eses & Hout & _ & Hcalm).
  destruct (Hcalm Hr Hs) as [-> ->]. cbn [sv_out sv_world sk_out app] in *.
  unfold ConnectAndSend, SendRequest. rewrite Ec, EncodeClientRequest_eq by done.
  destruct (WriteFull_spec (frame_of (MClientRequest req)) (mkSock [] (ln_recv ln) [] (ln_send ln)))
    as (st & sk & sent & left_ & -> & Hsent & Ho & Hin & Hrecv & Hok & Hc). cbn [mbind option_bind].
  destruct (Hc Hcs) as [-> _]. rewrite (proj2 Hok eq_refl). cbn [negb]. rewrite app_nil_r in Hsent. subst sent.
  cbn [sk_out sk_recv app] in Ho, Hrecv. rewrite Ho, Hrecv, Hrem. unfold served_by.
  cbn [sk_recv sk_in sk_out sk_send]. rewrite Eses, Hout.
  destruct (SendRequest_loop_finds (ln_stays ln) (S (length (ln_recv ln) + length (frame_of (MClientResponse resp)))) [] ClientResponse_default
    (mkSock (frame_of (MClientResponse resp)) (ln_recv ln) (frame_of (MClientRequest req)) (sk_send sk)) resp [])
    as (sk' & ->); [done|done|done|cbn; lia|by rewrite app_nil_r|].
  cbn [mbind option_bind]. eexists. split; [done|]. split; [|by exists sk1].
  apply TcpConnect_spec in Ec. by apply CloseQuietly_gained.
Qed.

End Served.

Lemma client_request_id positional req : client_request positional = inl req -> fields_fit (MClientRequest req).
Proof.
  unfold client_request. intros E. repeat case_match; simplify_eq; cbn; lia.
Qed.

Section Standalone.
Context `{Libc} `{Resolver} {T : Type} `{KvLaws T}.

Lemma spec_Handle_leader req m :
  cresp_status (spec_Handle req m).1 <> ResponseStatus.kWrongLeader.
Proof. unfold spec_Handle. repeat case_match; done. Qed.

(** C12: a command of the client is one operation on the server's map. Take any command
    line that asks for a request the protocol can carry, and a server that runs on a
    durable store alone and a healthy disk. From the arguments, through both ends of the
    connection, the log and the store, and back to the terminal: the client prints and
    exits as the response of one finite map demands, the server is left with the
    map after the operation, in memory and on disk, and no descriptor is lost. *)
Theorem client_runs_on_map args config_file ln1 ln2 k o req allow rs (d : DurableStorage T) s recv send :
  client_args (length args) args ClientOptions_default = inl o -> client_request (co_positional o) = inl req ->
  encodable (MClientRequest req) ->
  ds_inv rs d s -> disk_ok s -> values_fit (replay rs) -> zlen rs + 1 < 2 ^ 64 ->
  dialled (standalone allow) (co_host o) (co_port o) ln1 k (d, s) recv send ->
  exists k' d' s' rs', client_main args config_file ln1 ln2 k =
      Some (print_response (bool_decide (creq_opcode req = Opcode.kGet)) (spec_Handle req (replay rs)).1 [], k') /\
    same_fds k k' /\ server_ends (standalone allow) req recv send (d, s) (d', s') /\
    ds_inv rs' d' s' /\ replay rs' = (spec_Handle req (replay rs)).2.
Proof.
  intros Eargs Ereq He Hd Hok Hval Hlt Hdial. pose proof (client_request_id _ _ Ereq) as Hfit.
  destruct (answer_standalone allow req rs d s Hd Hok Hval Hlt Hfit He) as (d' & s' & rs' & Ea & Hd' & _ & Hr' & _ & _).
  destruct (spec_Handle_fits req (replay rs) He Hval) as [_ Hsize].
  destruct (Handle_standalone allow req rs d s Hd (encodable_request_fits req He) Hlt Hok) as (d1 & s1 & _ & E & _).
  pose proof (Handle_answer (fun _ => True) (standalone allow) req (d, s) _ _ I I E) as Hans.
  destruct (client_answer_encodable _ _ _ Hans Hfit Hsize) as [Hrf Hre].
  destruct (ConnectAndSend_served (standalone allow) _ _ req ln1 k (d, s) recv send _ _ Hdial Hfit He Ea Hrf Hre)
    as (k' & Econn & Hs & Hends).
  exists k', d', s', rs'. unfold client_main. rewrite Eargs, Ereq, Econn. cbn [mbind option_bind].
  rewrite (bool_decide_false _ (spec_Handle_leader req (replay rs))). by split_and!.
Qed.

End Standalone.

(** ** The retry at the leader *)

Section Redirect.
Context `{Libc} `{Resolver} {W1 W2 : Type} (follower : RequestHandler W1) (leader : RequestHandler W2).

(** The client follows the hint of a follower. When the first server answers that
    another node leads, the configuration names that node, and the node accepts the second
    connection, the client ends with its answer, whatever that is: it retries once. *)
Theorem client_follows_leader args config_file ln1 ln2 k o req w1 w1' hint recv1 send1 config peer w2 w2' resp recv2 send2 :
  client_args (length args) args ClientOptions_default = inl o -> client_request (co_positional o) = inl req ->
  encodable (MClientRequest req) -> dialled follower (co_host o) (co_port o) ln1 k w1 recv1 send1 ->
  Handle follower req w1 = Some (mkClientResponse 1 ResponseStatus.kWrongLeader [] hint, w1') -> 0 < hint < 2 ^ 32 ->
  co_cluster_config_path o <> [] ->
  LoadClusterConfig (co_cluster_config_path o) (config_file (co_cluster_config_path o)) ClusterConfig_default =
    Returns (Status_Ok, config) -> FindPeer config hint = Some peer ->
  (forall r k1, ConnectAndSend (co_host o) (co_port o) req ln1 k = Some (r, k1) ->
     dialled leader (host peer) (port peer) ln2 k1 w2 recv2 send2) ->
  Handle leader req w2 = Some (resp, w2') -> fields_fit (MClientResponse resp) -> encodable (MClientResponse resp) ->
  exists k', client_main args config_file ln1 ln2 k =
      Some (print_response (bool_decide (creq_opcode req = Opcode.kGet)) resp
        (line (str "redirected to leader node " ++ to_string (node_id peer) ++ str " at " ++ host peer ++ str ":" ++
               to_string (port peer))), k') /\
    same_fds k k' /\ server_ends leader req recv2 send2 w2 w2'.
Proof.
  intros Eargs Ereq He Hd1 E1 Hhint Hpath Eload Efind Hd2 E2 Hrf Hre. pose proof (client_request_id _ _ Ereq) as Hfit.
  set (r1 := mkClientResponse 1 ResponseStatus.kWrongLeader [] hint) in *.
  assert (He1 : encodable (MClientResponse r1)).
  { split; [|done]. cbn [payload_of]. rewrite zlen_payload_ClientResponse. by vm_compute. }
  destruct (ConnectAndSend_served follower _ _ req ln1 k w1 recv1 send1 r1 w1' Hd1 Hfit He (answer_handled _ _ _ _ _ E1 He1)
    ltac:(cbn; lia) He1) as (k1 & Ec1 & Hs1 & _).
  destruct (ConnectAndSend_served leader _ _ req ln2 k1 w2 recv2 send2 resp w2' (Hd2 _ k1 Ec1) Hfit He
    (answer_handled _ _ _ _ _ E2 Hre) Hrf Hre) as (k2 & Ec2 & Hs2 & Hends).
  exists k2. unfold client_main. rewrite Eargs, Ereq, Ec1. cbn [mbind option_bind cresp_status cresp_leader_hint r1].
  rewrite bool_decide_true by done. destruct (Z.eqb_spec hint 0); [lia|]. cbn [andb negb]. unfold client_redirect.
  destruct (is_empty (co_cluster_config_path o)) eqn:Ep; [by apply is_empty_true in Ep|].
  rewrite Eload, Status_ok_Ok. unfold r1. cbn [cresp_leader_hint]. rewrite Efind. cbn [negb]. rewrite Ec2. cbn [mbind option_bind].
  split; [done|]. split; [by eapply same_fds_trans|done].
Qed.

End Redirect.

(** ** Concrete runs *)

#[local] Existing Instance example_libc.
#[local] Existing Instance example_hash.
#[local] Instance example_resolver : Resolver := {|
  getaddrinfo passive node service := GaiOk [str "127.0.0.1"];
  gai_strerror e := []
|}.

Definition example_kern : Kern := mkKern {[0; 1; 2]} 0 [] [] [] [] [] [] ∅.
Definition no_file (path : bytes) : option bytes := None.
Definition dead_line : Line := mkLine (fun _ => []) [] [] false.

Definition example_args : list bytes := [str "--port"; str "7401"; str "set"; str "a"; str "1"].

Lemma client_runs_on_map_witness :
  exists k' d' s' rs', client_main example_args no_file
      (mkLine (served_by (standalone (T := ShardedKV) false) fresh_world [IoSome 7] [IoErr EINTR]) [IoErr EINTR; IoSome 3] [IoSome 2] true)
      dead_line example_kern = Some (Exits 0 (line (str "OK")) [], k') /\
    ds_inv rs' (d' : DurableStorage ShardedKV) s' /\ replay rs' = {[ str "a" := str "1" ]}.
Proof.
  destruct (client_runs_on_map (T := ShardedKV) example_args no_file
      (mkLine (served_by (standalone (T := ShardedKV) false) fresh_world [IoSome 7] [IoErr EINTR]) [IoErr EINTR; IoSome 3] [IoSome 2] true)
      dead_line example_kern (mkClientOptions (str "127.0.0.1") 7401 [] [str "set"; str "a"; str "1"])
      (mkClientRequest 1 Opcode.kSet (str "a") (str "1")) false [] fresh_store (fresh_disk []) [IoSome 7] [IoErr EINTR])
    as (k' & d' & s' & rs' & E & _ & _ & Hd & Hr).
  - vm_compute. reflexivity.
  - reflexivity.
  - split; [vm_compute; discriminate|]. split; discriminate.
  - apply fresh_store_inv.
  - exact fresh_disk_ok.
  - intros key v Ev. change (replay []) with (∅ : kvmap) in Ev. rewrite lookup_empty in Ev. discriminate Ev.
  - vm_compute. reflexivity.
  - constructor; [eexists _, _; vm_compute; reflexivity| |]; repeat constructor.
  - exists k', d', s', rs'. split; [exact E|]. split; [exact Hd|exact Hr].
Defined.

Definition example_config_file (path : bytes) : option bytes := Some example_file.
Definition redirect_args : list bytes := [str "--cluster-config"; str "cluster.conf"; str "get"; str "a"].

(** A leader whose store holds one value. *)
Definition example_leader : RequestHandler unit :=
  mkRequestHandler {|
    st_Set key value w := Some (Status_Ok, w);
    st_Get key w := Some (Value (str "1"), w);
    st_Delete key w := Some (Status_Ok, w) |} None false.

Lemma client_follows_leader_witness :
  exists k', client_main redirect_args example_config_file (mkLine (served_by example_follower tt [] []) [] [] true)
      (mkLine (served_by example_leader tt [] []) [] [] true) example_kern =
    Some (Exits 0 (line (str "1")) (line (str "redirected to leader node 2 at b:7401")), k') /\ k_open k' = {[0; 1; 2]}.
Proof.
  destruct (client_follows_leader example_follower example_leader redirect_args example_config_file
    (mkLine (served_by example_follower tt [] []) [] [] true) (mkLine (served_by example_leader tt [] []) [] [] true) example_kern
    (mkClientOptions (str "127.0.0.1") 7400 (str "cluster.conf") [str "get"; str "a"]) (mkClientRequest 1 Opcode.kGet (str "a") [])
    tt tt 2 [] [] example_config (mkPeerInfo 2 (str "b") 7401) tt tt (mkClientResponse 1 ResponseStatus.kOk (str "1") 0) [] [])
    as (k' & E & [Hs _] & _).
  - vm_compute. reflexivity.
  - reflexivity.
  - split; [vm_compute; discriminate|]. split; [discriminate|reflexivity].
  - constructor; [eexists _, _; vm_compute; reflexivity| |]; repeat constructor.
  - vm_compute. reflexivity.
  - lia.
  - discriminate.
  - vm_compute. reflexivity.
  - vm_compute. reflexivity.
  - intros r k1 Ec. vm_compute in Ec. injection Ec as _ <-.
    constructor; [eexists _, _; vm_compute; reflexivity| |]; repeat constructor.
  - vm_compute. reflexivity.
  - cbn. lia.
  - split; [vm_compute; discriminate|exact I].
  - exists k'. split; [exact E|exact Hs].
Defined.

(** The client does not look at the type of the frame it gets: any other well-formed frame,
    here the answer to a ping, leaves the response at its default, which is success. *)
Theorem client_takes_any_frame_for_success :
  exists k', client_main example_args no_file
      (mkLine (fun _ => frame_of (MClusterResponse (mkClusterResponse 9 ResponseStatus.kInternalError []))) [] [] false) dead_line
      example_kern = Some (Exits 0 (line (str "OK")) [], k').
Proof. eexists. vm_compute. reflexivity. Qed.

(** A port that is not a number ends the process with an exception; one that is too large
    is taken modulo [2^16]. *)
Theorem client_port_not_checked :
  client_main [str "--port"; str "http"; str "get"; str "a"] no_file dead_line dead_line example_kern =
    Some (Aborts std_invalid_argument, example_kern) /\
  client_args 4 [str "--port"; str "72936"; str "get"; str "a"] ClientOptions_default =
    inl (mkClientOptions (str "127.0.0.1") 7400 [] [str "get"; str "a"]).
Proof. split; vm_compute; reflexivity. Qed.
