(* ===== verification/ClientCluster.v ===== *)
(** * The client program and the cluster

    The client of Client.v on connections to servers whose handler runs on a node of a Raft
    cluster, in runs whose append requests cover the commit index they announce. Theorems:
    when the client reports that a write succeeded, the write is committed and stays on a
    majority, redirected or not; and from every state that such a run reaches any majority
    of the nodes whose logs fit into a frame can get to where the client succeeds. *)

From Stdlib Require Import Strings.String.
From S2P Require Import Prelude Common BigEndian Codec Crc32 Os WalRecord ShardedKV WalWriter DurableStorage.
From S2P Require Import RaftTypes RaftLog ClusterConfig RaftNode RaftNodeSpec RaftCluster RaftGhost.
From S2P Require Import RaftInvariant RaftCompleteness RaftSteps RaftSafety RaftReplica RaftTraces RaftApplied Socket Handler.
From S2P Require Import RaftService RaftReads RaftLoop RaftProgress RaftHints Session Transport CommandLine Client.

(** A write that the protocol can carry is one that the log can hold. *)
Lemma encodable_storable req e : write_of req = Some e -> encodable (MClientRequest req) -> storable e.
Proof.
  intros He Henc. pose proof (encodable_request_fits req Henc) as Hfit. destruct Henc as (_ & Hkey & Hval).
  unfold write_of, request_fits in *. pose proof (zlen_nonneg (creq_key req)).
  assert (0 < zlen (creq_key req)) by (destruct (creq_key req); [done|autorewrite with zlen; pose proof (zlen_nonneg l); lia]).
  destruct (creq_opcode req); try discriminate He; injection He as <-; (split; [split; cbn; lia|]); (split; [cbn; lia|]).
  - split; [cbn; lia|]. intros _. exact Hval.
  - split; [vm_compute; discriminate|]. discriminate.
Qed.

(** ** The answers to writes *)

Lemma Handle_write_shape {R} `{ReplicaOps R} run i st reserve stale req e (w w' : World R) resp :
  write_of req = Some e -> Handle (node_handler run i st reserve stale) req w = Some (resp, w') ->
  resp = mkClientResponse (creq_request_id req) (cresp_status resp) [] (cresp_leader_hint resp).
Proof.
  assert (Hwl : forall v, wrong_leader (node_raft run i reserve) req v = Some (resp, w') ->
    resp = mkClientResponse (creq_request_id req) (cresp_status resp) [] (cresp_leader_hint resp)).
  { intros v. unfold wrong_leader. destruct (rf_leader_id _ v) as [[l v1]|]; [|done]. by intros [= <- _]. }
  assert (Hprop : forall e v, propose (node_raft run i reserve) req e v = Some (resp, w') ->
    resp = mkClientResponse (creq_request_id req) (cresp_status resp) [] (cresp_leader_hint resp)).
  { intros e' v. unfold propose. destruct (rf_Propose _ e' v) as [[status v1]|]; [|done]. cbn [mbind option_bind].
    destruct (Status_ok status); [by intros [= <- _]|]. destruct (bool_decide _); [apply Hwl|by intros [= <- _]]. }
  intros He. unfold Handle, write_of in *. destruct (if _ || _ then _ else _) as [[leader w1]|]; [|done].
  cbn [mbind option_bind raft_ node_handler]. destruct (negb leader); [apply Hwl|].
  destruct (creq_opcode req); [apply Hprop|done|apply Hprop|done].
Qed.

Section Cluster.
Context `{Libc} `{Resolver} {R : Type} `{ReplicaLaws R}.
Context (members : list PeerInfo) (Hmembers : members_ok members) (c0 : Cluster R) (Hinit : initial members c0).
Context (req : ClientRequest) (e : LogEntry).
Context (Hreq : is_u64 (creq_request_id req)) (Hwrite : write_of req = Some e) (Henc : encodable (MClientRequest req)).

(** A server whose handler runs on a node, the world in which the request finds it and the
    one after the request, and the scripts of its connection. *)
Record NodeServer := mkNodeServer {
  ns_run : list (Event R) -> Cluster R -> option (Cluster R);
  ns_id : Z;
  ns_store : StorageOps R;
  ns_reserve : Z -> bool;
  ns_stale : bool;
  ns_before : World R;
  ns_after : World R;
  ns_recv : list StreamAns;
  ns_send : list StreamAns
}.

Definition ns_handler (s : NodeServer) : RequestHandler (World R) :=
  node_handler (ns_run s) (ns_id s) (ns_store s) (ns_reserve s) (ns_stale s).

(** The node leads one term from the beginning to the end of the request, and has applied
    nothing beyond its commit index before it (a restart may have: it applies the whole log). *)
Definition leads_throughout (s : NodeServer) : Prop :=
  exists n n', the_node (ns_id s) (ns_before s) = Some n /\ last_applied n <= commit_index_ n /\
    the_node (ns_id s) (ns_after s) = Some n' /\ state_ n' = RaftState.kLeader /\ current_term_ n' = current_term_ n.

(** The server handles the request at the other end of the line; when it acknowledges it,
    it has led one term all the time. *)
Record handles (s : NodeServer) (ln : Line) : Prop := {
  hs_schedule : schedules (ns_run s) (ns_id s);
  hs_reached : runs c0 (wd_cluster (ns_before s));
  hs_covered : commits_covered (wd_cluster (ns_after s));
  hs_client : calm (ln_recv ln) /\ calm (ln_send ln);
  hs_server : ln_remote ln = served_by (ns_handler s) (ns_before s) (ns_recv s) (ns_send s) /\ calm (ns_recv s) /\ calm (ns_send s);
  hs_handled : exists resp, Handle (ns_handler s) req (ns_before s) = Some (resp, ns_after s) /\
    (cresp_status resp = ResponseStatus.kOk -> leads_throughout s)
}.

(** The write is in the log of the server's node, and from then on in the stored logs of a
    majority. *)
Definition write_durable (s : NodeServer) : Prop :=
  exists t index entry, entry = mkLogEntry t index (le_op e) (le_key e) (le_value e) /\
    (exists n', the_node (ns_id s) (ns_after s) = Some n' /\ 1 <= index <= commit_index_ n' /\
      log_entries n' !! Z.to_nat (index - 1) = Some entry) /\
    forall c, runs (wd_cluster (ns_after s)) c -> commits_covered c -> exists Q, quorum (node_id <$> members) Q /\
      forall v nv, v ∈ Q -> nodes c !! v = Some nv -> log_entries nv !! Z.to_nat (index - 1) = Some entry.

(** Answers of a node to a write can be encoded: their hints are members. *)
Lemma node_answer_fits s ln resp :
  handles s ln -> Handle (ns_handler s) req (ns_before s) = Some (resp, ns_after s) ->
  fields_fit (MClientResponse resp) /\ encodable (MClientResponse resp).
Proof.
  intros Hs HH. pose proof (Handle_write_shape _ _ _ _ _ _ _ _ _ _ Hwrite HH) as Hshape.
  assert (Hr' : runs c0 (wd_cluster (ns_after s))).
  { eapply runs_trans; [apply Hs|]. eapply runs_up_runs.
    eapply (Handle_write_stays members (ns_run s) (ns_id s) Hmembers (hs_schedule _ _ Hs) c0 Hinit);
      [apply Hs|done|by eapply encodable_storable|exact HH]. }
  assert (Hhint : is_u32 (cresp_leader_hint resp)).
  { destruct (Handle_hint _ _ _ _ _ _ _ _ _ HH) as [[_ (n & Hn & ->)]|[_ ->]]; [|by vm_compute].
    destruct (ho_nodes _ _ (reached_hints members Hmembers c0 Hinit _ Hr') _ n Hn) as [->|Hled]; [by vm_compute|].
    apply led_member with (members := members) in Hled; [|done|done]. destruct Hmembers as [_ Hb].
    rewrite Forall_forall in Hb. apply Hb in Hled. split; lia. }
  split; [split; [by rewrite Hshape|done]|]. split; [|done]. cbn [payload_of]. rewrite zlen_payload_ClientResponse, Hshape.
  by vm_compute.
Qed.

(** A request over a line either fails or brings the node's answer. *)
Lemma asked_node host port s ln k r k' :
  handles s ln -> ConnectAndSend host port req ln k = Some (r, k') ->
  (exists st, r = Failed st) \/
  exists resp, r = Value resp /\ Handle (ns_handler s) req (ns_before s) = Some (resp, ns_after s) /\
    (cresp_status resp = ResponseStatus.kOk -> leads_throughout s).
Proof.
  intros Hs E. pose proof Hs as [_ _ _ Hc Hsv (resp & HH & Hlead)].
  destruct (TcpConnect host port k) as [[fd|st] k1] eqn:Ec.
  2: { unfold ConnectAndSend in E. rewrite Ec in E. injection E as <- _. left. by exists st. }
  destruct (node_answer_fits s ln resp Hs HH) as [Hrf Hre].
  destruct (ConnectAndSend_served (ns_handler s) host port req ln k (ns_before s) (ns_recv s) (ns_send s) resp (ns_after s))
    as (k2 & E2 & _ & _); [constructor; [by exists fd, k1|done|done]|done|done|by apply answer_handled|done|done|].
  right. exists resp. rewrite E2 in E. by injection E as <- _.
Qed.

Lemma acked_durable s ln resp :
  handles s ln -> Handle (ns_handler s) req (ns_before s) = Some (resp, ns_after s) ->
  cresp_status resp = ResponseStatus.kOk -> leads_throughout s -> write_durable s.
Proof.
  intros Hs HH Hok (n & n' & Hn & Ha & Hn' & Hst & Ht).
  destruct (acknowledged_write_committed members (ns_run s) (ns_id s) (ns_store s) (ns_reserve s) (ns_stale s) c0 req e (ns_before s) (ns_after s)
    resp n n') as (index & entry & Hidx & He & Hlog & Hall); try done; try apply Hs; [by eapply encodable_storable|].
  exists (current_term_ n), index, entry. split; [done|]. split; [by exists n'|done].
Qed.

End Cluster.

Arguments NodeServer R : clear implicits.

(** ** Success means durable *)

Lemma print_success is_get resp err out err' :
  print_response is_get resp err = Exits EXIT_SUCCESS out err' ->
  cresp_status resp = ResponseStatus.kOk /\ out = if is_get then line (cresp_value resp) else line (str "OK").
Proof. unfold print_response. destruct (cresp_status resp) eqn:E; try done. by intros [= <- _]. Qed.

Lemma write_not_get req e : write_of req = Some e -> bool_decide (creq_opcode req = Opcode.kGet) = false.
Proof. unfold write_of. by destruct (creq_opcode req). Qed.

(** C6: A write that the client program reports is durable. Run the client with a command line
    that asks for a SET or DELETE, against servers whose handlers run on nodes of a cluster
    in any reachable state, with any behaviour of the other nodes and threads meanwhile but
    that no append request announces a commit index beyond what it covers, and that a node
    which acknowledges the write has led one term all the time and had applied nothing beyond
    its commit index before (which holds of a node that has not restarted). When the client
    exits with success it has printed OK, and one of the at most two servers it asked (the
    second one after the redirection of the first) has committed the write: the entry is
    in its log, and stays in the stored logs of a majority as long as the requests go on to
    cover what they announce, whatever else happens, crashes between critical sections
    included. *)
Theorem client_write_durable `{Libc} `{Resolver} {R} `{ReplicaLaws R} (members : list PeerInfo) (c0 : Cluster R)
    args config_file ln1 ln2 k k' o req e out err (s1 s2 : NodeServer R) :
  members_ok members -> initial members c0 ->
  client_args (length args) args ClientOptions_default = inl o -> client_request (co_positional o) = inl req ->
  write_of req = Some e -> encodable (MClientRequest req) ->
  handles c0 req s1 ln1 -> handles c0 req s2 ln2 ->
  client_main args config_file ln1 ln2 k = Some (Exits EXIT_SUCCESS out err, k') ->
  same_fds k k' /\ out = line (str "OK") /\ (write_durable members e s1 \/ write_durable members e s2).
Proof.
  intros Hmem Hinit Eargs Ereq Hw Henc Hs1 Hs2 E. pose proof (client_request_id _ _ Ereq) as Hfit.
  split; [by eapply client_main_fds|].
  unfold client_main in E. rewrite Eargs, Ereq, (write_not_get req e Hw) in E.
  assert (Hacked : forall s ln resp err0, handles c0 req s ln ->
    Handle (ns_handler s) req (ns_before s) = Some (resp, ns_after s) ->
    (cresp_status resp = ResponseStatus.kOk -> leads_throughout s) ->
    print_response false resp err0 = Exits EXIT_SUCCESS out err -> out = line (str "OK") /\ write_durable members e s).
  { intros s ln resp err0 Hs HH Hlead [Hok ->]%print_success. split; [done|].
    eapply (acked_durable members Hmem c0 Hinit req e Hw Henc s ln resp Hs HH Hok). by apply Hlead. }
  destruct (ConnectAndSend (co_host o) (co_port o) req ln1 k) as [[r k1]|] eqn:E1; [|done]. cbn [mbind option_bind] in E.
  destruct (asked_node members Hmem c0 Hinit req e Hfit Hw Henc _ _ s1 ln1 k r k1 Hs1 E1) as [(st & ->)|(resp & -> & HH & Hlead)];
    [done|].
  destruct (bool_decide _ && _).
  2: { injection E as E _. destruct (Hacked s1 ln1 resp [] Hs1 HH Hlead E). split; [done|by left]. }
  unfold client_redirect in E. destruct (is_empty _).
  { injection E as E _. destruct (Hacked s1 ln1 resp _ Hs1 HH Hlead E). split; [done|by left]. }
  destruct (LoadClusterConfig _ _ _) as [[st config]|]; [|done]. destruct (negb _); [done|].
  destruct (FindPeer _ _) as [peer|]; [|done].
  destruct (ConnectAndSend (host peer) (port peer) req ln2 k1) as [[r2 k2]|] eqn:E2; [|done]. cbn [mbind option_bind] in E.
  destruct (asked_node members Hmem c0 Hinit req e Hfit Hw Henc _ _ s2 ln2 k1 r2 k2 Hs2 E2) as [(st2 & ->)|(resp2 & -> & HH2 & Hlead2)];
    [done|].
  injection E as E _. destruct (Hacked s2 ln2 resp2 _ Hs2 HH2 Hlead2 E). split; [done|by right].
Qed.

(** ** Any majority lets the client succeed *)

(** C7: The store stays available. From every state of a cluster of two or more members that
    runs with covered commit indexes reach, and for every majority [Q] of them away from the
    bounds of terms and log lengths, whose logs with the new entry fit into one frame of the
    protocol (a leader sends everything a peer lacks in one request, and a request that does
    not fit is never sent), there is a member of [Q] that needs nobody else: after some turns
    of its background loop, the client program connected to it with a command line for a SET
    or DELETE prints OK and exits with success, and the write is committed and applied. *)
Theorem any_majority_serves_client `{Libc} `{Resolver} {R} `{ReplicaLaws R} (members : list PeerInfo) (c0 c : Cluster R) Q time
    st reserve stale args config_file o req e :
  members_ok members -> (2 <= length members)%nat -> initial members c0 -> runs c0 c -> commits_covered c ->
  quorum (node_id <$> members) Q ->
  (forall q nq, q ∈ Q -> nodes c !! q = Some nq -> in_bounds nq /\ fits (log_entries nq ++ [e])) ->
  client_args (length args) args ClientOptions_default = inl o -> client_request (co_positional o) = inl req ->
  write_of req = Some e -> encodable (MClientRequest req) ->
  exists i turns t1 j w1, i ∈ Q /\ Forall (serves Q) turns /\ passes time turns t1 /\
    RunLoop run_allowed i (loads j) (mkWorld c turns) = Some (false, w1) /\
    forall ln1 ln2 k recv send,
      dialled (node_handler run_allowed i st reserve stale) (co_host o) (co_port o) ln1 k w1 recv send ->
      exists k' w' n' index, client_main args config_file ln1 ln2 k = Some (Exits EXIT_SUCCESS (line (str "OK")) [], k') /\
        same_fds k k' /\ server_ends (node_handler run_allowed i st reserve stale) req recv send w1 w' /\
        the_node i w' = Some n' /\ 1 <= index <= commit_index_ n' /\ index <= last_applied n' /\
        log_entries n' !! Z.to_nat (index - 1) =
          Some (mkLogEntry (current_term_ n') index (le_op e) (le_key e) (le_value e)).
Proof.
  intros Hmem Htwo Hinit Hr Hcov HQ Hb Eargs Ereq Hw Henc. pose proof (client_request_id _ _ Ereq) as Hfit.
  destruct (any_majority_serves_writes members c0 c Q time st reserve stale req e) as
    (i & Hi & j & turns & t1 & w1 & w' & n' & index & Hturns & Hp & Eloop & HH & Hn' & _ & Hlog & Hidx & Hap);
    try done; [by eapply encodable_storable|].
  exists i, turns, t1, j, w1. do 4 (split; [done|]). intros ln1 ln2 k recv send Hdial.
  assert (Hre : encodable (MClientResponse (respond req ResponseStatus.kOk))).
  { split; [|done]. cbn [payload_of]. rewrite zlen_payload_ClientResponse. by vm_compute. }
  assert (Hrf : fields_fit (MClientResponse (respond req ResponseStatus.kOk))) by (split; [exact Hfit|by vm_compute]).
  destruct (ConnectAndSend_served _ _ _ req ln1 k w1 recv send _ w' Hdial Hfit Henc (answer_handled _ _ _ _ _ HH Hre) Hrf Hre)
    as (k' & Econn & Hs & Hends).
  exists k', w', n', index. split; [|done]. unfold client_main. rewrite Eargs, Ereq, Econn. cbn [mbind option_bind].
  by rewrite (write_not_get req e Hw).
Qed.

(** ** On the cluster of RaftTraces.v *)

#[local] Existing Instance example_libc.
#[local] Existing Instance example_hash.
#[local] Existing Instance example_resolver.

Definition set_args : list bytes := [str "--port"; str "7401"; str "set"; str "k"; str "x"].
Definition set_options : ClientOptions := mkClientOptions (str "127.0.0.1") 7401 [] [str "set"; str "k"; str "x"].
Definition set_request : ClientRequest := mkClientRequest 1 Opcode.kSet (str "k") (str "x").
Definition set_logged : LogEntry := mkLogEntry 0 0 WalOp.kSet (str "k") (str "x").

(** Node 1, just elected; its peers take the entry. *)
Definition leader_server : NodeServer (Replica ShardedKV) :=
  mkNodeServer (bounded_run 1) 1 replica_store (fun _ => true) false before_write
    (default before_write (snd <$> Handle (handler_of 1) set_request before_write)) [IoSome 7] [IoErr EINTR].

Definition leader_line : Line := mkLine (served_by (handler_of 1) before_write [IoSome 7] [IoErr EINTR]) [IoErr EINTR; IoSome 3] [IoSome 2] true.

Lemma leader_server_handles : handles three set_request leader_server leader_line.
Proof.
  constructor.
  - exact (bounded_run_schedules 1).
  - exact elected_runs.
  - apply coveredb_ok. vm_compute. reflexivity.
  - split; repeat constructor.
  - split; [reflexivity|]. split; repeat constructor.
  - exists (mkClientResponse 1 ResponseStatus.kOk [] 0). split; [vm_compute; reflexivity|]. intros _.
    destruct (role_node 1 elected_end RaftState.kLeader 1) as (n & Hn & Hs & Ht); [vm_compute; reflexivity|].
    destruct (role_node 1 (wd_cluster (ns_after leader_server)) RaftState.kLeader 1) as (n' & Hn' & Hs' & Ht'); [vm_compute; reflexivity|].
    exists n, n'. split; [exact Hn|]. split; [|split; [exact Hn'|split; [exact Hs'|congruence]]].
    assert (Hv : (n ← nodes elected_end !! 1; Some (last_applied n <=? commit_index_ n)) = Some true) by (vm_compute; reflexivity).
    rewrite Hn in Hv. injection Hv as Hv. by apply Z.leb_le.
Qed.

Lemma set_request_encodable : encodable (MClientRequest set_request).
Proof. split; [vm_compute; discriminate|]. split; discriminate. Qed.

Lemma client_write_durable_witness :
  line (str "OK") = line (str "OK") /\
  (write_durable three_peers set_logged leader_server \/ write_durable three_peers set_logged leader_server).
Proof.
  refine (proj2 (client_write_durable three_peers three set_args no_file leader_line leader_line example_kern
    (default example_kern (snd <$> client_main set_args no_file leader_line leader_line example_kern))
    set_options set_request set_logged (line (str "OK")) [] leader_server leader_server
    three_ok three_initial _ eq_refl eq_refl set_request_encodable leader_server_handles leader_server_handles _));
    vm_compute; reflexivity.
Defined.

(** Node 2, the leader of term 2, is gone. *)
Lemma any_majority_serves_client_witness :
  exists i turns t1 j w1, i ∈ [1; 3] /\ Forall (serves [1; 3]) turns /\ passes 1000 turns t1 /\
    RunLoop run_allowed i (loads j) (mkWorld takeover_end turns) = Some (false, w1) /\
    forall ln1 ln2 k recv send,
      dialled (node_handler run_allowed i replica_store (fun _ => true) false) (co_host set_options) (co_port set_options)
        ln1 k w1 recv send ->
      exists k' w' n' index, client_main set_args no_file ln1 ln2 k = Some (Exits EXIT_SUCCESS (line (str "OK")) [], k') /\
        same_fds k k' /\ server_ends (node_handler run_allowed i replica_store (fun _ => true) false) set_request recv send w1 w' /\
        the_node i w' = Some n' /\ 1 <= index <= commit_index_ n' /\ index <= last_applied n' /\
        log_entries n' !! Z.to_nat (index - 1) =
          Some (mkLogEntry (current_term_ n') index (le_op set_logged) (le_key set_logged) (le_value set_logged)).
Proof.
  apply (any_majority_serves_client three_peers three takeover_end).
  - exact three_ok.
  - cbn. lia.
  - exact three_initial.
  - exact three_to_takeover.
  - exact takeover_covered.
  - exact survivors_quorum.
  - intros q nq Hq Hnq. split; [by eapply survivors_in_bounds|by eapply survivors_fit].
  - vm_compute. reflexivity.
  - reflexivity.
  - reflexivity.
  - exact set_request_encodable.
Defined.
