(* ===== verification/ServerMain.v ===== *)
(** * The server program ([tools/nkv-server/main.cpp])

    Arguments, their validation, and the process that they start. [server_plan] is [main] up
    to the point where it opens the store; [run_blocking] is the whole of a server without
    a cluster that serves one connection at a time; ServerRun.v has the rest. *)

From Stdlib Require Import Strings.String.
From S2P Require Import Prelude Common BigEndian Codec Crc32 Os WalRecord RaftTypes RpcCodec.
From S2P Require Import ShardedKV WalWriter DurableStorage ClusterConfig Socket Handler Session.
From S2P Require Import ThreadPool Servers CommandLine.

Definition server_usage : bytes := text
  ["nkv-server - NeuralKV single-node server"; ""; "Usage: nkv-server [options]"; ""; "Options:";
   "  --host <addr>          Listen address (default: 127.0.0.1)";
   "  --port <n>             Listen port (default: 7400; 0 for ephemeral)";
   "  --data-dir <path>      WAL and data directory (default: ./data)";
   "  --workers <n>          Worker threads (default: 1)";
   "  --io <mode>            blocking | threadpool | epoll (Linux only)";
   "                         default: blocking if --workers 1, else threadpool";
   "  --node-id <n>          This node's cluster id (required with --cluster-config)";
   "  --cluster-config <path>  Cluster membership file; enables Raft replication";
   "  --allow-stale-reads    Serve GET from local storage unconditionally, on any";
   "                         node, instead of the default linearizable read_index";
   "                         check (ignored without --cluster-config)";
   "  --help                 Show this message"]%string.

Record ServerOptions := mkServerOptions {
  so_config : NodeConfig;
  so_workers : Z;
  so_workers_explicit : bool;
  so_io_mode : bytes;
  so_cluster_config_path : bytes;
  so_node_id : Z;
  so_allow_stale_reads : bool
}.

Definition ServerOptions_default : ServerOptions := mkServerOptions NodeConfig_default 1 false [] [] 0 false.

Definition set_config (c : NodeConfig) (o : ServerOptions) : ServerOptions :=
  mkServerOptions c (so_workers o) (so_workers_explicit o) (so_io_mode o) (so_cluster_config_path o) (so_node_id o)
    (so_allow_stale_reads o).
Definition set_workers (n : Z) (o : ServerOptions) : ServerOptions :=
  mkServerOptions (so_config o) n true (so_io_mode o) (so_cluster_config_path o) (so_node_id o) (so_allow_stale_reads o).
Definition set_io_mode (m : bytes) (o : ServerOptions) : ServerOptions :=
  mkServerOptions (so_config o) (so_workers o) (so_workers_explicit o) m (so_cluster_config_path o) (so_node_id o)
    (so_allow_stale_reads o).
Definition set_cluster (path : bytes) (id : Z) (allow : bool) (o : ServerOptions) : ServerOptions :=
  mkServerOptions (so_config o) (so_workers o) (so_workers_explicit o) (so_io_mode o) path id allow.

Definition is_flag (arg : bytes) (flag : String.string) : bool := bool_decide (arg = str flag).
Arguments is_flag arg flag%_string_scope.

(** The loop over the arguments. *)
Fixpoint server_args (fuel : nat) (args : list bytes) (o : ServerOptions) : ServerOptions + Ended :=
  match fuel with
  | O => inl o
  | S fuel =>
      match args with
      | [] => inl o
      | arg :: rest =>
          let c := so_config o in
          if is_flag arg "--help" || is_flag arg "-h" then inr (Exits EXIT_SUCCESS server_usage [])
          else if is_flag arg "--host" then
            NextArg rest arg (fun v rest => server_args fuel rest
              (set_config (mkNodeConfig (nc_node_id c) v (nc_port c) (nc_data_dir c)) o)) inr
          else if is_flag arg "--port" then
            NextArg rest arg (fun v rest => converted (stoi v) (fun n => server_args fuel rest
              (set_config (mkNodeConfig (nc_node_id c) (nc_host c) (u16 n) (nc_data_dir c)) o)) inr) inr
          else if is_flag arg "--data-dir" then
            NextArg rest arg (fun v rest => server_args fuel rest
              (set_config (mkNodeConfig (nc_node_id c) (nc_host c) (nc_port c) v) o)) inr
          else if is_flag arg "--workers" then
            NextArg rest arg (fun v rest => converted (stoi v) (fun n => server_args fuel rest (set_workers n o)) inr) inr
          else if is_flag arg "--io" then
            NextArg rest arg (fun v rest => server_args fuel rest (set_io_mode v o)) inr
          else if is_flag arg "--node-id" then
            NextArg rest arg (fun v rest => converted (stoul_any v) (fun n => server_args fuel rest
              (set_cluster (so_cluster_config_path o) (u32 n) (so_allow_stale_reads o) o)) inr) inr
          else if is_flag arg "--cluster-config" then
            NextArg rest arg (fun v rest => server_args fuel rest
              (set_cluster v (so_node_id o) (so_allow_stale_reads o) o)) inr
          else if is_flag arg "--allow-stale-reads" then
            server_args fuel rest (set_cluster (so_cluster_config_path o) (so_node_id o) true o)
          else inr (Exits EXIT_FAILURE server_usage (line (str "unknown argument: " ++ arg)))
      end
  end.

(** The mode of the server, with the warning it prints. *)
Definition server_mode (o : ServerOptions) : (bytes * bytes) + Ended :=
  let io_mode := if is_empty (so_io_mode o) then (if 1 <? so_workers o then str "threadpool" else str "blocking")
                 else so_io_mode o in
  if negb (is_flag io_mode "blocking") && negb (is_flag io_mode "threadpool") && negb (is_flag io_mode "epoll")
  then inr (exit_failure (line (str "unknown --io mode: " ++ io_mode)))
  else if is_flag io_mode "epoll" then
    inl (io_mode, if so_workers_explicit o
                  then line (str "warning: --workers is ignored with --io epoll (single-threaded event loop)") else [])
  else if so_workers o <? 1 then inr (exit_failure (line (str "--workers must be >= 1")))
  else inl (io_mode, []).

(** The cluster, if there is one. *)
Definition server_cluster (o : ServerOptions) (config_file : bytes -> option bytes) : option ClusterConfig + Ended :=
  let path := so_cluster_config_path o in
  if is_empty path then inl None
  else if so_node_id o =? 0 then inr (exit_failure (line (str "--node-id is required when --cluster-config is set")))
  else
    match LoadClusterConfig path (config_file path) ClusterConfig_default with
    | Throws e => inr (Aborts e)
    | Returns (status, cluster_config) =>
        if negb (Status_ok status)
        then inr (exit_failure (line (str "failed to load cluster config: " ++ message status)))
        else if negb (local_node_id cluster_config =? so_node_id o)
        then inr (exit_failure (line (str "--node-id " ++ to_string (so_node_id o) ++ str " does not match node_id " ++
               to_string (local_node_id cluster_config) ++ str " in " ++ path)))
        else inl (Some cluster_config)
    end.

(** What [main] has decided when it opens the store; [pl_err] is on the error stream. *)
Record ServerPlan := mkServerPlan {
  pl_options : ServerOptions;
  pl_io_mode : bytes;
  pl_cluster : option ClusterConfig;
  pl_err : bytes
}.

Definition server_plan (args : list bytes) (config_file : bytes -> option bytes) : ServerPlan + Ended :=
  match server_args (length args) args ServerOptions_default with
  | inr ended => inr ended
  | inl o =>
      match server_mode o with
      | inr ended => inr ended
      | inl (io_mode, err) =>
          match server_cluster o config_file with
          | inr (Exits code out e) => inr (Exits code out (err ++ e))
          | inr ended => inr ended
          | inl cluster => inl (mkServerPlan o io_mode cluster err)
          end
      end
  end.

(** ** A plan that is carried out is a sensible one *)

Lemma server_args_port fuel args o o' :
  server_args fuel args o = inl o' -> is_u16 (nc_port (so_config o)) -> is_u32 (so_node_id o) ->
  is_u16 (nc_port (so_config o')) /\ is_u32 (so_node_id o').
Proof.
  revert args o. induction fuel as [|fuel IH]; intros args o; cbn [server_args]; [by intros [= <-]|].
  destruct args as [|arg rest]; [by intros [= <-]|]. unfold NextArg, converted. intros E Hp Hn.
  repeat case_match; simplify_eq; try (by eapply IH in E; cbn in *).
  - eapply IH in E; [done|cbn|done]. apply Z.mod_pos_bound. lia.
  - eapply IH in E; [done|done|cbn]. apply Z.mod_pos_bound. lia.
Qed.

(** [main] starts only what its flags and its configuration file allow: one of the
    three modes, at least one worker wherever workers are used, a port and an id of
    their widths; and in a cluster, a node with a valid configuration whose local id is
    the one the flags name. *)
Theorem server_plan_sound args config_file p :
  server_plan args config_file = inl p ->
  pl_io_mode p ∈ [str "blocking"; str "threadpool"; str "epoll"] /\
  (pl_io_mode p <> str "epoll" -> 1 <= so_workers (pl_options p)) /\
  is_u16 (nc_port (so_config (pl_options p))) /\
  forall c, pl_cluster p = Some c -> config_ok c /\ local_node_id c = so_node_id (pl_options p) /\ so_node_id (pl_options p) <> 0.
Proof.
  unfold server_plan. destruct (server_args _ args _) as [o|e] eqn:Eargs; [|done].
  destruct (server_args_port _ _ _ _ Eargs ltac:(by vm_compute) ltac:(by vm_compute)) as [Hport _].
  destruct (server_mode o) as [[io_mode err]|e] eqn:Emode; [|done].
  destruct (server_cluster o config_file) as [cluster|[code out e|e]] eqn:Ec; [|done|done]. intros [= <-].
  cbn [pl_io_mode pl_options pl_cluster]. unfold server_mode in Emode. remember (if is_empty (so_io_mode o) then _ else _) as m eqn:Em in Emode. clear Em.
  assert (Hm : m = io_mode /\ io_mode ∈ [str "blocking"; str "threadpool"; str "epoll"] /\ (io_mode <> str "epoll" -> 1 <= so_workers o)).
  { unfold is_flag in Emode. destruct (bool_decide_reflect (m = str "blocking")) as [Hb|_],
      (bool_decide_reflect (m = str "threadpool")) as [Ht|_], (bool_decide_reflect (m = str "epoll")) as [He|_];
      cbn [negb andb] in Emode; try done; destruct (Z.ltb_spec (so_workers o) 1); try discriminate Emode;
      injection Emode as -> _; (split; [done|]; split; [set_solver|intros; (lia || done)]). }
  destruct Hm as (_ & Hin & Hw). split; [done|]. split; [done|]. split; [done|].
  intros c ->. unfold server_cluster in Ec. destruct (is_empty _); [done|].
  destruct (Z.eqb_spec (so_node_id o) 0) as [|Hne]; [done|].
  destruct (LoadClusterConfig _ _ _) as [[st cfg]|e] eqn:El; [|done]. destruct (Status_ok st) eqn:Es; [|done]. cbn [negb] in Ec.
  destruct (Z.eqb_spec (local_node_id cfg) (so_node_id o)) as [Heq|]; [|done]. injection Ec as <-. split; [|done].
  destruct (config_file (so_cluster_config_path o)) as [contents|] eqn:Ef; [|cbn in El; injection El as <- <-; done].
  assert (st = Status_Ok) as ->.
  { unfold LoadClusterConfig in El. destruct (parse_lines _ _) as [[st1 c1]|]; [|done].
    destruct (Status_ok st1) eqn:E1; cbn [negb] in El; [|injection El as <- <-; congruence].
    destruct (Status_ok (Validate c1)) eqn:E2; cbn [negb] in El; injection El as <- <-; congruence. }
  by eapply LoadClusterConfig_ok.
Qed.

(** ** The process of a server without a cluster *)

Section Process.
Context `{Libc} `{Resolver} {T : Type} `{KvLaws T}.
Implicit Types (d : DurableStorage T) (s : Sys).

(** The store could not be opened. *)
Definition recover_failed (p : ServerPlan) (st : Status) : Ended :=
  exit_failure (pl_err p ++ line (str "failed to recover WAL in " ++ nc_data_dir (so_config (pl_options p)) ++ str ": " ++
    message st)).

(** The end of [main]; [out]: what is on the output stream. *)
Definition server_exit (p : ServerPlan) (out : bytes) (status : Status) : Ended :=
  if negb (Status_ok status) then Exits EXIT_FAILURE out (pl_err p ++ line (str "server error: " ++ message status))
  else Exits EXIT_SUCCESS out (pl_err p).

(** [std::cout << "listening " ...] *)
Definition listening (p : ServerPlan) (port : Z) : bytes :=
  line (str "listening " ++ nc_host (so_config (pl_options p)) ++ str ":" ++ to_string port).

(** The branch of [main] that serves one connection at a time. [None] as the end: the
    process still accepts. Also what each client was sent, and the handler's world. The
    destructor of the server closes the listener. *)
Definition serve_blocking {W} (h : RequestHandler W) (p : ServerPlan) (turns : list AcceptTurn) (k : Kern) (w : W)
    : option (option Ended * list bytes * Kern * W) :=
  let c := so_config (pl_options p) in
  let '(server, k) := BlockingServer_new (nc_host c) (nc_port c) k in
  '(e, outs, k, w) ← BlockingServer_Run h server turns k w;
  match e with
  | AcceptWaits => Some (None, outs, k, w)
  | AcceptReturns status =>
      Some (Some (server_exit p (listening p (ts_port server)) status), outs, Fd_destroy (ts_listen_fd server) k, w)
  end.

(** The rest of [main] without a cluster, in this mode. *)
Definition run_blocking (p : ServerPlan) (turns : list AcceptTurn) (k : Kern) s
    : option (option Ended * list bytes * Kern * option (DurableStorage T * Sys)) :=
  '(opened, s) ← DurableStorage_Open (T := T) (nc_data_dir (so_config (pl_options p))) s;
  match opened with
  | Failed st => Some (Some (recover_failed p st), [], k, None)
  | Value storage =>
      '(e, outs, k, w) ← serve_blocking (standalone (so_allow_stale_reads (pl_options p))) p turns k (storage, s);
      Some (e, outs, k, Some w)
  end.

(** One map for all clients, in the order in which they are accepted. *)
Fixpoint spec_clients (clients : list (list ClientRequest)) (m : kvmap) : list bytes * kvmap :=
  match clients with
  | [] => ([], m)
  | reqs :: clients =>
      let '(resps, m) := spec_session reqs m in
      let '(outs, m) := spec_clients clients m in
      (responses_stream resps :: outs, m)
  end.

(** A client that sends requests over a connection that works. *)
Definition sends (sk : Sock) (reqs : list ClientRequest) : Prop :=
  sk_in sk = requests_stream reqs /\ sk_out sk = [] /\ calm (sk_recv sk) /\ calm (sk_send sk) /\
  Forall (fun req => fields_fit (MClientRequest req) /\ encodable (MClientRequest req)) reqs.

Lemma serve_in_turn_standalone allow socks clients rs d s :
  Forall2 sends socks clients -> ds_inv rs d s -> disk_ok s -> values_fit (replay rs) ->
  zlen rs + zlen (concat clients) < 2 ^ 64 ->
  exists d' s' rs', serve_in_turn (standalone allow) socks (d, s) = Some ((spec_clients clients (replay rs)).1, (d', s')) /\
    ds_inv rs' d' s' /\ replay rs' = (spec_clients clients (replay rs)).2.
Proof.
  intros Hall. revert rs d s. induction Hall as [|sk reqs socks clients (Hin & _ & _ & _ & Hreqs) _ IH];
    intros rs d s Hd Hok Hval Hlt; [by exists d, s, rs|].
  cbn [concat] in Hlt. rewrite zlen_app in Hlt. pose proof (zlen_nonneg (concat clients)).
  destruct (process_standalone allow reqs rs d s Hd Hok Hval ltac:(lia) Hreqs)
    as (d1 & s1 & rs1 & E & Hd1 & Hr1 & Hok1 & Hval1 & Hl1).
  destruct (IH rs1 d1 s1 Hd1 Hok1 Hval1 ltac:(lia)) as (d' & s' & rs' & E' & Hd' & Hr').
  exists d', s', rs'. cbn [serve_in_turn spec_clients]. rewrite Hin, E. cbn [mbind option_bind sv_world sv_out]. rewrite E'.
  cbn [mbind option_bind]. destruct (spec_session reqs (replay rs)) as [resps m]. cbn [fst snd] in *. rewrite <- Hr1.
  destruct (spec_clients clients (replay rs1)) as [outs m']. by split_and!.
Qed.

Lemma Open_healthy dir rs s :
  sys_quiet s -> disk_ok s -> sys_wal s = Some (file_on_disk (encode_log rs)) -> Forall wal_valid rs -> log_indexed rs ->
  exists d s', DurableStorage_Open (T := T) dir s = Some (Value d, s') /\ ds_inv rs d s' /\ disk_ok s'.
Proof.
  intros Hq [Hw Hf] Hfile Hval Hidx. destruct (Open_inv dir rs s Hq Hfile Hval Hidx) as (d & s' & E & Hd).
  destruct (Open_spec (T := T) dir rs [] s Hq Hval Hidx) as (d2 & s2 & E2 & _ & _ & _ & _ & Hw2 & Hf2 & _);
    [by left|unfold sys_file; by rewrite Hfile, app_nil_r|].
  rewrite E in E2. injection E2 as <- <-. exists d, s'. split; [done|]. split; [done|]. split; congruence.
Qed.

(** C11: the server process in blocking mode, outside a cluster, is a map that survives its
    processes. Start the server on a healthy disk with a log of whole records (what an
    earlier process acknowledged), let clients connect and send any requests that the
    protocol can encode, in any pieces, and let [Stop] or a failing [accept] end it. Each
    client has received exactly the responses of one finite map that began as the replay of
    [rs] and served the clients in turn; what is on disk then replays to the map at the end
    and ends with a whole record again, so the next process starts from it; the descriptors
    are as before, apart from the listener while the process still runs. *)
Theorem server_process_refines_map p turns k s rs clients server k1 :
  sys_quiet s -> disk_ok s -> sys_wal s = Some (file_on_disk (encode_log rs)) -> Forall wal_valid rs -> log_indexed rs ->
  values_fit (replay rs) -> zlen rs + zlen (concat clients) < 2 ^ 64 ->
  BlockingServer_new (nc_host (so_config (pl_options p))) (nc_port (so_config (pl_options p))) k = (server, k1) ->
  Status_ok (ts_bind_status server) = true -> Forall2 sends (served_clients turns).1 clients ->
  exists ended k' d' s' rs', run_blocking p turns k s = Some (ended, (spec_clients clients (replay rs)).1, k', Some (d', s')) /\
    (is_Some ended <-> exists st, (served_clients turns).2 = AcceptReturns st) /\ (is_Some ended -> same_fds k k') /\
    ds_inv rs' d' s' /\ replay rs' = (spec_clients clients (replay rs)).2 /\
    (forall b, crash_file (sys_file s') b -> b = encode_log rs').
Proof.
  intros Hq Hok Hfile Hval Hidx Hfit Hlt Enew Hbind Hclients.
  destruct (Open_healthy (nc_data_dir (so_config (pl_options p))) rs s Hq Hok Hfile Hval Hidx) as (d1 & s1 & Eo & Hd1 & Hok1).
  destruct (serve_in_turn_standalone (so_allow_stale_reads (pl_options p)) _ clients rs d1 s1 Hclients Hd1 Hok1 Hfit Hlt)
    as (d' & s' & rs' & Es & Hd' & Hr').
  assert (Hcalm : Forall (fun sk => sk_out sk = [] /\ calm (sk_recv sk) /\ calm (sk_send sk)) (served_clients turns).1).
  { eapply Forall2_Forall_l; [exact Hclients|]. apply Forall_forall. intros reqs _ sk (_ & ? & ? & ? & _). done. }
  destruct (blocking_loop_serves (standalone (so_allow_stale_reads (pl_options p))) turns k1 (d1, s1) _ _ Hcalm Es)
    as (k2 & Erun & Hk2).
  assert (Hclose : same_fds k (Fd_destroy (ts_listen_fd server) k2)) by by eapply BlockingServer_closes.
  unfold run_blocking, serve_blocking. rewrite Eo. cbn [mbind option_bind]. rewrite Enew. unfold BlockingServer_Run. rewrite Hbind. cbn [negb].
  rewrite Erun. cbn [mbind option_bind]. destruct (served_clients turns) as [socks [st|]]; cbn [fst snd] in *.
  - eexists _, _, d', s', rs'. split; [done|]. split; [split; intros _; by eexists|]. split; [done|]. split; [done|].
    split; [done|]. intros b. by eapply crash_healthy.
  - eexists _, _, d', s', rs'. split; [done|]. split; [split; [by intros [? ?]|by intros [? ?]]|]. split; [by intros [? ?]|].
    split; [done|]. split; [done|]. intros b. by eapply crash_healthy.
Qed.

End Process.

(** ** Concrete processes *)

#[local] Existing Instance example_libc.
#[local] Existing Instance example_hash.
#[local] Instance example_resolver : Resolver := {|
  getaddrinfo passive node service := GaiOk [str "127.0.0.1"];
  gai_strerror e := []
|}.

Definition cluster_files (path : bytes) : option bytes := Some example_file.
Definition cluster_args : list bytes :=
  [str "--workers"; str "4"; str "--node-id"; str "2"; str "--cluster-config"; str "cluster.conf"].
Definition cluster_plan : ServerPlan :=
  mkServerPlan (mkServerOptions NodeConfig_default 4 true [] (str "cluster.conf") 2 false) (str "threadpool") (Some example_config) [].

Lemma server_plan_sound_witness :
  1 <= so_workers (pl_options cluster_plan) /\ config_ok example_config /\ local_node_id example_config = 2.
Proof.
  destruct (server_plan_sound cluster_args cluster_files cluster_plan) as (_ & Hw & _ & Hc).
  - vm_compute. reflexivity.
  - split; [apply Hw; discriminate|]. destruct (Hc example_config eq_refl) as (H1 & H2 & _). split; [exact H1|exact H2].
Defined.

Definition default_plan : ServerPlan := mkServerPlan ServerOptions_default (str "blocking") None [].

Definition example_clients : list (list ClientRequest) :=
  [[mkClientRequest 1 Opcode.kSet (str "a") (str "1")]; [mkClientRequest 2 Opcode.kGet (str "a") []]].

Lemma server_process_refines_map_witness :
  exists ended k' w, run_blocking (T := ShardedKV) default_plan example_turns Servers.example_kern (fresh_disk []) =
    Some (ended, [frame_of (MClientResponse (mkClientResponse 1 ResponseStatus.kOk [] 0));
                  frame_of (MClientResponse (mkClientResponse 2 ResponseStatus.kOk (str "1") 0))], k', Some w) /\ is_Some ended.
Proof.
  destruct (BlockingServer_new (str "127.0.0.1") 7400 Servers.example_kern) as [server k1] eqn:En.
  destruct (server_process_refines_map (T := ShardedKV) default_plan example_turns Servers.example_kern (fresh_disk []) []
    example_clients server k1) as (ended & k' & d' & s' & rs' & E & He & _).
  - repeat constructor.
  - exact fresh_disk_ok.
  - reflexivity.
  - constructor.
  - intros i r Hi. rewrite lookup_nil in Hi. discriminate Hi.
  - intros key v Ev. change (replay []) with (∅ : kvmap) in Ev. rewrite lookup_empty in Ev. discriminate Ev.
  - vm_compute. reflexivity.
  - exact En.
  - vm_compute in En. injection En as <- _. reflexivity.
  - repeat constructor; try discriminate; cbn; lia.
  - exists ended, k', (d', s'). split; [exact E|]. apply He. eexists. reflexivity.
Defined.

(** A node id on the command line is taken modulo [2^32], a sign included. *)
Theorem node_id_flag_wraps :
  server_args 2 [str "--node-id"; str "-4294967294"] ServerOptions_default =
    inl (mkServerOptions NodeConfig_default 1 false [] [] 2 false).
Proof. vm_compute. reflexivity. Qed.
