(* ===== verification/ServerRun.v ===== *)
(** * The server process in every mode ([tools/nkv-server/main.cpp])

    The rest of [main]: the Raft node that a cluster's member starts ([server_start]), the
    thread-pool and the event-driven server beside the blocking one of ServerMain.v, the
    end of the process with the destructors, and the shutdown signals. Theorems: a server
    started on what the crash of a member left is that member again, as the protocol's
    restart event has it; and what becomes of the descriptors when the servers end. *)

From Stdlib Require Import Strings.String.
From S2P Require Import Prelude Common BigEndian Codec Crc32 Os WalRecord RaftTypes RpcCodec.
From S2P Require Import ShardedKV WalWriter DurableStorage RaftLog ClusterConfig RaftNode RaftNodeSpec RaftCluster.
From S2P Require Import RaftGhost RaftInvariant RaftCompleteness RaftSteps RaftSafety RaftReplica RaftTraces RaftApplied.
From S2P Require Import Socket Handler RaftService RaftReads RaftLoop Session Connection EpollServer Transport.
From S2P Require Import ThreadPool Servers CommandLine ServerMain.

(** ** Starting *)

Section Start.
Context `{Libc} {T : Type} `{KvOps T}.

(** What the request handler is given: the store, and the Raft node of a cluster's member. *)
Inductive Backend :=
| Alone (d : DurableStorage T) (s : Sys)
| Member (n : RaftNode (Replica T)) (transport : ClusterTransport) (thread : NodeThread).

Definition raft_failed (p : ServerPlan) (st : Status) : Ended :=
  exit_failure (pl_err p ++ line (str "failed to start raft: " ++ message st)).

(** From the opening of the store to [raft_node->Start()]. *)
Definition server_start (p : ServerPlan) (clk : Clock) (s : Sys) (state : StateFs) : option (Backend + Ended) :=
  let id := so_node_id (pl_options p) in
  '(opened, s) ← DurableStorage_Open (T := T) (nc_data_dir (so_config (pl_options p))) s;
  match opened with
  | Failed st => Some (inr (recover_failed p st))
  | Value storage =>
      match pl_cluster p with
      | None => Some (inl (Alone storage s))
      | Some cluster_config =>
          let transport := ClusterTransport_new id in
          n ← RaftNode_new clk id cluster_config (mkReplica storage [] s state);
          if negb (Status_ok (RaftNode.open_status_ n)) then Some (inr (raft_failed p (RaftNode.open_status_ n)))
          else Some (inl (Member n transport (Start (NodeThread_new (RaftNode.open_status_ n)))))
      end
  end.

End Start.

Arguments Backend T : clear implicits.

(** ** Serving *)

Section Serve.
Context `{Libc} `{Resolver}.

(** The destructor of a [ThreadPoolServer] begins with the member declared last. *)
Definition close_listener (x : ThreadPoolServer) (k : Kern) : ThreadPoolServer * Kern :=
  let s := tp_server x in
  let '(fd, k) := Fd_reset (ts_listen_fd s) k in
  (mkThreadPoolServer (mkTcpServer (ts_host s) (ts_port s) (ts_stop s) fd (ts_bind_status s)) (tp_pool x) (tp_run x), k).

Definition joined (x : ThreadPoolServer) : bool :=
  match destructor (tp_pool x) with
  | Joining n => Nat.eqb n (length (workers_ (tp_pool x)))
  | _ => false
  end.

(** The branch of the thread pool: [steps] up to the return of [Run], then those of the
    workers and of the destructor. *)
Definition serve_pool (p : ServerPlan) (steps last_steps : list ServerStep) (k : Kern)
    : option (option Ended * ThreadPoolServer * Kern) :=
  let c := so_config (pl_options p) in
  let '(x, k) := ThreadPoolServer_new (nc_host c) (nc_port c) (Z.to_nat (so_workers (pl_options p))) k in
  let out := listening p (ts_port (tp_server x)) in
  '(x, k) ← server_run steps x k;
  match tp_run x with
  | None => Some (None, x, k)
  | Some status =>
      let '(x, k) := close_listener x k in
      '(x, k) ← server_run last_steps x k;
      Some (if joined x then Some (server_exit p out status) else None, x, k)
  end.

(** The implicit destructor of [EpollServer]: three [Fd] members; a [Connection] has none
    of its own, and its descriptor is an [int]. *)
Definition EpollServer_destroy (s : EpollServer) (n : EpollNet) : EpollNet :=
  let k := Fd_destroy (wake_fd_ s) (en_kern n) in
  let k := Fd_destroy (epoll_fd_ s) k in
  set_kern (Fd_destroy (listen_fd_ s) k) n.

Definition serve_epoll {W} (h : RequestHandler W) (p : ServerPlan) (answers : list (bool * WaitAns)) (n : EpollNet) (w : W)
    : option (option Ended * EpollServer * EpollNet * W) :=
  let c := so_config (pl_options p) in
  let '(s, n) := EpollServer_new (nc_host c) (nc_port c) n in
  let out := listening p (es_port s) in
  '(e, s, n, w) ← EpollServer_Run h answers s n w;
  match e with
  | RunWaits => Some (None, s, n, w)
  | RunReturns status => Some (Some (server_exit p out status), s, EpollServer_destroy s n, w)
  end.

(** What the process meets, for each mode. *)
Record Outside := mkOutside {
  ou_turns : list AcceptTurn;
  ou_steps : list ServerStep;
  ou_last_steps : list ServerStep;
  ou_answers : list (bool * WaitAns);
  ou_net : EpollNet
}.

(** How the process ends, if it does. *)
Definition serve_mode {W} (h : RequestHandler W) (p : ServerPlan) (o : Outside) (w : W) : option (option Ended) :=
  if is_flag (pl_io_mode p) "blocking" then
    '(e, _, _, _) ← serve_blocking h p (ou_turns o) (en_kern (ou_net o)) w; Some e
  else if is_flag (pl_io_mode p) "threadpool" then
    '(e, _, _) ← serve_pool p (ou_steps o) (ou_last_steps o) (en_kern (ou_net o)); Some e
  else '(e, _, _, _) ← serve_epoll h p (ou_answers o) (ou_net o) w; Some e.

(** [main]. A member is node [so_node_id] of the cluster [c] of its peers. *)
Definition server_main {T} `{KvOps T} (args : list bytes) (files : bytes -> option bytes) (clk : Clock) (s : Sys)
    (state : StateFs) (o : Outside)
    (run : list (Event (Replica T)) -> Cluster (Replica T) -> option (Cluster (Replica T)))
    (c : Cluster (Replica T)) (turns : list (Turn (Replica T))) (reserve : Z -> bool) : option (option Ended) :=
  match server_plan args files with
  | inr ended => Some (Some ended)
  | inl p =>
      let stale := so_allow_stale_reads (pl_options p) in
      let id := so_node_id (pl_options p) in
      backend ← server_start (T := T) p clk s state;
      match backend with
      | inr ended => Some (Some ended)
      | inl (Alone d s) => serve_mode (standalone stale) p o (d, s)
      | inl (Member n _ _) =>
          serve_mode (node_handler run id replica_store reserve stale) p o (mkWorld (set_node id n c) turns)
      end
  end.

End Serve.

(** ** Shutdown *)

(** What [g_stop_callback] refers to: nothing yet, or the server of [main], which may have
    gone out of scope. *)
Inductive Callback := NoCallback | Refers (alive : bool).

(** What becomes of a signal: nothing; the node and the server are asked to stop; the node's
    thread joins itself, which throws where nothing catches; a call on a destroyed object. *)
Inductive Shutdown := SignalIgnored | SignalStops (thread : option NodeThread) | SignalAborts | SignalUndefined.

(** [HandleShutdownSignal] and the lambda, on the thread of [RunLoop] or another one. *)
Definition HandleShutdownSignal (callback : Callback) (on_loop : bool) (raft : option NodeThread) : Shutdown :=
  match callback with
  | NoCallback => SignalIgnored
  | Refers alive =>
      match raft with
      | Some t =>
          if on_loop && th_run_thread t then SignalAborts
          else if alive then SignalStops (Some (Stop t)) else SignalUndefined
      | None => if alive then SignalStops None else SignalUndefined
      end
  end.

(** Between [InstallShutdownHandlers] and the end of [main]. *)
Inductive Phase := Binding | Serving | Ending.

Definition callback_in (ph : Phase) : Callback :=
  match ph with Binding => NoCallback | Serving => Refers true | Ending => Refers false end.

(** A signal asks a member to stop only while it serves, and only when the kernel does not
    deliver it to the thread of the node's own loop; one that arrives before is lost. *)
Theorem shutdown_signal open ph on_loop :
  Status_ok open = true ->
  let t := Start (NodeThread_new open) in
  HandleShutdownSignal (callback_in ph) on_loop (Some t) =
    match ph with
    | Binding => SignalIgnored
    | Serving => if on_loop then SignalAborts else SignalStops (Some (Stop t))
    | Ending => if on_loop then SignalAborts else SignalUndefined
    end /\
  HandleShutdownSignal (callback_in ph) false (Some (Stop t)) =
    match ph with Binding => SignalIgnored | Serving => SignalStops (Some (Stop t)) | Ending => SignalUndefined end.
Proof. intros Hok. unfold Start, NodeThread_new. cbn. rewrite Hok. destruct ph, on_loop; done. Qed.

(** ** Descriptors at the end of the process *)

Section Descriptors.
Context `{Libc} `{Resolver}.
Implicit Types (x : ThreadPoolServer) (k : Kern).

Lemma close_listener_ok k0 x k x' k' : server_ok k0 x k -> close_listener x k = (x', k') -> server_ok k0 x' k'.
Proof.
  intros [H1 H2 H3 H4 H5 H6 H7]. unfold close_listener. cbn [Fd_reset]. intros [= <- <-].
  unfold CloseQuietly, sys_close. set (l := ts_listen_fd (tp_server x)) in *.
  destruct (Z.leb_spec 0 l) as [Hl|Hl].
  - rewrite bool_decide_true by (apply H1; right; by left).
    constructor; cbn [tp_server tp_pool tp_run ts_listen_fd k_open k_bad_closes set_open]; try done.
    + intros y. rewrite elem_of_difference, elem_of_singleton, H1. split.
      * intros [[?|[[? ?]|?]] ?]; [tauto|done|tauto].
      * intros [Hy|[[? ->]|Hy]]; [|lia|]; (split; [tauto|]); intros ->; [by apply H4|by apply H3 in Hy as (_ & _ & ?)].
    + intros y Hy. destruct (H3 y Hy) as (? & ? & ?). split; [done|]. split; [done|]. lia.
  - constructor; cbn [tp_server tp_pool tp_run ts_listen_fd]; try done.
    + intros y. rewrite H1. split; (intros [?|[[? ?]|?]]; [tauto|lia|tauto]).
    + intros y Hy. destruct (H3 y Hy) as (? & ? & ?). split; [done|]. split; [done|]. lia.
Qed.

Lemma server_step_joined ev x k x' k' : joined_ok (tp_pool x) -> server_step ev x k = Some (x', k') -> joined_ok (tp_pool x').
Proof.
  intros Hj. destruct ev as [t| |y]; cbn [server_step].
  - destruct (tp_run x); [done|]. intros [= E].
    assert (Hp : tp_pool x' = tp_pool x \/ exists fd, tp_pool x' = Submit_push fd (tp_pool x)).
    { unfold ThreadPoolServer_accept in E. repeat case_match; simplify_eq; eauto. }
    destruct Hp as [->|[fd ->]]; [done|]. by apply (joined_step (SSubmit fd) (tp_pool x)).
  - unfold ThreadPoolServer_Stop. destruct (BlockingServer_Stop _ _). by intros [= <- <-].
  - destruct y; try done; try (destruct (tp_run x); [|done]);
      (destruct (pool_step _ (tp_pool x)) as [p|] eqn:E; [|done]); intros [= <- <-]; by apply joined_step in E.
Qed.

Lemma server_run_joined evs x k x' k' : joined_ok (tp_pool x) -> server_run evs x k = Some (x', k') -> joined_ok (tp_pool x').
Proof.
  revert x k. induction evs as [|ev evs IH]; intros x k Hj; cbn [server_run]; [by intros [= <- <-]|].
  destruct (server_step ev x k) as [[x1 k1]|] eqn:E; [|done]. cbn [mbind option_bind]. apply IH. by eapply server_step_joined.
Qed.

(** A listener that was closed stays closed. *)
Lemma server_run_unbound evs x k x' k' :
  ts_listen_fd (tp_server x) < 0 -> server_run evs x k = Some (x', k') -> ts_listen_fd (tp_server x') < 0.
Proof.
  revert x k. induction evs as [|ev evs IH]; intros x k Hl; cbn [server_run]; [by intros [= <- <-]|].
  destruct (server_step ev x k) as [[x1 k1]|] eqn:E; [|done]. cbn [mbind option_bind]. apply IH.
  destruct ev as [t| |y]; cbn [server_step] in E.
  - destruct (tp_run x); [done|]. injection E as E. unfold ThreadPoolServer_accept in E. repeat case_match; by simplify_eq.
  - unfold ThreadPoolServer_Stop, BlockingServer_Stop in E. destruct (TcpConnect _ _ _). injection E as <- <-. cbn. lia.
  - destruct y; try done; try (destruct (tp_run x); [|done]);
      (destruct (pool_step _ (tp_pool x)) as [p|]; [|done]); by injection E as <- <-.
Qed.

(** When every worker has been joined no client is left. *)
Lemma joined_no_clients x :
  pool_ok (tp_pool x) -> joined_ok (tp_pool x) -> workers_ (tp_pool x) <> [] -> joined x = true -> open_clients (tp_pool x) = [].
Proof.
  intros Hok Hj Hne. unfold joined, joined_ok in *. destruct (destructor (tp_pool x)) as [| |n]; [done|done|].
  intros ->%Nat.eqb_eq. rewrite firstn_all in Hj. unfold open_clients.
  assert (Hex : Exited ∈ workers_ (tp_pool x)).
  { destruct (workers_ (tp_pool x)) as [|y l]; [done|]. apply Forall_cons in Hj as [-> _]. by left. }
  destruct (po_exited _ Hok Hex) as [_ ->]. rewrite app_nil_r. clear -Hj.
  induction Hj as [|y l -> _ IH]; [done|exact IH].
Qed.

(** A thread-pool server that has ended, whatever clients and workers did and however it
    was stopped, leaves the descriptors as they were: each closed once, none left open. *)
Theorem serve_pool_closes p steps last_steps k ended x k' :
  1 <= so_workers (pl_options p) -> serve_pool p steps last_steps k = Some (Some ended, x, k') ->
  same_fds k k' /\ open_clients (tp_pool x) = [].
Proof.
  intros Hw. unfold serve_pool.
  destruct (ThreadPoolServer_new _ _ _ k) as [x0 k0] eqn:E0. pose proof (ThreadPoolServer_new_ok _ _ _ _ _ _ E0) as Hok0.
  assert (Hj0 : joined_ok (tp_pool x0) /\ length (workers_ (tp_pool x0)) = Z.to_nat (so_workers (pl_options p))).
  { unfold ThreadPoolServer_new in E0. destruct (BlockingServer_new _ _ _). injection E0 as <- <-. cbn. by rewrite length_replicate. }
  destruct Hj0 as [Hj0 Hlen].
  destruct (server_run steps x0 k0) as [[x1 k1]|] eqn:E1; [|done]. cbn [mbind option_bind].
  pose proof (server_run_ok _ _ _ _ _ _ Hok0 E1) as Hok1. pose proof (server_run_joined _ _ _ _ _ Hj0 E1) as Hj1.
  destruct (tp_run x1) as [status|] eqn:Er; [|done].
  destruct (close_listener x1 k1) as [x2 k2] eqn:E2. pose proof (close_listener_ok _ _ _ _ _ Hok1 E2) as Hok2.
  destruct (server_run last_steps x2 k2) as [[x3 k3]|] eqn:E3; [|done]. cbn [mbind option_bind].
  pose proof (server_run_ok _ _ _ _ _ _ Hok2 E3) as Hok3.
  destruct (joined x3) eqn:Ej; [|done]. intros [= <- <- <-].
  assert (Hl2 : ts_listen_fd (tp_server x2) < 0 /\ joined_ok (tp_pool x2) /\
    length (workers_ (tp_pool x2)) = length (workers_ (tp_pool x1))) by (injection E2 as <- <-; split; [cbn; lia|done]).
  destruct Hl2 as (Hl2 & Hj2 & Hlen2). pose proof (server_run_unbound _ _ _ _ _ Hl2 E3) as Hl3.
  pose proof (server_run_joined _ _ _ _ _ Hj2 E3) as Hj3.
  assert (Hempty : open_clients (tp_pool x3) = []).
  { apply joined_no_clients; [apply Hok3|done| |done]. apply server_run_length in E1, E3. intros Hnil.
    rewrite Hnil in E3. cbn in E3. lia. }
  split; [|done]. split; [|apply Hok3]. apply set_eq. intros fd. rewrite (sv_open _ _ _ Hok3), Hempty. split.
  - intros [?|[[? ?]|Hfd]]; [done|lia|by apply elem_of_nil in Hfd].
  - by left.
Qed.

End Descriptors.

(** ** Restarting a member *)

Section Restart.
Context `{Libc}.

Lemma next_open_healthy s a s' : sys_healthy s -> next_open s = (a, s') -> sys_healthy s'.
Proof.
  intros [[Hm Ho Hl Hs] Hw Hf Ht]. unfold next_open. destruct (sys_open s) as [|x l] eqn:E; intros [= <- <-];
    (constructor; [constructor|..]); try done; [by rewrite E|]. by apply Forall_cons in Ho as [_ Ho].
Qed.

Lemma take_scan_healthy s a s' : sys_healthy s -> take_scan s = (a, s') -> sys_healthy s'.
Proof.
  intros [[Hm Ho Hl Hs] Hw Hf Ht]. unfold take_scan. destruct (sys_scans s) as [|x l] eqn:E; intros [= <- <-];
    (constructor; [constructor|..]); try done; [by rewrite E|]. by apply Forall_cons in Hs as [_ Hs].
Qed.

Lemma set_wal_healthy f s : sys_healthy s -> sys_healthy (set_sys_wal f s).
Proof. intros [[Hm Ho Hl Hs] Hw Hf Ht]. by constructor; [constructor|..]. Qed.

Lemma mkdir_loop_healthy fuel path partial next s r calls s' :
  sys_healthy s -> mkdir_loop fuel path partial next s = Some (r, calls, s') -> sys_healthy s'.
Proof.
  revert partial next s r calls. induction fuel as [|fuel IH]; intros partial next s r calls Hs; cbn [mkdir_loop]; [done|].
  destruct (next <=? zlen path); [|by intros [= _ _ <-]]. cbv zeta.
  match goal with |- context [find_slash path next] => set (nx := match find_slash path next with Some n => n | None => zlen path end) end.
  destruct (is_empty _); [by apply IH|].
  destruct (next_answer (sys_mkdir s)) as [a script] eqn:E.
  assert (Hs1 : sys_healthy (set_sys_mkdir script s)).
  { destruct Hs as [[Hm Ho Hl Hsc] Hw Hf Ht]. constructor; [constructor|..]; try done. cbn [sys_mkdir set_sys_mkdir].
    unfold next_answer in E. destruct (sys_mkdir s) as [|x l]; injection E as _ <-; [constructor|].
    by apply Forall_cons in Hm as [_ Hm]. }
  destruct a as [e|]; [destruct (e =? EEXIST); [|by intros [= _ _ <-]]|];
    (destruct (mkdir_loop _ _ _ _ _) as [[[st1 calls1] s1]|] eqn:E1; [|done]); intros [= _ _ <-]; by eapply IH.
Qed.

Lemma OpenOrCreate_healthy w s st w' s' : sys_healthy s -> OpenOrCreate w s = Some (st, w', s') -> sys_healthy s'.
Proof.
  intros Hs. unfold OpenOrCreate. destruct (MakeDirectoryRecursive _ s) as [[[st1 calls] s1]|] eqn:E1; [|done].
  cbn [mbind option_bind]. assert (Hs1 : sys_healthy s1).
  { unfold MakeDirectoryRecursive in E1. repeat case_match; by eapply mkdir_loop_healthy. }
  destruct (negb _); [by intros [= _ _ <-]|]. destruct (open_append s1) as [a s2] eqn:E2.
  assert (Hs2 : sys_healthy s2).
  { unfold open_append in E2. destruct (next_open s1) as [a1 s1'] eqn:En. apply next_open_healthy in En; [|done].
    destruct a1; injection E2 as _ <-; [by apply set_wal_healthy|done]. }
  destruct a as [fd|e]; [|by intros [= _ _ <-]].
  destruct (next_answer (sys_lseek s2)) as [r script] eqn:E3.
  assert (Hs3 : sys_healthy (set_sys_lseek script s2)).
  { destruct Hs2 as [[Hm Ho Hl Hsc] Hw Hf Ht]. apply next_answer_None in E3 as [_ Hl']; [|done]. by constructor; [constructor|..]. }
  destruct r; [by intros [= _ _ <-]|]. destruct (take_scan (set_sys_lseek script s2)) as [reads s3] eqn:E4.
  apply take_scan_healthy in E4; [|done]. destruct (read_wal _ _ _ _) as [[rs last]|]; [|done]. cbn [mbind option_bind].
  destruct (negb _); by intros [= _ _ <-].
Qed.

Context {T : Type} `{KvLaws T}.

Lemma Open_keeps_healthy dir s r s' : sys_healthy s -> DurableStorage_Open (T := T) dir s = Some (r, s') -> sys_healthy s'.
Proof.
  intros Hs. unfold DurableStorage_Open, DurableStorage_new, WalWriter_new.
  destruct (OpenOrCreate _ s) as [[[st w] s1]|] eqn:E1; [|done]. cbn [mbind option_bind].
  apply OpenOrCreate_healthy in E1; [|done]. unfold RecoverFromWal, open_read.
  destruct (next_open s1) as [a s2] eqn:E2. apply next_open_healthy in E2; [|done].
  destruct (match a with OpenFd _ => _ | OpenErr _ => _ end) as [a' s2'] eqn:Ea.
  assert (s2' = s2) as -> by (destruct a, (sys_wal s2); congruence).
  destruct a' as [fd|e].
  - destruct (take_scan s2) as [reads s3] eqn:E3. apply take_scan_healthy in E3; [|done].
    destruct (read_wal _ _ _ _) as [[st2 [kv last]]|]; [|done]. cbn. destruct (negb _); by intros [= _ <-].
  - destruct (e =? ENOENT); cbn; [by intros [= _ <-]|]. destruct (negb _); by intros [= _ <-].
Qed.

(** What the crash of a node leaves on its disk: of both files at least what was synced;
    and the calls of the next process succeed. *)
Record disk_left (r : Replica T) (s : Sys) (state : StateFs) : Prop := {
  dl_wal : exists b, crash_file (sys_file (rp_sys r)) b /\ sys_wal s = Some (file_on_disk b);
  dl_sys : sys_healthy s;
  dl_state : match st_file (rp_state r) with
    | None => st_file state = None
    | Some f => exists b, crash_file f b /\ st_file state = Some (file_on_disk b)
    end;
  dl_calls : Forall (fun a => match a with OpenFd _ => True | OpenErr _ => False end) (st_open state) /\
    reads_ok (st_reads state) /\ writes_ok (st_write state) /\ Forall (eq None) (st_fsync state)
}.

Lemma disk_left_opens dir r s state :
  rep_healthy r -> dir = ds_data_dir (rp_storage r) -> disk_left r s state ->
  exists d s', DurableStorage_Open (T := T) dir s = Some (Value d, s') /\ replica_restarts r (mkReplica d [] s' state).
Proof.
  intros Hr -> [(b & Hcr & Hb) Hsys Hst Hcalls]. pose proof (healthy_file r Hr) as Hfile. rewrite Hfile in Hcr.
  pose proof (crash_synced _ _ Hcr) as ->.
  destruct (Open_inv (T := T) (ds_data_dir (rp_storage r)) (to_record <$> rp_entries r) s) as (d & s' & E & _);
    [apply Hsys|done|apply (ws_valid _ _ _ _ (rh_wal _ Hr))|apply log_wf_indexed, healthy_log_wf, Hr|].
  exists d, s'. split; [done|]. constructor; cbn [rp_sys rp_state rp_storage]; [|by eapply Open_keeps_healthy|done|done].
  eexists _, s. rewrite Hfile. split; [exact Hcr|]. split; [done|]. split; [apply Hsys|done].
Qed.

(** A healthy disk as it is, since everything on it is synced. *)
Lemma disk_left_whole r : rep_healthy r -> sys_wal (rp_sys r) <> None -> disk_left r (rp_sys r) (rp_state r).
Proof.
  intros Hr Hne. pose proof (healthy_file r Hr) as Hf. destruct (rh_state _ Hr) as [Ho Hrd Hw Hfs Hfile].
  assert (Hwhole : forall b, crash_file (file_on_disk b) b) by (intros b; eexists _, _; split; [by left|done]).
  constructor; [|apply Hr| |done].
  - eexists. rewrite Hf. split; [apply Hwhole|]. rewrite <- Hf. unfold sys_file. by destruct (sys_wal (rp_sys r)).
  - destruct Hfile as [->|(ps & _ & ->)]; [done|]. eexists. split; [apply Hwhole|done].
Qed.

(** C13: A restarted server is the same member. Let any run of the cluster end in the crash
    of one member while none of its threads is in a critical section, so that no write to its
    log or its state file is under way and both files are complete (RaftTraces.v,
    [persist_state_not_atomic], shows what a crash inside a write of the state file does).
    Start the server program on what the crash left of its files, with healthy calls and the
    flags and the configuration it had. Then the node starts, with its loop running,
    as a follower with the term, the vote and the log it had; and the cluster with the new
    process in it is one that the protocol's restart event leads to, so every guarantee
    about runs goes on. *)
Theorem restarted_server_rejoins (members : list PeerInfo) (c0 c : Cluster (Replica T)) i n p clk s state :
  members_ok members -> initial members c0 -> runs c0 c -> nodes c !! i = Some n ->
  pl_cluster p = Some (config_ n) -> so_node_id (pl_options p) = i ->
  nc_data_dir (so_config (pl_options p)) = ds_data_dir (rp_storage (replica_ n)) -> disk_left (replica_ n) s state ->
  exists n' transport thread, server_start p clk s state = Some (inl (Member n' transport thread)) /\
    th_run_thread thread = true /\ state_ n' = RaftState.kFollower /\
    log_entries n' = log_entries n /\ current_term_ n' = current_term_ n /\ voted_for_ n' = voted_for_ n /\
    runs c (end_election i (set_node i n' c)).
Proof.
  intros Hmem Hinit Hr Hn Hcfg Hid Hdir Hleft.
  destruct (runs_inv (St := every_run) members c0 c _ Hmem (initial_inv members c0 Hinit) Hr ltac:(done)) as (g & _ & HI).
  pose proof (inv_nodes _ _ _ HI _ _ Hn) as Hni.
  destruct (disk_left_opens _ (replica_ n) s state (nk_rep _ (ni_ok _ _ _ _ Hni)) Hdir Hleft) as (d & s' & Eo & Hre).
  destruct (restart_spec clk n (mkReplica d [] s' state) (ni_ok _ _ _ _ Hni) Hre)
    as (n' & En & Hok & _ & Hst & Hlog & Ht & Hv & Hs & _).
  assert (Hid' : RaftNode.local_node_id_ n = i) by apply Hni. pose proof En as En'. rewrite Hid' in En.
  exists n', (ClusterTransport_new i), (Start (NodeThread_new (RaftNode.open_status_ n'))).
  split. { unfold server_start. rewrite Eo, Hcfg, Hid. cbn [mbind option_bind]. rewrite En. cbn [mbind option_bind]. by rewrite Hst. }
  split. { unfold Start, NodeThread_new. cbn. by rewrite Hst. }
  do 4 (split; [done|]).
  apply (runs_step c (EvRestart i (mkReplica d [] s' state) clk) (end_election i (set_node i n' c))); [| |constructor].
  - cbn [allowed]. intros m Hm. replace m with n by congruence. exact Hre.
  - cbn [exec]. rewrite Hn. cbn [mbind option_bind]. by rewrite En'.
Qed.

End Restart.

(** ** Concrete processes *)

#[local] Existing Instance example_libc.
#[local] Existing Instance example_hash.
#[local] Instance example_resolver : Resolver := {|
  getaddrinfo passive node service := GaiOk [str "127.0.0.1"];
  gai_strerror e := []
|}.

(** Node 2 of the cluster of RaftTraces.v, after it stored the entry of the leader. *)
Definition member_plan : ServerPlan :=
  mkServerPlan (mkServerOptions (mkNodeConfig 0 (str "127.0.0.1") 7002 (str "d")) 1 false [] (str "cluster.conf") 2 false)
    (str "blocking") (Some (three_config 2)) [].

Definition crashed : Replica ShardedKV := default blank_replica (replica_ <$> nodes commit_end !! 2).

Lemma restarted_server_rejoins_witness :
  exists n' transport thread, server_start member_plan clk0 (rp_sys crashed) (rp_state crashed) = Some (inl (Member n' transport thread)) /\
    th_run_thread thread = true /\ log_entries n' = [set_entry 1 1 "x"] /\ current_term_ n' = 1 /\ voted_for_ n' = 1.
Proof.
  assert (Hv : (n ← nodes commit_end !! 2; Some (log_entries n, current_term_ n, voted_for_ n, config_ n, ds_data_dir (rp_storage (replica_ n)))) =
    Some ([set_entry 1 1 "x"], 1, 1, three_config 2, str "d")) by (vm_compute; reflexivity).
  destruct (nodes commit_end !! 2) as [n|] eqn:Hn; [|discriminate Hv]. injection Hv as Hlog Ht Hvote Hcfg Hdir.
  assert (Hr : replica_ n = crashed) by (unfold crashed; rewrite Hn; reflexivity).
  destruct (restarted_server_rejoins three_peers three commit_end 2 n member_plan clk0 (rp_sys crashed) (rp_state crashed)
    three_ok three_initial three_to_commit Hn) as (n' & tr & th & E & Hth & _ & Hlog' & Ht' & Hv' & _).
  - rewrite Hcfg. reflexivity.
  - reflexivity.
  - rewrite Hdir. reflexivity.
  - rewrite Hr. apply disk_left_whole; [|vm_compute; discriminate].
    destruct (runs_inv (St := every_run) three_peers three commit_end _ three_ok (initial_inv _ _ three_initial) three_to_commit
      (False_ind _)) as (g & _ & HI).
    rewrite <- Hr. apply (nk_rep _ (ni_ok _ _ _ _ (inv_nodes _ _ _ HI _ _ Hn))).
  - exists n', tr, th. split; [exact E|]. split; [exact Hth|]. split; [rewrite Hlog'; exact Hlog|].
    split; [rewrite Ht'; exact Ht|rewrite Hv'; exact Hvote].
Defined.

(** Two clients on a pool of two workers, then [Stop]; everything is joined and closed. *)
Definition pool_plan : ServerPlan :=
  mkServerPlan (mkServerOptions NodeConfig_default 2 true [] [] 0 false) (str "threadpool") None [].

Definition pool_steps : list ServerStep :=
  [SvAccept (mkAcceptTurn false (inl (paused_sock [])) false); SvPool (SNotify 0); SvPool (SLock 0);
   SvAccept (mkAcceptTurn false (inl (paused_sock [])) false); SvStop;
   SvAccept (mkAcceptTurn false (inr 22) true)].

Definition pool_last_steps : list ServerStep :=
  [SvPool SStop; SvPool SNotifyAll; SvPool (SLock 1); SvPool (SRun 1); SvPool (SRun 0); SvPool (SLock 0); SvPool (SLock 1);
   SvPool SJoin; SvPool SJoin].

Lemma serve_pool_closes_witness :
  exists x k', serve_pool pool_plan pool_steps pool_last_steps Servers.example_kern =
    Some (Some (Exits EXIT_SUCCESS (listening pool_plan 7400) []), x, k') /\ same_fds Servers.example_kern k'.
Proof.
  destruct (serve_pool pool_plan pool_steps pool_last_steps Servers.example_kern) as [[[[e|] x] k']|] eqn:E.
  - destruct (serve_pool_closes pool_plan pool_steps pool_last_steps Servers.example_kern e x k') as [Hs _];
      [vm_compute; discriminate|exact E|]. exists x, k'. split; [|exact Hs]. vm_compute in E. injection E as <- _ _. reflexivity.
  - exfalso. vm_compute in E. discriminate E.
  - exfalso. vm_compute in E. discriminate E.
Defined.

(** A client that is connected when the event-driven server ends stays open: nothing
    closes the descriptors in the table. *)
Theorem epoll_leaves_client_open :
  (fun '(e, s, n, _) => (e, dom (connections_ s), k_open (en_kern n))) <$>
    serve_epoll (standalone false) (mkServerPlan ServerOptions_default (str "epoll") None [])
      [(false, WaitReady [(3, EPOLLIN)]); (true, WaitErr EINTR)] EpollServer.example_net fresh_world =
  Some (Some (Exits EXIT_SUCCESS (listening default_plan 7400) []), {[6]}, {[0; 1; 2; 6]}).
Proof. vm_compute. reflexivity. Qed.
