(* ===== verification/Bench.v ===== *)
(** * The load generator ([tools/nkv-bench/main.cpp])

    Arguments, the workers with their request mix, and the summary of the latencies. The
    other end of a worker's connection is a function [remote] from what was sent to what
    arrives, with a state of its own; the clock is a script. Doubles are the IEEE 754
    doubles of [SpecFloat]. Theorems: a worker against the server of this repository is
    answered every time, its GETs always finding the value; and the percentiles are
    samples, in order, for any number of samples that fits into a double. *)

From Stdlib Require Import Strings.String SpecFloat.
From stdpp Require Import sorting.
From S2P Require Import Prelude Common BigEndian Codec Crc32 Os WalRecord RaftTypes RpcCodec.
From S2P Require Import ShardedKV WalWriter DurableStorage ClusterConfig Socket Handler Session Transport CommandLine Client.

Record BenchOptions := mkBenchOptions {
  bo_host : bytes;
  bo_port : Z;
  bo_duration_sec : Z;
  bo_clients : Z;
  bo_ratio : Z;  (* percent of the operations that are GET *)
  bo_bench_mode : bool;
  bo_label : bytes
}.

Definition BenchOptions_default : BenchOptions := mkBenchOptions (str "127.0.0.1") 7400 60 1 80 false [].

Definition bench_usage : bytes := text
  ["nkv-bench - NeuralKV load generator"; ""; "Usage: nkv-bench [options]"; ""; "Options:";
   "  --host <addr>       Target host (default: 127.0.0.1)";
   "  --port <n>          Target port (default: 7400)";
   "  --duration <sec>    Run duration in seconds (default: 60)";
   "  --clients <n>       Concurrent client connections (default: 1)";
   "  --ratio <pct>       Percent of ops that are GET (default: 80)";
   "  --bench             Run the load benchmark against a live server";
   "  --label <text>      Tag printed with the results (default: none)";
   "  --help              Show this message"]%string.

(** ** The workers *)

Definition kKeySpace : Z := 1000.
Definition bench_value : bytes := replicate 256 (byte_of_Z 118).
Definition bench_key (thread_id i : Z) : bytes := str "bench:" ++ to_string thread_id ++ str ":" ++ to_string i.

Definition populate_request (thread_id i request_id : Z) : ClientRequest :=
  mkClientRequest request_id Opcode.kSet (bench_key thread_id i) bench_value.

(** The request of the timed loop: which key, and whether it reads. *)
Definition timed_request (thread_id ratio seq request_id : Z) : ClientRequest :=
  let key := bench_key thread_id (seq mod kKeySpace) in
  if seq mod 100 <? ratio then mkClientRequest request_id Opcode.kGet key []
  else mkClientRequest request_id Opcode.kSet key bench_value.

(** The three looks at the clock in a turn of the timed loop, in nanoseconds. *)
Record Tick := mkTick { tk_now : Z; tk_start : Z; tk_end : Z }.

(** [duration_cast<microseconds>], cast to [uint64_t]. *)
Definition latency_us (t : Tick) : Z := u64 ((tk_end t - tk_start t) ÷ 1000).

Section Worker.
Context `{Libc} `{Resolver} {St : Type} (remote : St -> bytes -> bytes * St).
Implicit Types (st : St) (sk : Sock).

(** The waiting loop: any failure of [read], an interruption included, ends it. *)
Fixpoint SendRequestSync_loop (fuel : nat) (buffer : bytes) (resp : ClientResponse) sk : option (bool * ClientResponse * Sock) :=
  match fuel with
  | O => None
  | S fuel =>
      match TryParseFrame_client buffer None (Some resp) with
      | (ParseResult.kComplete, _, o) => Some (true, default resp (out_response o), sk)
      | (ParseResult.kError, _, o) => Some (false, default resp (out_response o), sk)
      | (ParseResult.kNeedMore, buffer, o) =>
          let resp := default resp (out_response o) in
          match sock_read kChunkSize sk with
          | (inr _, sk) => Some (false, resp, sk)
          | (inl chunk, sk) =>
              if is_empty chunk then Some (false, resp, sk) else SendRequestSync_loop fuel (buffer ++ chunk) resp sk
          end
      end
  end.

Definition SendRequestSync (req : ClientRequest) (resp : ClientResponse) st sk
    : option (bool * ClientResponse * St * Sock) :=
  match EncodeClientRequest req with
  | Failed _ => Some (false, resp, st, sk)
  | Value encoded =>
      '(status, sk) ← WriteFull encoded (mkSock (sk_in sk) (sk_recv sk) [] (sk_send sk));
      if negb (Status_ok status) then Some (false, resp, st, sk)
      else
        let '(answer, st) := remote st (sk_out sk) in
        let sk := mkSock (sk_in sk ++ answer) (sk_recv sk) (sk_out sk) (sk_send sk) in
        '(ok, resp, sk) ← SendRequestSync_loop (S (length (sk_recv sk) + length (sk_in sk))) [] resp sk;
        Some (ok, resp, st, sk)
  end.

(** The loop that fills the keys from [i] on; the next request id, unless it gave up. *)
Fixpoint populate (n : nat) (thread_id i request_id : Z) st sk : option (option Z * St * Sock) :=
  match n with
  | O => Some (Some request_id, st, sk)
  | S n =>
      '(ok, _, st, sk) ← SendRequestSync (populate_request thread_id i request_id) ClientResponse_default st sk;
      if negb ok then Some (None, st, sk) else populate n thread_id (i + 1) (u64 (request_id + 1)) st sk
  end.

(** The timed loop; when the script of the clock is used up it has not returned. *)
Fixpoint timed_loop (ticks : list Tick) (thread_id ratio deadline seq request_id : Z) st sk : option (list Z * St * Sock) :=
  match ticks with
  | [] => None
  | t :: ticks =>
      if tk_now t <? deadline then
        '(ok, _, st, sk) ← SendRequestSync (timed_request thread_id ratio seq request_id) ClientResponse_default st sk;
        if negb ok then Some ([], st, sk)
        else
          '(rest, st, sk) ← timed_loop ticks thread_id ratio deadline (u64 (seq + 1)) (u64 (request_id + 1)) st sk;
          Some (latency_us t :: rest, st, sk)
      else Some ([], st, sk)
  end.

(** What a worker meets: its descriptors, the calls on its connection, the clock. *)
Record WorkerEnv := mkWorkerEnv {
  we_kern : Kern;
  we_state : St;
  we_recv : list StreamAns;
  we_send : list StreamAns;
  we_ticks : list Tick
}.

(** The latencies, what went to the error stream, the descriptors and the other end. *)
Definition RunClientWorker (options : BenchOptions) (thread_id deadline : Z) (e : WorkerEnv) : option (list Z * bytes * Kern * St) :=
  let '(conn, k) := TcpConnect (bo_host options) (bo_port options) (we_kern e) in
  match conn with
  | Failed st =>
      Some ([], line (str "client " ++ to_string thread_id ++ str ": connect failed: " ++ message st), k, we_state e)
  | Value fd =>
      '(next, st, sk) ← populate (Z.to_nat kKeySpace) thread_id 0 1 (we_state e) (mkSock [] (we_recv e) [] (we_send e));
      match next with
      | None => Some ([], [], Fd_destroy fd k, st)
      | Some request_id =>
          '(latencies, st, _) ← timed_loop (we_ticks e) thread_id (bo_ratio options) deadline 0 request_id st sk;
          Some (latencies, [], Fd_destroy fd k, st)
      end
  end.

End Worker.

Arguments WorkerEnv St : clear implicits.

(** ** The summary *)

Definition prec : Z := 53.
Definition emax : Z := 1024.

(** [static_cast<double>] of an integer, and [static_cast<size_t>] of a double that is
    neither negative nor too large. *)
Definition double_of (n : Z) : spec_float := binary_normalize prec emax n 0 false.

Definition size_of (x : spec_float) : Z :=
  match x with
  | S754_finite false m e => if 0 <=? e then Z.pos m * 2 ^ e else Z.pos m / 2 ^ (- e)
  | _ => 0
  end.

Definition double_050 : spec_float := S754_finite false 4503599627370496 (-53).
Definition double_095 : spec_float := S754_finite false 8556839292003942 (-53).
Definition double_099 : spec_float := S754_finite false 8917127262193582 (-53).

(** The index of the sample; [None]: a read out of range. *)
Definition percentile_index (size : Z) (p : spec_float) : Z := size_of (SFmul prec emax p (double_of (size - 1))).

Definition Percentile (sorted_latencies : list Z) (p : spec_float) : option Z :=
  if is_empty sorted_latencies then Some 0
  else sorted_latencies !! Z.to_nat (percentile_index (zlen sorted_latencies) p).

Record Report := mkReport {
  rp_label : bytes;
  rp_total_ops : Z;
  rp_ops_per_sec : spec_float;
  rp_p50 : Z;
  rp_p95 : Z;
  rp_p99 : Z;
  rp_err : bytes
}.

(** The end of [RunBenchmark], once the workers are joined; times in nanoseconds. *)
Definition summarise (options : BenchOptions) (start end_ : Z) (results : list (list Z)) (err : bytes) : option Report :=
  let all_latencies := merge_sort Z.le (concat results) in
  let elapsed_sec := SFdiv prec emax (double_of (end_ - start)) (double_of 1000000000) in
  let ops_per_sec :=
    if SFltb (S754_zero false) elapsed_sec then SFdiv prec emax (double_of (zlen all_latencies)) elapsed_sec
    else S754_zero false in
  p50 ← Percentile all_latencies double_050;
  p95 ← Percentile all_latencies double_095;
  p99 ← Percentile all_latencies double_099;
  Some (mkReport (bo_label options) (zlen all_latencies) ops_per_sec p50 p95 p99 err).

Definition nanoseconds : Z := 1000000000.

Section Main.
Context `{Libc} `{Resolver} {St : Type} (remote : St -> bytes -> bytes * St).

(** The threads, each with its own share of the outside. *)
Fixpoint run_workers (options : BenchOptions) (deadline : Z) (threads : list Z) (env : Z -> WorkerEnv St)
    : option (list (list Z) * bytes) :=
  match threads with
  | [] => Some ([], [])
  | t :: threads =>
      '(latencies, err, _, _) ← RunClientWorker remote options t deadline (env t);
      '(results, errs) ← run_workers options deadline threads env;
      Some (latencies :: results, err ++ errs)
  end.

(** A negative number of clients is a size that no vector can have. *)
Definition RunBenchmark (options : BenchOptions) (start end_ : Z) (env : Z -> WorkerEnv St) : option (Outcome Report) :=
  if bo_clients options <? 0 then Some (Throws std_length_error)
  else
    let deadline := start + bo_duration_sec options * nanoseconds in
    '(results, err) ← run_workers options deadline (seqZ 0 (bo_clients options)) env;
    report ← summarise options start end_ results err;
    Some (Returns report).

End Main.

(** ** [main] *)

(** The loop over the arguments. *)
Fixpoint bench_args (fuel : nat) (args : list bytes) (o : BenchOptions) : BenchOptions + Ended :=
  match fuel with
  | O => inl o
  | S fuel =>
      match args with
      | [] => inl o
      | arg :: rest =>
          let '(mkBenchOptions host port duration clients ratio bench label) := o in
          if is_arg arg "--help" || is_arg arg "-h" then inr (Exits EXIT_SUCCESS bench_usage [])
          else if is_arg arg "--host" then
            NextArg rest arg (fun v rest => bench_args fuel rest (mkBenchOptions v port duration clients ratio bench label)) inr
          else if is_arg arg "--port" then
            NextArg rest arg (fun v rest => converted (stoi v) (fun n => bench_args fuel rest
              (mkBenchOptions host (u16 n) duration clients ratio bench label)) inr) inr
          else if is_arg arg "--duration" then
            NextArg rest arg (fun v rest => converted (stoi v) (fun n => bench_args fuel rest
              (mkBenchOptions host port n clients ratio bench label)) inr) inr
          else if is_arg arg "--clients" then
            NextArg rest arg (fun v rest => converted (stoi v) (fun n => bench_args fuel rest
              (mkBenchOptions host port duration n ratio bench label)) inr) inr
          else if is_arg arg "--ratio" then
            NextArg rest arg (fun v rest => converted (stoi v) (fun n => bench_args fuel rest
              (mkBenchOptions host port duration clients n bench label)) inr) inr
          else if is_arg arg "--bench" then bench_args fuel rest (mkBenchOptions host port duration clients ratio true label)
          else if is_arg arg "--label" then
            NextArg rest arg (fun v rest => bench_args fuel rest (mkBenchOptions host port duration clients ratio bench v)) inr
          else inr (Exits EXIT_FAILURE bench_usage (line (str "unknown argument: " ++ arg)))
      end
  end.

Definition bench_configuration (o : BenchOptions) : bytes :=
  line (str "nkv-bench configuration:") ++
  line (str "  host:     " ++ bo_host o) ++
  line (str "  port:     " ++ to_string (bo_port o)) ++
  line (str "  duration: " ++ to_string_int (bo_duration_sec o) ++ str "s") ++
  line (str "  clients:  " ++ to_string_int (bo_clients o)) ++
  line (str "pass --bench to run the load benchmark against a live server").

(** How the program ends: at once, or with a report on the output stream. *)
Inductive BenchEnd := BenchEnded (e : Ended) | BenchReport (r : Report).

Definition bench_main `{Libc} `{Resolver} {St} (remote : St -> bytes -> bytes * St) (args : list bytes) (start end_ : Z)
    (env : Z -> WorkerEnv St) : option BenchEnd :=
  match bench_args (length args) args BenchOptions_default with
  | inr ended => Some (BenchEnded ended)
  | inl options =>
      if bo_bench_mode options then
        outcome ← RunBenchmark remote options start end_ env;
        Some (match outcome with Returns r => BenchReport r | Throws e => BenchEnded (Aborts e) end)
      else Some (BenchEnded (Exits EXIT_SUCCESS (bench_configuration options) []))
  end.

(** ** Doubles *)

Section Doubles.

Abbreviation digits m := (Z.pos (digits2_pos m)).

Lemma digits_spec m : 2 ^ (digits m - 1) <= Z.pos m < 2 ^ digits m.
Proof.
  induction m as [m IH|m IH|]; cbn [digits2_pos]; [| |done]; rewrite Pos2Z.inj_succ, Z.pow_succ_r by lia;
    replace (Z.succ (digits m) - 1) with (Z.succ (digits m - 1)) by lia; rewrite Z.pow_succ_r by lia; lia.
Qed.

Lemma digits_unique m d : 0 <= d -> 2 ^ d <= Z.pos m < 2 ^ (d + 1) -> digits m = d + 1.
Proof.
  intros Hd Hm. pose proof (digits_spec m) as Hs.
  destruct (Z.lt_trichotomy (digits m) (d + 1)) as [Hlt|[?|Hgt]]; [|done|]; exfalso.
  - pose proof (Z.pow_le_mono_r 2 (digits m) d). lia.
  - pose proof (Z.pow_le_mono_r 2 (d + 1) (digits m - 1)). lia.
Qed.

Lemma shr_1_m r : 0 <= shr_m r -> shr_m (shr_1 r) = shr_m r / 2.
Proof.
  destruct r as [[|[p|p|]|] b s]; cbn [shr_m]; intros Hr; try done; cbn [shr_1 shr_m].
  - by rewrite <- Z.div2_div.
  - by rewrite <- Z.div2_div.
Qed.

Lemma iter_shr p r : 0 <= shr_m r -> shr_m (SpecFloat.iter_pos shr_1 p r) = shr_m r / 2 ^ Z.pos p.
Proof.
  revert r. induction p as [p IH|p IH|]; intros r Hr; cbn [SpecFloat.iter_pos].
  - assert (H1 : 0 <= shr_m (shr_1 r)) by (rewrite shr_1_m by done; apply Z.div_pos; lia).
    assert (H2 : 0 <= shr_m (SpecFloat.iter_pos shr_1 p (shr_1 r))) by (rewrite IH by done; apply Z.div_pos; lia).
    rewrite (IH (SpecFloat.iter_pos shr_1 p (shr_1 r))), (IH (shr_1 r)), shr_1_m, !Z.div_div by lia. f_equal.
    replace (Z.pos p~1) with (1 + Z.pos p + Z.pos p) by lia. rewrite !Z.pow_add_r by lia. lia.
  - assert (H2 : 0 <= shr_m (SpecFloat.iter_pos shr_1 p r)) by (rewrite IH by done; apply Z.div_pos; lia).
    rewrite (IH (SpecFloat.iter_pos shr_1 p r)), (IH r), Z.div_div by lia. f_equal.
    replace (Z.pos p~0) with (Z.pos p + Z.pos p) by lia. rewrite Z.pow_add_r by lia. lia.
  - rewrite shr_1_m by done. done.
Qed.

Lemma fexp_normal e : -1000 < e -> fexp prec emax e = e - 53.
Proof. intros He. unfold fexp, emin, prec, emax. lia. Qed.

(** A product that needs no rounding. *)
Lemma round_exact m e :
  digits m = 53 -> -1000 < e <= 900 -> binary_round_aux prec emax false (Z.pos m) e loc_Exact = S754_finite false m e.
Proof.
  intros H53 He. unfold binary_round_aux, shr_fexp. cbn [Zdigits2 shr_record_of_loc].
  rewrite fexp_normal, H53 by lia. replace (53 + e - 53 - e) with 0 by lia. cbn [shr shr_m loc_of_shr_record round_nearest_even Zdigits2].
  rewrite H53, fexp_normal by lia. replace (53 + e - 53 - e) with 0 by lia. cbn [shr shr_m].
  unfold emax, prec. destruct (Z.leb_spec e (1024 - 53)); [done|lia].
Qed.

(** Rounding moves a value by less than one part in [2^52]. *)
Lemma round_close m e :
  53 <= digits m -> -1000 < e -> digits m + e < 900 ->
  exists m' e', binary_round_aux prec emax false (Z.pos m) e loc_Exact = S754_finite false m' e' /\ e <= e' /\
    2 ^ 52 * Z.abs (Z.pos m' * 2 ^ (e' - e) - Z.pos m) <= Z.pos m.
Proof.
  intros Hd Hlo Hhi. set (n := digits m - 53). pose proof (digits_spec m) as Hs.
  destruct (Z.eq_dec n 0) as [Hn|Hn].
  { exists m, e. rewrite round_exact by lia. split; [done|]. rewrite Z.sub_diag, Z.pow_0_r. lia. }
  unfold binary_round_aux, shr_fexp at 1. cbn [Zdigits2 shr_record_of_loc]. rewrite fexp_normal by lia.
  replace (digits m + e - 53 - e) with n by lia. destruct n as [|p|p] eqn:En; [done| |lia]. cbn [shr].
  set (r := SpecFloat.iter_pos shr_1 p _). assert (Em : shr_m r = Z.pos m / 2 ^ Z.pos p) by (unfold r; by rewrite iter_shr).
  set (m1 := round_nearest_even _ _).
  assert (Hm1 : m1 = shr_m r \/ m1 = shr_m r + 1) by (unfold m1, round_nearest_even; repeat case_match; auto).
  assert (Hpow : 2 ^ (digits m - 1) = 2 ^ 52 * 2 ^ Z.pos p) by (rewrite <- Z.pow_add_r by lia; f_equal; lia).
  assert (Hpow2 : 2 ^ digits m = 2 ^ 53 * 2 ^ Z.pos p) by (rewrite <- Z.pow_add_r by lia; f_equal; lia).
  assert (Hpp : 0 < 2 ^ Z.pos p) by (apply Z.pow_pos_nonneg; lia). clearbody m1 r. clear Hd.
  pose proof (Z.div_mod (Z.pos m) (2 ^ Z.pos p) ltac:(lia)) as Hdm. pose proof (Z.mod_pos_bound (Z.pos m) (2 ^ Z.pos p) Hpp) as Hmod.
  rewrite <- Em in Hdm. set (q := shr_m r) in *. remember (2 ^ Z.pos p) as T eqn:HT in *. clearbody q.
  assert (Hq : 2 ^ 52 <= q < 2 ^ 53) by nia. destruct m1 as [|m1|m1]; [lia| |lia].
  assert (Hclose : 2 ^ 52 * Z.abs (Z.pos m1 * T - Z.pos m) <= Z.pos m) by nia.
  unfold shr_fexp. cbn [Zdigits2 shr_record_of_loc].
  assert (Hcase : digits m1 = 53 \/ digits m1 = 54 /\ Z.pos m1 = 2 ^ 53).
  { destruct (Z.eq_dec (Z.pos m1) (2 ^ 53)) as [E|]; [right|left; apply (digits_unique m1 52); lia].
    split; [apply (digits_unique m1 53); lia|done]. }
  destruct Hcase as [H53|[H54 Hv]].
  - exists m1, (e + Z.pos p). rewrite fexp_normal, H53 by lia. replace (53 + (e + Z.pos p) - 53 - (e + Z.pos p)) with 0 by lia.
    cbn [shr shr_m]. split; [|split; [lia|replace (e + Z.pos p - e) with (Z.pos p) by lia; by rewrite <- HT]].
    unfold emax, prec. destruct (Z.leb_spec (e + Z.pos p) (1024 - 53)); [done|lia].
  - exists (2 ^ 52)%positive, (e + Z.pos p + 1). rewrite fexp_normal, H54 by lia.
    replace (54 + (e + Z.pos p) - 53 - (e + Z.pos p)) with 1 by lia. cbn [shr]. rewrite iter_shr by (cbn; lia). cbn [shr_m].
    rewrite Hv. change (2 ^ 53 / 2 ^ 1) with (Z.pos (2 ^ 52)). cbv iota beta.
    split; [unfold emax, prec; destruct (Z.leb_spec (e + Z.pos p + 1) (1024 - 53)); [done|lia]|]. split; [lia|].
    replace (e + Z.pos p + 1 - e) with (Z.pos p + 1) by lia. rewrite Z.pow_add_r, <- HT by lia.
    replace (Z.pos (2 ^ 52) * (T * 2 ^ 1)) with (Z.pos m1 * T) by (rewrite Hv; lia). done.
Qed.

Lemma iter_xO d m : Z.pos (Pos.iter xO m d) = Z.pos m * 2 ^ Z.pos d.
Proof.
  induction d as [|d IH] using Pos.peano_ind; [cbn; lia|]. rewrite Pos.iter_succ, Pos2Z.inj_xO, IH, Pos2Z.inj_succ, Z.pow_succ_r by lia. lia.
Qed.

(** An integer below [2^53] is a double. *)
Lemma double_of_exact n :
  0 < n < 2 ^ 53 -> exists m d, double_of n = S754_finite false m (- d) /\ 0 <= d <= 52 /\ Z.pos m = n * 2 ^ d /\ digits m = 53.
Proof.
  intros Hn. destruct n as [|n|n]; [lia| |lia]. unfold double_of, binary_normalize, binary_round.
  pose proof (digits_spec n) as Hs.
  assert (Hd : digits n <= 53).
  { destruct (Z.le_gt_cases (digits n) 53); [done|]. pose proof (Z.pow_le_mono_r 2 53 (digits n - 1)). lia. }
  rewrite fexp_normal by lia. unfold shl_align. replace (digits n + 0 - 53 - 0) with (- (53 - digits n)) by lia.
  destruct (53 - digits n) as [|d|d] eqn:Ed; [| |lia].
  - change (- 0) with 0. cbv beta iota zeta. exists n, 0. rewrite round_exact by lia. split; [done|]. split; [lia|]. split; lia.
  - change (- Z.pos d) with (Z.neg d). cbv beta iota zeta. exists (Pos.iter xO n d), (Z.pos d).
    assert (Hdig : digits (Pos.iter xO n d) = 53).
    { apply (digits_unique _ 52); [lia|]. rewrite iter_xO. change (52 + 1) with 53.
      replace 52 with (digits n - 1 + Z.pos d) by lia. replace 53 with (digits n + Z.pos d) by lia.
      rewrite !Z.pow_add_r by lia. pose proof (Z.pow_pos_nonneg 2 (Z.pos d)). nia. }
    replace (digits n + 0 - 53) with (- Z.pos d) by lia. rewrite round_exact by lia.
    split; [done|]. split; [lia|]. split; [apply iter_xO|done].
Qed.

(** The double product of a fraction and an integer, cut to an integer. *)
Lemma size_of_scaled m e e' : e <= e' -> e <= 0 -> size_of (S754_finite false m e') = Z.pos m * 2 ^ (e' - e) / 2 ^ (- e).
Proof.
  intros He Hneg. cbn [size_of]. destruct (Z.leb_spec 0 e').
  - replace (e' - e) with (e' + - e) by lia. rewrite Z.pow_add_r, Z.mul_assoc, Z.div_mul by lia. done.
  - replace (- e) with (- e' + (e' - e)) by lia. rewrite (Z.pow_add_r 2 (- e')), Z.div_mul_cancel_r by lia. done.
Qed.

Lemma percentile_index_close size :
  1 < size <= 2 ^ 53 -> exists d, 0 <= d /\ forall mp, digits mp = 53 ->
    exists X, percentile_index size (S754_finite false mp (-53)) = X / (2 ^ 53 * 2 ^ d) /\
      2 ^ 52 * Z.abs (X - Z.pos mp * ((size - 1) * 2 ^ d)) <= Z.pos mp * ((size - 1) * 2 ^ d).
Proof.
  intros Hs. destruct (double_of_exact (size - 1)) as (m & d & E & Hd & Hm & Hdm); [lia|].
  exists d. split; [lia|]. intros mp Hmp. unfold percentile_index. rewrite E. cbn [SFmul xorb].
  assert (Hdig : 53 <= digits (mp * m) <= 106).
  { pose proof (digits_spec mp) as H1. pose proof (digits_spec m) as H2. pose proof (digits_spec (mp * m)) as H3.
    rewrite Hmp in H1. rewrite Hdm in H2. rewrite Pos2Z.inj_mul in H3. split.
    - destruct (Z.le_gt_cases 53 (digits (mp * m))); [done|]. pose proof (Z.pow_le_mono_r 2 (digits (mp * m)) 52). nia.
    - destruct (Z.le_gt_cases (digits (mp * m)) 106); [done|]. pose proof (Z.pow_le_mono_r 2 106 (digits (mp * m) - 1)). nia. }
  destruct (round_close (mp * m) (-53 + - d)) as (m' & e' & -> & He & Hclose); [lia..|].
  exists (Z.pos m' * 2 ^ (e' - (-53 + - d))). rewrite (size_of_scaled _ (-53 + - d)) by lia.
  replace (- (-53 + - d)) with (53 + d) by lia. rewrite Z.pow_add_r by lia. split; [done|].
  by rewrite Pos2Z.inj_mul, Hm in Hclose.
Qed.

(** The three indexes are in range and in order. *)
Lemma percentile_indexes size :
  1 <= size <= 2 ^ 53 ->
  0 <= percentile_index size double_050 <= percentile_index size double_095 /\
  percentile_index size double_095 <= percentile_index size double_099 < size.
Proof.
  intros Hs. destruct (Z.eq_dec size 1) as [->|Hne]; [by vm_compute|].
  destruct (percentile_index_close size) as (d & Hd & Hall); [lia|].
  destruct (Hall 4503599627370496%positive eq_refl) as (X1 & E1 & H1).
  destruct (Hall 8556839292003942%positive eq_refl) as (X2 & E2 & H2).
  destruct (Hall 8917127262193582%positive eq_refl) as (X3 & E3 & H3).
  unfold double_050, double_095, double_099. rewrite E1, E2, E3. clear E1 E2 E3 Hall.
  assert (Hp : 0 < 2 ^ d) by (apply Z.pow_pos_nonneg; lia). set (B := 2 ^ 53 * 2 ^ d).
  assert (HB : 0 < B) by (unfold B; lia).
  assert (HN : (size - 1) * 2 ^ d * 2 ^ 53 = (size - 1) * B) by (unfold B; lia).
  assert (HN0 : 0 < (size - 1) * 2 ^ d) by (apply Z.mul_pos_pos; lia).
  set (N := (size - 1) * 2 ^ d) in *. clearbody N B.
  split; [split; [apply Z.div_pos; lia|apply Z.div_le_mono; lia]|]. split; [apply Z.div_le_mono; lia|].
  apply Z.div_lt_upper_bound; [done|]. nia.
Qed.

End Doubles.

Lemma sorted_lookup_le l i j x y : Sorted Z.le l -> l !! i = Some x -> l !! j = Some y -> (i <= j)%nat -> x <= y.
Proof.
  intros Hs. apply (Sorted_StronglySorted _) in Hs. revert i j. induction Hs as [|z l _ IH Hall]; intros [|i] [|j] Hi Hj Hij; try done; try lia.
  - cbn in *. replace y with x by congruence. lia.
  - cbn in *. injection Hi as ->. rewrite Forall_lookup in Hall. by eapply Hall.
  - eapply (IH i j); [done|done|lia].
Qed.

(** C32: The report is sound. Whatever the workers measured, as long as the number of samples
    is at most [2^53], the summary does not read out of range: it counts all samples, the
    50th, 95th and 99th percentile are in order, and each of them is a sample. *)
Theorem report_percentiles options start end_ (results : list (list Z)) err :
  zlen (concat results) <= 2 ^ 53 ->
  exists r, summarise options start end_ results err = Some r /\ rp_total_ops r = zlen (concat results) /\
    rp_p50 r <= rp_p95 r <= rp_p99 r /\
    (concat results <> [] -> rp_p50 r ∈ concat results /\ rp_p95 r ∈ concat results /\ rp_p99 r ∈ concat results).
Proof.
  intros Hlen. unfold summarise. set (l := merge_sort Z.le (concat results)).
  assert (Hperm : l ≡ₚ concat results) by apply merge_sort_Permutation.
  assert (Hz : zlen l = zlen (concat results)) by (unfold zlen; by rewrite Hperm). rewrite Hz.
  assert (Hsort : Sorted Z.le l) by (apply (Sorted_merge_sort _)). unfold Percentile. rewrite Hz.
  destruct (is_empty l) eqn:El.
  { apply is_empty_true in El. rewrite El in Hperm. apply Permutation_nil_l in Hperm. rewrite <- Hperm.
    eexists. split; [done|]. cbn. split; [done|]. split; [lia|done]. }
  apply is_empty_false in El. destruct (percentile_indexes (zlen (concat results))) as [H1 H2]; [lia|].
  assert (Hget : forall i, 0 <= i < zlen (concat results) -> exists x, l !! Z.to_nat i = Some x /\ x ∈ concat results).
  { intros i Hi. destruct (lookup_lt_is_Some_2 l (Z.to_nat i)) as [x Hx]; [unfold zlen in *; lia|].
    exists x. split; [done|]. rewrite <- Hperm. by eapply list_elem_of_lookup_2. }
  destruct (Hget (percentile_index (zlen (concat results)) double_050)) as (x1 & E1 & Hx1); [lia|].
  destruct (Hget (percentile_index (zlen (concat results)) double_095)) as (x2 & E2 & Hx2); [lia|].
  destruct (Hget (percentile_index (zlen (concat results)) double_099)) as (x3 & E3 & Hx3); [lia|].
  rewrite E1, E2, E3. cbn [mbind option_bind]. eexists. split; [done|]. cbn. split; [done|]. split; [|done].
  split; [apply (sorted_lookup_le l _ _ _ _ Hsort E1 E2)|apply (sorted_lookup_le l _ _ _ _ Hsort E2 E3)]; lia.
Qed.

(** ** A worker and the server of this repository *)

Section Served.
Context `{Libc} `{Resolver} {T : Type} `{KvLaws T}.
Implicit Types (m : kvmap) (w : DurableStorage T * Sys) (sk : Sock).

(** The server's end of a connection: a session that answers what it is sent. *)
Definition server_remote (allow : bool) w (input : bytes) : bytes * (DurableStorage T * Sys) :=
  match process_all (standalone allow) input w with
  | Some r => (sv_out r, sv_world r)
  | None => ([], w)
  end.

(** A healthy store with contents [m] and room for [budget] more writes. *)
Definition store_holds (budget : Z) m w : Prop :=
  exists rs, ds_inv rs w.1 w.2 /\ disk_ok w.2 /\ values_fit (replay rs) /\ replay rs = m /\ zlen rs + budget < 2 ^ 64.

Lemma remote_answers allow req budget m w :
  store_holds (budget + 1) m w -> 0 <= budget -> fields_fit (MClientRequest req) -> encodable (MClientRequest req) ->
  exists w', server_remote allow w (frame_of (MClientRequest req)) = (frame_of (MClientResponse (spec_Handle req m).1), w') /\
    store_holds budget (spec_Handle req m).2 w' /\
    fields_fit (MClientResponse (spec_Handle req m).1) /\ encodable (MClientResponse (spec_Handle req m).1).
Proof.
  intros (rs & Hd & Hok & Hval & <- & Hlt) Hb Hfit He. destruct w as [d s]. cbn [fst snd] in *.
  destruct (answer_standalone allow req rs d s Hd Hok Hval ltac:(lia) Hfit He) as (d' & s' & rs' & Ea & Hd' & Hok' & Hr' & Hval' & Hl').
  destruct (spec_Handle_fits req (replay rs) He Hval) as [_ Hsize].
  destruct (Handle_standalone allow req rs d s Hd (encodable_request_fits req He) ltac:(lia) Hok) as (d1 & s1 & _ & E & _).
  pose proof (Handle_answer (fun _ => True) (standalone allow) req (d, s) _ _ I I E) as Hans.
  exists (d', s'). split; [|split; [|by apply (client_answer_encodable _ _ _ Hans Hfit Hsize)]].
  - unfold server_remote. rewrite <- (app_nil_r (frame_of (MClientRequest req))), process_frame, Ea by done.
    cbn [mbind option_bind]. rewrite process_nil. unfold sv_prepend. cbn. by rewrite app_nil_r.
  - exists rs'. cbn [fst snd]. split_and!; try done. lia.
Qed.

(** The connection between two requests. *)
Definition idle sk : Prop := sk_in sk = [] /\ steady (sk_recv sk) /\ calm (sk_send sk).

Lemma SendRequestSync_loop_finds fuel buffer resp0 sk resp :
  fields_fit (MClientResponse resp) -> encodable (MClientResponse resp) -> steady (sk_recv sk) -> calm (sk_send sk) ->
  (length (sk_recv sk) + length (sk_in sk) < fuel)%nat -> buffer ++ sk_in sk = frame_of (MClientResponse resp) ->
  exists sk', SendRequestSync_loop fuel buffer resp0 sk = Some (true, resp, sk') /\ idle sk'.
Proof.
  intros Hfit He.
  pose proof (TryParseFrame_frame (MClientResponse resp) [] (mkFrameOut None (Some resp0) None None None) Hfit He) as Hwhole.
  rewrite app_nil_r in Hwhole.
  revert buffer sk. induction fuel as [|fuel IH]; intros buffer sk Hst Hcalm Hf E; [lia|]. cbn [SendRequestSync_loop].
  unfold TryParseFrame_client. rewrite <- E in Hwhole.
  destruct (TryParseFrame buffer (mkFrameOut None (Some resp0) None None None)) as [[[] buffer'] o'] eqn:Ep.
  - apply TryParseFrame_need_more in Ep as Hsame. destruct Hsame as [-> ->]. cbn [out_response default].
    destruct (sock_read kChunkSize sk) as [[chunk|e] sk1] eqn:Er; apply sock_read_spec in Er as (_ & Hsend & Hread & Hrecv);
      try (unfold kChunkSize; lia).
    + destruct Hread as (Hin & _ & Hnil). destruct (is_empty chunk) eqn:Ec.
      { apply is_empty_true in Ec as ->. rewrite (Hnil eq_refl), app_nil_r in Hwhole. congruence. }
      apply is_empty_false in Ec. apply IH.
      * rewrite Hrecv. destruct Hst; [constructor|done].
      * by rewrite Hsend.
      * rewrite Hrecv. rewrite Hin, length_app in Hf. unfold zlen in Ec. destruct (sk_recv sk); cbn in *; lia.
      * by rewrite <- app_assoc, <- Hin.
    + destruct Hread as (Hin & script & Hsc). rewrite Hsc in Hst. apply Forall_cons in Hst as [[n Hn] _]. done.
  - apply (TryParseFrame_complete_app _ _ _ _ (sk_in sk)) in Ep. rewrite Ep in Hwhole. injection Hwhole as Hleft ->.
    apply app_nil in Hleft as [_ Hleft]. by exists sk.
  - apply (TryParseFrame_error_app _ _ _ _ (sk_in sk)) in Ep. congruence.
Qed.

Lemma SendRequestSync_served allow req resp0 budget m w sk :
  store_holds (budget + 1) m w -> 0 <= budget -> fields_fit (MClientRequest req) -> encodable (MClientRequest req) -> idle sk ->
  exists w' sk', SendRequestSync (server_remote allow) req resp0 w sk = Some (true, (spec_Handle req m).1, w', sk') /\
    store_holds budget (spec_Handle req m).2 w' /\ idle sk'.
Proof.
  intros Hw Hb Hfit He (Hin & Hst & Hcalm).
  destruct (remote_answers allow req budget m w Hw Hb Hfit He) as (w' & Er & Hw' & Hrf & Hre).
  unfold SendRequestSync. rewrite EncodeClientRequest_eq by done.
  destruct (WriteFull_spec (frame_of (MClientRequest req)) (mkSock (sk_in sk) (sk_recv sk) [] (sk_send sk)))
    as (st & sk1 & sent & left_ & -> & Hsent & Ho & Hin1 & Hrecv & Hok & Hc). cbn [mbind option_bind].
  destruct (Hc Hcalm) as [-> Hcalm1]. rewrite (proj2 Hok eq_refl). cbn [negb]. rewrite app_nil_r in Hsent. subst sent.
  cbn [sk_out sk_recv sk_in app] in Ho, Hrecv, Hin1. rewrite Ho, Er. cbn [sk_recv sk_in sk_out sk_send]. rewrite Hin1, Hin. cbn [app].
  destruct (SendRequestSync_loop_finds (S (length (sk_recv sk1) + length (frame_of (MClientResponse (spec_Handle req m).1)))) [] resp0
    (mkSock (frame_of (MClientResponse (spec_Handle req m).1)) (sk_recv sk1) (frame_of (MClientRequest req)) (sk_send sk1))
    (spec_Handle req m).1) as (sk' & -> & Hidle); [done|done|cbn; by rewrite Hrecv|done|cbn; lia|done|].
  cbn [mbind option_bind]. by exists w', sk'.
Qed.

(** The keys of a thread. *)
Lemma bench_key_size thread_id i : 0 < zlen (bench_key thread_id i) <= 47.
Proof.
  assert (Hd : forall fuel v acc, zlen (to_digits fuel v acc) <= Z.of_nat fuel + zlen acc).
  { induction fuel as [|fuel IH]; intros v acc; cbn [to_digits]; [lia|]. destruct (v <? 10); [zlen_lia|]. etrans; [apply IH|]. zlen_lia. }
  pose proof (Hd 20%nat thread_id []) as H1'. pose proof (Hd 20%nat i []) as H2'. unfold bench_key, to_string. rewrite !zlen_app.
  change (zlen (str "bench:")) with 6. change (zlen (str ":")) with 1. change (zlen (@nil byte)) with 0 in *.
  pose proof (zlen_nonneg (to_digits 20 thread_id [])). pose proof (zlen_nonneg (to_digits 20 i [])). cbn [Z.of_nat] in *. lia.
Qed.

Lemma bench_request_ok req thread_id i :
  creq_key req = bench_key thread_id i -> is_u64 (creq_request_id req) ->
  (creq_opcode req = Opcode.kSet /\ creq_value req = bench_value \/ creq_opcode req = Opcode.kGet /\ creq_value req = []) ->
  fields_fit (MClientRequest req) /\ encodable (MClientRequest req).
Proof.
  intros Hk Hid Hop. pose proof (bench_key_size thread_id i) as Hsz. split; [done|]. unfold encodable. cbn [payload_of].
  rewrite zlen_payload_ClientRequest, Hk. split.
  - destruct Hop as [[_ ->]|[_ ->]]; unfold kMaxPayloadSize; [change (zlen bench_value) with 256|change (zlen (@nil byte)) with 0]; lia.
  - split; [intros E; rewrite E in Hsz; by destruct Hsz|]. destruct Hop as [[-> ->]|[-> ->]]; done.
Qed.

Lemma spec_set thread_id i id m :
  spec_Handle (populate_request thread_id i id) m = (respond (populate_request thread_id i id) ResponseStatus.kOk,
    <[bench_key thread_id i := bench_value]> m).
Proof.
  unfold spec_Handle. cbn [creq_opcode creq_key creq_value populate_request].
  change (is_empty (bench_key thread_id i)) with false. done.
Qed.

(** The keys with numbers below [n] hold the value, and no other key differs from [m0]. *)
Definition filled (thread_id n : Z) m0 m : Prop :=
  (forall i, 0 <= i < n -> m !! bench_key thread_id i = Some bench_value) /\
  (forall key, (forall i, key <> bench_key thread_id i) -> m !! key = m0 !! key).

Lemma filled_set thread_id n i m0 m :
  filled thread_id n m0 m -> filled thread_id n m0 (<[bench_key thread_id i := bench_value]> m).
Proof.
  intros [Hf Ho]. split.
  - intros j Hj. destruct (decide (bench_key thread_id j = bench_key thread_id i)) as [->|Hne];
      [apply lookup_insert_eq|]. rewrite lookup_insert_ne by done. by apply Hf.
  - intros key Hkey. rewrite lookup_insert_ne by (intros E; by apply (Hkey i)). by apply Ho.
Qed.

Lemma populate_served allow n thread_id i id m0 m w sk budget :
  filled thread_id i m0 m -> store_holds (budget + Z.of_nat n) m w -> 0 <= budget -> is_u64 id -> 0 <= i -> idle sk ->
  exists id' w' sk' m', populate (server_remote allow) n thread_id i id w sk = Some (Some id', w', sk') /\ is_u64 id' /\
    filled thread_id (i + Z.of_nat n) m0 m' /\ store_holds budget m' w' /\ idle sk'.
Proof.
  revert i id m w sk. induction n as [|n IH]; intros i id m w sk Hf Hw Hb Hid Hi Hidle; cbn [populate].
  { exists id, w, sk, m. rewrite Z.add_0_r in *. done. }
  destruct (bench_request_ok (populate_request thread_id i id) thread_id i) as [Hfit He]; [done|done|by left|].
  destruct (SendRequestSync_served allow (populate_request thread_id i id) ClientResponse_default (budget + Z.of_nat n) m w sk)
    as (w1 & sk1 & -> & Hw1 & Hidle1); [|lia|done|done|done|]. { by replace (budget + Z.of_nat n + 1) with (budget + Z.of_nat (S n)) by lia. }
  cbn [mbind option_bind negb]. rewrite spec_set in Hw1. cbn [snd] in Hw1.
  destruct (IH (i + 1) (u64 (id + 1)) (<[bench_key thread_id i := bench_value]> m) w1 sk1)
    as (id' & w' & sk' & m' & E & Hid' & Hf' & Hw' & Hidle'); [|done|done|apply Z.mod_pos_bound; lia|lia|done|].
  - destruct (filled_set thread_id i i m0 m Hf) as [Hs Ho]. split; [|done]. intros j Hj.
    destruct (Z.eq_dec j i) as [->|]; [apply lookup_insert_eq|]. apply Hs. lia.
  - exists id', w', sk', m'. rewrite E. by replace (i + Z.of_nat (S n)) with (i + 1 + Z.of_nat n) by lia.
Qed.

(** The turns of the timed loop that begin before the deadline. *)
Fixpoint measured (deadline : Z) (ticks : list Tick) : list Tick :=
  match ticks with
  | [] => []
  | t :: ticks => if tk_now t <? deadline then t :: measured deadline ticks else []
  end.

Lemma timed_loop_served allow ticks thread_id ratio deadline seq id m0 m w sk :
  Exists (fun t => deadline <= tk_now t) ticks ->
  filled thread_id kKeySpace m0 m -> store_holds (zlen ticks) m w -> is_u64 id -> idle sk ->
  exists w' sk' m', timed_loop (server_remote allow) ticks thread_id ratio deadline seq id w sk =
      Some (latency_us <$> measured deadline ticks, w', sk') /\ filled thread_id kKeySpace m0 m' /\ store_holds 0 m' w'.
Proof.
  intros Hex. revert seq id m w sk. induction Hex as [t ticks Ht|t ticks Hex IH]; intros seq id m w sk Hf Hw Hid Hidle;
    cbn [timed_loop measured]; rewrite zlen_cons in Hw; pose proof (zlen_nonneg ticks).
  { destruct (Z.ltb_spec (tk_now t) deadline); [lia|]. exists w, sk, m. split; [done|]. split; [done|].
    destruct Hw as (rs & ? & ? & ? & ? & ?). exists rs. split_and!; try done. lia. }
  destruct (tk_now t <? deadline).
  2: { exists w, sk, m. split; [done|]. split; [done|]. destruct Hw as (rs & ? & ? & ? & ? & ?). exists rs. split_and!; try done. lia. }
  set (req := timed_request thread_id ratio seq id).
  assert (Hreq : fields_fit (MClientRequest req) /\ encodable (MClientRequest req)).
  { apply (bench_request_ok req thread_id (seq mod kKeySpace)); unfold req, timed_request; destruct (_ <? ratio); try done; [by right|by left]. }
  destruct (SendRequestSync_served allow req ClientResponse_default (zlen ticks) m w sk)
    as (w1 & sk1 & -> & Hw1 & Hidle1); [by rewrite Z.add_comm|lia|apply Hreq|apply Hreq|done|].
  cbn [mbind option_bind negb].
  destruct (IH (u64 (seq + 1)) (u64 (id + 1)) (spec_Handle req m).2 w1 sk1) as (w' & sk' & m' & -> & Hf' & Hw');
    [|done|apply Z.mod_pos_bound; lia|done|].
  - unfold req, timed_request. destruct (_ <? ratio).
    + unfold spec_Handle. cbn [creq_opcode creq_key]. destruct (is_empty _); [done|]. by destruct (m !! _).
    + change (mkClientRequest id Opcode.kSet (bench_key thread_id (seq mod kKeySpace)) bench_value)
        with (populate_request thread_id (seq mod kKeySpace) id). rewrite spec_set. by apply filled_set.
  - cbn [mbind option_bind]. by exists w', sk', m'.
Qed.

(** C31: The benchmark measures what it says. Let a worker connect to a server of this
    repository with a healthy store, over a connection whose reads are not interrupted.
    Then every request is answered: the worker fills its 1000 keys, measures exactly the
    operations that begin before the deadline, and returns when the clock has passed it;
    the keys of its thread then hold the value, all others what they held, and the
    connection is closed. *)
Theorem bench_worker_served allow options thread_id deadline (e : WorkerEnv (DurableStorage T * Sys)) m fd k1 :
  TcpConnect (bo_host options) (bo_port options) (we_kern e) = (Value fd, k1) ->
  steady (we_recv e) -> calm (we_send e) -> Exists (fun t => deadline <= tk_now t) (we_ticks e) ->
  store_holds (kKeySpace + zlen (we_ticks e)) m (we_state e) ->
  exists k' w' m', RunClientWorker (server_remote allow) options thread_id deadline e =
      Some (latency_us <$> measured deadline (we_ticks e), [], k', w') /\ same_fds (we_kern e) k' /\
    store_holds 0 m' w' /\ (forall i, 0 <= i < kKeySpace -> m' !! bench_key thread_id i = Some bench_value) /\
    (forall key, (forall i, key <> bench_key thread_id i) -> m' !! key = m !! key).
Proof.
  intros Ec Hst Hcalm Hex Hw. unfold RunClientWorker. rewrite Ec. apply TcpConnect_spec in Ec.
  destruct (populate_served allow (Z.to_nat kKeySpace) thread_id 0 1 m m (we_state e) (mkSock [] (we_recv e) [] (we_send e)) (zlen (we_ticks e)))
    as (id & w1 & sk1 & m1 & -> & Hid & Hf1 & Hw1 & Hidle1); [split; [lia|done]| |apply zlen_nonneg|done|done|done|].
  { change (Z.of_nat (Z.to_nat kKeySpace)) with kKeySpace. by rewrite Z.add_comm. }
  cbn [mbind option_bind]. change (0 + Z.of_nat (Z.to_nat kKeySpace)) with kKeySpace in Hf1.
  destruct (timed_loop_served allow (we_ticks e) thread_id (bo_ratio options) deadline 0 id m m1 w1 sk1 Hex Hf1 Hw1 Hid Hidle1)
    as (w' & sk' & m' & -> & [Hf' Ho'] & Hw'). cbn [mbind option_bind].
  eexists _, w', m'. split; [done|]. split; [by apply CloseQuietly_gained|]. done.
Qed.

End Served.

(** ** The request mix *)

(** In the timed loop a key is either always read or always written: which of the two is
    decided by the number of the key, modulo 100. *)
Theorem timed_key_fixed_op thread_id ratio seq1 seq2 id1 id2 :
  seq1 mod kKeySpace = seq2 mod kKeySpace ->
  creq_opcode (timed_request thread_id ratio seq1 id1) = creq_opcode (timed_request thread_id ratio seq2 id2).
Proof.
  intros E. assert (Hm : seq1 mod 100 = seq2 mod 100).
  { assert (Hd : forall s, s mod 100 = (s mod kKeySpace) mod 100).
    { intros s. unfold kKeySpace. change 1000 with (100 * 10). rewrite Z.rem_mul_r by lia.
      rewrite Z.mul_comm, Z.mod_add, Z.mod_mod by lia. done. }
    by rewrite (Hd seq1), (Hd seq2), E. }
  unfold timed_request. rewrite Hm. by destruct (_ <? ratio).
Qed.

(** The share of reads: of any 100 operations from a multiple of 100 on, [ratio] are GETs. *)
Theorem timed_mix thread_id ratio start :
  0 <= ratio <= 100 -> 0 <= start ->
  zlen (filter (fun seq => creq_opcode (timed_request thread_id ratio seq 0) = Opcode.kGet) (seqZ (100 * start) 100)) = ratio.
Proof.
  intros Hr Hs.
  assert (Hop : forall seq, creq_opcode (timed_request thread_id ratio seq 0) = Opcode.kGet <-> seq mod 100 < ratio).
  { intros seq. unfold timed_request. destruct (Z.ltb_spec (seq mod 100) ratio); split; try done; lia. }
  replace 100 with (ratio + (100 - ratio)) at 2 by lia. rewrite seqZ_app, filter_app, zlen_app by lia.
  rewrite (list_filter_all _ (seqZ (100 * start) ratio)), (list_filter_none _ (seqZ (100 * start + ratio) (100 - ratio))).
  - unfold zlen. rewrite length_seqZ. cbn. lia.
  - apply Forall_forall. intros x [H1 H2]%elem_of_seqZ. rewrite Hop. replace x with (x - 100 * start + start * 100) by lia.
    rewrite Z.mod_add, Z.mod_small by lia. lia.
  - apply Forall_forall. intros x [H1 H2]%elem_of_seqZ. rewrite Hop. replace x with (x - 100 * start + start * 100) by lia.
    rewrite Z.mod_add, Z.mod_small by lia. lia.
Qed.

(** An interrupted read ends a worker's request. *)
Theorem bench_gives_up_on_interrupt `{Libc} fuel resp sk script :
  sk_recv sk = IoErr EINTR :: script ->
  SendRequestSync_loop (S fuel) [] resp sk = Some (false, resp, mkSock (sk_in sk) script (sk_out sk) (sk_send sk)).
Proof.
  intros E. cbn [SendRequestSync_loop].
  assert (Hp : TryParseFrame_client [] None (Some resp) = (ParseResult.kNeedMore, [], mkFrameOut None (Some resp) None None None))
    by reflexivity.
  rewrite Hp. cbn [out_response default]. unfold sock_read. by rewrite E.
Qed.

(** ** Concrete benchmarks *)

#[local] Existing Instance example_libc.
#[local] Existing Instance example_hash.
#[local] Instance example_resolver : Resolver := {|
  getaddrinfo passive node service := GaiOk [str "127.0.0.1"];
  gai_strerror e := []
|}.

Definition example_ticks : list Tick := [mkTick 100 110 5210; mkTick 6000 6010 13020; mkTick 20000 0 0].
Definition example_env : WorkerEnv (DurableStorage ShardedKV * Sys) :=
  mkWorkerEnv example_kern fresh_world [IoSome 3; IoSome 70] [IoErr EINTR] example_ticks.

Lemma bench_worker_served_witness :
  exists k' w', RunClientWorker (server_remote (T := ShardedKV) false) BenchOptions_default 4 20000 example_env = Some ([5; 7], [], k', w').
Proof.
  destruct (TcpConnect (bo_host BenchOptions_default) (bo_port BenchOptions_default) (we_kern example_env)) as [[fd|st] k1] eqn:Ec;
    [|exfalso; vm_compute in Ec; discriminate Ec].
  destruct (bench_worker_served (T := ShardedKV) false BenchOptions_default 4 20000 example_env ∅ fd k1 Ec)
    as (k' & w' & m' & E & _).
  - repeat (constructor; [eexists; reflexivity|]). constructor.
  - repeat constructor.
  - do 2 apply Exists_cons_tl. apply Exists_cons_hd. vm_compute. discriminate.
  - exists []. split; [apply fresh_store_inv|]. split; [exact fresh_disk_ok|].
    split; [intros key v Ev; change (replay []) with (∅ : kvmap) in Ev; rewrite lookup_empty in Ev; discriminate Ev|].
    split; [reflexivity|vm_compute; reflexivity].
  - exists k', w'. exact E.
Defined.

Lemma report_percentiles_witness :
  exists r, summarise BenchOptions_default 0 2000000000 [[30; 10]; []; [20; 40; 50]] [] = Some r /\
    rp_total_ops r = 5 /\ rp_p50 r <= rp_p95 r <= rp_p99 r /\ rp_p99 r ∈ [30; 10; 20; 40; 50].
Proof.
  destruct (report_percentiles BenchOptions_default 0 2000000000 [[30; 10]; []; [20; 40; 50]] []) as (r & E & Ht & Ho & Hin);
    [vm_compute; discriminate|].
  exists r. split; [exact E|]. split; [exact Ht|]. split; [exact Ho|]. apply Hin. discriminate.
Defined.

(** A report of five samples over two seconds: 2.5 operations per second. *)
Example example_report :
  summarise BenchOptions_default 0 2000000000 [[30; 10]; []; [20; 40; 50]] [] =
    Some (mkReport [] 5 (S754_finite false 5629499534213120 (-51)) 30 40 40 []).
Proof. vm_compute. reflexivity. Qed.

(** Arguments are not checked: the port is cut to 16 bits, and a negative number of clients
    ends the program with an exception. *)
Theorem bench_options_unchecked :
  bench_args 4 [str "--port"; str "70000"; str "--ratio"; str "-5"] BenchOptions_default =
    inl (mkBenchOptions (str "127.0.0.1") 4464 60 1 (-5) false []) /\
  bench_main (server_remote (T := ShardedKV) false) [str "--bench"; str "--clients"; str "-1"] 0 0 (fun _ => example_env) =
    Some (BenchEnded (Aborts std_length_error)).
Proof. split; vm_compute; reflexivity. Qed.
