(* ===== verification/Microbenchmarks.v ===== *)
(** * The microbenchmarks ([benchmarks/{storage,codec,noop}_bench.cpp])

    Each benchmark is the sequence of calls it makes on the component it measures. What
    the benchmark framework decides is an argument: the number of iterations of the timed
    loop, the index of a thread and, for the threads of [BM_Concurrent_Mixed], the order in
    which their calls reach the shared store. Theorems: the keys are distinct and have the
    fixed width; every measured call takes the path the benchmark means to measure, that
    is, no [Get] misses, whatever the interleaving; and every codec call succeeds. *)

From Stdlib Require Import Strings.String.
From S2P Require Import Prelude Common BigEndian Codec ShardedKV ClusterConfig.

(** ** The store ([storage_bench.cpp]) *)

Definition kNumKeys : Z := 1000000.
Definition kKeySize : Z := 16.
Definition kValueSize : Z := 256.

(** The digits replace the end of a string of zeros. [None]: there are more digits than
    the key has bytes, and [std::copy] writes in front of the string. *)
Definition MakeKey (index : Z) : option bytes :=
  let key := replicate (Z.to_nat kKeySize) (byte_of_Z 48) in
  let digits := to_string index in
  if zlen key <? zlen digits then None
  else Some (ztake (zlen key - zlen digits) key ++ digits).

Definition MakeKeys (count : Z) : option (list bytes) := mapM MakeKey (seqZ 0 count).

Definition MakeValue : bytes := replicate (Z.to_nat kValueSize) (byte_of_Z 118).

(** [for (auto _ : state) body] *)
Definition timed (iterations : nat) (body : list KvOp) : list KvOp := concat (replicate iterations body).

(** [for (const std::string& key : keys) kv.Set(key, value);] and the loop of [kv.Get]. *)
Definition set_all (keys : list bytes) (value : bytes) : list KvOp := (fun key => OpSet key value) <$> keys.
Definition get_all (keys : list bytes) : list KvOp := OpGet <$> keys.

Definition BM_Set_Sequential (iterations : nat) : option (list KvOp * Z) :=
  keys ← MakeKeys kNumKeys;
  let value := MakeValue in
  Some (timed iterations (set_all keys value), Z.of_nat iterations * kNumKeys).

Definition BM_Get_Sequential (iterations : nat) : option (list KvOp * Z) :=
  keys ← MakeKeys kNumKeys;
  let value := MakeValue in
  Some (set_all keys value ++ timed iterations (get_all keys), Z.of_nat iterations * kNumKeys).

Definition mixed_call (value : bytes) (i : nat) (key : bytes) : KvOp :=
  if (i mod 5 =? 0)%nat then OpSet key value else OpGet key.

Definition BM_Set_Get_Mixed (iterations : nat) : option (list KvOp * Z) :=
  keys ← MakeKeys kNumKeys;
  let value := MakeValue in
  Some (set_all keys value ++ timed iterations (imap (mixed_call value) keys),
        Z.of_nat iterations * kNumKeys).

(** One thread of [BM_Concurrent_Mixed]; the store is static, shared by the threads and
    kept from one run of the benchmark to the next. *)
Definition kKeysPerThread : nat := 1000.

Definition thread_key (thread_index : Z) (i : nat) : bytes :=
  str "ct" ++ to_string thread_index ++ str ":" ++ to_string (Z.of_nat i).

Definition concurrent_call (thread_index : Z) (i : nat) : KvOp :=
  mixed_call (str "value") i (thread_key thread_index (i mod kKeysPerThread)).

Definition BM_Concurrent_Mixed (thread_index : Z) (iterations : nat) : list KvOp * Z :=
  (set_all (thread_key thread_index <$> seq 0 kKeysPerThread) (str "value") ++
   (concurrent_call thread_index <$> seq 0 iterations),
   Z.of_nat iterations).

(** The orders in which the calls of several threads reach the store: each operation of
    the store is atomic, and the calls of one thread stay in order. *)
Inductive interleaving : list (list KvOp) -> list KvOp -> Prop :=
| IL_done progs : Forall (eq []) progs -> interleaving progs []
| IL_step progs t op prog ops :
    progs !! t = Some (op :: prog) -> interleaving (<[t := prog]> progs) ops ->
    interleaving progs (op :: ops).

(** ** The codec ([codec_bench.cpp]) and the empty loop ([noop_bench.cpp]) *)

Definition MakeSetRequest : ClientRequest :=
  mkClientRequest 1 Opcode.kSet (replicate 16 (byte_of_Z 107)) (replicate 256 (byte_of_Z 118)).

(** The results of the measured calls. [EncodeClientRequest] leaves the vector as it was
    when it fails, here empty. *)
Definition encoded_or (before : bytes) (r : Result bytes) : bytes :=
  match r with Value out => out | Failed _ => before end.

Definition BM_EncodeRequest_Set (iterations : nat) : list (Result bytes) :=
  let req := MakeSetRequest in
  replicate iterations (EncodeClientRequest req).

(** [None]: the frame is shorter than a header and the span would be negative. *)
Definition payload_span (encoded : bytes) : option bytes :=
  if zlen encoded <? kFrameHeaderSize then None else Some (zdrop kFrameHeaderSize encoded).

Definition BM_DecodeRequest_Set (iterations : nat) : option (list (Result ClientRequest)) :=
  let req := MakeSetRequest in
  let encoded := encoded_or [] (EncodeClientRequest req) in
  payload ← payload_span encoded;
  Some (replicate iterations (DecodeClientRequest payload)).

Fixpoint BM_EncodeDecode_loop (iterations : nat) (req : ClientRequest) (encoded : bytes)
    : option (list (Result ClientRequest)) :=
  match iterations with
  | O => Some []
  | S iterations =>
      let encoded := encoded_or encoded (EncodeClientRequest req) in
      payload ← payload_span encoded;
      let decoded := DecodeClientRequest payload in
      rest ← BM_EncodeDecode_loop iterations req encoded;
      Some (decoded :: rest)
  end.

Definition BM_EncodeDecode_RoundTrip (iterations : nat) : option (list (Result ClientRequest)) :=
  BM_EncodeDecode_loop iterations MakeSetRequest [].

(** A default-constructed [ClientRequest] is passed for the decoded request. *)
Definition BM_ParseFrame_Complete (decoded : ClientRequest) (iterations : nat)
    : list (ParseResult * bytes * FrameOut) :=
  let req := MakeSetRequest in
  let frame := encoded_or [] (EncodeClientRequest req) in
  replicate iterations (let buffer := frame in TryParseFrame_client buffer (Some decoded) None).

(** Each iteration reads the framework's iteration counter. *)
Definition BM_EmptyLoop (state_iterations : nat -> Z) (iterations : nat) : list Z :=
  state_iterations <$> seq 0 iterations.

(** ** The keys *)

(** A value below a power of ten has at most that many digits. *)
Lemma to_digits_length fuel n v acc :
  0 <= v < 10 ^ Z.of_nat n -> (0 < n)%nat -> zlen (to_digits fuel v acc) <= Z.of_nat n + zlen acc.
Proof.
  revert n v acc. induction fuel as [|fuel IH]; intros n v acc Hv Hn; cbn [to_digits]; [lia|].
  destruct (Z.ltb_spec v 10) as [Hlt|Hge]; [zlen_lia|].
  destruct n as [|n]; [lia|]. rewrite Nat2Z.inj_succ, Z.pow_succ_r in Hv by lia.
  assert (0 < n)%nat by (destruct n; [cbn in Hv; lia|lia]).
  etrans; [apply (IH n)|zlen_lia]; [|done].
  split; [apply Z.div_pos; lia|apply Z.div_lt_upper_bound; lia].
Qed.

Lemma digits_value_zeros n ds : digits_value (replicate n (byte_of_Z 48) ++ ds) = digits_value ds.
Proof.
  unfold digits_value. rewrite foldl_app. f_equal. induction n as [|n IH]; [done|]. exact IH.
Qed.

(** The keys the benchmarks use have exactly [kKeySize] bytes and spell their index. *)
Lemma MakeKey_spec index : 0 <= index < 2 ^ 32 ->
  exists key, MakeKey index = Some key /\ zlen key = kKeySize /\ digits_value key = index.
Proof.
  intros Hi. destruct (to_string_spec index Hi) as (_ & _ & Hval).
  assert (Hlen : zlen (to_string index) <= 10).
  { apply (to_digits_length 20 10 index []); [|lia]. split; [lia|].
    apply Z.lt_trans with (2 ^ 32); [lia|]. by vm_compute. }
  unfold MakeKey. change (zlen (replicate (Z.to_nat kKeySize) (byte_of_Z 48))) with 16.
  rewrite (proj2 (Z.ltb_ge _ _)) by lia. eexists. split; [done|].
  pose proof (zlen_nonneg (to_string index)). unfold ztake. rewrite take_replicate. split.
  - rewrite zlen_app. unfold zlen at 1. rewrite length_replicate.
    change (Z.to_nat kKeySize) with 16%nat. unfold kKeySize. lia.
  - by rewrite digits_value_zeros.
Qed.

Lemma mapM_MakeKey indices : Forall (fun i => 0 <= i < 2 ^ 32) indices ->
  exists keys, mapM MakeKey indices = Some keys /\ Forall (fun key => zlen key = kKeySize) keys /\
    digits_value <$> keys = indices.
Proof.
  induction 1 as [|i indices Hi _ (keys & E & Hw & Hd)]; [by exists []|].
  destruct (MakeKey_spec i Hi) as (key & Ek & Hk & Hv). exists (key :: keys).
  cbn [mapM]. rewrite Ek. cbn. rewrite E. cbn. split; [done|]. split; [by constructor|]. by f_equal.
Qed.

(** [MakeKeys] returns as many keys as asked for, all of the fixed width, no two equal. *)
Lemma MakeKeys_spec count : 0 <= count < 2 ^ 32 ->
  exists keys, MakeKeys count = Some keys /\ zlen keys = count /\ NoDup keys /\
    Forall (fun key => zlen key = kKeySize) keys.
Proof.
  intros Hc. destruct (mapM_MakeKey (seqZ 0 count)) as (keys & E & Hw & Hd).
  { apply Forall_forall. intros i Hi%elem_of_seqZ. lia. }
  exists keys. split; [done|]. split; [|split; [|done]].
  - unfold zlen. rewrite <- (length_fmap digits_value), Hd, length_seqZ. lia.
  - apply (NoDup_fmap_1 digits_value). rewrite Hd. apply NoDup_seqZ.
Qed.

(** ** No measured call misses *)

(** What a call returns when it takes the path being measured. *)
Definition hit (value : bytes) (a : KvAnswer) : Prop :=
  a = AStatus Status_Ok \/ a = AValue (Value value).

(** From a store where the keys of [present] hold [value], a program only ever sets
    [value] and gets keys that hold it by then. *)
Fixpoint primed (value : bytes) (present : gset bytes) (prog : list KvOp) : Prop :=
  match prog with
  | [] => True
  | OpSet k v :: prog => k <> [] /\ v = value /\ primed value ({[k]} ∪ present) prog
  | OpGet k :: prog => k <> [] /\ k ∈ present /\ primed value present prog
  | _ :: _ => False
  end.

Definition holding (value : bytes) (present : gset bytes) (m : kvmap) : Prop :=
  forall k, k ∈ present -> m !! k = Some value.

Lemma primed_mono value p p' prog : p ⊆ p' -> primed value p prog -> primed value p' prog.
Proof.
  revert p p'. induction prog as [|[k v|k|k|] prog IH]; intros p p' Hp; cbn; [done|..]; [| |done..].
  - intros (? & ? & Hr). split_and!; [done..|]. apply (IH ({[k]} ∪ p)); [set_solver|done].
  - intros (? & ? & Hr). split_and!; [done|set_solver|by apply (IH p)].
Qed.

(** One call of a primed program: it hits, and what was present stays so. *)
Lemma primed_step value p op prog m : primed value p (op :: prog) -> holding value p m ->
  exists p', hit value (spec_step op m).1 /\ holding value p' (spec_step op m).2 /\
    p ⊆ p' /\ primed value p' prog.
Proof.
  intros Hp Hm. destruct op as [k v|k|k|]; cbn in Hp; [| |done..]; destruct Hp as (Hk & Hp).
  - destruct Hp as [-> Hp]. exists ({[k]} ∪ p). cbn. unfold spec_Set. destruct k as [|c k]; [done|]. cbn [is_empty].
    split; [by left|]. split; [|split; [set_solver|done]]. intros k' Hk'.
    destruct (decide (k' = c :: k)) as [->|Hne]; [by apply lookup_insert_eq|].
    cbn. rewrite lookup_insert_ne by done. apply Hm. set_solver.
  - destruct Hp as [Hin Hp]. exists p. cbn. unfold spec_Get. destruct k as [|c k]; [done|]. cbn [is_empty].
    rewrite (Hm _ Hin). split; [by right|]. done.
Qed.

(** Programs primed from the same store stay so under every interleaving. *)
Lemma interleaving_hits value progs ops : interleaving progs ops -> forall p m,
  Forall (primed value p) progs -> holding value p m ->
  Forall (hit value) (run_ops spec_step ops m).1.
Proof.
  induction 1 as [|progs t op prog ops Ht _ IH]; intros p m Hps Hm; [constructor|]. cbn.
  destruct (primed_step value p op prog m) as (p' & Hh & Hm' & Hsub & Hp');
    [by apply (Forall_lookup_1 _ _ _ _ Hps Ht)|done|].
  destruct (spec_step op m) as [a m']. cbn in *.
  specialize (IH p' m'). destruct (run_ops spec_step ops m') as [answers m'']. cbn in *.
  constructor; [done|]. apply IH; [|done]. apply Forall_insert; [|done].
  eapply Forall_impl; [exact Hps|]. intros. by eapply primed_mono.
Qed.

Lemma interleaving_alone ops : interleaving [ops] ops.
Proof. induction ops as [|op ops IH]; [by repeat constructor|]. by apply (IL_step _ 0 op ops). Qed.

(** The same for a store that implements the interface. *)
Lemma store_hits `{KvLaws T} value progs ops (kv : T) : interleaving progs ops ->
  kv_inv kv -> Forall (primed value ∅) progs -> Forall (hit value) (run_ops kv_step ops kv).1.
Proof.
  intros Hi Hkv Hps. pose proof (run_ops_refines ops kv Hkv) as E.
  assert (Hh : Forall (hit value) (run_ops spec_step ops (kv_map kv)).1).
  { apply (interleaving_hits value progs ops Hi ∅); [done|]. intros k Hk. set_solver. }
  by rewrite <- E in Hh.
Qed.

Definition call_among (value : bytes) (present : gset bytes) (op : KvOp) : Prop :=
  match op with
  | OpSet k v => k <> [] /\ v = value
  | OpGet k => k <> [] /\ k ∈ present
  | _ => False
  end.

Lemma primed_among value p ops : Forall (call_among value p) ops -> primed value p ops.
Proof.
  induction 1 as [|[k v|k|k|] ops Hop _ IH]; cbn in *; [done|..]; [| |done..]; destruct Hop; [|done].
  split_and!; [done..|]. apply (primed_mono _ p); [set_solver|done].
Qed.

(** The loop that fills the store, then calls on the keys it filled in. *)
Lemma primed_filled value keys ops : Forall (fun k => k <> []) keys ->
  Forall (call_among value (list_to_set keys)) ops -> primed value ∅ (set_all keys value ++ ops).
Proof.
  intros Hk Hops%primed_among. cut (forall p, primed value (list_to_set keys ∪ p) ops -> primed value p (set_all keys value ++ ops)).
  { intros Hc. apply Hc. eapply primed_mono; [|exact Hops]. set_solver. }
  clear Hops. induction Hk as [|k keys Hk _ IH]; intros p Hp; cbn in *.
  - eapply primed_mono; [|exact Hp]. set_solver.
  - split_and!; [done..|]. apply IH. eapply primed_mono; [|exact Hp]. set_solver.
Qed.

Lemma call_among_mixed value keys i k : k <> [] -> k ∈ keys ->
  call_among value (list_to_set keys) (mixed_call value i k).
Proof. intros Hk Hin. unfold mixed_call. destruct (_ =? _)%nat; [done|]. split; [done|]. by apply elem_of_list_to_set. Qed.

Lemma Forall_timed (P : KvOp -> Prop) iterations body : Forall P body -> Forall P (timed iterations body).
Proof. intros HP. apply Forall_concat. by apply Forall_replicate. Qed.

Lemma zlen_timed iterations body : zlen (timed iterations body) = Z.of_nat iterations * zlen body.
Proof.
  induction iterations as [|n IH]; [done|]. unfold timed in *. cbn [replicate concat]. rewrite zlen_app, IH. lia.
Qed.

Definition is_get (op : KvOp) : bool := match op with OpGet _ => true | _ => false end.

Lemma filter_timed iterations body : filter is_get (timed iterations body) = timed iterations (filter is_get body).
Proof.
  induction iterations as [|n IH]; [done|]. unfold timed in *. cbn [replicate concat]. by rewrite filter_app, IH.
Qed.

Lemma set_all_gets iterations keys value : filter is_get (timed iterations (set_all keys value)) = [].
Proof. apply list_filter_none. apply Forall_timed, Forall_fmap, Forall_true. intros k []. Qed.

Lemma get_all_gets iterations keys : filter is_get (timed iterations (get_all keys)) = timed iterations (get_all keys).
Proof. apply list_filter_all. apply Forall_timed, Forall_fmap, Forall_true. intros k. exact I. Qed.

(** Of every five calls, four are a [Get]. *)
Lemma mixed_share value n keys : length keys = (5 * n)%nat ->
  length (filter is_get (imap (mixed_call value) keys)) = (4 * n)%nat.
Proof.
  revert keys. induction n as [|n IH]; intros keys Hl; [by destruct keys|].
  destruct keys as [|k0 [|k1 [|k2 [|k3 [|k4 keys]]]]]; cbn in Hl; [lia..|].
  change (k0 :: k1 :: k2 :: k3 :: k4 :: keys) with ([k0; k1; k2; k3; k4] ++ keys).
  rewrite imap_app, filter_app, length_app.
  change (length (filter is_get (imap (mixed_call value) [k0; k1; k2; k3; k4]))) with 4%nat.
  rewrite (imap_ext _ (mixed_call value) keys); [rewrite IH; lia|].
  intros i k _. unfold mixed_call. cbn [length compose].
  replace (5 + i)%nat with (i + 1 * 5)%nat by lia. by rewrite Nat.Div0.mod_add.
Qed.

Lemma nonempty_keys keys : Forall (fun key => zlen key = kKeySize) keys -> Forall (fun k : bytes => k <> []) keys.
Proof. intros Hw. eapply Forall_impl; [exact Hw|]. by intros k Hk ->. Qed.

(** What a benchmark of one thread should do: succeed in building its calls, report the
    number of calls of the timed loop, and hit on every call, for every store. *)
Definition measures (bm : nat -> option (list KvOp * Z)) (iterations : nat) (setup measured : list KvOp) : Prop :=
  bm iterations = Some (setup ++ measured, zlen measured) /\
  zlen measured = Z.of_nat iterations * kNumKeys /\
  forall (T : Type) (H : KvOps T) (_ : KvLaws T),
    Forall (hit MakeValue) (run_ops kv_step (setup ++ measured) kv_new).1.

Lemma measures_filled bm iterations keys body :
  MakeKeys kNumKeys = Some keys -> zlen body = kNumKeys ->
  bm iterations = Some (set_all keys MakeValue ++ timed iterations body, Z.of_nat iterations * kNumKeys) ->
  Forall (fun k => k <> []) keys -> Forall (call_among MakeValue (list_to_set keys)) body ->
  measures bm iterations (set_all keys MakeValue) (timed iterations body).
Proof.
  intros Ek Hb E Hk Hc. assert (Hl : zlen (timed iterations body) = Z.of_nat iterations * kNumKeys) by (rewrite zlen_timed, Hb; done).
  split; [by rewrite Hl|]. split; [done|]. intros T HT HL.
  eapply store_hits; [apply interleaving_alone|apply kv_new_inv|]. constructor; [|done].
  apply primed_filled; [done|]. by apply Forall_timed.
Qed.

(** The benchmarks of one thread measure what they say. [BM_Set_Sequential] sets
    every key in every iteration; [BM_Get_Sequential] and [BM_Set_Get_Mixed] fill the
    store and then never miss; the number of items reported is the number of calls of the
    timed loop; and exactly four in five of the calls of the mixed one are a [Get]. *)
Theorem storage_benchmarks_measure (iterations : nat) :
  (exists measured, measures BM_Set_Sequential iterations [] measured /\ filter is_get measured = []) /\
  (exists setup measured, measures BM_Get_Sequential iterations setup measured /\
     filter is_get measured = measured) /\
  (exists setup measured, measures BM_Set_Get_Mixed iterations setup measured /\
     5 * zlen (filter is_get measured) = 4 * zlen measured).
Proof.
  destruct (MakeKeys_spec kNumKeys) as (keys & Ek & Hl & _ & Hw%nonempty_keys); [by vm_compute|].
  assert (Hin : forall i k, keys !! i = Some k -> k <> [] /\ k ∈ keys).
  { intros i k Hk. split; [by apply (Forall_lookup_1 _ _ _ _ Hw Hk)|by apply list_elem_of_lookup_2 in Hk]. }
  split_and!.
  - exists (timed iterations (set_all keys MakeValue)). split.
    + assert (Hlen : zlen (timed iterations (set_all keys MakeValue)) = Z.of_nat iterations * kNumKeys).
      { rewrite zlen_timed, <- Hl. unfold zlen, set_all. by rewrite length_fmap. }
      split; [|split; [done|]]; [unfold BM_Set_Sequential; rewrite Ek; cbn [mbind option_bind app]; by rewrite Hlen|].
      intros T HT HL. eapply store_hits; [apply interleaving_alone|apply kv_new_inv|]. constructor; [|done].
      apply primed_among, Forall_timed, Forall_fmap. eapply Forall_impl; [exact Hw|]. intros k Hk. exact (conj Hk eq_refl).
    + apply set_all_gets.
  - exists (set_all keys MakeValue), (timed iterations (get_all keys)). split.
    + apply measures_filled; [done| |unfold BM_Get_Sequential; by rewrite Ek|done|].
      { unfold zlen, get_all. rewrite length_fmap. exact Hl. }
      apply Forall_fmap, Forall_lookup. intros i k [Hk Hi]%Hin. split; [done|]. by apply elem_of_list_to_set.
    + apply get_all_gets.
  - exists (set_all keys MakeValue), (timed iterations (imap (mixed_call MakeValue) keys)). split.
    + apply measures_filled; [done| |unfold BM_Set_Get_Mixed; by rewrite Ek|done|].
      { unfold zlen. rewrite length_imap. exact Hl. }
      apply Forall_lookup. intros i op. rewrite list_lookup_imap. intros (k & Hk & ->)%fmap_Some.
      destruct (Hin i k Hk). by apply call_among_mixed.
    + rewrite filter_timed, !zlen_timed. unfold zlen in *. rewrite length_imap, Hl.
      rewrite (mixed_share _ (Z.to_nat 200000)); [unfold kNumKeys; lia|]. unfold kNumKeys in Hl. lia.
Qed.

Lemma thread_program_primed thread_index iterations :
  primed (str "value") ∅ (BM_Concurrent_Mixed thread_index iterations).1.
Proof.
  assert (Hne : forall i, thread_key thread_index i <> []) by done.
  unfold BM_Concurrent_Mixed. cbn [fst]. apply primed_filled.
  - apply Forall_fmap, Forall_true. intros i. apply Hne.
  - apply Forall_fmap, Forall_true. intros i. apply call_among_mixed; [apply Hne|].
    apply list_elem_of_fmap_2, elem_of_seq. pose proof (Nat.mod_upper_bound i kKeysPerThread). unfold kKeysPerThread in *. lia.
Qed.

(** The benchmark of several threads: whatever the static store holds from an earlier
    run, for any number of threads and iterations of each, and for every order in which
    the calls reach the store, no call misses: each [Set] answers ok, each [Get] the value. *)
Theorem concurrent_benchmark_hits `{KvLaws T} (iterations : list nat) ops (kv : T) :
  kv_inv kv ->
  interleaving (imap (fun t n => (BM_Concurrent_Mixed (Z.of_nat t) n).1) iterations) ops ->
  Forall (hit (str "value")) (run_ops kv_step ops kv).1.
Proof.
  intros Hkv Hi. eapply store_hits; [exact Hi|done|]. apply Forall_lookup.
  intros t prog. rewrite list_lookup_imap. intros (n & _ & ->)%fmap_Some. apply thread_program_primed.
Qed.

(** Digits end where the colon starts. *)
Lemma digits_colon_inj d1 d2 r1 r2 :
  Forall (fun c => isdigit c = true) d1 -> Forall (fun c => isdigit c = true) d2 ->
  d1 ++ str ":" ++ r1 = d2 ++ str ":" ++ r2 -> d1 = d2.
Proof.
  intros Hd1. revert d2. induction Hd1 as [|c d1 Hc _ IH]; intros [|c' d2] Hd2 E; [done|..].
  - apply Forall_cons in Hd2 as [Hc' _]. injection E as <- _. done.
  - injection E as -> _. done.
  - apply Forall_cons in Hd2 as [Hc' Hd2]. injection E as -> E. f_equal. by apply IH.
Qed.

(** The threads use different keys, as the comment on the benchmark says. *)
Theorem thread_keys_disjoint t1 t2 i1 i2 :
  0 <= t1 < 2 ^ 32 -> 0 <= t2 < 2 ^ 32 -> thread_key t1 i1 = thread_key t2 i2 -> t1 = t2.
Proof.
  intros Ht1 Ht2 E%app_inv_head.
  destruct (to_string_spec t1 Ht1) as (_ & Hd1 & <-), (to_string_spec t2 Ht2) as (_ & Hd2 & <-).
  f_equal. exact (digits_colon_inj _ _ _ _ Hd1 Hd2 E).
Qed.

(** ** The codec *)

Definition set_frame : bytes := Eval vm_compute in encoded_or [] (EncodeClientRequest MakeSetRequest).

Lemma encode_set_frame : EncodeClientRequest MakeSetRequest = Value set_frame.
Proof. vm_compute. reflexivity. Qed.

Lemma decode_set_frame before : (payload ← payload_span (encoded_or before (Value set_frame)); Some (DecodeClientRequest payload))
  = Some (Value MakeSetRequest).
Proof. vm_compute. reflexivity. Qed.

Lemma BM_EncodeDecode_loop_ok iterations encoded :
  BM_EncodeDecode_loop iterations MakeSetRequest encoded = Some (replicate iterations (Value MakeSetRequest)).
Proof.
  revert encoded. induction iterations as [|n IH]; intros encoded; [done|]. cbn [BM_EncodeDecode_loop].
  rewrite encode_set_frame. pose proof (decode_set_frame encoded) as E.
  destruct (payload_span _) as [payload|]; [|done]. cbn [mbind option_bind] in *.
  injection E as ->. by rewrite IH.
Qed.

(** Every call the codec benchmarks measure succeeds and yields the request: a failed
    call would be measured as a fast one. The parser consumes the whole buffer. *)
Theorem codec_benchmarks_succeed (iterations : nat) (decoded : ClientRequest) :
  (exists frame, BM_EncodeRequest_Set iterations = replicate iterations (Value frame)) /\
  BM_DecodeRequest_Set iterations = Some (replicate iterations (Value MakeSetRequest)) /\
  BM_EncodeDecode_RoundTrip iterations = Some (replicate iterations (Value MakeSetRequest)) /\
  exists o, BM_ParseFrame_Complete decoded iterations = replicate iterations (ParseResult.kComplete, [], o) /\
    out_request o = Some MakeSetRequest.
Proof.
  split_and!.
  - exists set_frame. unfold BM_EncodeRequest_Set. by rewrite encode_set_frame.
  - unfold BM_DecodeRequest_Set. rewrite encode_set_frame. pose proof (decode_set_frame []) as E.
    destruct (payload_span _) as [payload|]; [|done]. cbn [mbind option_bind] in *. by injection E as ->.
  - apply BM_EncodeDecode_loop_ok.
  - eexists. unfold BM_ParseFrame_Complete. rewrite encode_set_frame. split; [f_equal; vm_compute; reflexivity|]. vm_compute. reflexivity.
Qed.
